(** * kkp: port discovery, safety classification, kill protocol and selector

    A shallow embedding of the TypeScript sources of kkp (kill processes by
    port): the output parsers of the finders, the safety classifier, the POSIX
    and Windows killers, the process-execution primitive, the key-driven
    state machine of the interactive selector, the argument parser and the
    command-line driver, followed by the properties the specification states
    about them and by further properties read off the code.

    JavaScript strings are sequences of UTF-16 code units ([list Z]); numbers
    that the program only ever uses as integers (pids, ports, milliseconds,
    indices) are [Z]; [NaN], [null] and [undefined] are [None]. *)

From Stdlib Require Import ZArith List Lia Bool.
From Stdlib Require Import Strings.String Strings.Ascii Numbers.DecimalZ.
From stdpp Require Import base tactics option list gmap.
From Stdlib Require Import Sorting.Sorted.

#[local] Set Warnings "-clear-no-such-hyp".
Local Open Scope Z_scope.

(* ================================================================== *)
(** * JavaScript string primitives used by the program                 *)
(* ================================================================== *)

Module Js.

(** A JavaScript string: its UTF-16 code units. *)
Abbreviation jsstring := (list Z).

(** An ASCII literal of the source, as code units. *)
Definition lit (s : string) : jsstring :=
  map (fun a => Z.of_N (N_of_ascii a)) (list_ascii_of_string s).

(** ECMAScript [WhiteSpace] and [LineTerminator] code points: the set that
    [String.prototype.trim] strips and that [\s] matches. *)
Definition isWhite (c : Z) : bool :=
  (9 <=? c) && (c <=? 13) || (c =? 32) || (c =? 160) || (c =? 5760)
  || (8192 <=? c) && (c <=? 8202) || (c =? 8232) || (c =? 8233)
  || (c =? 8239) || (c =? 8287) || (c =? 12288) || (c =? 65279).

(** [LineTerminator]: what [.] in a regular expression does not match. *)
Definition isLineTerminator (c : Z) : bool :=
  (c =? 10) || (c =? 13) || (c =? 8232) || (c =? 8233).

(** [\d] *)
Definition isDigit (c : Z) : bool := (48 <=? c) && (c <=? 57).

Fixpoint dropWhile {A} (f : A -> bool) (l : list A) : list A :=
  match l with
  | [] => []
  | x :: l' => if f x then dropWhile f l' else l
  end.

Fixpoint takeWhile {A} (f : A -> bool) (l : list A) : list A :=
  match l with
  | [] => []
  | x :: l' => if f x then x :: takeWhile f l' else []
  end.

Definition trimStart (s : jsstring) : jsstring := dropWhile isWhite s.
Definition trimEnd (s : jsstring) : jsstring := rev (dropWhile isWhite (rev s)).
(** [s.trim()] *)
Definition trim (s : jsstring) : jsstring := trimEnd (trimStart s).

(** [s.split(/\s+/)]: the fields between maximal runs of white space; a run
    at either end of [s] leaves an empty field there, as in JavaScript. *)
Fixpoint splitWs (s : jsstring) : list jsstring :=
  match s with
  | [] => [[]]
  | c :: s' =>
      if isWhite c then
        match s' with
        | c' :: _ => if isWhite c' then splitWs s' else [] :: splitWs s'
        | [] => [[]; []]
        end
      else
        match splitWs s' with
        | f :: fs => (c :: f) :: fs
        | [] => [[c]]
        end
  end.

(** [s.split(/\r?\n/)] *)
Fixpoint splitLines (s : jsstring) : list jsstring :=
  match s with
  | [] => [[]]
  | c :: s' =>
      if c =? 10 then [] :: splitLines s'
      else
        match s' with
        | c' :: s'' =>
            if (c =? 13) && (c' =? 10) then [] :: splitLines s''
            else match splitLines s' with
                 | f :: fs => (c :: f) :: fs
                 | [] => [[c]]
                 end
        | [] => [[c]]
        end
  end.

(** [parts.join(' ')] *)
Fixpoint joinSp (parts : list jsstring) : jsstring :=
  match parts with
  | [] => []
  | [p] => p
  | p :: ps => p ++ 32 :: joinSp ps
  end.

Definition eqs (a b : jsstring) : bool := bool_decide (a = b).

Fixpoint startsWith (p s : jsstring) : bool :=
  match p, s with
  | [], _ => true
  | a :: p', b :: s' => (a =? b) && startsWith p' s'
  | _ :: _, [] => false
  end.

Definition endsWith (p s : jsstring) : bool := startsWith (rev p) (rev s).

(** [s.includes(p)], also [/p/.test(s)] for a pattern of plain characters. *)
Fixpoint includes (p s : jsstring) : bool :=
  startsWith p s ||
  match s with
  | [] => false
  | _ :: s' => includes p s'
  end.

(** Case folding of the [i] flag (no [u] flag): a code unit is compared
    through [toUpperCase], except that a non-ASCII unit is never folded onto
    an ASCII one; on the ASCII patterns of this program that is equality up
    to the case of the letters a-z. *)
Definition upperAscii (c : Z) : Z :=
  if (97 <=? c) && (c <=? 122) then c - 32 else c.

Fixpoint startsWithCI (p s : jsstring) : bool :=
  match p, s with
  | [], _ => true
  | a :: p', b :: s' => (upperAscii a =? upperAscii b) && startsWithCI p' s'
  | _ :: _, [] => false
  end.

Fixpoint includesCI (p s : jsstring) : bool :=
  startsWithCI p s ||
  match s with
  | [] => false
  | _ :: s' => includesCI p s'
  end.

(** [s.toLowerCase()]. The letters A-Z, the Kelvin sign (to [k]) and the
    dotted capital I (to [i] and a combining dot) are the only code units
    whose lower case contains an ASCII unit; every other unit is left as it
    is, which agrees with JavaScript wherever the result is compared with,
    or searched for, an ASCII literal, the only uses the program makes. *)
Definition lowerUnit (c : Z) : jsstring :=
  if (65 <=? c) && (c <=? 90) then [c + 32]
  else if c =? 8490 then [107]
  else if c =? 304 then [105; 775]
  else [c].

Definition toLowerCase (s : jsstring) : jsstring := flat_map lowerUnit s.

Fixpoint digitsValue (acc : Z) (ds : jsstring) : Z :=
  match ds with
  | [] => acc
  | d :: ds' => digitsValue (10 * acc + (d - 48)) ds'
  end.

(** [parseInt(s, 10)]: leading white space, an optional sign, then the
    longest run of decimal digits; [None] is [NaN]. The value is the exact
    integer, which is what JavaScript computes for a run whose value is
    below 2^53; beyond, JavaScript rounds to a double and, beyond the range
    of doubles, yields [Infinity]. No pid or port is that long; a statement
    about the number read from arbitrary text carries the bound. *)
Definition parseInt (s : jsstring) : option Z :=
  let t := trimStart s in
  let '(sign, t) :=
    match t with
    | 45 :: t' => (-1, t')
    | 43 :: t' => (1, t')
    | _ => (1, t)
    end in
  match takeWhile isDigit t with
  | [] => None
  | ds => Some (sign * digitsValue 0 ds)
  end.

(** [parseInt] of a value that may be [undefined]. *)
Definition parseIntOpt (s : option jsstring) : option Z :=
  match s with
  | Some s => parseInt s
  | None => None
  end.

(** The leftmost match of [/:(\d+)$/]: the text before the match and the
    digits captured. A colon qualifies when everything after it, up to the
    end of the input, is a non-empty run of digits. *)
Fixpoint matchPortSuffix (s : jsstring) : option (jsstring * jsstring) :=
  match s with
  | [] => None
  | c :: s' =>
      if (c =? 58) && negb (bool_decide (s' = [])) && forallb isDigit s'
      then Some ([], s')
      else match matchPortSuffix s' with
           | Some (a, d) => Some (c :: a, d)
           | None => None
           end
  end.

(** [String(n)] for an integer [n] that JavaScript holds exactly (below
    2^53 in magnitude; it prints every digit up to 10^21 and an exponent
    from there on): the decimal digits of [n], after a minus sign if it is
    negative. *)
Fixpoint uintUnits (d : Decimal.uint) : jsstring :=
  match d with
  | Decimal.Nil => []
  | Decimal.D0 d => 48 :: uintUnits d
  | Decimal.D1 d => 49 :: uintUnits d
  | Decimal.D2 d => 50 :: uintUnits d
  | Decimal.D3 d => 51 :: uintUnits d
  | Decimal.D4 d => 52 :: uintUnits d
  | Decimal.D5 d => 53 :: uintUnits d
  | Decimal.D6 d => 54 :: uintUnits d
  | Decimal.D7 d => 55 :: uintUnits d
  | Decimal.D8 d => 56 :: uintUnits d
  | Decimal.D9 d => 57 :: uintUnits d
  end.

Definition intUnits (d : Decimal.int) : jsstring :=
  match d with
  | Decimal.Pos d => uintUnits d
  | Decimal.Neg d => 45 :: uintUnits d
  end.

Definition numToString (n : Z) : jsstring := intUnits (Z.to_int n).

End Js.

Import Js.

(* ================================================================== *)
(** * core/types.ts, core/safety.ts                                    *)
(* ================================================================== *)

Inductive Protocol := tcp | udp.

#[global] Instance Protocol_eq_dec : EqDecision Protocol.
Proof. solve_decision. Defined.

Record Listener := {
  protocol : Protocol;
  port : Z;
  pid : Z;
  localAddress : option jsstring;
  processName : option jsstring;
  command : option jsstring;
  user : option jsstring;
  raw : option jsstring;
  source : option jsstring;
}.

Record KillOptions := {
  force : option bool;
  timeoutMs : option Z;
  tree : option bool;
}.

Record KillResult := {
  kpid : Z;
  ok : bool;
  method : jsstring;
  message : option jsstring;
  errorCode : option jsstring;
}.

(** utils/platform.ts *)
Inductive Platform := win32 | darwin | linux | other.

Definition isWin32 (p : Platform) : bool :=
  match p with win32 => true | _ => false end.

Record Protection := {
  protected : bool;
  reason : option jsstring;
}.

Definition POSIX_PROTECTED_NAMES : list jsstring :=
  map lit ["systemd"; "launchd"; "init"; "kernel_task"; "kthreadd";
           "systemd-journald"; "systemd-logind"; "sshd"]%string.

Definition WINDOWS_PROTECTED_NAMES : list jsstring :=
  map lit ["system"; "system idle process"; "registry"; "smss.exe";
           "csrss.exe"; "wininit.exe"; "services.exe"; "lsass.exe";
           "winlogon.exe"; "svchost.exe"]%string.

(** [a ?? b] *)
Definition orElse {A} (a : option A) (b : A) : A :=
  match a with Some x => x | None => b end.

Definition protectedResult (r : string) : Protection :=
  {| protected := true; reason := Some (lit r) |}.

(** [protectionFor]; [p] is what [platform()] returns on the host. *)
Definition protectionFor (p : Platform) (l : Listener) : Protection :=
  let name :=
    toLowerCase
      (match processName l with
       | Some n => n
       | None => orElse (command l) []
       end) in
  if negb (isWin32 p) && (pid l <=? 1) then
    protectedResult "pid 1 (system init)"
  else if isWin32 p && ((pid l =? 0) || (pid l =? 4)) then
    protectedResult "system process"
  else if
    (if isWin32 p then
       existsb (fun n => eqs name n || endsWith (92 :: n) name || includes n name)
               WINDOWS_PROTECTED_NAMES
     else
       existsb (fun n => eqs name n || includes n name) POSIX_PROTECTED_NAMES)
  then
    protectedResult (if isWin32 p then "critical Windows process"
                     else "critical system process")
  else if (port l =? 22) && includes (lit "sshd") name then
    protectedResult "sshd (avoid locking yourself out)"
  else {| protected := false; reason := None |}.

(* ================================================================== *)
(** * utils/strings.ts: uniqBy                                         *)
(* ================================================================== *)

Section UniqBy.
Context {T K : Type} {Hdec : EqDecision K} {Hcnt : Countable K}.
Variable key : T -> K.

(** The loop of [uniqBy]: [seen] is the [Set] of keys met so far, [out]
    the array built so far. *)
Fixpoint uniqBy_loop (seen : gset K) (out : list T) (items : list T) : list T :=
  match items with
  | [] => out
  | it :: rest =>
      let k := key it in
      if decide (k ∈ seen) then uniqBy_loop seen out rest
      else uniqBy_loop ({[ k ]} ∪ seen) (out ++ [it]) rest
  end.

Definition uniqBy (items : list T) : list T := uniqBy_loop ∅ [] items.

End UniqBy.

Definition protocolName (p : Protocol) : jsstring :=
  match p with tcp => lit "tcp" | udp => lit "udp" end.

(** The key every finder and the selector pass to [uniqBy]:
    [`${l.protocol}:${l.port}:${l.pid}:${l.localAddress ?? ''}`]. *)
Definition listenerKey (l : Listener) : jsstring :=
  protocolName (protocol l) ++ 58 :: numToString (port l) ++ 58 ::
  numToString (pid l) ++ 58 :: orElse (localAddress l) [].

(** finder/linux.ts: [dedupe] *)
Definition dedupe (listeners : list Listener) : list Listener :=
  uniqBy listenerKey listeners.

(* ================================================================== *)
(** * The output parsers of finder/linux.ts and finder/windows.ts      *)
(* ================================================================== *)

(** [if (!n)] on a number that may be [null] or [NaN]. *)
Definition falsy (n : option Z) : bool :=
  match n with
  | Some v => v =? 0
  | None => true
  end.

(** [parseAddrPort]: the port ([None] is [null]) and the address. *)
Definition parseAddrPort (token : jsstring) : option Z * option jsstring :=
  match matchPortSuffix token with
  | None => (None, None)
  | Some (before, digits) =>
      match parseInt digits with
      | None => (None, None)
      | Some n =>
          (Some n,
           Some (take (length token - (length digits + 1))%nat token))
      end
  end.

(** The leftmost match of [/pid=(\d+)/]: the digits captured. *)
Fixpoint matchPid (s : jsstring) : option jsstring :=
  match s with
  | [] => None
  | _ :: s' =>
      let ds := takeWhile isDigit (drop 4 s) in
      if startsWith (lit "pid=") s && negb (bool_decide (ds = []))
      then Some ds
      else matchPid s'
  end.

Definition parseSsPid (proc : jsstring) : option Z :=
  match matchPid proc with
  | None => None
  | Some ds => parseInt ds
  end.

(** [parseSsName]: the leftmost match of the pattern [users:((], a double
    quote, one or more characters other than a double quote (captured),
    and a closing double quote. *)
Fixpoint parseSsName (proc : jsstring) : option jsstring :=
  match proc with
  | [] => None
  | _ :: proc' =>
      let after := drop 9 proc in
      let name := takeWhile (fun c => negb (c =? 34)) after in
      if startsWith (lit "users:((" ++ [34]) proc
         && negb (bool_decide (name = []))
         && startsWith [34] (drop (length name) after)
      then Some name
      else parseSsName proc'
  end.

(** The body of the loop of [parseSs] for one (trimmed, non-empty) line:
    [None] where the source says [continue]. *)
Definition parseSsLine (protocol0 : Protocol) (source0 : jsstring)
    (line : jsstring) : option Listener :=
  let parts := splitWs line in
  if (length parts <? 5)%nat then None
  else
    let local := orElse (parts !! 3%nat) [] in
    let proc := joinSp (drop 5 parts) in
    let '(port0, address) := parseAddrPort local in
    if falsy port0 then None
    else
      let pid0 := parseSsPid proc in
      if falsy pid0 then None
      else
        Some {| protocol := protocol0;
                port := orElse port0 0;
                pid := orElse pid0 0;
                localAddress := address;
                processName := parseSsName proc;
                command := None;
                user := None;
                raw := Some line;
                source := Some source0 |}.

(** The lines [parseSs] iterates over:
    [stdout.split(/\r?\n/).map((l) => l.trim()).filter(Boolean)]. *)
Definition ssLines (stdout : jsstring) : list jsstring :=
  filter (fun l => l <> []) (map trim (splitLines stdout)).

(** [parseSs]: the loop pushes onto [out] the record of each line that
    yields one. *)
Definition parseSs (stdout : jsstring) (protocol0 : Protocol)
    (source0 : jsstring) : list Listener :=
  fold_left
    (fun out line =>
       match parseSsLine protocol0 source0 line with
       | Some r => out ++ [r]
       | None => out
       end)
    (ssLines stdout) [].

(** [parseWindowsAddressPort]: the pattern is anchored at both ends, any
    characters (greedy, no line terminator among them), a colon, digits.
    It splits at the last colon, since the digits after it hold none. Then
    the replace with [/^\[|\]$/g] drops one leading opening bracket and one
    trailing closing bracket. *)
Definition stripBrackets (a : jsstring) : jsstring :=
  let a1 := match a with 91 :: a' => a' | _ => a end in
  match rev a with
  | 93 :: _ => take (length a1 - 1)%nat a1
  | _ => a1
  end.

Definition parseWindowsAddressPort (local : jsstring)
    : option Z * option jsstring :=
  match matchPortSuffix local with
  | None => (None, None)
  | Some (before, digits) =>
      if forallb (fun c => negb (isLineTerminator c)) before then
        match parseInt digits with
        | None => (None, None)
        | Some n => (Some n, Some (stripBrackets before))
        end
      else (None, None)
  end.

(** The body of the loop of [parseNetstat] for one raw line. *)
Definition parseNetstatLine (proto : Protocol) (raw0 : jsstring)
    : option Listener :=
  let line := trim raw0 in
  if bool_decide (line = []) then None
  else if startsWithCI (lit "proto") line then None
  else if startsWithCI (lit "active") line then None
  else
    let parts := splitWs line in
    if (length parts <? 4)%nat then None
    else
      let p := toLowerCase (orElse (parts !! 0%nat) []) in
      if negb (eqs p (lit "tcp")) && negb (eqs p (lit "udp")) then None
      else
        let hasState := eqs p (lit "tcp") in
        let local := orElse (parts !! 1%nat) [] in
        let state := if hasState then parts !! 3%nat else None in
        let pidStr := parts !! (if hasState then 4%nat else 3%nat) in
        if hasState &&
           match state with
           | Some st =>
               negb (bool_decide (st = []))
               && negb (eqs (toLowerCase st) (lit "listening"))
           | None => false
           end
        then None
        else
          match parseIntOpt pidStr with
          | None => None
          | Some pid0 =>
              let '(port0, address) := parseWindowsAddressPort local in
              if falsy port0 then None
              else
                Some {| protocol := proto;
                        port := orElse port0 0;
                        pid := pid0;
                        localAddress := address;
                        processName := None;
                        command := None;
                        user := None;
                        raw := Some raw0;
                        source := Some (lit "netstat") |}
          end.

Definition parseNetstat (stdout : jsstring) (proto : Protocol)
    : list Listener :=
  fold_left
    (fun out raw0 =>
       match parseNetstatLine proto raw0 with
       | Some r => out ++ [r]
       | None => out
       end)
    (splitLines stdout) [].

(* ================================================================== *)
(** * The host: processes, clock, timers and external programs         *)
(* ================================================================== *)

(** The signals the program passes to [process.kill]; [SIG0] is the probe
    [process.kill(pid, 0)], which delivers nothing. *)
Inductive Signal := SIG0 | SIGTERM | SIGKILL.

(** A process of the host. [exitsAt] is the time from which it no longer
    exists, once that is settled; [onTerm] and [onKill] are how long it
    takes to exit after receiving the signal ([None]: it does not exit);
    signalling a process that [denies] fails with EPERM. *)
Record Proc := {
  exitsAt : option Z;
  denies : bool;
  onTerm : option Z;
  onKill : option Z;
}.

(** What running an external program does: the spawn fails (the child's
    [error] event, e.g. with code ENOENT), or the child closes by itself
    after [duration] milliseconds, or it never does. [lag] is how long the
    child takes to close once the timer of [execFile] has sent it SIGKILL
    ([None]: it never closes, as when something else keeps its pipes
    open). *)
Record ExecOutput := {
  out_stdout : jsstring;
  out_stderr : jsstring;
  out_code : option Z;
}.

Inductive Program :=
| SpawnFails (msg : option jsstring) (code : option jsstring)
| Exits (duration : Z) (o : ExecOutput) (lag : option Z)
| Hangs (lag : option Z).

Inductive Event :=
| EKill (target : Z) (sig : Signal)
| ESleep (ms : Z)
| EExec (cmd : jsstring) (args : list jsstring) (timeout : option Z).

(** The state of the host. [events] records, latest first and with the
    time of the call, every [process.kill], [setTimeout] sleep and spawn
    the program makes. The clock only moves while the program sleeps or
    waits for a child; the n-th timer fires [lateness !! n] milliseconds
    late. *)
Record World := {
  now : Z;
  lateness : list Z;
  procs : gmap Z Proc;
  programs : jsstring -> list jsstring -> Program;
  events : list (Z * Event);
}.

Definition record (e : Event) (w : World) : World :=
  {| now := now w; lateness := lateness w; procs := procs w;
     programs := programs w; events := (now w, e) :: events w |}.

Definition advance (ms : Z) (w : World) : World :=
  {| now := now w + Z.max 0 ms; lateness := lateness w; procs := procs w;
     programs := programs w; events := events w |}.

Definition setProc (target : Z) (p : Proc) (w : World) : World :=
  {| now := now w; lateness := lateness w;
     procs := <[ target := p ]> (procs w);
     programs := programs w; events := events w |}.

Definition existsAt (p : Proc) (t : Z) : bool :=
  match exitsAt p with
  | None => true
  | Some d => t <? d
  end.

(** The process is scheduled to exit [delay] milliseconds from [t], unless
    it exits earlier anyway. *)
Definition scheduleExit (t : Z) (delay : Z) (p : Proc) : Proc :=
  let d := t + Z.max 0 delay in
  {| exitsAt := Some (match exitsAt p with
                      | None => d
                      | Some d0 => Z.min d0 d
                      end);
     denies := denies p; onTerm := onTerm p; onKill := onKill p |}.

Definition deliver (sig : Signal) (t : Z) (p : Proc) : Proc :=
  match sig with
  | SIG0 => p
  | SIGTERM => match onTerm p with
               | Some delay => scheduleExit t delay p
               | None => p
               end
  | SIGKILL => match onKill p with
               | Some delay => scheduleExit t delay p
               | None => p
               end
  end.

(** A JavaScript error: what [String(err)] prints before the message,
    [err.message] and [err.code]. *)
Record JsError := {
  errName : jsstring;
  errMessage : option jsstring;
  errCode : option jsstring;
}.

(** How an asynchronous call of the program ends: it returns, it throws
    (its promise rejects), its promise never settles, or the model's loop
    bound was reached. *)
Inductive Outcome (A : Type) :=
| Returned (a : A) (w : World)
| Thrown (e : JsError) (w : World)
| Unsettled
| OutOfFuel.
Arguments Returned {A} a w.
Arguments Thrown {A} e w.
Arguments Unsettled {A}.
Arguments OutOfFuel {A}.

Definition M (A : Type) : Type := World -> Outcome A.

Definition ret {A} (a : A) : M A := fun w => Returned a w.
Definition throw {A} (e : JsError) : M A := fun w => Thrown e w.

Definition bind {A B} (m : M A) (k : A -> M B) : M B :=
  fun w =>
    match m w with
    | Returned a w' => k a w'
    | Thrown e w' => Thrown e w'
    | Unsettled => Unsettled
    | OutOfFuel => OutOfFuel
    end.

(** [try { m } catch (err) { h err }] *)
Definition tryCatch {A} (m : M A) (h : JsError -> M A) : M A :=
  fun w =>
    match m w with
    | Thrown e w' => h e w'
    | r => r
    end.

Notation "'let*' x ':=' m 'in' k" := (bind m (fun x => k))
  (at level 10, x name, m at level 100, k at level 200, only parsing).

Definition systemError (code : string) : JsError :=
  {| errName := lit "Error"; errMessage := Some (lit "kill " ++ lit code);
     errCode := Some (lit code) |}.

(** [process.kill(target, sig)] for a [target] within 32 bits, as the pid
    of a process is (Node refuses any other number before it reaches the
    system). *)
Definition processKill (target : Z) (sig : Signal) : M unit :=
  fun w =>
    let w1 := record (EKill target sig) w in
    match procs w !! target with
    | None => Thrown (systemError "ESRCH") w1
    | Some p =>
        if negb (existsAt p (now w)) then Thrown (systemError "ESRCH") w1
        else if denies p then Thrown (systemError "EPERM") w1
        else Returned tt (setProc target (deliver sig (now w) p) w1)
    end.

(** [Date.now()] *)
Definition dateNow : M Z := fun w => Returned (now w) w.

(** [await sleep(ms)]: the timer fires after [ms] milliseconds plus its
    lateness. *)
Definition sleep (ms : Z) : M unit :=
  fun w =>
    let w1 := record (ESleep ms) w in
    Returned tt
      {| now := now w1 + Z.max 0 ms + Z.max 0 (orElse (head (lateness w1)) 0);
         lateness := tail (lateness w1); procs := procs w1;
         programs := programs w1; events := events w1 |}.

(** [err?.code === c] *)
Definition hasCode (e : JsError) (c : string) : bool :=
  match errCode e with
  | Some c' => eqs c' (lit c)
  | None => false
  end.

(* ================================================================== *)
(** * utils/exec.ts                                                    *)
(* ================================================================== *)

Record ExecResult := {
  res_cmd : jsstring;
  res_args : list jsstring;
  stdout : jsstring;
  stderr : jsstring;
  code : option Z;
}.

Definition ExecSpawnError (msg code0 : option jsstring) : JsError :=
  {| errName := lit "ExecSpawnError";
     errMessage := Some (orElse msg (lit "spawn failed"));
     errCode := code0 |}.

Definition ExecTimeoutError (cmd : jsstring) (t : Z) : JsError :=
  {| errName := lit "ExecTimeoutError";
     errMessage := Some (lit "Command timed out after " ++ numToString t
                         ++ lit "ms: " ++ cmd);
     errCode := None |}.

(** [options.timeoutMs && options.timeoutMs > 0]: whether the timer that
    kills the child is armed. *)
Definition armed (timeout : option Z) : bool :=
  match timeout with
  | Some t => 0 <? t
  | None => false
  end.

(** A timer fired: the next one has the next lateness. *)
Definition fired (w : World) : World :=
  {| now := now w; lateness := tail (lateness w); procs := procs w;
     programs := programs w; events := events w |}.

(** [execFile(cmd, args, { timeoutMs })]. The promise settles when the
    child closes, or rejects at once when the spawn fails. With the timer
    armed, a child still running when the timer fires (after [timeoutMs]
    and the lateness of the timer) is sent SIGKILL, and the promise
    rejects with [ExecTimeoutError] only when the child closes after that,
    if it ever does; the timer of a child that closes first is cleared.
    With no timer the promise settles only if the child closes by
    itself. *)
Definition execFile (cmd : jsstring) (args : list jsstring)
    (timeout : option Z) : M ExecResult :=
  fun w =>
    let w1 := record (EExec cmd args timeout) w in
    let t := orElse timeout 0 in
    let due := t + Z.max 0 (orElse (head (lateness w)) 0) in
    let killed (lag : option Z) : Outcome ExecResult :=
      match lag with
      | Some l =>
          Thrown (ExecTimeoutError cmd t)
                 (fired (advance (due + Z.max 0 l) w1))
      | None => Unsettled
      end in
    match programs w cmd args with
    | SpawnFails msg code0 => Thrown (ExecSpawnError msg code0) w1
    | Exits duration o lag =>
        if armed timeout && (due <=? duration)
        then killed lag
        else Returned {| res_cmd := cmd; res_args := args;
                         stdout := out_stdout o; stderr := out_stderr o;
                         code := out_code o |} (advance duration w1)
    | Hangs lag =>
        if armed timeout then killed lag else Unsettled
    end.

(** [isCommandNotFound] *)
Definition isCommandNotFound (e : JsError) : bool := hasCode e "ENOENT".

(* ================================================================== *)
(** * core/killer/posix.ts                                             *)
(* ================================================================== *)

Module PosixKiller.

Definition isAlive (pid0 : Z) : M bool :=
  tryCatch (let* _ := processKill pid0 SIG0 in ret true)
           (fun err => if hasCode err "ESRCH" then ret false else ret true).

(** The loop of [waitForExit]; [start] is the [Date.now()] taken before
    it. Each round of the source's [while] uses one unit of [fuel]. *)
Fixpoint waitLoop (fuel : nat) (pid0 start timeout : Z) : M bool :=
  match fuel with
  | O => fun _ => OutOfFuel
  | S fuel' =>
      let* t := dateNow in
      if t - start <? timeout then
        let* gone := tryCatch (let* _ := processKill pid0 SIG0 in ret false)
                         (fun err => ret (hasCode err "ESRCH")) in
        if gone then ret true
        else let* _ := sleep 30 in waitLoop fuel' pid0 start timeout
      else ret false
  end.

Definition waitForExit (fuel : nat) (pid0 timeout : Z) : M bool :=
  let* start := dateNow in
  waitLoop fuel pid0 start timeout.

Definition result (pid0 : Z) (ok0 : bool) (method0 : string)
    (message0 errorCode0 : option jsstring) : KillResult :=
  {| kpid := pid0; ok := ok0; method := lit method0;
     message := message0; errorCode := errorCode0 |}.

Definition killSingle (fuel : nat) (pid0 timeout : Z) : M KillResult :=
  (* 1) Try SIGTERM *)
  let* sent := tryCatch (let* _ := processKill pid0 SIGTERM in ret None)
                   (fun err => ret (Some err)) in
  match sent with
  | Some err =>
      if hasCode err "ESRCH"
      then ret (result pid0 true "already-exited" None None)
      else ret (result pid0 false "SIGTERM"
                  (Some (orElse (errMessage err) (lit "SIGTERM failed")))
                  (errCode err))
  | None =>
      (* 2) Wait up to timeout *)
      let* exited := (if 0 <? timeout then waitForExit fuel pid0 timeout
                 else ret false) in
      if exited then ret (result pid0 true "SIGTERM" None None)
      else
        (* 3) Escalate SIGKILL *)
        let* sent2 := tryCatch (let* _ := processKill pid0 SIGKILL in ret None)
                          (fun err => ret (Some err)) in
        match sent2 with
        | Some err =>
            if hasCode err "ESRCH"
            then ret (result pid0 true "SIGTERM" None None)
            else ret (result pid0 false "SIGKILL"
                        (Some (orElse (errMessage err) (lit "SIGKILL failed")))
                        (errCode err))
        | None =>
            (* 4) Wait a bit to confirm *)
            let* gone := waitForExit fuel pid0 200 in
            if gone then ret (result pid0 true "SIGKILL" None None)
            else ret (result pid0 false "SIGKILL"
                        (Some (lit "process still alive")) None)
        end
  end.

(** [listChildren]: the pids printed by [ps -o pid= --ppid <pid>]. *)
Definition listChildren (pid0 : Z) : M (list Z) :=
  let* res := execFile (lit "ps")
           [lit "-o"; lit "pid="; lit "--ppid"; numToString pid0]
           (Some 1000) in
  ret (omap (fun line =>
               match parseInt (trim line) with
               | Some n => if 0 <? n then Some n else None
               | None => None
               end)
            (splitLines (stdout res))).

(** The breadth-first loop of [listDescendants]: [q] is the work list. *)
Fixpoint descendantsLoop (fuel : nat) (rootPid : Z) (seen : gset Z)
    (out q : list Z) : M (list Z) :=
  match fuel with
  | O => fun _ => OutOfFuel
  | S fuel' =>
      match q with
      | [] => ret (filter (fun p => p <> rootPid) out)
      | pid0 :: q' =>
          if decide (pid0 ∈ seen) then descendantsLoop fuel' rootPid seen out q'
          else
            let seen' := {[ pid0 ]} ∪ seen in
            let* children := listChildren pid0 in
            let fresh := filter (fun c => c ∉ seen') children in
            descendantsLoop fuel' rootPid seen' (out ++ fresh) (q' ++ fresh)
      end
  end.

Definition listDescendants (fuel : nat) (rootPid : Z) : M (list Z) :=
  descendantsLoop fuel rootPid ∅ [] [rootPid].

(** [for (const c of children) await this.killSingle(c, timeoutMs)] *)
Fixpoint killEach (fuel : nat) (children : list Z) (timeout : Z) : M unit :=
  match children with
  | [] => ret tt
  | c :: rest =>
      let* _ := killSingle fuel c timeout in killEach fuel rest timeout
  end.

Definition kill (fuel : nat) (pid0 : Z) (options : KillOptions)
    : M KillResult :=
  let* alive := isAlive pid0 in
  if negb alive then ret (result pid0 true "already-exited" None None)
  else
    let timeout := Z.max 0 (orElse (timeoutMs options) 0) in
    let tree0 := bool_decide (tree options = Some true) in
    let* _ :=
      (if tree0 then
         tryCatch (let* children := listDescendants fuel pid0 in
                   killEach fuel (rev children) timeout)
                  (fun _ => ret tt)
       else ret tt) in
    killSingle fuel pid0 timeout.

End PosixKiller.

(* ================================================================== *)
(** * core/killer/windows.ts                                           *)
(* ================================================================== *)

Module WindowsKiller.

Definition isAlive (pid0 : Z) : M bool :=
  tryCatch (let* _ := processKill pid0 SIG0 in ret true)
           (fun err => if hasCode err "ESRCH" then ret false else ret true).

(** [a.toUpperCase()], exact on ASCII and on the two code units whose
    upper case is a single ASCII letter (dotless i, long s); it is only
    compared with the literal [/PID]. *)
Definition toUpperCase (s : jsstring) : jsstring :=
  map (fun c => if c =? 305 then 73 else if c =? 383 then 83
                else upperAscii c) s.

Fixpoint findIndex {A} (f : A -> bool) (l : list A) : option nat :=
  match l with
  | [] => None
  | x :: l' => if f x then Some O else S <$> findIndex f l'
  end.

Definition parsePid (args : list jsstring) : Z :=
  match findIndex (fun a => eqs (toUpperCase a) (lit "/PID")) args with
  | Some idx =>
      match parseInt (orElse (args !! S idx) []) with
      | Some n => n
      | None => -1
      end
  | None => -1
  end.

(** The success token of the Chinese locale in the first pattern of
    [runTaskkill]: the code units U+6210 U+529F. *)
Definition successToken : jsstring := [25104; 21151].
(** U+627E U+4E0D U+5230 *)
Definition notFoundToken : jsstring := [25214; 19981; 21040].
(** U+62D2 U+7EDD U+8BBF U+95EE *)
Definition accessDeniedToken : jsstring := [25298; 32477; 35775; 38382].

(** [/SUCCESS|...|/i.test(out)] with the token above as second branch *)
Definition matchesSuccess (out : jsstring) : bool :=
  includesCI (lit "SUCCESS") out || includes successToken out.

Definition matchesNotFound (out : jsstring) : bool :=
  includesCI (lit "not found") out || includes notFoundToken out.

(** The rest of a match of [Access.+denied] after [Access]: one or more
    characters other than line terminators, then [denied]. *)
Fixpoint deniedAfter (s : jsstring) : bool :=
  match s with
  | [] => false
  | c :: s' =>
      negb (isLineTerminator c)
      && (startsWithCI (lit "denied") s' || deniedAfter s')
  end.

Fixpoint matchesAccessDeniedEn (s : jsstring) : bool :=
  startsWithCI (lit "Access") s && deniedAfter (drop 6 s) ||
  match s with
  | [] => false
  | _ :: s' => matchesAccessDeniedEn s'
  end.

Definition matchesAccessDenied (out : jsstring) : bool :=
  matchesAccessDeniedEn out || includes accessDeniedToken out.

(** [s.replace(/[\u0000-\u001F]|[^\x00-\x7F]/g, '').trim() || 'failed'] *)
Definition cleanMessage (s : jsstring) : jsstring :=
  let t := trim (filter (fun c => 32 <= c <= 127) s) in
  if bool_decide (t = []) then lit "failed" else t.

Definition taskkillResult (args : list jsstring) (ok0 : bool)
    (method0 : string) (message0 errorCode0 : option jsstring) : KillResult :=
  {| kpid := parsePid args; ok := ok0; method := lit method0;
     message := message0; errorCode := errorCode0 |}.

(** [String(err)] of an error object *)
Definition errorToString (e : JsError) : jsstring :=
  match errMessage e with
  | Some ((_ :: _) as m) => errName e ++ lit ": " ++ m
  | _ => errName e
  end.

Definition runTaskkill (args : list jsstring) : M KillResult :=
  tryCatch
    (let* res := execFile (lit "taskkill") args (Some 5000) in
     let out := trim (stdout res ++ 10 :: stderr res) in
     if matchesSuccess out then ret (taskkillResult args true "taskkill" None None)
     else if matchesNotFound out
     then ret (taskkillResult args true "already-exited" None None)
     else if matchesAccessDenied out
     then ret (taskkillResult args false "taskkill"
                 (Some (lit "access denied")) (Some (lit "EPERM")))
     else if bool_decide (code res = Some 0)
     then ret (taskkillResult args true "taskkill" None None)
     else ret (taskkillResult args false "taskkill"
                 (Some (cleanMessage out)) None))
    (fun err =>
       let msg := match errMessage err with
                  | Some ((_ :: _) as m) => m
                  | _ => errorToString err
                  end in
       let code0 := match errCode err with
                    | Some ((_ :: _) as c) => Some c
                    | _ => None
                    end in
       ret (taskkillResult args false "taskkill"
              (Some (cleanMessage msg)) code0)).

Definition kill (pid0 : Z) (options : KillOptions) : M KillResult :=
  let* alive := isAlive pid0 in
  if negb alive then
    ret {| kpid := pid0; ok := true; method := lit "already-exited";
           message := None; errorCode := None |}
  else
    let baseArgs := [lit "/PID"; numToString pid0; lit "/T"] in
    (* Try gentle kill first *)
    let* first := runTaskkill baseArgs in
    if ok first then
      ret {| kpid := pid0; ok := true; method := lit "taskkill";
             message := None; errorCode := None |}
    else
      (* Auto-escalate to /F *)
      let* forced := runTaskkill (baseArgs ++ [lit "/F"]) in
      if ok forced then
        ret {| kpid := pid0; ok := true; method := lit "taskkill /F";
               message := None; errorCode := None |}
      else if negb (orElse (force options) false)
              && bool_decide (errorCode forced = Some (lit "EPERM"))
      then ret forced
      else ret forced.

End WindowsKiller.

(* ================================================================== *)
(** * The command wrappers of the finders                              *)
(* ================================================================== *)

Definition plainError (msg : string) : JsError :=
  {| errName := lit "Error"; errMessage := Some (lit msg); errCode := None |}.

Module LinuxFinder.

(** [trySsListAll]; [None] is [null]. Neither [execFile] call passes
    options. *)
Definition trySsListAll : M (option (list Listener)) :=
  tryCatch
    (let* tcp0 := execFile (lit "ss") [lit "-H"; lit "-ltnp"] None in
     let out := parseSs (stdout tcp0) tcp (lit "ss") in
     let* udp0 := execFile (lit "ss") [lit "-H"; lit "-lunp"] None in
     let out := out ++ parseSs (stdout udp0) udp (lit "ss") in
     (* If ss couldn't provide PIDs, treat as unusable and fallback. *)
     if bool_decide (out = []) then ret None else ret (Some out))
    (fun err => if isCommandNotFound err then ret None else ret None).

(** [trySsFindByPort] *)
Definition trySsFindByPort (port0 : Z) (protocols : list Protocol)
    : M (list Listener) :=
  tryCatch
    (let filterArg := lit "sport = :" ++ numToString port0 in
     let* out1 :=
       (if bool_decide (tcp ∈ protocols) then
          let* tcp0 := execFile (lit "ss") [lit "-H"; lit "-ltnp"; filterArg] None in
          ret (parseSs (stdout tcp0) tcp (lit "ss"))
        else ret []) in
     let* out2 :=
       (if bool_decide (udp ∈ protocols) then
          let* udp0 := execFile (lit "ss") [lit "-H"; lit "-lunp"; filterArg] None in
          ret (parseSs (stdout udp0) udp (lit "ss"))
        else ret []) in
     ret (out1 ++ out2))
    (fun err => if isCommandNotFound err then ret [] else ret []).

End LinuxFinder.

Module DarwinFinder.

(** [runLsof]: no options are passed to [execFile]; every failure is
    thrown on to the caller. *)
Definition runLsof (args : list jsstring) : M jsstring :=
  tryCatch
    (let* res := execFile (lit "lsof") args None in ret (stdout res))
    (fun err =>
       if isCommandNotFound err
       then throw (plainError
                     "lsof not found. Install lsof or use a different strategy.")
       else throw err).

End DarwinFinder.

Module PosixFallbackFinder.

(** [tryLsof]; [None] is [null]. *)
Definition tryLsof (args : list jsstring) : M (option jsstring) :=
  tryCatch
    (let* res := execFile (lit "lsof") args (Some 2000) in
     ret (Some (stdout res)))
    (fun err => if isCommandNotFound err then ret None else ret None).

End PosixFallbackFinder.

Module WindowsFinder.

(** [runNetstat] *)
Definition runNetstat (args : list jsstring) : M jsstring :=
  tryCatch
    (let* res := execFile (lit "netstat") args (Some 2000) in
     ret (stdout res))
    (fun err =>
       if isCommandNotFound err then throw (plainError "netstat not found.")
       else throw err).

(** [runPowerShell]; [None] is [null]. *)
Definition runPowerShell (script : jsstring) : M (option jsstring) :=
  let args := [lit "-NoProfile"; lit "-NonInteractive";
               lit "-ExecutionPolicy"; lit "Bypass"; lit "-Command"; script] in
  tryCatch
    (let* res := execFile (lit "powershell.exe") args (Some 2000) in
     ret (Some (stdout res)))
    (fun err =>
       if isCommandNotFound err then
         tryCatch
           (let* res := execFile (lit "powershell") args (Some 2000) in
            ret (Some (stdout res)))
           (fun _ => ret None)
       else ret None).

(** [findByPort]; [protocols] is [options.protocols]. *)
Definition findByPort (port0 : Z) (protocols : list Protocol)
    : M (list Listener) :=
  let* out1 :=
    (if bool_decide (tcp ∈ protocols) then
       let* tcp0 := runNetstat [lit "-ano"; lit "-p"; lit "tcp"] in
       ret (filter (fun l => port l = port0) (parseNetstat tcp0 tcp))
     else ret []) in
  let* out2 :=
    (if bool_decide (udp ∈ protocols) then
       let* udp0 := runNetstat [lit "-ano"; lit "-p"; lit "udp"] in
       ret (filter (fun l => port l = port0) (parseNetstat udp0 udp))
     else ret []) in
  ret (uniqBy listenerKey (out1 ++ out2)).

End WindowsFinder.

(* ================================================================== *)
(** * ui/tui.ts: the selector                                          *)
(* ================================================================== *)

Record TuiSelectResult := {
  cancelled : bool;
  selected : list Listener;
}.

Module Tui.

(** The [KEY] table, as the bytes the terminal sends. *)
Definition KEY_up : list Z := [27; 91; 65].
Definition KEY_down : list Z := [27; 91; 66].
Definition KEY_pageUp : list Z := [27; 91; 53; 126].
Definition KEY_pageDown : list Z := [27; 91; 54; 126].
Definition KEY_home : list Z := [27; 91; 72].
Definition KEY_end : list Z := [27; 91; 70].

(** A [Buffer] is its list of bytes. *)
Definition isCtrlC (buf : list Z) : bool := bool_decide (buf = [3]).
Definition isEsc (buf : list Z) : bool := bool_decide (buf = [27]).
Definition isEnter (buf : list Z) : bool :=
  bool_decide (buf = [10]) || bool_decide (buf = [13]).
Definition isSpace (buf : list Z) : bool := bool_decide (buf = [32]).

(** [buf.toString('utf8') === s] for an ASCII string [s]: UTF-8 decoding
    maps ASCII bytes to themselves and any other byte to a non-ASCII code
    unit, so the two are equal exactly when the buffer holds the bytes of
    [s]. *)
Definition isChar (buf : list Z) (ch : Z) : bool := bool_decide (buf = [ch]).
Definition isKey (buf key : list Z) : bool := bool_decide (buf = key).

(** The comparator of [items.sort]:
    [a.port - b.port || a.protocol.localeCompare(b.protocol) || a.pid - b.pid] *)
Definition localeCompare (a b : Protocol) : Z :=
  match a, b with
  | tcp, udp => -1
  | udp, tcp => 1
  | _, _ => 0
  end.

Definition compareItems (a b : Listener) : Z :=
  if negb (port a - port b =? 0) then port a - port b
  else if negb (localeCompare (protocol a) (protocol b) =? 0)
       then localeCompare (protocol a) (protocol b)
       else pid a - pid b.

(** [Array.prototype.sort] is stable: equal items keep their order. *)
Fixpoint insertItem (x : Listener) (l : list Listener) : list Listener :=
  match l with
  | [] => [x]
  | y :: l' => if compareItems x y <=? 0 then x :: l else y :: insertItem x l'
  end.

Fixpoint sortItems (l : list Listener) : list Listener :=
  match l with
  | [] => []
  | x :: l' => insertItem x (sortItems l')
  end.

(** The list the selector shows: deduplicated, then sorted. *)
Definition prepareItems (listeners : list Listener) : list Listener :=
  sortItems (uniqBy listenerKey listeners).

Record State := {
  index : Z;
  top : Z;
  selectedSet : gset Z;
  width : Z;
  height : Z;
  done : bool;
}.

(** A session: the state of the closure, the size the terminal reports
    ([stdout.columns], [stdout.rows]; [None] is [undefined]), the value the
    promise resolved with, and [process.exitCode]. *)
Record Session := {
  state : State;
  columns : option Z;
  rows : option Z;
  resolved : option TuiSelectResult;
  exitCode : option Z;
}.

(** [n || d] on a number *)
Definition orDefault (n : option Z) (d : Z) : Z :=
  match n with
  | Some v => if v =? 0 then d else v
  | None => d
  end.

Definition visibleRows (s : Session) : Z :=
  Z.max 1 (orDefault (rows s) 24 - 2).

Definition clamp (n lo hi : Z) : Z := Z.max lo (Z.min hi n).

Definition withState (f : State -> State) (s : Session) : Session :=
  {| state := f (state s); columns := columns s; rows := rows s;
     resolved := resolved s; exitCode := exitCode s |}.

Definition setCursor (i t : Z) (st : State) : State :=
  {| index := i; top := t; selectedSet := selectedSet st;
     width := width st; height := height st; done := done st |}.

(** [move(delta)] *)
Definition move (items : list Listener) (delta : Z) (s : Session) : Session :=
  let next := clamp (index (state s) + delta) 0 (Z.of_nat (length items) - 1) in
  let rows0 := visibleRows s in
  let top1 := if next <? top (state s) then next else top (state s) in
  let top2 := if top1 + rows0 <=? next then next - rows0 + 1 else top1 in
  withState (setCursor next top2) s.

(** [toggleSelected(idx)] *)
Definition toggleSelected (idx : Z) (s : Session) : Session :=
  withState
    (fun st =>
       {| index := index st; top := top st;
          selectedSet := if decide (idx ∈ selectedSet st)
                         then selectedSet st ∖ {[ idx ]}
                         else selectedSet st ∪ {[ idx ]};
          width := width st; height := height st; done := done st |}) s.

(** What [render] does to the state: it re-reads the terminal size. (The
    bytes it writes to the terminal are not modelled.) *)
Definition render (s : Session) : Session :=
  withState
    (fun st =>
       {| index := index st; top := top st; selectedSet := selectedSet st;
          width := orDefault (columns s) 80;
          height := orDefault (rows s) 24; done := done st |}) s.

(** [done(r)] *)
Definition finish (r : TuiSelectResult) (s : Session) : Session :=
  if done (state s) then s
  else
    {| state := {| index := index (state s); top := top (state s);
                   selectedSet := selectedSet (state s);
                   width := width (state s); height := height (state s);
                   done := true |};
       columns := columns s; rows := rows s;
       resolved := Some r; exitCode := exitCode s |}.

Definition setExitCode (c : Z) (s : Session) : Session :=
  {| state := state s; columns := columns s; rows := rows s;
     resolved := resolved s; exitCode := Some c |}.

(** [items.filter((_, idx) => state.selected.has(idx))] *)
Fixpoint filterSelected (sel : gset Z) (i : Z) (items : list Listener)
    : list Listener :=
  match items with
  | [] => []
  | x :: rest =>
      if decide (i ∈ sel) then x :: filterSelected sel (i + 1) rest
      else filterSelected sel (i + 1) rest
  end.

Definition onSigInt (s : Session) : Session :=
  finish {| cancelled := true; selected := [] |} (setExitCode 130 s).

Definition onData (items : list Listener) (data : list Z) (s : Session)
    : Session :=
  if done (state s) then s
  else if isCtrlC data then
    finish {| cancelled := true; selected := [] |} (setExitCode 130 s)
  else if isEsc data then
    finish {| cancelled := true; selected := [] |} s
  else if isEnter data then
    finish {| cancelled := false;
              selected := filterSelected (selectedSet (state s)) 0 items |} s
  else if isSpace data then render (toggleSelected (index (state s)) s)
  else if isChar data 106 then render (move items 1 s)
  else if isChar data 107 then render (move items (-1) s)
  else if isKey data KEY_up then render (move items (-1) s)
  else if isKey data KEY_down then render (move items 1 s)
  else if isKey data KEY_pageUp then render (move items (- visibleRows s) s)
  else if isKey data KEY_pageDown then render (move items (visibleRows s) s)
  else if isKey data KEY_home then render (withState (setCursor 0 0) s)
  else if isKey data KEY_end then
    render (withState
              (setCursor (Z.of_nat (length items) - 1)
                         (Z.max 0 (Z.of_nat (length items) - visibleRows s))) s)
  else s.

(** What reaches the session: a chunk of input, an interrupt signal, or
    the terminal being resized. *)
Inductive Input :=
| Data (buf : list Z)
| SigInt
| Resize (columns0 rows0 : option Z).

Definition step (items : list Listener) (i : Input) (s : Session) : Session :=
  match i with
  | Data buf => onData items buf s
  | SigInt =>
      (* [restore] has taken the listener off once the session is done *)
      if done (state s) then s else onSigInt s
  | Resize c r =>
      {| state := state s; columns := c; rows := r;
         resolved := resolved s; exitCode := exitCode s |}
  end.

Definition run (items : list Listener) (inputs : list Input) (s : Session)
    : Session :=
  fold_left (fun s i => step items i s) inputs s.

(** The session [selectListeners] starts on a terminal of the given size,
    after its first [render]. *)
Definition start (columns0 rows0 : option Z) : Session :=
  render {| state := {| index := 0; top := 0; selectedSet := ∅;
                        width := orDefault columns0 80;
                        height := orDefault rows0 24; done := false |};
            columns := columns0; rows := rows0;
            resolved := None; exitCode := None |}.

(** [selectListeners]: what the promise has resolved with once [inputs]
    were received ([None]: still pending). *)
Definition selectListeners (listeners : list Listener) (isTTY : bool)
    (columns0 rows0 : option Z) (inputs : list Input)
    : option TuiSelectResult :=
  let items := prepareItems listeners in
  if negb isTTY then Some {| cancelled := true; selected := [] |}
  else resolved (run items inputs (start columns0 rows0)).

End Tui.

(* ================================================================== *)
(** * The vocabulary of the properties                                 *)
(* ================================================================== *)

(** ** Hosts and processes *)

(** The events a call added to the log, given the log before it. *)
Definition extends (w w' : World) (added : list (Z * Event)) : Prop :=
  events w' = added ++ events w.

(** A process of the host that exists now. *)
Definition running (w : World) (target : Z) (p : Proc) : Prop :=
  procs w !! target = Some p /\ existsAt p (now w) = true.

Definition isRunning (w : World) (target : Z) : bool :=
  match procs w !! target with
  | Some p => existsAt p (now w)
  | None => false
  end.

(** No such process (any more). *)
Definition gone (w : World) (target : Z) : Prop :=
  match procs w !! target with
  | Some p => existsAt p (now w) = false
  | None => True
  end.

(** The world after a signal was delivered to [p]. *)
Definition delivered (target : Z) (sig : Signal) (p : Proc) (w : World) : World :=
  setProc target (deliver sig (now w) p) (record (EKill target sig) w).

(** A liveness poll of [target]: a probe or a sleep. *)
Definition isPoll (target : Z) (te : Z * Event) : bool :=
  match snd te with
  | EKill t SIG0 => t =? target
  | ESleep _ => true
  | _ => false
  end.

Definition sigtermOk (target : Z) : KillResult :=
  PosixKiller.result target true "SIGTERM" None None.

Definition sigkillOk (target : Z) : KillResult :=
  PosixKiller.result target true "SIGKILL" None None.

Definition stillAlive (target : Z) : KillResult :=
  PosixKiller.result target false "SIGKILL"
    (Some (lit "process still alive")) None.

(** The combined output [runTaskkill] matches its patterns against. *)
Definition combinedOutput (res : ExecResult) : jsstring :=
  trim (stdout res ++ 10 :: stderr res).

(** The timeout a spawn passed, if any, is between one and five seconds. *)
Definition timeoutOk (te : Z * Event) : bool :=
  match snd te with
  | EExec _ _ (Some t) => (1000 <=? t) && (t <=? 5000)
  | EExec _ _ None => false
  | _ => true
  end.

(** Whether it returns or throws, [m] leaves the host in a state related
    by [R] to the one it started in. *)
Definition steps {A} (R : World -> World -> Prop) (m : M A) : Prop :=
  forall w,
    match m w with
    | Returned _ w' | Thrown _ w' => R w w'
    | _ => True
    end.

(** A log of spawns with bounded timeouts stays one. *)
Definition keepsBounded (w w' : World) : Prop :=
  forallb timeoutOk (events w) = true -> forallb timeoutOk (events w') = true.

(** [m] only spawns commands with a timeout of one to five seconds. *)
Definition boundedSpawns {A} (m : M A) : Prop := steps keepsBounded m.

Definition notSignalTo (root : Z) (te : Z * Event) : bool :=
  match snd te with
  | EKill t _ => negb (t =? root)
  | _ => true
  end.

(** Between [w] and [w'] time may have passed, but [process.kill] was
    never called on [root], whose entry is as it was. *)
Definition spares (root : Z) (w w' : World) : Prop :=
  procs w' !! root = procs w !! root
  /\ now w <= now w'
  /\ exists added, events w' = added ++ events w
                   /\ forallb (notSignalTo root) added = true.

(** The tree mode of [PosixKiller.kill]: the descendants are listed and
    killed, last found first; whatever is thrown is ignored. *)
Definition childrenPhase (fuel : nat) (root timeout : Z) : M unit :=
  tryCatch (bind (PosixKiller.listDescendants fuel root)
              (fun children => PosixKiller.killEach fuel (rev children) timeout))
           (fun _ => ret tt).

(** The state [w1] in which [PosixKiller.kill] turns to the target
    itself: right after the probe of [isAlive], or, with the tree option,
    once the descendants were handled. *)
Definition childrenHandled (fuel : nat) (root : Z) (options : KillOptions)
    (w w1 : World) : Prop :=
  if bool_decide (tree options = Some true)
  then childrenPhase fuel root (Z.max 0 (orElse (timeoutMs options) 0))
         (record (EKill root SIG0) w) = Returned tt w1
  else w1 = record (EKill root SIG0) w.

(** ** The column shapes the parsers expect *)

(** White space only; and a column: one character at least, none of them
    white space. *)
Definition blank (s : jsstring) : Prop := forallb isWhite s = true.

Definition word (s : jsstring) : Prop :=
  s <> [] /\ forallb (fun c => negb (isWhite c)) s = true.

(** [line] is made of the columns [cols], with white space between one
    column and the next and none at either end. *)
Inductive columns : jsstring -> list jsstring -> Prop :=
| columns_last (c : jsstring) : word c -> columns c [c]
| columns_next (c sep rest : jsstring) (cols : list jsstring) :
    word c -> blank sep -> sep <> [] -> columns rest cols ->
    columns (c ++ sep ++ rest) (c :: cols).

(** A raw line that holds the columns [cols], with white space around
    them at most. *)
Definition rowOf (raw0 : jsstring) (cols : list jsstring) : Prop :=
  exists ws1 line ws2,
    raw0 = ws1 ++ line ++ ws2 /\ blank ws1 /\ blank ws2 /\ columns line cols.

(** A column ends in a port: some text, a colon, one or more digits. *)
Definition endsInPort (token : jsstring) : Prop :=
  exists a d, token = a ++ 58 :: d /\ d <> [] /\ forallb isDigit d = true.

(** A column names a pid: it holds [pid=] and a digit after it. *)
Definition namesPid (c : jsstring) : Prop :=
  exists a d b, c = a ++ lit "pid=" ++ d :: b /\ isDigit d = true.

(** A column reads as the word [w], in whatever case its letters are. *)
Definition reads (w : string) (s : jsstring) : Prop :=
  map upperAscii s = map upperAscii (lit w).

(** A column starts with a number: a digit, after a sign at most. *)
Definition startsNumber (s : jsstring) : Prop :=
  exists sign d rest,
    s = sign ++ d :: rest
    /\ (sign = [] \/ sign = [43] \/ sign = [45]) /\ isDigit d = true.

(** An ss row: State Recv-Q Send-Q Local:Port Peer:Port Process. It has
    five columns at least, the fourth ends in a port, and one of those
    after the fifth names a pid. *)
Definition ssShape (line : jsstring) : Prop :=
  exists cols,
    columns line cols
    /\ (5 <= length cols)%nat
    /\ (exists local, cols !! 3%nat = Some local /\ endsInPort local)
    /\ (exists c, c ∈ drop 5 cols /\ namesPid c).

(** A netstat row: Proto Local Foreign State PID for TCP, with the state
    LISTENING; Proto Local Foreign PID for UDP; the local address ends in
    a port and the pid column starts with a number. *)
Definition netstatShape (raw0 : jsstring) : Prop :=
  exists cols,
    rowOf raw0 cols
    /\ (4 <= length cols)%nat
    /\ (exists local, cols !! 1%nat = Some local /\ endsInPort local)
    /\ (exists f0, cols !! 0%nat = Some f0 /\
          ((reads "tcp" f0
            /\ (exists st, cols !! 3%nat = Some st /\ reads "listening" st)
            /\ (exists p, cols !! 4%nat = Some p /\ startsNumber p))
           \/ (reads "udp" f0
               /\ (exists p, cols !! 3%nat = Some p /\ startsNumber p)))).

(** ** The selector *)

(** The navigation keys: j, k, Up, Down, PageUp, PageDown, Home, End. *)
Definition navKeys : list (list Z) :=
  [[106]; [107]; Tui.KEY_up; Tui.KEY_down; Tui.KEY_pageUp;
   Tui.KEY_pageDown; Tui.KEY_home; Tui.KEY_end].

(** The cursor and the top of the viewport are within the list. *)
Definition inBounds (items : list Listener) (s : Tui.Session) : Prop :=
  0 <= Tui.index (Tui.state s) <= Z.of_nat (length items) - 1
  /\ 0 <= Tui.top (Tui.state s)
       <= Z.max 0 (Z.of_nat (length items) - Tui.visibleRows s).

(** What a navigation key does to a live session. *)
Definition navigate (items : list Listener) (key : list Z) (s : Tui.Session) : Tui.Session :=
  if bool_decide (key = [106]) || bool_decide (key = Tui.KEY_down)
  then Tui.move items 1 s
  else if bool_decide (key = [107]) || bool_decide (key = Tui.KEY_up)
  then Tui.move items (-1) s
  else if bool_decide (key = Tui.KEY_pageUp)
  then Tui.move items (- Tui.visibleRows s) s
  else if bool_decide (key = Tui.KEY_pageDown)
  then Tui.move items (Tui.visibleRows s) s
  else if bool_decide (key = Tui.KEY_home)
  then Tui.withState (Tui.setCursor 0 0) s
  else Tui.withState
         (Tui.setCursor (Z.of_nat (length items) - 1)
            (Z.max 0 (Z.of_nat (length items) - Tui.visibleRows s))) s.

(** A session is live until its promise resolves. *)
Definition coherent (s : Tui.Session) : Prop :=
  Tui.done (Tui.state s) = bool_decide (is_Some (Tui.resolved s)).

(** ** Sample data *)

Definition sampleListener (pid0 : Z) : Listener :=
  {| protocol := tcp; port := 80; pid := pid0; localAddress := None;
     processName := Some (lit "node"); command := None; user := None;
     raw := None; source := None |}.

Definition sampleSsShort : jsstring := lit "LISTEN 0 128 0.0.0.0:22".

Definition sampleNetstatEstablished : jsstring :=
  lit "  TCP    127.0.0.1:5000    127.0.0.1:5001    ESTABLISHED    1".

Definition sampleNetstatUdp : jsstring :=
  lit "  UDP    0.0.0.0:123    *:*    1234".

(** A host on which every command hangs, closing two milliseconds after
    it is killed, and one on which every command exits at once with no
    output. *)
Definition hangingHost : World :=
  {| now := 0; lateness := []; procs := ∅;
     programs := fun _ _ => Hangs (Some 2); events := [] |}.

Definition quietHost : World :=
  {| now := 0; lateness := []; procs := ∅;
     programs := fun _ _ =>
       Exits 5 {| out_stdout := []; out_stderr := []; out_code := Some 0 |}
             (Some 0);
     events := [] |}.

(** A process that exits on either signal, one that ignores SIGTERM, and
    one that survives both. *)
Definition obedient : Proc :=
  {| exitsAt := None; denies := false; onTerm := Some 0; onKill := Some 0 |}.

Definition stubborn : Proc :=
  {| exitsAt := None; denies := false; onTerm := None; onKill := Some 0 |}.

Definition immortal : Proc :=
  {| exitsAt := None; denies := false; onTerm := None; onKill := None |}.

(** A host running [p] as pid 4242, whose timers fire a little late and
    on which taskkill answers in Chinese, with a non-zero exit code. *)
Definition sampleHost (p : Proc) : World :=
  {| now := 1000; lateness := [3; 0; 7]; procs := {[ 4242 := p ]};
     programs := fun _ _ =>
       Exits 40 {| out_stdout := WindowsKiller.successToken ++ lit ": PID 4242";
                   out_stderr := []; out_code := Some 1 |} (Some 0);
     events := [] |}.

Definition graceOptions (t : option Z) : KillOptions :=
  {| force := None; timeoutMs := t; tree := None |}.

(** The tree option, and a host on which pid 4242, which ignores
    SIGTERM, has one child, pid 4300: ps prints it when asked for the
    children of 4242 and prints nothing otherwise. *)
Definition treeOptions : KillOptions :=
  {| force := None; timeoutMs := None; tree := Some true |}.

Definition familyHost : World :=
  {| now := 1000; lateness := [];
     procs := {[ 4242 := stubborn; 4300 := obedient ]};
     programs := fun _ args =>
       Exits 5 {| out_stdout :=
                    if bool_decide (last args = Some (lit "4242"))
                    then lit "4300" ++ [10] else [];
                  out_stderr := []; out_code := Some 0 |} (Some 0);
     events := [] |}.

(** The state of [familyHost] once the child was handled. *)
Definition familyHandled : World :=
  match childrenPhase 8 4242 0 (record (EKill 4242 SIG0) familyHost) with
  | Returned _ w => w
  | _ => familyHost
  end.

Definition sampleListeners : list Listener :=
  [sampleListener 7; sampleListener 2; sampleListener 7].

(* ================================================================== *)
(** * cli/args.ts                                                      *)
(* ================================================================== *)

Module Args.

(** The optional field follows the source: [None] is an absent
    [protocols]. *)
Record PortRequest := {
  raw : jsstring;
  port : Z;
  protocols : option (list Protocol);
}.

Record ProcessNameRequest := {
  rawName : jsstring;
  name : jsstring;
}.

(** [CLIFlags]; the fields carry a prefix, the source's [list], [tcp] and
    [udp] being names of their own here. *)
Record CLIFlags := {
  flag_help : bool;
  flag_version : bool;
  flag_list : bool;
  flag_json : bool;
  flag_force : bool;
  flag_dryRun : bool;
  flag_tcp : bool;
  flag_udp : bool;
  flag_timeoutMs : Z;
  flag_pid : option Z;
}.

Record ParsedArgs := {
  flags : CLIFlags;
  ports : list PortRequest;
  processNames : list ProcessNameRequest;
  unknown : list jsstring;
}.

Definition DEFAULT_TIMEOUT_MS : Z := 1200.

Definition defaultTimeoutMs : Z := DEFAULT_TIMEOUT_MS.

Definition resolveProtocols (f : CLIFlags) : list Protocol :=
  if flag_tcp f && negb (flag_udp f) then [tcp]
  else if flag_udp f && negb (flag_tcp f) then [udp]
  else [tcp; udp].

(** Assignments to one field of [flags]. *)
Definition setHelp (f : CLIFlags) : CLIFlags :=
  {| flag_help := true; flag_version := flag_version f;
     flag_list := flag_list f; flag_json := flag_json f;
     flag_force := flag_force f; flag_dryRun := flag_dryRun f;
     flag_tcp := flag_tcp f; flag_udp := flag_udp f;
     flag_timeoutMs := flag_timeoutMs f; flag_pid := flag_pid f |}.

Definition setVersion (f : CLIFlags) : CLIFlags :=
  {| flag_help := flag_help f; flag_version := true;
     flag_list := flag_list f; flag_json := flag_json f;
     flag_force := flag_force f; flag_dryRun := flag_dryRun f;
     flag_tcp := flag_tcp f; flag_udp := flag_udp f;
     flag_timeoutMs := flag_timeoutMs f; flag_pid := flag_pid f |}.

Definition setList (f : CLIFlags) : CLIFlags :=
  {| flag_help := flag_help f; flag_version := flag_version f;
     flag_list := true; flag_json := flag_json f;
     flag_force := flag_force f; flag_dryRun := flag_dryRun f;
     flag_tcp := flag_tcp f; flag_udp := flag_udp f;
     flag_timeoutMs := flag_timeoutMs f; flag_pid := flag_pid f |}.

Definition setJson (b : bool) (f : CLIFlags) : CLIFlags :=
  {| flag_help := flag_help f; flag_version := flag_version f;
     flag_list := flag_list f; flag_json := b;
     flag_force := flag_force f; flag_dryRun := flag_dryRun f;
     flag_tcp := flag_tcp f; flag_udp := flag_udp f;
     flag_timeoutMs := flag_timeoutMs f; flag_pid := flag_pid f |}.

Definition setForce (f : CLIFlags) : CLIFlags :=
  {| flag_help := flag_help f; flag_version := flag_version f;
     flag_list := flag_list f; flag_json := flag_json f;
     flag_force := true; flag_dryRun := flag_dryRun f;
     flag_tcp := flag_tcp f; flag_udp := flag_udp f;
     flag_timeoutMs := flag_timeoutMs f; flag_pid := flag_pid f |}.

Definition setDryRun (f : CLIFlags) : CLIFlags :=
  {| flag_help := flag_help f; flag_version := flag_version f;
     flag_list := flag_list f; flag_json := flag_json f;
     flag_force := flag_force f; flag_dryRun := true;
     flag_tcp := flag_tcp f; flag_udp := flag_udp f;
     flag_timeoutMs := flag_timeoutMs f; flag_pid := flag_pid f |}.

Definition setTcp (f : CLIFlags) : CLIFlags :=
  {| flag_help := flag_help f; flag_version := flag_version f;
     flag_list := flag_list f; flag_json := flag_json f;
     flag_force := flag_force f; flag_dryRun := flag_dryRun f;
     flag_tcp := true; flag_udp := flag_udp f;
     flag_timeoutMs := flag_timeoutMs f; flag_pid := flag_pid f |}.

Definition setUdp (f : CLIFlags) : CLIFlags :=
  {| flag_help := flag_help f; flag_version := flag_version f;
     flag_list := flag_list f; flag_json := flag_json f;
     flag_force := flag_force f; flag_dryRun := flag_dryRun f;
     flag_tcp := flag_tcp f; flag_udp := true;
     flag_timeoutMs := flag_timeoutMs f; flag_pid := flag_pid f |}.

Definition setTimeoutMs (n : Z) (f : CLIFlags) : CLIFlags :=
  {| flag_help := flag_help f; flag_version := flag_version f;
     flag_list := flag_list f; flag_json := flag_json f;
     flag_force := flag_force f; flag_dryRun := flag_dryRun f;
     flag_tcp := flag_tcp f; flag_udp := flag_udp f;
     flag_timeoutMs := n; flag_pid := flag_pid f |}.

Definition setPid (n : Z) (f : CLIFlags) : CLIFlags :=
  {| flag_help := flag_help f; flag_version := flag_version f;
     flag_list := flag_list f; flag_json := flag_json f;
     flag_force := flag_force f; flag_dryRun := flag_dryRun f;
     flag_tcp := flag_tcp f; flag_udp := flag_udp f;
     flag_timeoutMs := flag_timeoutMs f; flag_pid := Some n |}.

(** Updates of the four variables of [parseArgs]. *)
Definition withFlags (g : CLIFlags -> CLIFlags) (st : ParsedArgs) : ParsedArgs :=
  {| flags := g (flags st); ports := ports st;
     processNames := processNames st; unknown := unknown st |}.

Definition pushPort (pr : PortRequest) (st : ParsedArgs) : ParsedArgs :=
  {| flags := flags st; ports := ports st ++ [pr];
     processNames := processNames st; unknown := unknown st |}.

Definition pushName (pn : ProcessNameRequest) (st : ParsedArgs) : ParsedArgs :=
  {| flags := flags st; ports := ports st;
     processNames := processNames st ++ [pn]; unknown := unknown st |}.

Definition pushUnknown (a : jsstring) (st : ParsedArgs) : ParsedArgs :=
  {| flags := flags st; ports := ports st;
     processNames := processNames st; unknown := unknown st ++ [a] |}.

(** A whole-string match of an ASCII word under the [i] flag. *)
Definition eqCI (p s : jsstring) : bool :=
  (length p =? length s)%nat && startsWithCI p s.

(** The match of the pattern of [parsePortRequest]: anchored at both
    ends, one to five digits, then optionally a slash and [tcp] or [udp]
    in either case. The result holds the two groups; the second is
    [None] when the optional part did not take part. *)
Definition matchPortRequest (raw0 : jsstring)
    : option (jsstring * option jsstring) :=
  let ds := takeWhile isDigit raw0 in
  let rest := drop (length ds) raw0 in
  if (1 <=? length ds)%nat && (length ds <=? 5)%nat then
    match rest with
    | [] => Some (ds, None)
    | c :: p =>
        if (c =? 47) && (eqCI (lit "tcp") p || eqCI (lit "udp") p)
        then Some (ds, Some p)
        else None
    end
  else None.

Definition parsePortRequest (raw0 : jsstring) : option PortRequest :=
  match matchPortRequest raw0 with
  | None => None
  | Some (m1, m2) =>
      match parseInt m1 with
      | None => None
      | Some port0 =>
          if (port0 <? 1) || (65535 <? port0) then None
          else
            let proto := toLowerCase <$> m2 in
            if bool_decide (proto = Some (lit "tcp")) then
              Some {| raw := raw0; port := port0; protocols := Some [tcp] |}
            else if bool_decide (proto = Some (lit "udp")) then
              Some {| raw := raw0; port := port0; protocols := Some [udp] |}
            else Some {| raw := raw0; port := port0; protocols := None |}
      end
  end.

(** [a-zA-Z] and [a-zA-Z0-9._-] *)
Definition isLetter (c : Z) : bool :=
  (65 <=? c) && (c <=? 90) || (97 <=? c) && (c <=? 122).

Definition isNameChar (c : Z) : bool :=
  isLetter c || isDigit c || (c =? 46) || (c =? 95) || (c =? 45).

(** The first test of [parseProcessName]: a letter, then name characters
    up to the end. *)
Definition matchProcessName (raw0 : jsstring) : bool :=
  match raw0 with
  | c :: rest => isLetter c && forallb isNameChar rest
  | [] => false
  end.

Definition parseProcessName (raw0 : jsstring) : option ProcessNameRequest :=
  if negb (matchProcessName raw0) then None
  else if startsWith (lit "-") raw0 || includes (lit "/") raw0
          || includes [92] raw0
  then None
  else Some {| rawName := raw0; name := raw0 |}.

(** The test for compact short flags: a dash and two or more letters. *)
Definition matchCompact (a : jsstring) : bool :=
  match a with
  | c :: letters =>
      (c =? 45) && (2 <=? length letters)%nat && forallb isLetter letters
  | [] => false
  end.

(** The loop over the letters of a compact group: it assigns to [flags]
    as it goes and stops at the first letter that is no short flag;
    the boolean is [consumed]. *)
Fixpoint compactLoop (letters : jsstring) (f : CLIFlags) : bool * CLIFlags :=
  match letters with
  | [] => (true, f)
  | ch :: rest =>
      if ch =? 104 then compactLoop rest (setHelp f)
      else if ch =? 118 then compactLoop rest (setVersion f)
      else if ch =? 108 then compactLoop rest (setList f)
      else if ch =? 106 then compactLoop rest (setJson true f)
      else if ch =? 102 then compactLoop rest (setForce f)
      else (false, f)
  end.

(** The value of [--timeout]: kept when it is a number that is not
    negative. *)
Definition acceptTimeout (v : jsstring) : option Z :=
  match parseInt v with
  | Some n => if 0 <=? n then Some n else None
  | None => None
  end.

(** The value of [--pid]: kept when it is a positive number. *)
Definition acceptPid (v : jsstring) : option Z :=
  match parseInt v with
  | Some n => if 0 <? n then Some n else None
  | None => None
  end.

(** The [while] loop of [parseArgs]: [args] is what is left of the
    arguments from index [i] on. *)
Fixpoint parseLoop (stopParsing : bool) (st : ParsedArgs)
    (args : list jsstring) : ParsedArgs :=
  match args with
  | [] => st
  | a :: rest =>
      if negb stopParsing && eqs a (lit "--") then parseLoop true st rest
      else if negb stopParsing && startsWith (lit "-") a then
        if eqs a (lit "-h") || eqs a (lit "--help")
        then parseLoop stopParsing (withFlags setHelp st) rest
        else if eqs a (lit "-v") || eqs a (lit "--version")
        then parseLoop stopParsing (withFlags setVersion st) rest
        else if eqs a (lit "-l") || eqs a (lit "--list")
        then parseLoop stopParsing (withFlags setList st) rest
        else if eqs a (lit "--json") || eqs a (lit "-j")
        then parseLoop stopParsing (withFlags (setJson true) st) rest
        else if eqs a (lit "-f") || eqs a (lit "--force")
        then parseLoop stopParsing (withFlags setForce st) rest
        else if eqs a (lit "--dry-run")
        then parseLoop stopParsing (withFlags setDryRun st) rest
        else if eqs a (lit "--tcp")
        then parseLoop stopParsing (withFlags setTcp st) rest
        else if eqs a (lit "--udp")
        then parseLoop stopParsing (withFlags setUdp st) rest
        else if startsWith (lit "--timeout=") a then
          match acceptTimeout (drop 10 a) with
          | Some n => parseLoop stopParsing (withFlags (setTimeoutMs n) st) rest
          | None => parseLoop stopParsing (pushUnknown a st) rest
          end
        else if eqs a (lit "--timeout") then
          match rest with
          | [] => parseLoop stopParsing (pushUnknown a st) rest
          | v :: rest' =>
              match acceptTimeout v with
              | Some n =>
                  parseLoop stopParsing (withFlags (setTimeoutMs n) st) rest'
              | None =>
                  parseLoop stopParsing (pushUnknown (a ++ 32 :: v) st) rest'
              end
          end
        else if startsWith (lit "--pid=") a then
          match acceptPid (drop 6 a) with
          | Some n => parseLoop stopParsing (withFlags (setPid n) st) rest
          | None => parseLoop stopParsing (pushUnknown a st) rest
          end
        else if eqs a (lit "--pid") then
          match rest with
          | [] => parseLoop stopParsing (pushUnknown a st) rest
          | v :: rest' =>
              match acceptPid v with
              | Some n => parseLoop stopParsing (withFlags (setPid n) st) rest'
              | None =>
                  parseLoop stopParsing (pushUnknown (a ++ 32 :: v) st) rest'
              end
          end
        else if matchCompact a then
          let '(consumed, f) := compactLoop (drop 1 a) (flags st) in
          let st' := withFlags (fun _ => f) st in
          if consumed then parseLoop stopParsing st' rest
          else parseLoop stopParsing (pushUnknown a st') rest
        else parseLoop stopParsing (pushUnknown a st) rest
      else
        match parsePortRequest a with
        | Some pr => parseLoop stopParsing (pushPort pr st) rest
        | None =>
            match parseProcessName a with
            | Some pn => parseLoop stopParsing (pushName pn st) rest
            | None => parseLoop stopParsing (pushUnknown a st) rest
            end
        end
  end.

Definition initialFlags : CLIFlags :=
  {| flag_help := false; flag_version := false; flag_list := false;
     flag_json := false; flag_force := false; flag_dryRun := false;
     flag_tcp := false; flag_udp := false;
     flag_timeoutMs := DEFAULT_TIMEOUT_MS; flag_pid := None |}.

Definition initialArgs : ParsedArgs :=
  {| flags := initialFlags; ports := []; processNames := []; unknown := [] |}.

(** What follows the loop: [--json] without [--list] is withdrawn and
    reported; with [--pid] the ports and names are dropped. *)
Definition finishArgs (st : ParsedArgs) : ParsedArgs :=
  let st1 :=
    if flag_json (flags st) && negb (flag_list (flags st))
    then withFlags (setJson false) (pushUnknown (lit "--json") st)
    else st in
  match flag_pid (flags st1) with
  | Some _ => {| flags := flags st1; ports := []; processNames := [];
                 unknown := unknown st1 |}
  | None => st1
  end.

Definition parseArgs (argv : list jsstring) : ParsedArgs :=
  finishArgs (parseLoop false initialArgs argv).

End Args.

(** ** Command-line arguments *)

(** The letters that are short flags: h, v, l, j, f. *)
Definition shortFlag (c : Z) : bool :=
  (c =? 104) || (c =? 118) || (c =? 108) || (c =? 106) || (c =? 102).

(** A short flag written on its own: a dash and the letter. *)
Definition single (c : Z) : jsstring := [45; c].

(** The request for port [n] given as a bare number, and with a protocol. *)
Definition plainPort (n : Z) : Args.PortRequest :=
  {| Args.raw := numToString n; Args.port := n; Args.protocols := None |}.

Definition protoPort (n : Z) (suffix : jsstring) (p : Protocol)
    : Args.PortRequest :=
  {| Args.raw := numToString n ++ 47 :: suffix; Args.port := n;
     Args.protocols := Some [p] |}.

(** An argument that is neither a port request nor a process name. *)
Definition unclassified (a : jsstring) : bool :=
  bool_decide (Args.parsePortRequest a = None)
  && bool_decide (Args.parseProcessName a = None).

(** What holds of the variables of [parseArgs] throughout its loop. *)
Definition argsOk (st : Args.ParsedArgs) : Prop :=
  0 <= Args.flag_timeoutMs (Args.flags st)
  /\ (forall n, Args.flag_pid (Args.flags st) = Some n -> 0 < n)
  /\ Forall (fun pr => 1 <= Args.port pr <= 65535) (Args.ports st)
  /\ Forall (fun pn => Args.name pn = Args.rawName pn
                       /\ Args.matchProcessName (Args.rawName pn) = true)
            (Args.processNames st).

(* ================================================================== *)
(** * core/finder/windows.ts: the tasklist reader                      *)
(* ================================================================== *)

Module Tasklist.

(** The inner loop of [parseCsvLine] for a quoted field, entered after
    the opening quote: [cur] is the text read so far, [s] the characters
    from index [i] on. It returns the field and what is left once the
    closing quote was passed (or the line ended). A doubled quote stands
    for one quote. *)
Fixpoint quotedField (cur s : jsstring) : jsstring * jsstring :=
  match s with
  | [] => (cur, [])
  | ch :: s' =>
      if ch =? 34 then
        match s' with
        | next :: s'' =>
            if next =? 34 then quotedField (cur ++ [34]) s'' else (cur, s')
        | [] => (cur, s')
        end
      else quotedField (cur ++ [ch]) s'
  end.

(** [line[i] !== ','] *)
Definition notComma (c : Z) : bool := negb (c =? 44).

(** The outer loop of [parseCsvLine]; [s] holds the characters from
    index [i] on. Each round uses one unit of [fuel]. *)
Fixpoint csvLoop (fuel : nat) (out : list jsstring) (s : jsstring)
    : option (list jsstring) :=
  match fuel with
  | O => None
  | S fuel' =>
      match s with
      | [] => Some out
      | c :: s' =>
          if c =? 44 then csvLoop fuel' out s'
          else if c =? 34 then
            let '(cur, after) := quotedField [] s' in
            (* skip until next comma *)
            csvLoop fuel' (out ++ [cur]) (dropWhile notComma after)
          else
            (* Unquoted field *)
            csvLoop fuel' (out ++ [trim (takeWhile notComma s)])
                    (dropWhile notComma s)
      end
  end.

(** [parseCsvLine]: every round of the loop moves past one character at
    least, so one round more than the line has characters is enough. *)
Definition parseCsvLine (line : jsstring) : option (list jsstring) :=
  csvLoop (S (length line)) [] line.

(** What [tryTasklistInfo] keeps for a pid; an absent [user] is
    [undefined]. *)
Record TaskInfo := {
  info_name : jsstring;
  info_user : option jsstring;
}.

(** The test for a user name that was decoded with the wrong code page:
    the replacement character, or the three ideographs it turns into. *)
Definition garbled (user0 : jsstring) : bool :=
  includes [65533] user0 || includes [38175; 26020; 25335] user0
  || includes [65533; 65533] user0.

(** The body of the loop of [tryTasklistInfo] for one line. *)
Definition tasklistRow (m : gmap Z TaskInfo) (line : jsstring)
    : gmap Z TaskInfo :=
  match parseCsvLine line with
  | None => m
  | Some row =>
      if (length row <? 7)%nat then m
      else
        match parseInt (orElse (row !! 1%nat) []) with
        | None => m
        | Some pid0 =>
            let user0 :=
              match row !! 6%nat with
              | Some u => if negb (eqs u []) && garbled u then None else Some u
              | None => None
              end in
            <[ pid0 := {| info_name := orElse (row !! 0%nat) [];
                          info_user := user0 |} ]> m
        end
  end.

(** [tryTasklistInfo]; [None] is [null]. *)
Definition tryTasklistInfo : M (option (gmap Z TaskInfo)) :=
  tryCatch
    (let* res := execFile (lit "tasklist")
                   [lit "/V"; lit "/FO"; lit "CSV"; lit "/NH"] (Some 3000) in
     ret (Some (fold_left tasklistRow (ssLines (stdout res)) ∅)))
    (fun _ => ret None).

End Tasklist.

(** ** Lines of comma-separated values *)

(** A field written between double quotes, each quote in it doubled. *)
Definition csvQuote (field : jsstring) : jsstring :=
  34 :: flat_map (fun c => if c =? 34 then [34; 34] else [c]) field ++ [34].

(** Fields joined by commas. *)
Fixpoint csvJoin (fields : list jsstring) : jsstring :=
  match fields with
  | [] => []
  | [f] => f
  | f :: fs => f ++ 44 :: csvJoin fs
  end.

(** A field that can be written without quotes: not empty, no comma in
    it, and no quote at its start. *)
Definition plainField (f : jsstring) : Prop :=
  forallb Tasklist.notComma f = true
  /\ exists c rest, f = c :: rest /\ c <> 34.

(** The outer loop of [parseCsvLine] from the characters [s] on, with the
    fields [out] read so far. *)
Definition csvFrom (out : list jsstring) (s : jsstring)
    : option (list jsstring) :=
  Tasklist.csvLoop (S (length s)) out s.

(** ** Finders *)

(** A record [findByPort] may return for [port0] and [protocols]. *)
Definition answers (port0 : Z) (protocols : list Protocol) (l : Listener)
    : Prop :=
  port l = port0 /\ protocol l ∈ protocols
  /\ source l = Some (lit "netstat").

(** A host without the command [cmd]: spawning it fails with ENOENT. *)
Definition lacks (w : World) (cmd : jsstring) : Prop :=
  forall args, exists msg,
    programs w cmd args = SpawnFails msg (Some (lit "ENOENT")).

(** A host on which the command [cmd] always closes by itself, in less
    than [t] milliseconds. *)
Definition prompt (w : World) (cmd : jsstring) (t : Z) : Prop :=
  forall args, exists d o lag,
    programs w cmd args = Exits d o lag /\ d < t.

Definition bareHost : World :=
  {| now := 0; lateness := []; procs := ∅;
     programs := fun _ _ => SpawnFails None (Some (lit "ENOENT"));
     events := [] |}.

(** ** What a kill reports and what it sends *)

(** A result that can be relied on: it is about [target], and when it
    says ok, [target] no longer exists. *)
Definition honest (target : Z) (m : M KillResult) : Prop :=
  forall w r w',
    m w = Returned r w' ->
    kpid r = target /\ (ok r = true -> gone w' target).

(** [m] never throws: its promise never rejects. *)
Definition neverThrows {A} (m : M A) : Prop :=
  forall w, match m w with Thrown _ _ => False | _ => True end.

(** [m] settles, by returning or by throwing. *)
Definition settles {A} (m : M A) : Prop :=
  forall w, match m w with Unsettled => False | _ => True end.

(** In a stretch of the log (latest first), every SIGKILL sent to a
    process comes after a SIGTERM sent to the same process. *)
Definition termFirst (added : list (Z * Event)) : Prop :=
  forall (i : nat) t x,
    added !! i = Some (t, EKill x SIGKILL) ->
    exists (j : nat) t', (i < j)%nat /\ added !! j = Some (t', EKill x SIGTERM).

Definition escalatesInOrder (w w' : World) : Prop :=
  exists added, events w' = added ++ events w /\ termFirst added.

(** Only polls of [target] were added to the log. *)
Definition pollsOnly (target : Z) (w w' : World) : Prop :=
  exists added, events w' = added ++ events w
                /\ forallb (isPoll target) added = true.

(** The calls [WindowsKiller.kill] may have added to the log, latest
    first: the probe, then taskkill, then taskkill with /F. *)
Definition taskkillCalls (target : Z) (t0 t1 t2 : Z) : list (list (Z * Event)) :=
  let probe := (t0, EKill target SIG0) in
  let gentle :=
    (t1, EExec (lit "taskkill") [lit "/PID"; numToString target; lit "/T"]
           (Some 5000)) in
  let forced :=
    (t2, EExec (lit "taskkill")
           [lit "/PID"; numToString target; lit "/T"; lit "/F"] (Some 5000)) in
  [[probe]; [gentle; probe]; [forced; gentle; probe]].

(** Every signal in a stretch of the log went to [x]. *)
Definition onlyTo (x : Z) (te : Z * Event) : bool :=
  match snd te with
  | EKill y _ => y =? x
  | _ => true
  end.

Definition signalsOnly (x : Z) (w w' : World) : Prop :=
  exists added, events w' = added ++ events w
                /\ forallb (onlyTo x) added = true.

(** No SIGKILL in a stretch of the log. *)
Definition noSigkill (te : Z * Event) : bool :=
  match snd te with
  | EKill _ SIGKILL => false
  | _ => true
  end.

(** ** The list and the result of the selector *)

(** The order of the list shown: by port, then tcp before udp, then by
    pid. *)
Definition protoRank (p : Protocol) : Z :=
  match p with tcp => 0 | udp => 1 end.

Definition itemBefore (a b : Listener) : Prop :=
  port a < port b
  \/ (port a = port b
      /\ (protoRank (protocol a) < protoRank (protocol b)
          \/ (protoRank (protocol a) = protoRank (protocol b)
              /\ pid a <= pid b))).

(** The cursor is on a row of the viewport. *)
Definition cursorVisible (s : Tui.Session) : Prop :=
  Tui.top (Tui.state s) <= Tui.index (Tui.state s)
  < Tui.top (Tui.state s) + Tui.visibleRows s.

(** What a session may have resolved with: a cancellation with nothing
    selected, or a selection drawn from [items] in their order. *)
Definition resultFrom (items : list Listener) (r : TuiSelectResult) : Prop :=
  if cancelled r then selected r = [] else sublist (selected r) items.

(** ** The names the safety classifier looks at *)

(** The name [protectionFor] tests: the process name, else the command,
    else the empty string, in lower case. *)
Definition testedName (l : Listener) : jsstring :=
  toLowerCase
    (match processName l with
     | Some n => n
     | None => orElse (command l) []
     end).

(** The protected names of the platform. *)
Definition protectedNames (p : Platform) : list jsstring :=
  if isWin32 p then WINDOWS_PROTECTED_NAMES else POSIX_PROTECTED_NAMES.

(** The pids protected on the platform: 0 and 4 on Windows, 1 and below
    elsewhere. *)
Definition protectedPid (p : Platform) (n : Z) : bool :=
  if isWin32 p then (n =? 0) || (n =? 4) else n <=? 1.

(* ================================================================== *)
(** * utils/windows.ts                                                 *)
(* ================================================================== *)

(** [isWindowsAdmin]; [p] stands for [process.platform]. *)
Definition isWindowsAdmin (p : Platform) : M bool :=
  if negb (isWin32 p) then ret false
  else
    let script :=
      lit "([Security.Principal.WindowsPrincipal][Security.Principal.WindowsIdentity]::GetCurrent()).IsInRole([Security.Principal.WindowsBuiltInRole]::Administrator)" in
    let args := [lit "-NoProfile"; lit "-NonInteractive";
                 lit "-ExecutionPolicy"; lit "Bypass"; lit "-Command";
                 script] in
    tryCatch
      (let* res := execFile (lit "powershell.exe") args (Some 1500) in
       ret (startsWithCI (lit "true") (trim (stdout res))))
      (fun err => if isCommandNotFound err then ret false else ret false).

(* ================================================================== *)
(** * core/killer/index.ts                                             *)
(* ================================================================== *)

(** [getKiller]: the [kill] of the killer of the platform; [fuel] bounds
    the polling loops of the POSIX one. *)
Definition getKiller (p : Platform) (fuel : nat)
    : Z -> KillOptions -> M KillResult :=
  if isWin32 p then WindowsKiller.kill else PosixKiller.kill fuel.

(* ================================================================== *)
(** * core/finder/index.ts                                             *)
(* ================================================================== *)

(** The [Finder] interface; the second argument of [findByPort] is
    [options.protocols]. *)
Module Finder.

Record t := {
  listAll : M (list Listener);
  findByPort : Z -> list Protocol -> M (list Listener);
}.

End Finder.

(* ================================================================== *)
(** * cli.ts                                                           *)
(* ================================================================== *)

Module Cli.

Inductive Stream := Stdout | Stderr.

(** What the program writes, before it is styled and laid out: the
    message and the values it is built from. *)
Inductive Written :=
| NoActionable
| Killed (l : Listener) (method0 : jsstring)
| Failed (l : Listener) (reason0 : jsstring)
| HintAdmin (isAdmin : bool)
| HintSudo (port0 : Z)
| HintForce
| Help
| Version
| UnknownArguments (unknown0 : list jsstring)
| UsageHint
| NeedsTty
| TryListOrPort
| NoListenersFound
| Json (filtered : list Listener)
| Row (l : Listener)
| Summary (total tcpCount udpCount : nat)
| Refused (l : Listener) (reason0 : jsstring)
| HintForcePid
| WouldKill (pid0 : Z)
| KilledPid (pid0 : Z) (method0 : jsstring)
| FailedPid (pid0 : Z) (message0 : jsstring)
| HintSudoPid
| NoMatchingProcess (raw0 : jsstring)
| NoListenerFound (port0 : Z).

(** The terminal side of the process: what was written to the two
    streams, in order, and [process.exitCode]. *)
Record Console := {
  written : list (Stream * Written);
  exitCode : option Z;
}.

Definition write (s : Stream) (x : Written) (c : Console) : Console :=
  {| written := written c ++ [(s, x)]; exitCode := exitCode c |}.

Definition setExitCode (n : Z) (c : Console) : Console :=
  {| written := written c; exitCode := Some n |}.

Record PerPidResult := {
  pp_ok : bool;
  pp_method : option jsstring;
  pp_message : option jsstring;
  pp_errorCode : option jsstring;
}.

(** [s ? s : d] on a string that may be [undefined] *)
Definition orText (s : option jsstring) (d : jsstring) : jsstring :=
  match s with
  | Some ((_ :: _) as t) => t
  | _ => d
  end.

(** [hintElevationForListener] *)
Definition hintElevationForListener (p : Platform) (l : Listener)
    (c : Console) : M Console :=
  if isWin32 p then
    let* isAdmin := isWindowsAdmin p in
    ret (write Stderr (HintAdmin isAdmin) c)
  else ret (write Stderr (HintSudo (port l)) c).

(** The first loop of [killResolvedListeners], over [unique]: the pid of
    each listener is refused, skipped for a dry run, or killed, and the
    outcome is kept in [perPid]. (The spinner that [withSpinner] draws
    while the killer runs is left out: it only writes to the terminal.) *)
Fixpoint killLoop (p : Platform) (fuel : nat) (force0 dryRun : bool)
    (timeoutMs0 : Z) (unique : list Listener) (perPid : gmap Z PerPidResult)
    : M (gmap Z PerPidResult) :=
  match unique with
  | [] => ret perPid
  | l :: rest =>
      let prot := protectionFor p l in
      if protected prot && negb force0 then
        killLoop p fuel force0 dryRun timeoutMs0 rest
          (<[ pid l := {| pp_ok := false; pp_method := None;
                          pp_message :=
                            Some (orElse (reason prot) (lit "protected"));
                          pp_errorCode := Some (lit "EPERM") |} ]> perPid)
      else if dryRun then
        killLoop p fuel force0 dryRun timeoutMs0 rest
          (<[ pid l := {| pp_ok := true; pp_method := Some (lit "dry-run");
                          pp_message := None; pp_errorCode := None |} ]> perPid)
      else
        let* r := getKiller p fuel (pid l)
                    {| force := Some force0; timeoutMs := Some timeoutMs0;
                       tree := None |} in
        killLoop p fuel force0 dryRun timeoutMs0 rest
          (<[ pid l := {| pp_ok := ok r; pp_method := Some (method r);
                          pp_message := message r;
                          pp_errorCode := errorCode r |} ]> perPid)
  end.

(** The second loop, over [actionable]: one line per listener, from the
    outcome kept for its pid. *)
Fixpoint reportLoop (p : Platform) (force0 : bool)
    (perPid : gmap Z PerPidResult) (actionable : list Listener)
    (c : Console) : M Console :=
  match actionable with
  | [] => ret c
  | l :: rest =>
      match perPid !! pid l with
      | None => reportLoop p force0 perPid rest c
      | Some r =>
          if pp_ok r then
            reportLoop p force0 perPid rest
              (write Stdout (Killed l (orText (pp_method r) [])) c)
          else
            let c1 :=
              write Stderr (Failed l (orText (pp_message r) (lit "failed"))) c in
            let* c2 :=
              (if bool_decide (pp_errorCode r = Some (lit "EPERM")) then
                 let* c' := hintElevationForListener p l c1 in
                 (* Only suggest --force if this was blocked by kkp's
                    protection, not OS permission *)
                 if negb force0
                    && bool_decide (pp_message r = Some (lit "protected"))
                 then ret (write Stderr HintForce c')
                 else ret c'
               else ret c1) in
            reportLoop p force0 perPid rest (setExitCode 1 c2)
      end
  end.

(** [String(l.pid)], the key of the second [uniqBy] *)
Definition pidKey (l : Listener) : jsstring := numToString (pid l).

Definition killResolvedListeners (p : Platform) (fuel : nat)
    (listeners : list Listener) (allowedProtocols : list Protocol)
    (force0 dryRun : bool) (timeoutMs0 : Z) (c : Console) : M Console :=
  let actionable :=
    filter (fun l => protocol l ∈ allowedProtocols) listeners in
  if bool_decide (actionable = []) then ret (write Stdout NoActionable c)
  else
    (* Kill each PID once (but still print one line per listener). *)
    let unique := uniqBy pidKey actionable in
    let* perPid := killLoop p fuel force0 dryRun timeoutMs0 unique ∅ in
    reportLoop p force0 perPid actionable c.

(** [hintElevationForPid] *)
Definition hintElevationForPid (p : Platform) (c : Console) : M Console :=
  if isWin32 p then
    let* isAdmin := isWindowsAdmin p in
    ret (write Stderr (HintAdmin isAdmin) c)
  else ret (write Stderr HintSudoPid c).

(** [renderTable]: a row per listener, then the summary line. *)
Definition renderTable (listeners : list Listener) (c : Console) : Console :=
  let c1 := fold_left (fun c0 l => write Stdout (Row l) c0) listeners c in
  let tcpCount := length (filter (fun l => protocol l = tcp) listeners) in
  let udpCount := length (filter (fun l => protocol l = udp) listeners) in
  write Stdout (Summary (length listeners) tcpCount udpCount) c1.

(** [s.replace(/\.exe$/i, '')] *)
Definition stripExe (s : jsstring) : jsstring :=
  if startsWithCI (rev (lit ".exe")) (rev s) then take (length s - 4) s
  else s.

(** The name a target is matched by, and the test of the filter of
    [killByProcessNames]. *)
Definition targetName (t : Args.ProcessNameRequest) : jsstring :=
  stripExe (toLowerCase (Args.name t)).

Definition nameMatches (name0 : jsstring) (l : Listener) : bool :=
  match processName l with
  | None | Some [] => false
  | Some n =>
      let pname := stripExe (toLowerCase n) in
      eqs pname name0 || includes name0 pname
  end.

(** The loop of [killByProcessNames] over its targets. *)
Fixpoint namesLoop (allListeners : list Listener)
    (targets : list Args.ProcessNameRequest) (matched : list Listener)
    (c : Console) : list Listener * Console :=
  match targets with
  | [] => (matched, c)
  | t :: rest =>
      let found :=
        filter (fun l => nameMatches (targetName t) l = true) allListeners in
      if bool_decide (found = []) then
        namesLoop allListeners rest matched
          (setExitCode 1 (write Stderr (NoMatchingProcess (Args.rawName t)) c))
      else namesLoop allListeners rest (matched ++ found) c
  end.

(** [if (process.exitCode == null) process.exitCode = 1] *)
Definition failIfUnset (c : Console) : Console :=
  match exitCode c with
  | None => setExitCode 1 c
  | Some _ => c
  end.

Definition killByProcessNames (p : Platform) (fuel : nat) (finder : Finder.t)
    (targets : list Args.ProcessNameRequest)
    (allowedProtocols : list Protocol) (force0 dryRun : bool)
    (timeoutMs0 : Z) (c : Console) : M Console :=
  let* allListeners := Finder.listAll finder in
  let '(matched, c1) := namesLoop allListeners targets [] c in
  if bool_decide (matched = []) then ret (failIfUnset c1)
  else
    (* Filter by protocol and dedupe *)
    let filtered := filter (fun l => protocol l ∈ allowedProtocols) matched in
    let unique := uniqBy pidKey filtered in
    killResolvedListeners p fuel unique allowedProtocols force0 dryRun
      timeoutMs0 c1.

(** The loop of [killByPorts] over its targets. *)
Fixpoint portsLoop (finder : Finder.t) (targets : list Args.PortRequest)
    (allowedProtocols : list Protocol) (all : list Listener) (c : Console)
    : M (list Listener * Console) :=
  match targets with
  | [] => ret (all, c)
  | t :: rest =>
      let protocols0 :=
        filter (fun q => q ∈ allowedProtocols)
               (orElse (Args.protocols t) allowedProtocols) in
      if bool_decide (protocols0 = []) then
        portsLoop finder rest allowedProtocols all c
      else
        let* found := Finder.findByPort finder (Args.port t) protocols0 in
        if bool_decide (found = []) then
          portsLoop finder rest allowedProtocols (all ++ found)
            (setExitCode 1 (write Stderr (NoListenerFound (Args.port t)) c))
        else portsLoop finder rest allowedProtocols (all ++ found) c
  end.

Definition killByPorts (p : Platform) (fuel : nat) (finder : Finder.t)
    (targets : list Args.PortRequest) (allowedProtocols : list Protocol)
    (force0 dryRun : bool) (timeoutMs0 : Z) (c : Console) : M Console :=
  let* r := portsLoop finder targets allowedProtocols [] c in
  let '(all, c1) := r in
  if bool_decide (all = []) then ret (failIfUnset c1)
  else killResolvedListeners p fuel all [tcp; udp] force0 dryRun timeoutMs0 c1.

(** The listener [main] makes up for [--pid]. *)
Definition pseudo (pid0 : Z) : Listener :=
  {| protocol := tcp; port := 0; pid := pid0; localAddress := None;
     processName := None; command := None; user := None; raw := None;
     source := None |}.

(** [main]. [p] is the platform and [finder] what [getFinder] returns on
    it; [stdinTTY] and [stdoutTTY] are [process.stdin.isTTY] and
    [process.stdout.isTTY]; [select] is [selectListeners] of ui/tui, which
    resolves with a result and may set [process.exitCode]. *)
Definition main (p : Platform) (fuel : nat) (finder : Finder.t)
    (stdinTTY stdoutTTY : bool)
    (select : list Listener -> Console -> M (TuiSelectResult * Console))
    (argv : list jsstring) (c : Console) : M Console :=
  let parsed := Args.parseArgs argv in
  let flags := Args.flags parsed in
  let ports := Args.ports parsed in
  let processNames := Args.processNames parsed in
  let unknown := Args.unknown parsed in
  if Args.flag_help flags then ret (write Stdout Help c)
  else if Args.flag_version flags then ret (write Stdout Version c)
  else if negb (bool_decide (unknown = [])) then
    ret (setExitCode 1
           (write Stderr UsageHint (write Stderr (UnknownArguments unknown) c)))
  else
    let allowedProtocols := Args.resolveProtocols flags in
    (* kkp (no args) => interactive TUI *)
    if negb (Args.flag_list flags)
       && bool_decide (Args.flag_pid flags = None)
       && bool_decide (ports = []) && bool_decide (processNames = [])
    then
      if negb stdinTTY || negb stdoutTTY then
        ret (setExitCode 1
               (write Stderr TryListOrPort (write Stderr NeedsTty c)))
      else
        let* listeners := Finder.listAll finder in
        if bool_decide (listeners = []) then
          ret (write Stdout NoListenersFound c)
        else
          let* r := select listeners c in
          let '(result, c1) := r in
          if cancelled result then ret c1
          else
            killResolvedListeners p fuel (selected result) allowedProtocols
              (Args.flag_force flags) (Args.flag_dryRun flags)
              (Args.flag_timeoutMs flags) c1
    (* kkp --list *)
    else if Args.flag_list flags then
      let* listeners := Finder.listAll finder in
      let filtered :=
        filter (fun l => protocol l ∈ allowedProtocols) listeners in
      if Args.flag_json flags then ret (write Stdout (Json filtered) c)
      else if bool_decide (filtered = []) then
        ret (write Stdout NoListenersFound c)
      else ret (renderTable filtered c)
    else
      match Args.flag_pid flags with
      (* kkp --pid 1234 *)
      | Some pid0 =>
          let prot := protectionFor p (pseudo pid0) in
          if protected prot && negb (Args.flag_force flags) then
            ret (setExitCode 1
                   (write Stderr HintForcePid
                      (write Stderr
                         (Refused (pseudo pid0)
                            (orElse (reason prot) (lit "protected"))) c)))
          else if Args.flag_dryRun flags then
            ret (write Stdout (WouldKill pid0) c)
          else
            let* res :=
              getKiller p fuel pid0
                {| force := Some (Args.flag_force flags);
                   timeoutMs := Some (Args.flag_timeoutMs flags);
                   tree := None |} in
            if ok res then ret (write Stdout (KilledPid pid0 (method res)) c)
            else
              let c1 :=
                write Stderr
                  (FailedPid pid0 (orElse (message res) (lit "unknown error")))
                  c in
              let* c2 :=
                (if bool_decide (errorCode res = Some (lit "EPERM"))
                 then hintElevationForPid p c1 else ret c1) in
              ret (setExitCode 1 c2)
      (* kkp 3000 [5173 ...] or kkp node [chrome ...] *)
      | None =>
          (* Handle process names first *)
          let* c1 :=
            (if negb (bool_decide (processNames = [])) then
               killByProcessNames p fuel finder processNames allowedProtocols
                 (Args.flag_force flags) (Args.flag_dryRun flags)
                 (Args.flag_timeoutMs flags) c
             else ret c) in
          (* Handle ports *)
          if negb (bool_decide (ports = [])) then
            killByPorts p fuel finder ports allowedProtocols
              (Args.flag_force flags) (Args.flag_dryRun flags)
              (Args.flag_timeoutMs flags) c1
          else ret c1
      end.

End Cli.

(** ** What the command line does to the host *)

(** The listeners [killResolvedListeners] acts on. *)
Definition actionableOf (allowed : list Protocol) (listeners : list Listener)
    : list Listener :=
  filter (fun l => protocol l ∈ allowed) listeners.

(** Every signal in a stretch of the log went to a pid of [pids], and
    nothing was spawned. *)
Definition signalWithin (pids : list Z) (te : Z * Event) : Prop :=
  match snd te with
  | EKill x _ => x ∈ pids
  | ESleep _ => True
  | EExec _ _ _ => False
  end.

(** Only calls that satisfy [P] were added to the log. *)
Definition addsOnly (P : Z * Event -> Prop) (w w' : World) : Prop :=
  exists added, events w' = added ++ events w /\ Forall P added.

Definition signalsWithin (pids : list Z) : World -> World -> Prop :=
  addsOnly (signalWithin pids).

(** The pids that may be signalled: those of the actionable listeners
    that are not protected, or all of them under [force]. *)
Definition killablePids (p : Platform) (force0 : bool)
    (actionable : list Listener) : list Z :=
  pid <$> filter (fun l => protected (protectionFor p l) = false
                           \/ force0 = true) actionable.

(** The result lines of a report, with their listeners. *)
Definition resultLine (sw : Cli.Stream * Cli.Written) : option Listener :=
  match snd sw with
  | Cli.Killed l _ | Cli.Failed l _ => Some l
  | _ => None
  end.

Definition emptyConsole : Cli.Console :=
  {| Cli.written := []; Cli.exitCode := None |}.

(** A protected listener: pid 1. *)
Definition initListener : Listener :=
  {| protocol := tcp; port := 22; pid := 1; localAddress := None;
     processName := Some (lit "systemd"); command := None; user := None;
     raw := None; source := None |}.

(** The results [PosixKiller.kill] can return for [x]. *)
Definition posixResults (x : Z) : list KillResult :=
  [PosixKiller.result x true "already-exited" None None;
   PosixKiller.result x false "SIGTERM" (Some (lit "kill EPERM"))
     (Some (lit "EPERM"));
   sigtermOk x;
   PosixKiller.result x false "SIGKILL" (Some (lit "kill EPERM"))
     (Some (lit "EPERM"));
   sigkillOk x;
   stillAlive x].

(** An outcome kept for a pid that cannot draw the hint about [--force]:
    its message is not the bare word [protected]. *)
Definition plainOutcome (r : Cli.PerPidResult) : Prop :=
  Cli.pp_message r <> Some (lit "protected").

(** The pid and the outcome a result line reports. *)
Definition lineOutcome (sw : Cli.Stream * Cli.Written) : option (Z * bool) :=
  match snd sw with
  | Cli.Killed l _ => Some (pid l, true)
  | Cli.Failed l _ => Some (pid l, false)
  | _ => None
  end.

Definition failedLine (sw : Cli.Stream * Cli.Written) : bool :=
  match snd sw with
  | Cli.Failed _ _ => true
  | _ => false
  end.

(** A line of advice, as opposed to a result line. *)
Definition hintLine (sw : Cli.Stream * Cli.Written) : Prop :=
  match snd sw with
  | Cli.HintAdmin _ | Cli.HintSudo _ | Cli.HintForce => True
  | _ => False
  end.

(** The line agrees with the outcome kept for its pid. *)
Definition lineAgrees (perPid : gmap Z Cli.PerPidResult)
    (sw : Cli.Stream * Cli.Written) : Prop :=
  match lineOutcome sw with
  | Some (y, b) => exists r, perPid !! y = Some r /\ Cli.pp_ok r = b
  | None => True
  end.

(** ** Runs of the command *)

(** A call that is a signal to a pid that satisfies [good], or a sleep;
    never a spawn. *)
Definition signalTo (good : Z -> Prop) (te : Z * Event) : Prop :=
  match snd te with
  | EKill x _ => good x
  | ESleep _ => True
  | EExec _ _ _ => False
  end.

(** The protocols [killByPorts] looks a target up for. *)
Definition lookedUp (allowed : list Protocol) (t : Args.PortRequest)
    : list Protocol :=
  filter (fun q => q ∈ allowed) (orElse (Args.protocols t) allowed).

(** [l] is in the answer of the finder to a lookup for one of the
    targets. *)
Definition foundFor (finder : Finder.t) (targets : list Args.PortRequest)
    (allowed : list Protocol) (l : Listener) : Prop :=
  exists t w0 w1 found,
    t ∈ targets
    /\ lookedUp allowed t <> []
    /\ Finder.findByPort finder (Args.port t) (lookedUp allowed t) w0
       = Returned found w1
    /\ l ∈ found.

(** The command line asks to kill pid [x]: no help, no version, no
    listing, nothing unknown. *)
Definition pidMode (argv : list jsstring) (x : Z) : Prop :=
  Args.flag_help (Args.flags (Args.parseArgs argv)) = false
  /\ Args.flag_version (Args.flags (Args.parseArgs argv)) = false
  /\ Args.unknown (Args.parseArgs argv) = []
  /\ Args.flag_list (Args.flags (Args.parseArgs argv)) = false
  /\ Args.flag_pid (Args.flags (Args.parseArgs argv)) = Some x.

(** A finder that knows two listeners and spawns nothing, and a selector
    that cancels. *)
Definition sampleFinder : Finder.t :=
  {| Finder.listAll := ret [initListener; sampleListener 4242];
     Finder.findByPort := fun port0 protos =>
       ret (filter (fun l => port l = port0 /\ protocol l ∈ protos)
                   [initListener; sampleListener 4242]) |}.

Definition cancelling (listeners : list Listener) (c : Cli.Console)
    : M (TuiSelectResult * Cli.Console) :=
  ret ({| cancelled := true; selected := [] |}, c).

(* ================================================================== *)
(** * Properties                                                       *)
(* ================================================================== *)

(** ** Safety classifier *)

Section Protection.

(** C2 (protection monotonicity): a listener whose pid is 0 or 4 on
    Windows, or 1 on any other platform, is reported as protected,
    whatever its other fields hold. *)
Theorem protection_monotonicity (p : Platform) (l : Listener) :
  (p = win32 /\ (pid l = 0 \/ pid l = 4)) \/ (p <> win32 /\ pid l = 1) ->
  protected (protectionFor p l) = true.
Proof.
  intros [[-> Hpid] | [Hp Hpid]]; unfold protectionFor; simpl.
  - destruct Hpid as [-> | ->]; reflexivity.
  - rewrite Hpid. destruct p; try reflexivity. congruence.
Qed.

(** On a host that is not Windows every pid up to 1 is protected, with
    the reason the refusal message shows. *)
Lemma protection_init_reason (p : Platform) (l : Listener) :
  p <> win32 -> pid l <= 1 ->
  protectionFor p l = protectedResult "pid 1 (system init)".
Proof.
  intros Hp Hpid. unfold protectionFor.
  destruct p; try congruence; simpl;
    destruct (Z.leb_spec (pid l) 1); (reflexivity || lia).
Qed.

End Protection.


Lemma protection_monotonicity_witness :
  protected (protectionFor win32 (sampleListener 4)) = true /\
  protected (protectionFor linux (sampleListener 1)) = true.
Proof.
  split.
  - apply (protection_monotonicity win32 (sampleListener 4)).
    left. split; [reflexivity | right; reflexivity].
  - apply (protection_monotonicity linux (sampleListener 1)).
    right. split; [discriminate | reflexivity].
Defined.

(** ** Deduplication *)

Section UniqByFacts.
Context {T K : Type} {Hdec : EqDecision K} {Hcnt : Countable K}.
Variable key : T -> K.

Local Abbreviation keysOf xs := (list_to_set (key <$> xs) : gset K).

Lemma uniqBy_loop_out (seen : gset K) (out xs : list T) :
  uniqBy_loop key seen out xs = out ++ uniqBy_loop key seen [] xs.
Proof.
  revert seen out. induction xs as [|x xs IH]; intros seen out; simpl.
  - by rewrite app_nil_r.
  - destruct (decide (key x ∈ seen)); [apply IH|].
    rewrite (IH _ (out ++ [x])), (IH _ [x]). by rewrite <- app_assoc.
Qed.

Lemma uniqBy_loop_app (seen : gset K) (out xs ys : list T) :
  uniqBy_loop key seen out (xs ++ ys)
  = uniqBy_loop key (seen ∪ keysOf xs) (uniqBy_loop key seen out xs) ys.
Proof.
  revert seen out. induction xs as [|x xs IH]; intros seen out; simpl.
  - f_equal. simpl. set_solver.
  - destruct (decide (key x ∈ seen)) as [Hin|Hin]; rewrite IH; f_equal;
      simpl; set_solver.
Qed.

Lemma uniqBy_loop_all_seen (seen : gset K) (out xs : list T) :
  (forall x, x ∈ xs -> key x ∈ seen) ->
  uniqBy_loop key seen out xs = out.
Proof.
  revert out. induction xs as [|x xs IH]; intros out Hall; simpl; [done|].
  destruct (decide (key x ∈ seen)) as [_|Hn].
  - apply IH. intros y Hy. apply Hall. by right.
  - exfalso. apply Hn, Hall. by left.
Qed.

Lemma uniqBy_loop_elem (seen : gset K) (xs : list T) (x : T) :
  x ∈ uniqBy_loop key seen [] xs -> x ∈ xs /\ key x ∉ seen.
Proof.
  revert seen. induction xs as [|y xs IH]; intros seen; simpl.
  - by intros ?%elem_of_nil.
  - destruct (decide (key y ∈ seen)) as [Hin|Hn].
    + intros [? ?]%IH. split; [by right|done].
    + rewrite uniqBy_loop_out. simpl. intros [->|Hx]%elem_of_cons.
      * split; [by left|done].
      * apply IH in Hx as [? ?]. split; [by right|set_solver].
Qed.

(** The keys of the result are pairwise distinct. *)
Lemma uniqBy_loop_NoDup (seen : gset K) (xs : list T) :
  NoDup (key <$> uniqBy_loop key seen [] xs).
Proof.
  revert seen. induction xs as [|y xs IH]; intros seen; simpl.
  - constructor.
  - destruct (decide (key y ∈ seen)) as [Hin|Hn]; [apply IH|].
    rewrite uniqBy_loop_out. simpl. constructor; [|apply IH].
    intros (z & Hk & Hz)%list_elem_of_fmap.
    apply uniqBy_loop_elem in Hz as [_ Hz]. set_solver.
Qed.

(** A list whose keys are distinct and unseen is left as it is. *)
Lemma uniqBy_loop_fixed (seen : gset K) (ys : list T) :
  NoDup (key <$> ys) -> (forall y, y ∈ ys -> key y ∉ seen) ->
  uniqBy_loop key seen [] ys = ys.
Proof.
  revert seen. induction ys as [|y ys IH]; intros seen Hnd Hfresh; simpl; [done|].
  apply NoDup_cons in Hnd as [Hy Hnd].
  destruct (decide (key y ∈ seen)) as [Hin|_].
  - exfalso. by apply (Hfresh y); [left|].
  - rewrite uniqBy_loop_out. simpl. f_equal. apply IH; [done|].
    intros z Hz. apply not_elem_of_union. split.
    + intros Heq%elem_of_singleton. apply Hy, list_elem_of_fmap. eauto.
    + apply Hfresh. by right.
Qed.

Lemma keysOf_cons (x : T) (xs : list T) :
  keysOf (x :: xs) = {[ key x ]} ∪ keysOf xs.
Proof. reflexivity. Qed.

Lemma uniqBy_keys (seen : gset K) (xs : list T) :
  keysOf (uniqBy_loop key seen [] xs) ∪ seen = keysOf xs ∪ seen.
Proof.
  revert seen. induction xs as [|y xs IH]; intros seen; simpl; [done|].
  destruct (decide (key y ∈ seen)) as [Hin|Hn].
  - rewrite IH. set_solver.
  - rewrite uniqBy_loop_out. simpl.
    pose proof (IH ({[key y]} ∪ seen)) as IH'.
    apply set_eq; intros k.
    apply (proj1 (set_eq _ _)) with (x := k) in IH'.
    rewrite !elem_of_union in *. tauto.
Qed.

Lemma uniqBy_twice (xs : list T) :
  uniqBy key (xs ++ xs) = uniqBy key xs.
Proof.
  unfold uniqBy. rewrite uniqBy_loop_app. apply uniqBy_loop_all_seen.
  intros x Hx. apply elem_of_union_r.
  apply elem_of_list_to_set, list_elem_of_fmap. eauto.
Qed.

Lemma uniqBy_idempotent (xs : list T) :
  uniqBy key (uniqBy key xs) = uniqBy key xs.
Proof.
  unfold uniqBy. apply uniqBy_loop_fixed; [apply uniqBy_loop_NoDup|].
  intros y _. apply not_elem_of_empty.
Qed.

Lemma uniqBy_sublist (xs : list T) (x : T) : x ∈ uniqBy key xs -> x ∈ xs.
Proof. intros Hx. by apply uniqBy_loop_elem in Hx as [? _]. Qed.

Lemma uniqBy_same_keys (xs : list T) : keysOf (uniqBy key xs) = keysOf xs.
Proof.
  unfold uniqBy. pose proof (uniqBy_keys ∅ xs) as Hk.
  by rewrite !(right_id_L ∅ (∪)) in Hk.
Qed.

End UniqByFacts.

(** The template string of the key determines the four fields it is
    built from (an absent address counting as the empty one). *)
Section KeyFacts.

Lemma uintUnits_digits (d : Decimal.uint) : forallb isDigit (uintUnits d) = true.
Proof. induction d; simpl; by rewrite ?IHd. Qed.

Lemma uintUnits_inj (d d' : Decimal.uint) :
  uintUnits d = uintUnits d' -> d = d'.
Proof.
  revert d'. induction d; intros d'; destruct d'; simpl; try discriminate;
    try done; intros [= Heq]; f_equal; by apply IHd.
Qed.

Lemma intUnits_inj (d d' : Decimal.int) : intUnits d = intUnits d' -> d = d'.
Proof.
  destruct d as [d|d], d' as [d'|d']; simpl.
  - by intros ->%uintUnits_inj.
  - intros Heq. pose proof (uintUnits_digits d) as Hd. rewrite Heq in Hd.
    discriminate.
  - intros Heq. pose proof (uintUnits_digits d') as Hd. rewrite <- Heq in Hd.
    discriminate.
  - intros [= Heq]. by apply uintUnits_inj in Heq as ->.
Qed.

Lemma numToString_inj (n m : Z) : numToString n = numToString m -> n = m.
Proof.
  unfold numToString. intros Heq%intUnits_inj.
  by rewrite <- (DecimalZ.of_to n), <- (DecimalZ.of_to m), Heq.
Qed.

Lemma numToString_no_colon (n : Z) : 58 ∉ numToString n.
Proof.
  unfold numToString.
  assert (forall d, 58 ∉ uintUnits d) as Hu.
  { intros d Hin. pose proof (uintUnits_digits d) as Hd.
    rewrite forallb_forall in Hd. apply list_elem_of_In, Hd in Hin.
    discriminate. }
  destruct (Z.to_int n) as [d|d]; simpl; [apply Hu|].
  intros [?|?]%elem_of_cons; [done|by apply (Hu d)].
Qed.

(** Two texts without a colon, each followed by a colon: where the first
    colon stands tells them apart. *)
Lemma split_at_colon (x y u v : jsstring) :
  58 ∉ x -> 58 ∉ y -> x ++ 58 :: u = y ++ 58 :: v -> x = y /\ u = v.
Proof.
  revert y. induction x as [|a x IH]; intros y Hx Hy; destruct y as [|b y];
    simpl.
  - by intros [= ->].
  - intros [= <- _]. exfalso. apply Hy. by left.
  - intros [= -> _]. exfalso. apply Hx. by left.
  - intros [= <- Heq]. destruct (IH y) as [-> ->]; [| |done|done].
    + intros ?. apply Hx. by right.
    + intros ?. apply Hy. by right.
Qed.

Lemma listenerKey_inj (a b : Listener) :
  listenerKey a = listenerKey b <->
  protocol a = protocol b /\ port a = port b /\ pid a = pid b
  /\ orElse (localAddress a) [] = orElse (localAddress b) [].
Proof.
  unfold listenerKey. split.
  - intros Heq.
    assert (protocol a = protocol b
            /\ numToString (port a) ++ 58 :: numToString (pid a) ++ 58 ::
                 orElse (localAddress a) []
               = numToString (port b) ++ 58 :: numToString (pid b) ++ 58 ::
                   orElse (localAddress b) []) as [Hproto Hrest].
    { destruct (protocol a), (protocol b); simpl in Heq;
        try discriminate; by injection Heq. }
    apply split_at_colon in Hrest as [Hport Hrest];
      [|apply numToString_no_colon..].
    apply split_at_colon in Hrest as [Hpid Haddr];
      [|apply numToString_no_colon..].
    by apply numToString_inj in Hport, Hpid.
  - by intros (-> & -> & -> & ->).
Qed.

End KeyFacts.

(** C4 (dedup idempotence): deduplicating the records of two identical
    discovery runs put one after the other gives the very list that
    deduplicating one run gives; deduplicating again changes nothing; the
    result is made of records of the input, holds every key of the input,
    and no two of its records agree on (protocol, port, pid,
    localAddress). *)
Theorem dedupe_idempotent (xs : list Listener) :
  dedupe (xs ++ xs) = dedupe xs
  /\ dedupe (dedupe xs) = dedupe xs
  /\ (forall x, x ∈ dedupe xs -> x ∈ xs)
  /\ (forall x, x ∈ xs ->
        exists y, y ∈ dedupe xs /\ listenerKey y = listenerKey x)
  /\ (forall i j a b,
        dedupe xs !! i = Some a -> dedupe xs !! j = Some b ->
        protocol a = protocol b -> port a = port b -> pid a = pid b ->
        orElse (localAddress a) [] = orElse (localAddress b) [] ->
        i = j).
Proof.
  unfold dedupe. split; [apply uniqBy_twice|].
  split; [apply uniqBy_idempotent|].
  split; [apply uniqBy_sublist|].
  split.
  - intros x Hx. pose proof (uniqBy_same_keys listenerKey xs) as Hk.
    assert (listenerKey x ∈ (list_to_set (listenerKey <$> uniqBy listenerKey xs)
                             : gset (list Z))) as Hin.
    { rewrite Hk. apply elem_of_list_to_set, list_elem_of_fmap. eauto. }
    apply elem_of_list_to_set, list_elem_of_fmap in Hin as (y & Hy & Hin).
    eauto.
  - intros i j a b Ha Hb Hproto Hport Hpid Haddr.
    apply (NoDup_lookup (listenerKey <$> uniqBy listenerKey xs) i j
             (listenerKey a)).
    + apply uniqBy_loop_NoDup.
    + by rewrite list_lookup_fmap, Ha.
    + rewrite list_lookup_fmap, Hb. simpl. f_equal.
      symmetry. by apply listenerKey_inj.
Qed.

(** ** Parsers *)

Section ParserFacts.

(** A loop that pushes the record of each line that yields one computes
    the records of the lines, in order. *)
Lemma fold_push {A B} (f : A -> option B) (xs : list A) (acc : list B) :
  fold_left (fun out x => match f x with
                          | Some r => out ++ [r]
                          | None => out
                          end) xs acc
  = acc ++ omap f xs.
Proof.
  revert acc. induction xs as [|x xs IH]; intros acc; simpl.
  - by rewrite app_nil_r.
  - rewrite IH. destruct (f x); simpl; [by rewrite <- app_assoc|done].
Qed.

Lemma parseSs_lines (stdout0 : jsstring) (proto : Protocol) (src : jsstring) :
  parseSs stdout0 proto src = omap (parseSsLine proto src) (ssLines stdout0).
Proof. unfold parseSs. by rewrite fold_push. Qed.

Lemma parseNetstat_lines (stdout0 : jsstring) (proto : Protocol) :
  parseNetstat stdout0 proto
  = omap (parseNetstatLine proto) (splitLines stdout0).
Proof. unfold parseNetstat. by rewrite fold_push. Qed.

Lemma splitWs_cons (c : Z) (s : jsstring) :
  splitWs (c :: s) =
  if isWhite c then
    match s with
    | c' :: _ => if isWhite c' then splitWs s else [] :: splitWs s
    | [] => [[]; []]
    end
  else
    match splitWs s with
    | f :: fs => (c :: f) :: fs
    | [] => [[c]]
    end.
Proof. reflexivity. Qed.

(** A string that starts with white space has an empty first field. *)
Lemma splitWs_white_head (c : Z) (s : jsstring) :
  isWhite c = true -> exists fs, splitWs (c :: s) = [] :: fs.
Proof.
  revert c. induction s as [|c' s IH]; intros c Hc; rewrite splitWs_cons, Hc.
  - by exists [[]].
  - destruct (isWhite c') eqn:Hc'; [by apply IH|by eexists].
Qed.

Lemma splitWs_not_nil (s : jsstring) : splitWs s <> [].
Proof.
  destruct s as [|c s]; [done|].
  destruct (isWhite c) eqn:Hc.
  - destruct (splitWs_white_head c s Hc) as [fs ->]. done.
  - rewrite splitWs_cons, Hc. by destruct (splitWs s).
Qed.

(** The first field is a prefix of the string. *)
Lemma splitWs_head_prefix (s f : jsstring) (fs : list jsstring) :
  splitWs s = f :: fs -> exists rest, s = f ++ rest.
Proof.
  revert f fs. induction s as [|c s IH]; intros f fs.
  - intros [= <- <-]. by exists [].
  - destruct (isWhite c) eqn:Hc.
    + destruct (splitWs_white_head c s Hc) as [gs ->].
      intros [= <- <-]. by exists (c :: s).
    + rewrite splitWs_cons, Hc.
      destruct (splitWs s) as [|g gs] eqn:Hs; [by apply splitWs_not_nil in Hs|].
      intros [= <- <-]. destruct (IH _ _ eq_refl) as [rest ->].
      by exists rest.
Qed.

(** Empty fields only arise at the ends: the first field is empty only
    if the string is empty or starts with white space, a later one only
    if the string ends with white space. *)
Lemma splitWs_empty_fields (s : jsstring) :
  (forall f fs, splitWs s = f :: fs -> f = [] ->
     s = [] \/ exists c s', s = c :: s' /\ isWhite c = true)
  /\ (forall f, f ∈ tail (splitWs s) -> f = [] ->
       exists c, last s = Some c /\ isWhite c = true).
Proof.
  induction s as [|c s [IH1 IH2]].
  - split; [by left|]. simpl. by intros f ?%elem_of_nil.
  - rewrite splitWs_cons. destruct (isWhite c) eqn:Hc.
    + split; [intros; right; by exists c, s|].
      destruct s as [|c' s'].
      * intros f _ _. by exists c.
      * destruct (isWhite c') eqn:Hc'.
        -- intros f Hf Hnil. destruct (IH2 f Hf Hnil) as (d & Hd & Hw).
           exists d. by split.
        -- pose proof (splitWs_not_nil (c' :: s')) as Hnn.
           remember (splitWs (c' :: s')) as sp eqn:Hs in *.
           destruct sp as [|g gs]; [done|].
           simpl tail. intros f Hf Hnil.
           apply elem_of_cons in Hf as [->|Hf].
           ++ destruct (IH1 _ _ eq_refl Hnil) as [?|(d & t & [= <- <-] & Hd)];
                [done|congruence].
           ++ destruct (IH2 f Hf Hnil) as (d & Hd & Hw). exists d. by split.
    + destruct (splitWs s) as [|g gs] eqn:Hs; [by apply splitWs_not_nil in Hs|].
      split; [by intros f fs [= <- <-] ?|].
      simpl tail. intros f Hf Hnil.
      destruct (IH2 f Hf Hnil) as (d & Hd & Hw). exists d. split; [|done].
      destruct s; [done|exact Hd].
Qed.

Lemma dropWhile_head {A} (p : A -> bool) (l : list A) (x : A) (r : list A) :
  dropWhile p l = x :: r -> p x = false.
Proof.
  induction l as [|y l IH]; simpl; [done|].
  destruct (p y) eqn:Hy; [done|]. by intros [= <- <-].
Qed.

Lemma dropWhile_suffix {A} (p : A -> bool) (l : list A) :
  exists a, l = a ++ dropWhile p l.
Proof.
  induction l as [|y l [a IH]]; simpl; [by exists []|].
  destruct (p y); [|by exists []].
  exists (y :: a). simpl. by f_equal.
Qed.

(** A trimmed string neither starts nor ends with white space. *)
Lemma trim_ends (s : jsstring) :
  (forall c t, trim s = c :: t -> isWhite c = false)
  /\ (forall c, last (trim s) = Some c -> isWhite c = false).
Proof.
  unfold trim, trimEnd, trimStart.
  set (u := dropWhile isWhite s).
  destruct (dropWhile_suffix isWhite (rev u)) as [a Ha].
  set (d := dropWhile isWhite (rev u)) in *.
  assert (u = rev d ++ rev a) as Hu.
  { rewrite <- (rev_involutive u), Ha, rev_app_distr. done. }
  split.
  - intros c t Ht.
    destruct u as [|x u'] eqn:Hux.
    + destruct (rev d); [discriminate|]. by destruct l.
    + assert (x = c) as <-.
      { rewrite Ht in Hu. simpl in Hu. by injection Hu as -> _. }
      by apply (dropWhile_head isWhite s x u').
  - intros c Hc.
    destruct d as [|x r] eqn:Hd; [done|].
    simpl in Hc. rewrite last_snoc in Hc. injection Hc as <-.
    by apply (dropWhile_head isWhite (rev u) x r).
Qed.

(** The fields of a trimmed, non-empty line are non-empty. *)
Lemma splitWs_trim_fields (s f : jsstring) :
  trim s <> [] -> f ∈ splitWs (trim s) -> f <> [].
Proof.
  intros Hne Hf ->.
  destruct (trim_ends s) as [Hhead Hlast].
  destruct (splitWs_empty_fields (trim s)) as [H1 H2].
  destruct (splitWs (trim s)) as [|g gs] eqn:Hs; [by apply elem_of_nil in Hf|].
  apply elem_of_cons in Hf as [<-|Hf].
  - destruct (H1 _ _ eq_refl eq_refl) as [?|(c & t & Ht & Hc)]; [done|].
    by rewrite (Hhead _ _ Ht) in Hc.
  - destruct (H2 [] Hf eq_refl) as (c & Hc & Hw).
    by rewrite (Hlast _ Hc) in Hw.
Qed.

Lemma toLowerCase_cons (c : Z) (s : jsstring) :
  toLowerCase (c :: s) = lowerUnit c ++ toLowerCase s.
Proof. reflexivity. Qed.

(** The first unit of a string whose lower case starts with an ASCII
    lower-case letter other than [i] and [k] is that letter, in either
    case. *)
Lemma lower_head (c x : Z) (s t : jsstring) :
  toLowerCase (c :: s) = x :: t -> 97 <= x <= 122 -> x <> 105 -> x <> 107 ->
  upperAscii c = x - 32.
Proof.
  rewrite toLowerCase_cons. unfold lowerUnit, upperAscii.
  destruct (Z.leb_spec 65 c), (Z.leb_spec c 90); simpl;
    destruct (Z.leb_spec 97 c), (Z.leb_spec c 122); simpl;
    repeat (match goal with
            | |- context [?a =? ?b] => destruct (Z.eqb_spec a b); simpl
            end);
    intros [= <- _]; lia.
Qed.

(** A line whose first field reads [udp] is not one of the two header
    lines the parser skips. *)
Lemma udp_not_header (f rest : jsstring) :
  toLowerCase f = lit "udp" ->
  f ++ rest <> []
  /\ startsWithCI (lit "proto") (f ++ rest) = false
  /\ startsWithCI (lit "active") (f ++ rest) = false.
Proof.
  intros Hf. destruct f as [|c f]; [discriminate|].
  change (lit "udp") with [117; 100; 112] in Hf.
  pose proof (lower_head c 117 f _ Hf ltac:(lia) ltac:(lia) ltac:(lia)) as Hc.
  split; [done|]. simpl. rewrite Hc. done.
Qed.

(** A netstat row whose protocol column reads TCP yields no record
    unless its state column reads LISTENING (in any case). *)
Lemma netstat_tcp_state (proto : Protocol) (raw0 f0 : jsstring) :
  splitWs (trim raw0) !! 0%nat = Some f0 ->
  toLowerCase f0 = lit "tcp" ->
  (forall st, splitWs (trim raw0) !! 3%nat = Some st ->
              toLowerCase st <> lit "listening") ->
  parseNetstatLine proto raw0 = None.
Proof.
  intros Hf0 Htcp Hstate. unfold parseNetstatLine. cbv zeta.
  case_bool_decide as Hne; [done|].
  destruct (startsWithCI (lit "proto") (trim raw0)); [done|].
  destruct (startsWithCI (lit "active") (trim raw0)); [done|].
  destruct (Nat.ltb_spec (length (splitWs (trim raw0))) 4) as [|Hlen]; [done|].
  rewrite Hf0. cbn [orElse]. rewrite Htcp.
  change (eqs (lit "tcp") (lit "tcp")) with true.
  change (eqs (lit "tcp") (lit "udp")) with false.
  cbn [negb andb].
  destruct (lookup_lt_is_Some_2 (splitWs (trim raw0)) 3) as [st Hst]; [lia|].
  rewrite Hst.
  assert (st <> []) as Hst0.
  { apply (splitWs_trim_fields raw0); [done|].
    by apply list_elem_of_lookup_2 in Hst. }
  rewrite bool_decide_eq_false_2 by done.
  unfold eqs at 1. rewrite bool_decide_eq_false_2 by (by apply Hstate). done.
Qed.

(** A netstat row whose protocol column reads UDP is kept as soon as its
    local address yields a port and its fourth column a pid. *)
Lemma netstat_udp_kept (proto : Protocol)
    (raw0 f0 local pidStr : jsstring) (port0 pid0 : Z)
    (address : option jsstring) :
  splitWs (trim raw0) !! 0%nat = Some f0 ->
  toLowerCase f0 = lit "udp" ->
  splitWs (trim raw0) !! 1%nat = Some local ->
  splitWs (trim raw0) !! 3%nat = Some pidStr ->
  parseInt pidStr = Some pid0 ->
  parseWindowsAddressPort local = (Some port0, address) ->
  port0 <> 0 ->
  parseNetstatLine proto raw0 =
    Some {| protocol := proto; port := port0; pid := pid0;
            localAddress := address; processName := None; command := None;
            user := None; raw := Some raw0; source := Some (lit "netstat") |}.
Proof.
  intros Hf0 Hudp Hlocal Hpid Hint Haddr Hport. unfold parseNetstatLine.
  cbv zeta.
  destruct (splitWs (trim raw0)) as [|g gs] eqn:Hs; [done|].
  injection Hf0 as ->.
  destruct (splitWs_head_prefix _ _ _ Hs) as [rest Hrest].
  destruct (udp_not_header f0 rest Hudp) as (Hne & Hproto & Hactive).
  rewrite Hrest, bool_decide_eq_false_2, Hproto, Hactive by done.
  apply lookup_lt_Some in Hpid as Hlen.
  destruct (Nat.ltb_spec (length (f0 :: gs)) 4) as [|_]; [lia|].
  change ((f0 :: gs) !! 0%nat) with (Some f0). cbn [orElse]. rewrite Hudp.
  change (eqs (lit "udp") (lit "tcp")) with false.
  change (eqs (lit "udp") (lit "udp")) with true.
  cbn [negb andb]. rewrite Hlocal, Hpid. cbn [orElse parseIntOpt].
  rewrite Hint, Haddr. cbn [falsy orElse].
  destruct (Z.eqb_spec port0 0); [done|]. done.
Qed.

End ParserFacts.

Section ColumnFacts.

Lemma word_head (c : jsstring) :
  word c -> exists x t, c = x :: t /\ isWhite x = false.
Proof.
  intros [Hne Hall]. destruct c as [|x t]; [done|].
  simpl in Hall. apply andb_true_iff in Hall as [Hx _].
  exists x, t. split; [done|]. by apply negb_true_iff.
Qed.

Lemma word_last (c : jsstring) :
  word c -> exists x, last c = Some x /\ isWhite x = false.
Proof.
  intros [Hne Hall]. induction c as [|x c IH]; [done|].
  simpl in Hall. apply andb_true_iff in Hall as [Hx Hall].
  destruct c as [|y c]; [exists x; split; [done|by apply negb_true_iff]|].
  by apply IH.
Qed.

Lemma splitWs_word (c : jsstring) : word c -> splitWs c = [c].
Proof.
  intros [Hne Hall]. induction c as [|x c IH]; [done|].
  simpl in Hall. apply andb_true_iff in Hall as [Hx Hall].
  apply negb_true_iff in Hx. rewrite splitWs_cons, Hx.
  destruct c as [|y c]; [done|]. by rewrite IH.
Qed.

(** White space before a column leaves an empty first field. *)
Lemma splitWs_blank_head (sep rest : jsstring) :
  blank sep -> sep <> [] ->
  (exists x t, rest = x :: t /\ isWhite x = false) ->
  splitWs (sep ++ rest) = [] :: splitWs rest.
Proof.
  intros Hb Hne (x & t & -> & Hx).
  induction sep as [|w sep IH]; [done|].
  unfold blank in Hb. simpl in Hb. apply andb_true_iff in Hb as [Hw Hb].
  change ((w :: sep) ++ x :: t) with (w :: (sep ++ x :: t)).
  rewrite splitWs_cons, Hw. destruct sep as [|w' sep].
  - simpl. by rewrite Hx.
  - change ((w' :: sep) ++ x :: t) with (w' :: (sep ++ x :: t)).
    simpl in Hb. apply andb_true_iff in Hb as [Hw' Hb']. rewrite Hw'.
    change (w' :: (sep ++ x :: t)) with ((w' :: sep) ++ x :: t).
    apply IH; [|done]. unfold blank. simpl. by rewrite Hw', Hb'.
Qed.

Lemma splitWs_word_head (c rest : jsstring) (fs : list jsstring) :
  word c -> splitWs rest = [] :: fs -> splitWs (c ++ rest) = c :: fs.
Proof.
  intros [Hne Hall] Hrest. induction c as [|x c IH]; [done|].
  simpl in Hall. apply andb_true_iff in Hall as [Hx Hall].
  apply negb_true_iff in Hx.
  change ((x :: c) ++ rest) with (x :: (c ++ rest)).
  rewrite splitWs_cons, Hx. destruct c as [|y c].
  - simpl. by rewrite Hrest.
  - by rewrite IH.
Qed.

Lemma columns_head (s : jsstring) (cols : list jsstring) :
  columns s cols -> exists x t, s = x :: t /\ isWhite x = false.
Proof.
  intros [c Hc|c sep rest cols' Hc _ _ _]; destruct (word_head c Hc)
    as (x & t & -> & Hx); by eexists _, _.
Qed.

Lemma columns_last_unit (s : jsstring) (cols : list jsstring) :
  columns s cols -> exists x, last s = Some x /\ isWhite x = false.
Proof.
  induction 1 as [c Hc|c sep rest cols Hc Hsep Hne Hrest (x & Hx & Hw)].
  - by apply word_last.
  - exists x. split; [|done]. by rewrite !last_app, Hx.
Qed.

Lemma columns_words (s : jsstring) (cols : list jsstring) :
  columns s cols -> Forall word cols.
Proof. induction 1; by constructor. Qed.

(** The columns of a line are the fields the parsers split it into. *)
Lemma columns_splitWs (s : jsstring) (cols : list jsstring) :
  columns s cols -> splitWs s = cols.
Proof.
  induction 1 as [c Hc|c sep rest cols Hc Hsep Hne Hrest IH].
  - by apply splitWs_word.
  - apply splitWs_word_head; [done|].
    rewrite splitWs_blank_head; [by rewrite IH|done|done|].
    by eapply columns_head.
Qed.

Lemma takeWhile_dropWhile {A} (f : A -> bool) (l : list A) :
  l = takeWhile f l ++ dropWhile f l /\ forallb f (takeWhile f l) = true.
Proof.
  induction l as [|x l [IH1 IH2]]; simpl; [done|].
  destruct (f x) eqn:Hx; simpl; [|done]. rewrite Hx, IH2. split; [|done].
  by f_equal.
Qed.

(** And the fields of a line with no white space at either end are its
    columns. *)
Lemma splitWs_columns (s : jsstring) :
  (exists x t, s = x :: t /\ isWhite x = false) ->
  (exists x, last s = Some x /\ isWhite x = false) ->
  columns s (splitWs s).
Proof.
  induction s as [s IH] using (induction_ltof1 _ (@length Z)).
  unfold ltof in IH. intros (x & t & Hs & Hx) (y & Hlast & Hy).
  pose (nonWhite := fun c => negb (isWhite c)).
  destruct (takeWhile_dropWhile nonWhite s) as [Hsplit Hc].
  remember (takeWhile nonWhite s) as c eqn:Ec.
  remember (dropWhile nonWhite s) as r eqn:Er.
  assert (word c) as Hword.
  { split; [|done]. rewrite Ec, Hs. simpl. unfold nonWhite at 1.
    by rewrite Hx. }
  destruct r as [|w r'].
  { rewrite app_nil_r in Hsplit. rewrite Hsplit, splitWs_word by done.
    by constructor. }
  assert (isWhite w = true) as Hw.
  { symmetry in Er. apply (dropWhile_head nonWhite) in Er.
    by apply negb_false_iff. }
  destruct (takeWhile_dropWhile isWhite (w :: r')) as [Hsplit2 Hsep].
  remember (takeWhile isWhite (w :: r')) as sep eqn:Esep.
  remember (dropWhile isWhite (w :: r')) as rest eqn:Erest.
  assert (sep <> []) as Hsepne.
  { rewrite Esep. simpl. by rewrite Hw. }
  destruct rest as [|z rest'].
  { exfalso. rewrite app_nil_r in Hsplit2.
    assert (last s = last sep) as Hls.
    { rewrite Hsplit, Hsplit2, last_app.
      destruct (last sep) eqn:Hsl; [done|].
      by apply last_None in Hsl. }
    rewrite Hlast in Hls. symmetry in Hls.
    apply last_Some in Hls as [pre Hpre].
    rewrite Hpre, forallb_app in Hsep.
    simpl in Hsep. rewrite Hy in Hsep.
    by rewrite andb_false_r in Hsep. }
  assert (isWhite z = false) as Hz.
  { symmetry in Erest. by apply (dropWhile_head isWhite (w :: r') z rest'). }
  assert (last s = last (z :: rest')) as Hl.
  { rewrite Hsplit, Hsplit2, !last_app.
    destruct (last (z :: rest')) eqn:Hzl; [done|]. by apply last_None in Hzl. }
  assert (columns (z :: rest') (splitWs (z :: rest'))) as Hcols.
  { apply IH.
    - rewrite Hsplit, Hsplit2, !length_app.
      destruct c; [by destruct Hword|]. simpl. lia.
    - by eexists _, _.
    - exists y. by rewrite <- Hl. }
  rewrite Hsplit, Hsplit2.
  rewrite (splitWs_word_head c (sep ++ z :: rest') (splitWs (z :: rest')));
    [by constructor|done|].
  apply splitWs_blank_head; [done|done|by eexists _, _].
Qed.

Lemma dropWhile_blank (ws s : jsstring) :
  blank ws -> dropWhile isWhite (ws ++ s) = dropWhile isWhite s.
Proof.
  intros Hb. induction ws as [|w ws IH]; [done|].
  unfold blank in Hb. simpl in Hb. apply andb_true_iff in Hb as [Hw Hb].
  simpl. rewrite Hw. by apply IH.
Qed.

Lemma blank_rev (ws : jsstring) : blank ws -> blank (rev ws).
Proof.
  unfold blank. rewrite !forallb_forall. intros Hb x Hx.
  apply Hb. by apply in_rev.
Qed.

(** Trimming a row leaves the line of its columns. *)
Lemma row_trim (raw0 : jsstring) (cols : list jsstring) :
  rowOf raw0 cols -> columns (trim raw0) cols.
Proof.
  intros (ws1 & line & ws2 & -> & Hb1 & Hb2 & Hcols).
  destruct (columns_head _ _ Hcols) as (x & t & Hline & Hx).
  destruct (columns_last_unit _ _ Hcols) as (y & Hlast & Hy).
  assert (trim (ws1 ++ line ++ ws2) = line) as ->; [|done].
  unfold trim, trimStart, trimEnd.
  rewrite dropWhile_blank by done.
  assert (dropWhile isWhite (line ++ ws2) = line ++ ws2) as ->.
  { rewrite Hline. simpl. by rewrite Hx. }
  rewrite rev_app_distr, dropWhile_blank by by apply blank_rev.
  apply last_Some in Hlast as [pre ->].
  rewrite rev_app_distr. simpl. rewrite Hy. simpl.
  by rewrite rev_involutive.
Qed.

(** A line that is not blank is the row of its trimmed fields. *)
Lemma trim_row (raw0 : jsstring) :
  trim raw0 <> [] -> rowOf raw0 (splitWs (trim raw0)).
Proof.
  intros Hne. unfold rowOf.
  destruct (takeWhile_dropWhile isWhite raw0) as [H1 Hb1].
  set (u := dropWhile isWhite raw0) in *.
  destruct (takeWhile_dropWhile isWhite (rev u)) as [H2 Hb2].
  exists (takeWhile isWhite raw0), (trim raw0),
         (rev (takeWhile isWhite (rev u))).
  split.
  { rewrite H1 at 1. f_equal. unfold trim, trimEnd, trimStart. fold u.
    rewrite <- rev_app_distr, <- H2. by rewrite rev_involutive. }
  split; [done|]. split; [by apply blank_rev|].
  destruct (trim_ends raw0) as [Hhead Hlast].
  apply splitWs_columns.
  - destruct (trim raw0) as [|x t] eqn:Ht; [done|].
    exists x, t. split; [done|]. by apply (Hhead x t).
  - destruct (last (trim raw0)) as [y|] eqn:Hl.
    + exists y. split; [done|]. by apply Hlast.
    + by apply last_None in Hl.
Qed.

(** The text [pid=] and a digit, found in columns joined by spaces, lies
    in one of the columns. *)
Lemma namesPid_joined (cs : list jsstring) :
  namesPid (joinSp cs) -> exists c, c ∈ cs /\ namesPid c.
Proof.
  induction cs as [|c cs IH]; intros (a & d & b & Hj & Hd).
  { by destruct a. }
  destruct cs as [|c' cs'].
  { exists c. split; [by left|]. by exists a, d, b. }
  change (joinSp (c :: c' :: cs')) with (c ++ 32 :: joinSp (c' :: cs')) in Hj.
  remember (joinSp (c' :: cs')) as J eqn:EJ.
  assert (exists pat, lit "pid=" ++ d :: b = pat ++ b
                      /\ pat = lit "pid=" ++ [d]
                      /\ (32 ∉ pat)
                      /\ (exists p0 pt, pat = p0 :: pt /\ p0 <> 32))
    as (pat & Hpb & Epat & Hno & p0 & pt & Econs & Hp0).
  { exists (lit "pid=" ++ [d]). split; [by rewrite <- app_assoc|].
    split; [done|]. unfold isDigit in Hd.
    apply andb_true_iff in Hd as [Hd1 Hd2].
    apply Z.leb_le in Hd1, Hd2.
    change (lit "pid=") with [112; 105; 100; 61]. split.
    - set_unfold. lia.
    - exists 112, [105; 100; 61; d]. split; [done|lia]. }
  rewrite Hpb in Hj.
  assert (forall a0 b0, a0 ++ pat ++ b0 = a0 ++ lit "pid=" ++ d :: b0) as Hpat.
  { intros a0 b0. rewrite Epat. by rewrite <- app_assoc. }
  clear Hpb Epat.
  apply app_eq_inv in Hj as [(k & Hc & Hk)|(k & Ha & Hk)].
  - (* the text starts within the first column *)
    apply app_eq_inv in Hk as [(k' & Hp & Hk')|(k' & Hk2 & Hk')].
    + destruct k' as [|z k'].
      * rewrite app_nil_r in Hp. exists c. split; [by left|].
        exists a, d, []. split; [|done].
        by rewrite Hc, <- Hp, <- Hpat, app_nil_r.
      * exfalso. rewrite <- app_comm_cons in Hk'. injection Hk' as <- _.
        apply Hno. rewrite Hp. apply elem_of_app. right. by left.
    + exists c. split; [by left|]. exists a, d, k'. split; [|done].
      by rewrite Hc, Hk2, <- Hpat.
  - (* the text starts after the space *)
    destruct k as [|z k].
    { exfalso. rewrite Econs in Hk. simpl in Hk. injection Hk as Hk _.
      by apply Hp0. }
    rewrite <- app_comm_cons in Hk. injection Hk as _ HJ.
    destruct IH as (c0 & Hc0 & Hn).
    { exists k, d, b. split; [|done]. by rewrite HJ, <- Hpat. }
    exists c0. split; [by right|done].
Qed.

(** A column whose lower case is a word of lower-case letters without
    [k] reads as that word. *)
Lemma lower_reads (s w : jsstring) :
  Forall (fun x => 97 <= x <= 122 /\ x <> 107) w ->
  toLowerCase s = w -> map upperAscii s = map upperAscii w.
Proof.
  revert w. induction s as [|c s IH]; intros w Hw.
  { by intros <-. }
  rewrite toLowerCase_cons. unfold lowerUnit.
  destruct ((65 <=? c) && (c <=? 90)) eqn:Hup;
    [|destruct (Z.eqb_spec c 8490); [|destruct (Z.eqb_spec c 304)]];
    simpl; intros <-.
  - inversion Hw as [|? ? [Hc _] Hrest]; subst.
    simpl. rewrite (IH _ Hrest eq_refl). f_equal. unfold upperAscii.
    destruct (Z.leb_spec 97 c), (Z.leb_spec c 122),
      (Z.leb_spec 97 (c + 32)), (Z.leb_spec (c + 32) 122); simpl; lia.
  - inversion Hw as [|? ? [_ Hc] _]; subst. done.
  - inversion Hw as [|? ? _ Hrest]; subst.
    inversion Hrest as [|? ? [Hc _] _]; subst. lia.
  - inversion Hw as [|? ? _ Hrest]; subst.
    simpl. by rewrite (IH _ Hrest eq_refl).
Qed.

Lemma reads_lower (s w : jsstring) :
  Forall (fun x => 97 <= x <= 122) w ->
  map upperAscii s = map upperAscii w -> toLowerCase s = w.
Proof.
  revert w. induction s as [|c s IH]; intros [|x w] Hw; try done.
  intros Hm. simpl in Hm. injection Hm as Hc Hrest.
  inversion Hw as [|? ? Hx Hw']; subst.
  rewrite toLowerCase_cons, (IH _ Hw' Hrest).
  unfold upperAscii in Hc. unfold lowerUnit.
  destruct (Z.leb_spec 97 c), (Z.leb_spec c 122),
    (Z.leb_spec 97 x), (Z.leb_spec x 122),
    (Z.leb_spec 65 c), (Z.leb_spec c 90); simpl in *;
    try lia;
    repeat (match goal with
            | |- context [?a =? ?b] => destruct (Z.eqb_spec a b); simpl
            end); try lia; f_equal; lia.
Qed.

Lemma reads_tcp (s : jsstring) :
  reads "tcp" s <-> toLowerCase s = lit "tcp".
Proof.
  unfold reads. split.
  - apply reads_lower. change (lit "tcp") with [116; 99; 112].
    repeat constructor; lia.
  - apply lower_reads. change (lit "tcp") with [116; 99; 112].
    repeat constructor; lia.
Qed.

Lemma reads_udp (s : jsstring) :
  reads "udp" s <-> toLowerCase s = lit "udp".
Proof.
  unfold reads. split.
  - apply reads_lower. change (lit "udp") with [117; 100; 112].
    repeat constructor; lia.
  - apply lower_reads. change (lit "udp") with [117; 100; 112].
    repeat constructor; lia.
Qed.

Lemma reads_listening (s : jsstring) :
  reads "listening" s <-> toLowerCase s = lit "listening".
Proof.
  unfold reads. split.
  - apply reads_lower.
    change (lit "listening") with [108; 105; 115; 116; 101; 110; 105; 110; 103].
    repeat constructor; lia.
  - apply lower_reads.
    change (lit "listening") with [108; 105; 115; 116; 101; 110; 105; 110; 103].
    repeat constructor; lia.
Qed.

(** A column from which a number is read starts with one. *)
Lemma parseInt_startsNumber (p : jsstring) (n : Z) :
  word p -> parseInt p = Some n -> startsNumber p.
Proof.
  intros Hw. destruct (word_head p Hw) as (x & t & -> & Hx).
  unfold parseInt, trimStart. simpl. rewrite Hx.
  assert (forall u, takeWhile isDigit u <> [] ->
                    exists d r, u = d :: r /\ isDigit d = true) as Hdig.
  { intros [|d r]; simpl; [done|].
    destruct (isDigit d) eqn:Hd; [|done]. by exists d, r. }
  destruct (Z.eqb_spec x 45) as [->|H45];
    [|destruct (Z.eqb_spec x 43) as [->|H43]].
  - destruct (takeWhile isDigit t) eqn:Ht; [done|]. intros _.
    destruct (Hdig t) as (d & r & -> & Hd); [by rewrite Ht|].
    exists [45], d, r. auto.
  - destruct (takeWhile isDigit t) eqn:Ht; [done|]. intros _.
    destruct (Hdig t) as (d & r & -> & Hd); [by rewrite Ht|].
    exists [43], d, r. auto.
  - assert (match takeWhile isDigit (x :: t) with
            | [] => None
            | ds => Some (1 * digitsValue 0 ds)
            end = Some n -> startsNumber (x :: t)) as Hgo.
    { destruct (takeWhile isDigit (x :: t)) eqn:Ht; [done|]. intros _.
      destruct (Hdig (x :: t)) as (d & r & [= <- <-] & Hd); [by rewrite Ht|].
      exists [], x, t. auto. }
    repeat (match goal with
            | |- context [match ?v with _ => _ end] => is_var v; destruct v
            end; try exact Hgo; try lia).
Qed.

End ColumnFacts.

Section ShapeFacts.

Lemma matchPortSuffix_some (s a d : jsstring) :
  matchPortSuffix s = Some (a, d) ->
  s = a ++ 58 :: d /\ d <> [] /\ forallb isDigit d = true.
Proof.
  revert a. induction s as [|c s IH]; intros a; simpl; [done|].
  destruct (Z.eqb_spec c 58) as [->|Hc]; simpl.
  - case_bool_decide as Hnil; simpl.
    + destruct (matchPortSuffix s) as [[a' d']|]; [|done].
      intros [= <- <-]. by destruct (IH a' eq_refl) as (-> & ? & ?).
    + destruct (forallb isDigit s) eqn:Hdig.
      * by intros [= <- <-].
      * destruct (matchPortSuffix s) as [[a' d']|]; [|done].
        intros [= <- <-]. by destruct (IH a' eq_refl) as (-> & ? & ?).
  - destruct (matchPortSuffix s) as [[a' d']|]; [|done].
    intros [= <- <-]. by destruct (IH a' eq_refl) as (-> & ? & ?).
Qed.

Lemma startsWith_drop (p s : jsstring) :
  startsWith p s = true -> s = p ++ drop (length p) s.
Proof.
  revert s. induction p as [|a p IH]; intros s; [done|].
  destruct s as [|b s]; simpl; [done|].
  destruct (Z.eqb_spec a b) as [->|]; [|done]. simpl.
  intros Hs. f_equal. by apply IH.
Qed.

Lemma matchPid_some (s ds : jsstring) :
  matchPid s = Some ds -> namesPid s.
Proof.
  induction s as [|c s IH]; [done|].
  cbn [matchPid]. cbv zeta.
  destruct (startsWith (lit "pid=") (c :: s)) eqn:Hstart; cbn [andb].
  - case_bool_decide as Hnil; cbn [negb].
    + intros Hm. destruct (IH Hm) as (a & d & b & -> & ?).
      by exists (c :: a), d, b.
    + intros _. apply startsWith_drop in Hstart.
      change (length (lit "pid=")) with 4%nat in Hstart.
      destruct (drop 4 (c :: s)) as [|d rest] eqn:Hdrop; [done|].
      simpl in Hnil. destruct (isDigit d) eqn:Hd; [|done].
      exists [], d, rest. split; [exact Hstart|done].
  - intros Hm. destruct (IH Hm) as (a & d & b & -> & ?).
    by exists (c :: a), d, b.
Qed.

(** A line of the output that yields a record has the shape of an ss
    row. *)
Lemma parseSsLine_shape (proto : Protocol) (src stdout0 line : jsstring)
    (r : Listener) :
  line ∈ ssLines stdout0 ->
  parseSsLine proto src line = Some r -> ssShape line /\ raw r = Some line.
Proof.
  intros Hin.
  assert (columns line (splitWs line)) as Hcols.
  { unfold ssLines in Hin. apply list_elem_of_filter in Hin as [Hne Hin].
    apply list_elem_of_In, in_map_iff in Hin as (l & <- & _).
    destruct (trim_ends l) as [Hhead Hlast].
    apply splitWs_columns.
    - destruct (trim l) as [|x t] eqn:Ht; [done|].
      exists x, t. split; [done|]. by apply (Hhead x t).
    - destruct (last (trim l)) as [y|] eqn:Hl.
      + exists y. split; [done|]. by apply Hlast.
      + by apply last_None in Hl. }
  unfold parseSsLine, ssShape. cbv zeta.
  destruct (Nat.ltb_spec (length (splitWs line)) 5) as [|Hlen]; [done|].
  destruct (lookup_lt_is_Some_2 (splitWs line) 3) as [local Hlocal]; [lia|].
  rewrite Hlocal. cbn [orElse]. unfold parseAddrPort.
  destruct (matchPortSuffix local) as [[a d]|] eqn:Hport; [|done].
  destruct (parseInt d) as [n|]; [|done].
  destruct (falsy (Some n)); [done|].
  unfold parseSsPid.
  destruct (matchPid (joinSp (drop 5 (splitWs line)))) as [ds|] eqn:Hpid;
    [|done].
  destruct (falsy (parseInt ds)); [done|].
  intros [= <-]. split; [|done]. exists (splitWs line).
  split; [done|]. split; [done|]. split.
  - exists local. split; [done|]. exists a, d. by apply matchPortSuffix_some.
  - apply namesPid_joined. by apply (matchPid_some _ ds).
Qed.

(** A line that yields a record has the shape of a netstat row. *)
Lemma parseNetstatLine_shape (proto : Protocol) (raw0 : jsstring) (r : Listener) :
  parseNetstatLine proto raw0 = Some r ->
  netstatShape raw0 /\ raw r = Some raw0.
Proof.
  unfold parseNetstatLine, netstatShape. cbv zeta.
  case_bool_decide as Hne; [done|].
  pose proof (trim_row raw0 Hne) as Hrow.
  pose proof (columns_words _ _ (row_trim _ _ Hrow)) as Hwords.
  rewrite Forall_forall in Hwords.
  destruct (startsWithCI (lit "proto") (trim raw0)); [done|].
  destruct (startsWithCI (lit "active") (trim raw0)); [done|].
  destruct (Nat.ltb_spec (length (splitWs (trim raw0))) 4) as [|Hlen]; [done|].
  destruct (lookup_lt_is_Some_2 (splitWs (trim raw0)) 0) as [f0 Hf0]; [lia|].
  destruct (lookup_lt_is_Some_2 (splitWs (trim raw0)) 1) as [local Hlocal];
    [lia|].
  destruct (lookup_lt_is_Some_2 (splitWs (trim raw0)) 3) as [f3 Hf3]; [lia|].
  rewrite Hf0, Hlocal. cbn [orElse]. unfold eqs.
  case_bool_decide as Htcp.
  - cbn [negb andb]. rewrite Hf3.
    assert (f3 <> []) as Hf3ne.
    { apply (splitWs_trim_fields raw0); [done|].
      by apply list_elem_of_lookup_2 in Hf3. }
    rewrite bool_decide_eq_false_2 by done. cbn [negb andb].
    case_bool_decide as Hstate; cbn [negb]; [|done].
    destruct (splitWs (trim raw0) !! 4%nat) as [pidStr|] eqn:Hpid; [|done].
    cbn [parseIntOpt]. destruct (parseInt pidStr) as [n|] eqn:Hn; [|done].
    unfold parseWindowsAddressPort.
    destruct (matchPortSuffix local) as [[a d]|] eqn:Hport; [|done].
    destruct (forallb _ a); [|done].
    destruct (parseInt d) as [m|]; [|done].
    destruct (falsy (Some m)); [done|].
    intros [= <-]. split; [|done]. exists (splitWs (trim raw0)).
    split; [done|]. split; [done|]. split.
    + exists local. split; [done|]. exists a, d. by apply matchPortSuffix_some.
    + exists f0. split; [done|]. left.
      split; [by apply reads_tcp|]. split.
      * exists f3. split; [done|]. by apply reads_listening.
      * exists pidStr. split; [done|].
        apply (parseInt_startsNumber _ n); [|done].
        apply Hwords. by apply list_elem_of_lookup_2 in Hpid.
  - case_bool_decide as Hudp; cbn [negb andb]; [|done].
    rewrite Hf3. cbn [parseIntOpt].
    destruct (parseInt f3) as [n|] eqn:Hn; [|done].
    unfold parseWindowsAddressPort.
    destruct (matchPortSuffix local) as [[a d]|] eqn:Hport; [|done].
    destruct (forallb _ a); [|done].
    destruct (parseInt d) as [m|]; [|done].
    destruct (falsy (Some m)); [done|].
    intros [= <-]. split; [|done]. exists (splitWs (trim raw0)).
    split; [done|]. split; [done|]. split.
    + exists local. split; [done|]. exists a, d. by apply matchPortSuffix_some.
    + exists f0. split; [done|]. right.
      split; [by apply reads_udp|].
      exists f3. split; [done|].
      apply (parseInt_startsNumber _ n); [|done].
      apply Hwords. by apply list_elem_of_lookup_2 in Hf3.
Qed.

End ShapeFacts.

Lemma ss_short_line (proto : Protocol) (src line : jsstring)
    (cols : list jsstring) :
  columns line cols -> (length cols < 5)%nat ->
  parseSsLine proto src line = None.
Proof.
  intros Hcols Hlen. apply columns_splitWs in Hcols.
  unfold parseSsLine. rewrite Hcols.
  by destruct (Nat.ltb_spec (length cols) 5); [|lia].
Qed.

Lemma netstat_tcp_row (proto : Protocol) (raw0 : jsstring)
    (cols : list jsstring) (f0 : jsstring) :
  rowOf raw0 cols ->
  cols !! 0%nat = Some f0 -> reads "tcp" f0 ->
  (forall st, cols !! 3%nat = Some st -> ~ reads "listening" st) ->
  parseNetstatLine proto raw0 = None.
Proof.
  intros Hrow Hf0 Htcp Hstate.
  pose proof (columns_splitWs _ _ (row_trim _ _ Hrow)) as Hsplit.
  apply (netstat_tcp_state proto raw0 f0).
  - by rewrite Hsplit.
  - by apply reads_tcp.
  - rewrite Hsplit. intros st Hst Hl. apply (Hstate st Hst).
    by apply reads_listening.
Qed.

Lemma netstat_udp_row (proto : Protocol)
    (raw0 f0 local pidStr : jsstring) (cols : list jsstring)
    (port0 pid0 : Z) (address : option jsstring) :
  rowOf raw0 cols ->
  cols !! 0%nat = Some f0 -> reads "udp" f0 ->
  cols !! 1%nat = Some local ->
  cols !! 3%nat = Some pidStr ->
  parseInt pidStr = Some pid0 ->
  parseWindowsAddressPort local = (Some port0, address) ->
  port0 <> 0 ->
  parseNetstatLine proto raw0 =
    Some {| protocol := proto; port := port0; pid := pid0;
            localAddress := address; processName := None; command := None;
            user := None; raw := Some raw0; source := Some (lit "netstat") |}.
Proof.
  intros Hrow Hf0 Hudp Hlocal Hpid Hint Haddr Hport.
  pose proof (columns_splitWs _ _ (row_trim _ _ Hrow)) as Hsplit.
  apply (netstat_udp_kept proto raw0 f0 local pidStr);
    rewrite ?Hsplit; try done. by apply reads_udp.
Qed.

(** C3 (parser robustness): the parsers are total functions that emit,
    line by line, at most one record per line, and none for a line that
    has not the shape of a row; in particular an ss line with fewer than
    five columns yields none; a netstat line whose protocol column reads
    TCP yields none unless its state column reads LISTENING; a netstat
    line whose protocol column reads UDP is kept whenever its local
    address yields a port and its fourth column a pid (numbers that
    JavaScript holds exactly, below 2^53). *)
Theorem parser_robustness :
  (forall stdout0 proto src,
     parseSs stdout0 proto src
     = omap (parseSsLine proto src) (ssLines stdout0))
  /\ (forall stdout0 proto,
        parseNetstat stdout0 proto
        = omap (parseNetstatLine proto) (splitLines stdout0))
  /\ (forall stdout0 proto src line,
        line ∈ ssLines stdout0 ->
        ~ ssShape line -> parseSsLine proto src line = None)
  /\ (forall proto raw0,
        ~ netstatShape raw0 -> parseNetstatLine proto raw0 = None)
  /\ (forall proto src line cols,
        columns line cols -> (length cols < 5)%nat ->
        parseSsLine proto src line = None)
  /\ (forall proto raw0 cols f0,
        rowOf raw0 cols ->
        cols !! 0%nat = Some f0 -> reads "tcp" f0 ->
        (forall st, cols !! 3%nat = Some st -> ~ reads "listening" st) ->
        parseNetstatLine proto raw0 = None)
  /\ (forall proto raw0 cols f0 local pidStr port0 pid0 address,
        rowOf raw0 cols ->
        cols !! 0%nat = Some f0 -> reads "udp" f0 ->
        cols !! 1%nat = Some local ->
        cols !! 3%nat = Some pidStr ->
        parseInt pidStr = Some pid0 ->
        Z.abs pid0 < 9007199254740992 ->
        parseWindowsAddressPort local = (Some port0, address) ->
        port0 <> 0 -> port0 < 9007199254740992 ->
        parseNetstatLine proto raw0 =
          Some {| protocol := proto; port := port0; pid := pid0;
                  localAddress := address; processName := None;
                  command := None; user := None; raw := Some raw0;
                  source := Some (lit "netstat") |}).
Proof.
  split; [exact parseSs_lines|].
  split; [exact parseNetstat_lines|].
  split.
  { intros stdout0 proto src line Hin Hshape.
    destruct (parseSsLine proto src line) as [r|] eqn:Hr; [|done].
    by apply (parseSsLine_shape _ _ stdout0) in Hr as [? _]. }
  split.
  { intros proto raw0 Hshape.
    destruct (parseNetstatLine proto raw0) as [r|] eqn:Hr; [|done].
    by apply parseNetstatLine_shape in Hr as [? _]. }
  split; [exact ss_short_line|].
  split; [exact netstat_tcp_row|].
  intros proto raw0 cols f0 local pidStr port0 pid0 address
    Hrow Hf0 Hudp Hlocal Hpid Hint _ Haddr Hport _.
  by eapply netstat_udp_row.
Qed.

Lemma parser_robustness_witness :
  parseSsLine tcp (lit "ss") sampleSsShort = None
  /\ parseNetstatLine tcp sampleNetstatEstablished = None
  /\ parseNetstatLine udp sampleNetstatUdp =
       Some {| protocol := udp; port := 123; pid := 1234;
               localAddress := Some (lit "0.0.0.0"); processName := None;
               command := None; user := None;
               raw := Some sampleNetstatUdp;
               source := Some (lit "netstat") |}.
Proof.
  destruct parser_robustness as (_ & _ & _ & _ & Hss & Htcp & Hudp).
  assert (forall raw0, trim raw0 <> [] ->
                       columns (trim raw0) (splitWs (trim raw0))) as Hcols.
  { intros raw0 Hne. by apply row_trim, trim_row. }
  split; [|split].
  - apply (Hss tcp (lit "ss") sampleSsShort (splitWs (trim sampleSsShort))).
    + by apply (Hcols sampleSsShort).
    + vm_compute. lia.
  - apply (Htcp tcp sampleNetstatEstablished
             (splitWs (trim sampleNetstatEstablished)) (lit "TCP")).
    + by apply trim_row.
    + reflexivity.
    + reflexivity.
    + intros st Hst. vm_compute in Hst. injection Hst as <-.
      vm_compute. discriminate.
  - apply (Hudp udp sampleNetstatUdp (splitWs (trim sampleNetstatUdp))
             (lit "UDP") (lit "0.0.0.0:123") (lit "1234")).
    + by apply trim_row.
    + reflexivity.
    + reflexivity.
    + reflexivity.
    + reflexivity.
    + reflexivity.
    + vm_compute. reflexivity.
    + reflexivity.
    + discriminate.
    + reflexivity.
Defined.

(** ** The selector *)



Section TuiFacts.
Variable items : list Listener.


Lemma onData_nav (key : list Z) (s : Tui.Session) :
  key ∈ navKeys ->
  Tui.onData items key s =
    if Tui.done (Tui.state s) then s else Tui.render (navigate items key s).
Proof.
  intros Hkey. unfold navKeys in Hkey.
  repeat (apply elem_of_cons in Hkey as [->|Hkey]);
    [..|by apply elem_of_nil in Hkey];
    unfold Tui.onData; destruct (Tui.done (Tui.state s)); reflexivity.
Qed.

Lemma visibleRows_pos (s : Tui.Session) : 1 <= Tui.visibleRows s.
Proof. unfold Tui.visibleRows. lia. Qed.

Lemma move_bounds (delta : Z) (s : Tui.Session) :
  items <> [] -> inBounds items s -> inBounds items (Tui.move items delta s).
Proof.
  intros Hne [Hi Ht].
  assert (1 <= Z.of_nat (length items)) by (destruct items; [done|simpl; lia]).
  pose proof (visibleRows_pos s).
  unfold inBounds, Tui.move, Tui.clamp.
  change (Tui.visibleRows (Tui.withState ?f s)) with (Tui.visibleRows s).
  simpl.
  repeat match goal with
         | |- context [?a <? ?b] => destruct (Z.ltb_spec a b)
         | |- context [?a <=? ?b] => destruct (Z.leb_spec a b)
         end; lia.
Qed.

Lemma navigate_bounds (key : list Z) (s : Tui.Session) :
  items <> [] -> inBounds items s -> inBounds items (navigate items key s).
Proof.
  intros Hne Hb. unfold navigate.
  repeat case_match; try by apply move_bounds.
  - assert (1 <= Z.of_nat (length items)) by (destruct items; [done|simpl; lia]).
    destruct Hb as [_ Ht]. split; simpl; lia.
  - assert (1 <= Z.of_nat (length items)) by (destruct items; [done|simpl; lia]).
    pose proof (visibleRows_pos s).
    unfold inBounds.
    change (Tui.visibleRows (Tui.withState ?f s)) with (Tui.visibleRows s).
    simpl. lia.
Qed.

Lemma render_bounds (s : Tui.Session) :
  inBounds items s -> inBounds items (Tui.render s).
Proof. intros Hb. exact Hb. Qed.

Lemma nav_step_bounds (key : list Z) (s : Tui.Session) :
  items <> [] -> key ∈ navKeys -> inBounds items s ->
  inBounds items (Tui.onData items key s).
Proof.
  intros Hne Hkey Hb. rewrite onData_nav by done.
  destruct (Tui.done (Tui.state s)); [done|].
  by apply render_bounds, navigate_bounds.
Qed.

Lemma start_bounds (c r : option Z) :
  items <> [] -> inBounds items (Tui.start c r).
Proof.
  intros Hne.
  assert (1 <= Z.of_nat (length items)) by (destruct items; [done|simpl; lia]).
  split; simpl; lia.
Qed.

Lemma run_app (xs ys : list Tui.Input) (s : Tui.Session) :
  Tui.run items (xs ++ ys) s = Tui.run items ys (Tui.run items xs s).
Proof. unfold Tui.run. apply fold_left_app. Qed.

Lemma run_nav_bounds (keys : list (list Z)) (s : Tui.Session) :
  items <> [] -> Forall (fun k => k ∈ navKeys) keys -> inBounds items s ->
  inBounds items (Tui.run items (Tui.Data <$> keys) s).
Proof.
  intros Hne Hkeys. revert s.
  induction Hkeys as [|k keys Hk _ IH]; intros s Hb; [done|].
  simpl. apply IH. by apply nav_step_bounds.
Qed.

End TuiFacts.

(** C5 (navigation bounds): on a non-empty list, after each event of any
    sequence of j, k, Up, Down, PageUp, PageDown, Home and End the cursor
    index is in [0, itemCount-1] and the top of the viewport is in
    [0, max(0, itemCount - viewportHeight)]. *)
Theorem navigation_bounds (items : list Listener) (columns0 rows0 : option Z)
    (keys : list (list Z)) (n : nat) :
  items <> [] ->
  Forall (fun k => k ∈ navKeys) keys ->
  inBounds items
    (Tui.run items (Tui.Data <$> take n keys) (Tui.start columns0 rows0)).
Proof.
  intros Hne Hkeys. apply run_nav_bounds; [done| |by apply start_bounds].
  by apply Forall_take.
Qed.

Section TuiResolution.
Variable items : list Listener.


Lemma finish_live (r : TuiSelectResult) (s : Tui.Session) :
  Tui.done (Tui.state s) = false ->
  Tui.finish r s =
    {| Tui.state := {| Tui.index := Tui.index (Tui.state s);
                       Tui.top := Tui.top (Tui.state s);
                       Tui.selectedSet := Tui.selectedSet (Tui.state s);
                       Tui.width := Tui.width (Tui.state s);
                       Tui.height := Tui.height (Tui.state s);
                       Tui.done := true |};
       Tui.columns := Tui.columns s; Tui.rows := Tui.rows s;
       Tui.resolved := Some r; Tui.exitCode := Tui.exitCode s |}.
Proof. intros Hd. unfold Tui.finish. by rewrite Hd. Qed.

Lemma finish_coherent (r : TuiSelectResult) (s : Tui.Session) :
  coherent s -> coherent (Tui.finish r s).
Proof.
  intros Hc. unfold Tui.finish.
  destruct (Tui.done (Tui.state s)) eqn:Hd; [done|].
  reflexivity.
Qed.

Lemma step_coherent (i : Tui.Input) (s : Tui.Session) :
  coherent s -> coherent (Tui.step items i s).
Proof.
  intros Hc. destruct i as [buf| |c r]; simpl.
  - unfold Tui.onData.
    destruct (Tui.done (Tui.state s)) eqn:Hd; [done|].
    repeat case_match; try (by apply finish_coherent); try exact Hc;
      unfold coherent in *; simpl; by rewrite <- Hc, Hd.
  - destruct (Tui.done (Tui.state s)); [exact Hc|by apply finish_coherent].
  - exact Hc.
Qed.

Lemma run_coherent (inputs : list Tui.Input) (s : Tui.Session) :
  coherent s -> coherent (Tui.run items inputs s).
Proof.
  revert s. induction inputs as [|i inputs IH]; intros s Hc; [done|].
  simpl. by apply IH, step_coherent.
Qed.

Lemma coherent_pending (s : Tui.Session) :
  coherent s -> Tui.resolved s = None -> Tui.done (Tui.state s) = false.
Proof.
  unfold coherent. intros -> ->. apply bool_decide_eq_false_2.
  by intros [? ?].
Qed.

(** Navigation leaves everything but the cursor and the viewport alone. *)
Lemma navigate_frame (key : list Z) (s : Tui.Session) :
  Tui.selectedSet (Tui.state (navigate items key s))
    = Tui.selectedSet (Tui.state s)
  /\ Tui.done (Tui.state (navigate items key s)) = Tui.done (Tui.state s)
  /\ Tui.resolved (navigate items key s) = Tui.resolved s.
Proof. unfold navigate. by repeat case_match. Qed.

Lemma run_cons (i : Tui.Input) (inputs : list Tui.Input) (s : Tui.Session) :
  Tui.run items (i :: inputs) s = Tui.run items inputs (Tui.step items i s).
Proof. reflexivity. Qed.

Lemma run_nav_frame (keys : list (list Z)) (s : Tui.Session) :
  Forall (fun k => k ∈ navKeys) keys ->
  Tui.selectedSet (Tui.state (Tui.run items (Tui.Data <$> keys) s))
    = Tui.selectedSet (Tui.state s)
  /\ Tui.done (Tui.state (Tui.run items (Tui.Data <$> keys) s))
     = Tui.done (Tui.state s)
  /\ Tui.resolved (Tui.run items (Tui.Data <$> keys) s) = Tui.resolved s.
Proof.
  intros Hkeys. revert s.
  induction Hkeys as [|k keys Hk _ IH]; intros s; [done|].
  rewrite fmap_cons, run_cons. cbn [Tui.step].
  destruct (IH (Tui.onData items k s)) as (-> & -> & ->).
  rewrite (onData_nav items k s Hk).
  destruct (Tui.done (Tui.state s)) eqn:Hd; [by rewrite Hd|].
  rewrite <- Hd. apply (navigate_frame k s).
Qed.

(** Enter on a session with the single index [i] selected picks the item at
    [i], if there is one. *)
Lemma filterSelected_singleton (i k : Z) (l : list Listener) :
  Tui.filterSelected {[ i ]} k l =
    if decide (k <= i) then
      match l !! Z.to_nat (i - k) with Some x => [x] | None => [] end
    else [].
Proof.
  revert k. induction l as [|x l IH]; intros k; simpl.
  - by destruct (decide (k <= i)).
  - rewrite IH.
    destruct (decide (k ∈ ({[ i ]} : gset Z))) as [->%elem_of_singleton|Hn].
    + rewrite (decide_False (P := i + 1 <= i)) by lia.
      rewrite (decide_True (P := i <= i)) by lia.
      by replace (Z.to_nat (i - i)) with O by lia.
    + assert (k <> i) by (by intros ->; apply Hn, elem_of_singleton).
      destruct (decide (k <= i)); [|by rewrite decide_False by lia].
      rewrite decide_True by lia.
      replace (Z.to_nat (i - k)) with (S (Z.to_nat (i - (k + 1)))) by lia.
      done.
Qed.

Lemma space_live (s : Tui.Session) :
  Tui.done (Tui.state s) = false ->
  Tui.onData items [32] s
  = Tui.render (Tui.toggleSelected (Tui.index (Tui.state s)) s).
Proof. intros Hd. unfold Tui.onData. by rewrite Hd. Qed.

Lemma enter_live (s : Tui.Session) :
  Tui.done (Tui.state s) = false ->
  Tui.resolved (Tui.onData items [13] s)
  = Some {| cancelled := false;
            selected := Tui.filterSelected
                          (Tui.selectedSet (Tui.state s)) 0 items |}.
Proof.
  intros Hd. unfold Tui.onData. rewrite Hd.
  change (Tui.isCtrlC [13]) with false. change (Tui.isEsc [13]) with false.
  change (Tui.isEnter [13]) with true. cbn iota.
  by rewrite finish_live.
Qed.

Lemma esc_live (s : Tui.Session) :
  Tui.done (Tui.state s) = false ->
  Tui.resolved (Tui.onData items [27] s)
  = Some {| cancelled := true; selected := [] |}.
Proof.
  intros Hd. unfold Tui.onData. rewrite Hd.
  change (Tui.isCtrlC [27]) with false. change (Tui.isEsc [27]) with true.
  cbn iota. by rewrite finish_live.
Qed.

Lemma ctrlC_live (s : Tui.Session) :
  Tui.done (Tui.state s) = false ->
  Tui.resolved (Tui.onData items [3] s)
  = Some {| cancelled := true; selected := [] |}
  /\ Tui.exitCode (Tui.onData items [3] s) = Some 130.
Proof.
  intros Hd. unfold Tui.onData. rewrite Hd.
  change (Tui.isCtrlC [3]) with true. cbn iota.
  by rewrite finish_live.
Qed.

End TuiResolution.

(** C6 (selection resolution): whatever navigation keys came before,
    Space with the cursor at index [i] followed (after any further
    navigation) by Enter resolves, not cancelled, with exactly the item
    at [i]; and Esc or Ctrl-C on a session that has not resolved yet
    resolves it as cancelled with an empty selection, whatever was
    toggled before (Ctrl-C also sets the exit code 130). *)
Theorem selection_resolution (listeners : list Listener)
    (columns0 rows0 : option Z) :
  let items := Tui.prepareItems listeners in
  (forall before after : list (list Z),
     Forall (fun k => k ∈ navKeys) before ->
     Forall (fun k => k ∈ navKeys) after ->
     let i := Tui.index (Tui.state (Tui.run items (Tui.Data <$> before)
                                      (Tui.start columns0 rows0))) in
     Tui.selectListeners listeners true columns0 rows0
       ((Tui.Data <$> before) ++ [Tui.Data [32]]
        ++ (Tui.Data <$> after) ++ [Tui.Data [13]])
     = Some {| cancelled := false;
               selected := match items !! Z.to_nat i with
                           | Some x => [x]
                           | None => []
                           end |}
     /\ (items <> [] -> 0 <= i /\ is_Some (items !! Z.to_nat i)))
  /\ (forall inputs : list Tui.Input,
        Tui.selectListeners listeners true columns0 rows0 inputs = None ->
        Tui.selectListeners listeners true columns0 rows0
          (inputs ++ [Tui.Data [27]])
        = Some {| cancelled := true; selected := [] |}
        /\ Tui.selectListeners listeners true columns0 rows0
             (inputs ++ [Tui.Data [3]])
           = Some {| cancelled := true; selected := [] |}
        /\ Tui.exitCode (Tui.run items (inputs ++ [Tui.Data [3]])
                           (Tui.start columns0 rows0)) = Some 130).
Proof.
  intros items. split.
  - intros before after Hb Ha i. unfold Tui.selectListeners. fold items.
    cbn [negb]. rewrite !run_app. cbn [Tui.run fold_left Tui.step].
    set (s1 := Tui.run items (Tui.Data <$> before) (Tui.start columns0 rows0)).
    destruct (run_nav_frame items before (Tui.start columns0 rows0) Hb)
      as (Hsel1 & Hdone1 & _).
    fold s1 in Hsel1, Hdone1. simpl in Hsel1, Hdone1.
    rewrite (space_live items s1 Hdone1).
    set (s2 := Tui.render (Tui.toggleSelected (Tui.index (Tui.state s1)) s1)).
    assert (Tui.selectedSet (Tui.state s2) = {[ i ]}) as Hsel2.
    { unfold s2. simpl. rewrite Hsel1. rewrite decide_False by set_solver.
      fold i. apply (left_id_L ∅ (∪)). }
    assert (Tui.done (Tui.state s2) = false) as Hdone2 by exact Hdone1.
    destruct (run_nav_frame items after s2 Ha) as (Hsel3 & Hdone3 & _).
    fold (Tui.run items (Tui.Data <$> after) s2).
    rewrite enter_live by (by rewrite Hdone3).
    rewrite Hsel3, Hsel2, filterSelected_singleton.
    split.
    + destruct (decide (0 <= i)) as [Hi|Hi]; [by rewrite Z.sub_0_r|].
      replace (Z.to_nat i) with O by lia.
      destruct items as [|x l] eqn:Hitems; [done|].
      exfalso. apply Hi.
      assert (inBounds (x :: l) s1) as [Hb1 _]; [|exact (proj1 Hb1)].
      unfold s1. apply run_nav_bounds; [done|done|by apply start_bounds].
    + intros Hne.
      assert (inBounds items s1) as [[Hlo Hhi] _].
      { unfold s1. apply run_nav_bounds; [done|done|by apply start_bounds]. }
      split; [exact Hlo|]. apply lookup_lt_is_Some_2.
      change i with (Tui.index (Tui.state s1)). lia.
  - intros inputs. unfold Tui.selectListeners. fold items. cbn [negb].
    intros Hpending. rewrite !run_app. cbn [Tui.run fold_left Tui.step].
    fold (Tui.run items inputs (Tui.start columns0 rows0)).
    set (s := Tui.run items inputs (Tui.start columns0 rows0)) in *.
    assert (Tui.done (Tui.state s) = false) as Hd.
    { apply coherent_pending; [|done]. by apply run_coherent. }
    split; [by apply esc_live|]. by apply ctrlC_live.
Qed.

(** ** The host primitives *)





Section HostFacts.

Lemma setProc_same (target : Z) (p : Proc) (w : World) :
  procs w !! target = Some p -> setProc target p w = w.
Proof.
  intros Hp. unfold setProc. rewrite (insert_id _ _ _ Hp). by destruct w.
Qed.

Lemma processKill_gone (target : Z) (sig : Signal) (w : World) :
  gone w target ->
  processKill target sig w
  = Thrown (systemError "ESRCH") (record (EKill target sig) w).
Proof.
  unfold gone, processKill. destruct (procs w !! target) as [p|]; [|done].
  by intros ->.
Qed.

Lemma processKill_denied (target : Z) (sig : Signal) (w : World) (p : Proc) :
  running w target p -> denies p = true ->
  processKill target sig w
  = Thrown (systemError "EPERM") (record (EKill target sig) w).
Proof. intros [Hp Ha] Hd. unfold processKill. by rewrite Hp, Ha, Hd. Qed.

Lemma processKill_delivered (target : Z) (sig : Signal) (w : World) (p : Proc) :
  running w target p -> denies p = false ->
  processKill target sig w
  = Returned tt (setProc target (deliver sig (now w) p)
                   (record (EKill target sig) w)).
Proof. intros [Hp Ha] Hd. unfold processKill. by rewrite Hp, Ha, Hd. Qed.

Lemma probe_running (target : Z) (w : World) (p : Proc) :
  running w target p -> denies p = false ->
  processKill target SIG0 w = Returned tt (record (EKill target SIG0) w).
Proof.
  intros Hr Hd. rewrite (processKill_delivered _ _ _ _ Hr Hd).
  f_equal. apply setProc_same. apply Hr.
Qed.

Lemma running_or_gone (w : World) (target : Z) :
  gone w target \/ exists p, running w target p.
Proof.
  unfold gone, running. destruct (procs w !! target) as [p|]; [|by left].
  destruct (existsAt p (now w)) eqn:He; [right; by exists p|by left].
Qed.

(** [isAlive] probes once: it answers [false] exactly for a process that
    does not exist, and changes nothing but the log. *)
Lemma posix_isAlive_spec (target : Z) (w : World) :
  PosixKiller.isAlive target w
  = Returned (isRunning w target) (record (EKill target SIG0) w).
Proof.
  unfold PosixKiller.isAlive, tryCatch, bind, ret.
  destruct (running_or_gone w target) as [Hg|[p Hr]].
  - rewrite (processKill_gone _ _ _ Hg).
    change (hasCode (systemError "ESRCH") "ESRCH") with true. cbn iota.
    unfold gone in Hg. unfold isRunning.
    destruct (procs w !! target); [by rewrite Hg|done].
  - assert (isRunning w target = true) as ->.
    { unfold isRunning. destruct Hr as [-> ->]. done. }
    destruct (denies p) eqn:Hd.
    + by rewrite (processKill_denied _ _ _ _ Hr Hd).
    + by rewrite (probe_running _ _ _ Hr Hd).
Qed.

Lemma windows_isAlive_spec (target : Z) (w : World) :
  WindowsKiller.isAlive target w = PosixKiller.isAlive target w.
Proof. reflexivity. Qed.

End HostFacts.

(** ** Already-exited short-circuit *)

(** C7 (already-exited short-circuit): when [isAlive] answers false, [kill]
    of either killer returns ok with method already-exited at once: the
    clock has not moved, and the only call made is the probe of
    [isAlive] itself (signal 0): no signal is sent and no command run. *)
Theorem already_exited_short_circuit (fuel : nat) (target : Z)
    (options : KillOptions) (w w1 : World) :
  PosixKiller.isAlive target w = Returned false w1 ->
  w1 = record (EKill target SIG0) w
  /\ now w1 = now w
  /\ events w1 = (now w, EKill target SIG0) :: events w
  /\ PosixKiller.kill fuel target options w
     = Returned {| kpid := target; ok := true;
                   method := lit "already-exited";
                   message := None; errorCode := None |} w1
  /\ WindowsKiller.isAlive target w = Returned false w1
  /\ WindowsKiller.kill target options w
     = Returned {| kpid := target; ok := true;
                   method := lit "already-exited";
                   message := None; errorCode := None |} w1.
Proof.
  intros Halive.
  assert (w1 = record (EKill target SIG0) w) as Hw1.
  { rewrite posix_isAlive_spec in Halive. congruence. }
  split; [done|]. split; [by rewrite Hw1|]. split; [by rewrite Hw1|].
  split; [|split; [done|]].
  - unfold PosixKiller.kill, bind. by rewrite Halive.
  - unfold WindowsKiller.kill, bind. rewrite windows_isAlive_spec.
    by rewrite Halive.
Qed.

(** ** The POSIX kill protocol *)


Section WaitFacts.
Variable target : Z.

Lemma isPoll_probe (t : Z) : isPoll target (t, EKill target SIG0) = true.
Proof. unfold isPoll. cbn [snd]. apply Z.eqb_refl. Qed.

Lemma sleep_spec (ms : Z) (w : World) :
  exists w', sleep ms w = Returned tt w'
    /\ now w + Z.max 0 ms <= now w'
    /\ procs w' = procs w /\ programs w' = programs w
    /\ events w' = (now w, ESleep ms) :: events w.
Proof. eexists. split; [reflexivity|]. simpl. repeat split; lia. Qed.

(** The loop of [waitForExit] always comes to an end, given fuel for the
    rounds that fit in the window; it only polls; it answers true only
    when the process is gone and false only once the window is over. *)
Lemma waitLoop_returns (fuel : nat) (start timeout : Z) (w : World) :
  (1 <= fuel)%nat ->
  start + timeout - now w <= 30 * (Z.of_nat fuel - 1) ->
  exists b w' added,
    PosixKiller.waitLoop fuel target start timeout w = Returned b w'
    /\ extends w w' added
    /\ forallb (isPoll target) added = true
    /\ procs w' = procs w /\ programs w' = programs w
    /\ now w <= now w'
    /\ (if b then gone w' target /\ now w' - start < timeout
        else start + timeout <= now w').
Proof.
  revert w. induction fuel as [|n IH]; intros w Hfuel Hrem; [lia|].
  cbn [PosixKiller.waitLoop]. unfold bind at 1, dateNow at 1.
  destruct (Z.ltb_spec (now w - start) timeout) as [Hlt|Hge].
  2:{ exists false, w, []. unfold ret, extends. repeat split; try done; lia. }
  set (w1 := record (EKill target SIG0) w).
  assert (forall b, (b = false -> exists p, running w target p) ->
            (b = true -> gone w target) ->
            tryCatch
              (bind (processKill target SIG0) (fun _ => ret false))
              (fun err => ret (hasCode err "ESRCH")) w = Returned b w1 ->
            exists b' w' added,
              bind (tryCatch
                      (bind (processKill target SIG0) (fun _ => ret false))
                      (fun err => ret (hasCode err "ESRCH")))
                   (fun gone0 =>
                      if gone0 then ret true
                      else bind (sleep 30)
                             (fun _ => PosixKiller.waitLoop n target start
                                         timeout)) w = Returned b' w'
              /\ extends w w' added
              /\ forallb (isPoll target) added = true
              /\ procs w' = procs w /\ programs w' = programs w
              /\ now w <= now w'
              /\ (if b' then gone w' target /\ now w' - start < timeout
                  else start + timeout <= now w')) as Hstep.
  { intros b Hfalse Htrue Hprobe. unfold bind at 1. rewrite Hprobe.
    destruct b.
    - exists true, w1, [(now w, EKill target SIG0)].
      unfold ret, extends. cbn [forallb]. rewrite isPoll_probe.
      repeat split; try done; try (simpl; lia). by apply Htrue.
    - unfold bind at 1.
      destruct (sleep_spec 30 w1) as (w2 & -> & Hnow & Hprocs & Hprogs & Hev).
      destruct (IH w2) as (b' & w' & added & Hrun & Hext & Hpoll & Hp & Hg
                           & Hn & Hb).
      + simpl in Hnow. lia.
      + simpl in Hnow. lia.
      + exists b', w', (added ++ [(now w, ESleep 30); (now w, EKill target SIG0)]).
        split; [done|]. unfold extends in *.
        split; [by rewrite Hext, Hev, <- app_assoc|].
        split; [rewrite forallb_app, Hpoll; cbn [forallb];
                  by rewrite isPoll_probe|].
        split; [by rewrite Hp, Hprocs|]. split; [by rewrite Hg, Hprogs|].
        split; [simpl in Hnow; lia|done]. }
  destruct (running_or_gone w target) as [Hg|[p Hr]].
  - apply (Hstep true); [done|done|].
    unfold tryCatch, bind. by rewrite (processKill_gone _ _ _ Hg).
  - apply (Hstep false); [eauto|done|].
    unfold tryCatch, bind. destruct (denies p) eqn:Hd.
    + by rewrite (processKill_denied _ _ _ _ Hr Hd).
    + by rewrite (probe_running _ _ _ Hr Hd).
Qed.

Lemma waitForExit_returns (fuel : nat) (timeout : Z) (w : World) :
  (1 <= fuel)%nat -> timeout <= 30 * (Z.of_nat fuel - 1) ->
  exists b w' added,
    PosixKiller.waitForExit fuel target timeout w = Returned b w'
    /\ extends w w' added
    /\ forallb (isPoll target) added = true
    /\ procs w' = procs w /\ programs w' = programs w
    /\ now w <= now w'
    /\ (if b then gone w' target /\ now w' - now w < timeout
        else now w + timeout <= now w').
Proof.
  intros Hfuel Hrem. unfold PosixKiller.waitForExit, bind, dateNow.
  apply waitLoop_returns; [done|lia].
Qed.

(** A process that is gone is found gone by the first poll, with no
    sleep at all. *)
Lemma waitForExit_gone (fuel : nat) (timeout : Z) (w : World) :
  (1 <= fuel)%nat -> 0 < timeout -> gone w target ->
  PosixKiller.waitForExit fuel target timeout w
  = Returned true (record (EKill target SIG0) w).
Proof.
  intros Hfuel Hpos Hg. destruct fuel as [|n]; [lia|].
  unfold PosixKiller.waitForExit. cbn [PosixKiller.waitLoop].
  unfold bind, dateNow, tryCatch.
  destruct (Z.ltb_spec (now w - now w) timeout); [|lia].
  by rewrite (processKill_gone _ _ _ Hg).
Qed.

(** A process that will not exit is polled until the window is over. *)
Lemma waitForExit_survivor (fuel : nat) (timeout : Z) (w : World) (p : Proc) :
  (1 <= fuel)%nat -> timeout <= 30 * (Z.of_nat fuel - 1) ->
  procs w !! target = Some p -> exitsAt p = None ->
  exists w' added,
    PosixKiller.waitForExit fuel target timeout w = Returned false w'
    /\ extends w w' added
    /\ forallb (isPoll target) added = true
    /\ procs w' = procs w /\ programs w' = programs w
    /\ now w + timeout <= now w'.
Proof.
  intros Hfuel Hrem Hp Hexit.
  destruct (waitForExit_returns fuel timeout w Hfuel Hrem)
    as (b & w' & added & Hrun & Hext & Hpoll & Hprocs & Hprogs & Hnow & Hb).
  destruct b.
  - exfalso. destruct Hb as [Hg _]. unfold gone in Hg.
    rewrite Hprocs, Hp in Hg. unfold existsAt in Hg. by rewrite Hexit in Hg.
  - by exists w', added.
Qed.

End WaitFacts.

(** ** Stepwise reasoning about programs *)

Section Steps.
Context (R : World -> World -> Prop) `{!PreOrder R}.

Lemma steps_ret {A} (a : A) : steps R (ret a).
Proof. intros w. simpl. reflexivity. Qed.

Lemma steps_throw {A} (e : JsError) : steps R (throw (A := A) e).
Proof. intros w. simpl. reflexivity. Qed.

Lemma steps_dateNow : steps R dateNow.
Proof. intros w. simpl. reflexivity. Qed.

Lemma steps_out_of_fuel {A} : steps R (fun _ => OutOfFuel (A := A)).
Proof. by intros w. Qed.

Lemma steps_bind {A B} (m : M A) (k : A -> M B) :
  steps R m -> (forall a, steps R (k a)) -> steps R (bind m k).
Proof.
  intros Hm Hk w. unfold bind. specialize (Hm w).
  destruct (m w) as [a w'|e w'| |]; try done.
  specialize (Hk a w'). destruct (k a w'); try done; by etransitivity.
Qed.

Lemma steps_tryCatch {A} (m : M A) (h : JsError -> M A) :
  steps R m -> (forall e, steps R (h e)) -> steps R (tryCatch m h).
Proof.
  intros Hm Hh w. unfold tryCatch. specialize (Hm w).
  destruct (m w) as [a w'|e w'| |]; try done.
  specialize (Hh e w'). destruct (h e w'); try done; by etransitivity.
Qed.

End Steps.

#[local] Instance keepsBounded_preorder : PreOrder keepsBounded.
Proof. split; unfold keepsBounded; [by intros w|intros w1 w2 w3; auto]. Qed.

#[local] Instance spares_preorder (root : Z) : PreOrder (spares root).
Proof.
  split.
  - intros w. split; [done|]. split; [lia|]. by exists [].
  - intros w1 w2 w3 (Hp1 & Hn1 & a1 & He1 & Ha1) (Hp2 & Hn2 & a2 & He2 & Ha2).
    split; [by rewrite Hp2|]. split; [lia|]. exists (a2 ++ a1).
    split; [by rewrite He2, He1, app_assoc|].
    by rewrite forallb_app, Ha1, Ha2.
Qed.

Section Primitives.

Lemma keepsBounded_cons (w w' : World) (te : Z * Event) :
  timeoutOk te = true -> events w' = te :: events w -> keepsBounded w w'.
Proof. intros Hte Hev Hw. rewrite Hev. simpl. by rewrite Hte, Hw. Qed.

Lemma bounded_processKill (target : Z) (sig : Signal) :
  steps keepsBounded (processKill target sig).
Proof.
  intros w. unfold processKill.
  assert (forall w', events w' = (now w, EKill target sig) :: events w ->
                     keepsBounded w w') as Hrec
    by (intros w'; by apply keepsBounded_cons).
  destruct (procs w !! target) as [p|]; [|by apply Hrec].
  destruct (existsAt p (now w)); [|by apply Hrec].
  destruct (denies p); by apply Hrec.
Qed.

Lemma bounded_sleep (ms : Z) : steps keepsBounded (sleep ms).
Proof. intros w. by apply (keepsBounded_cons _ _ (now w, ESleep ms)). Qed.

(** What a spawn does to the host, however it ends: the call is logged
    and time may pass; no process is touched. *)
Lemma execFile_world (cmd : jsstring) (args : list jsstring)
    (t : option Z) (w : World) :
  match execFile cmd args t w with
  | Returned _ w' | Thrown _ w' =>
      events w' = (now w, EExec cmd args t) :: events w
      /\ procs w' = procs w /\ programs w' = programs w
      /\ now w <= now w'
  | _ => True
  end.
Proof.
  unfold execFile.
  destruct (programs w cmd args) as [msg c|d o [l|]|[l|]];
    try destruct (armed t && _); try destruct (armed t); try done;
    unfold fired, advance, record; cbn [now events procs programs];
    (split; [reflexivity|]); (split; [reflexivity|]);
    (split; [reflexivity|]); lia.
Qed.

Lemma bounded_execFile (cmd : jsstring) (args : list jsstring) (t : Z) :
  1000 <= t <= 5000 -> steps keepsBounded (execFile cmd args (Some t)).
Proof.
  intros Ht w. pose proof (execFile_world cmd args (Some t) w) as Hw.
  assert (timeoutOk (now w, EExec cmd args (Some t)) = true) as Hok.
  { unfold timeoutOk. simpl.
    destruct (Z.leb_spec 1000 t), (Z.leb_spec t 5000); (done || lia). }
  destruct (execFile cmd args (Some t) w); try done;
    destruct Hw as (Hev & _); by eapply keepsBounded_cons.
Qed.

Lemma spares_record (root : Z) (e : Event) (w : World) :
  notSignalTo root (now w, e) = true -> spares root w (record e w).
Proof.
  intros He. split; [done|]. split; [simpl; lia|].
  exists [(now w, e)]. split; [done|]. simpl. by rewrite He.
Qed.

Lemma spares_processKill (root target : Z) (sig : Signal) :
  target <> root -> steps (spares root) (processKill target sig).
Proof.
  intros Hne w. unfold processKill.
  assert (spares root w (record (EKill target sig) w)) as Hrec.
  { apply spares_record. unfold notSignalTo. simpl.
    by destruct (Z.eqb_spec target root). }
  destruct (procs w !! target) as [p|]; [|done].
  destruct (existsAt p (now w)); [|done]. destruct (denies p); [done|].
  destruct Hrec as (Hp & Hn & Hev). split; [|by split].
  simpl. by rewrite lookup_insert_ne.
Qed.

Lemma spares_sleep (root ms : Z) : steps (spares root) (sleep ms).
Proof.
  intros w. simpl. split; [done|]. split; [simpl; lia|].
  by exists [(now w, ESleep ms)].
Qed.

Lemma spares_execFile (root : Z) (cmd : jsstring) (args : list jsstring)
    (t : option Z) :
  steps (spares root) (execFile cmd args t).
Proof.
  intros w. pose proof (execFile_world cmd args t w) as Hw.
  destruct (execFile cmd args t w); try done;
    destruct Hw as (Hev & Hp & _ & Hn);
    (split; [by rewrite Hp|]); (split; [done|]);
    by exists [(now w, EExec cmd args t)].
Qed.

End Primitives.

Create HintDb steps.
#[local] Hint Resolve steps_ret steps_throw steps_dateNow steps_out_of_fuel
  bounded_processKill bounded_sleep
  spares_processKill spares_sleep spares_execFile : steps.

(** Split a program along its binds, handlers and branches, and close the
    leaves with the primitives' lemmas. *)
Ltac steps :=
  repeat first
    [ progress auto with typeclass_instances steps
    | apply bounded_execFile; lia
    | apply steps_bind; [typeclasses eauto| |intros ?]
    | apply steps_tryCatch; [typeclasses eauto| |intros ?]
    | progress case_match ].

Section KillFacts.
Variable target : Z.


Lemma running_record (w : World) (p : Proc) (e : Event) :
  running w target p -> running (record e w) target p.
Proof. done. Qed.

Lemma gone_record (w : World) (e : Event) :
  gone w target -> gone (record e w) target.
Proof. done. Qed.


Lemma delivered_lookup (sig : Signal) (p : Proc) (w : World) :
  procs (delivered target sig p w) !! target = Some (deliver sig (now w) p).
Proof. unfold delivered, setProc. simpl. apply lookup_insert_eq. Qed.

Lemma delivered_ignored (sig : Signal) (p : Proc) (w : World) :
  procs w !! target = Some p -> deliver sig (now w) p = p ->
  delivered target sig p w = record (EKill target sig) w.
Proof. intros Hp Hd. unfold delivered. rewrite Hd. by apply setProc_same. Qed.

Lemma scheduleExit_now (t : Z) (p : Proc) :
  existsAt (scheduleExit t 0 p) t = false.
Proof.
  unfold existsAt, scheduleExit. simpl.
  destruct (exitsAt p); apply Z.ltb_ge; lia.
Qed.

(** [kill] without the tree option: the probe of [isAlive], then the
    protocol on the target with the grace window clamped at zero. *)
Lemma kill_single (fuel : nat) (options : KillOptions) (w : World) (p : Proc) :
  running w target p -> tree options <> Some true ->
  PosixKiller.kill fuel target options w
  = PosixKiller.killSingle fuel target
      (Z.max 0 (orElse (timeoutMs options) 0)) (record (EKill target SIG0) w).
Proof.
  intros Hr Htree. unfold PosixKiller.kill. unfold bind at 1.
  rewrite posix_isAlive_spec.
  assert (isRunning w target = true) as ->.
  { unfold isRunning. by destruct Hr as [-> ->]. }
  cbn [negb]. rewrite bool_decide_eq_false_2 by done. reflexivity.
Qed.

(** The target exits as soon as it receives SIGTERM. *)
Lemma killSingle_graceful (fuel : nat) (timeout : Z) (w : World) (p : Proc) :
  running w target p -> denies p = false -> onTerm p = Some 0 ->
  0 < timeout -> (1 <= fuel)%nat ->
  PosixKiller.killSingle fuel target timeout w
  = Returned (sigtermOk target)
      (record (EKill target SIG0) (delivered target SIGTERM p w)).
Proof.
  intros Hr Hd Hterm Hpos Hfuel. unfold PosixKiller.killSingle.
  unfold bind at 1, tryCatch at 1, bind at 1.
  rewrite (processKill_delivered _ _ _ _ Hr Hd). fold (delivered target SIGTERM p w).
  unfold ret at 1. cbn iota. unfold bind at 1.
  destruct (Z.ltb_spec 0 timeout); [|lia].
  rewrite waitForExit_gone; [done|done|done|].
  unfold gone. rewrite delivered_lookup. simpl. rewrite Hterm.
  apply scheduleExit_now.
Qed.

(** The target ignores SIGTERM: after the grace window SIGKILL is sent. *)
Lemma killSingle_escalates (fuel : nat) (timeout : Z) (w : World) (p : Proc) :
  running w target p -> denies p = false -> exitsAt p = None ->
  onTerm p = None -> 0 < timeout ->
  (1 <= fuel)%nat -> Z.max timeout 200 <= 30 * (Z.of_nat fuel - 1) ->
  exists w2 polls,
    extends (record (EKill target SIGTERM) w) w2 polls
    /\ forallb (isPoll target) polls = true
    /\ procs w2 = procs w
    /\ now w + timeout <= now w2
    /\ PosixKiller.killSingle fuel target timeout w
       = bind (PosixKiller.waitForExit fuel target 200)
              (fun gone0 => if gone0 then ret (sigkillOk target) else ret (stillAlive target))
              (delivered target SIGKILL p w2).
Proof.
  intros Hr Hd Hexit Hterm Hpos Hfuel Hrem.
  pose proof Hr as [Hp Ha].
  unfold PosixKiller.killSingle.
  unfold bind at 1, tryCatch at 1, bind at 1.
  rewrite (processKill_delivered _ _ _ _ Hr Hd). fold (delivered target SIGTERM p w).
  rewrite (delivered_ignored SIGTERM p w Hp) by (simpl; by rewrite Hterm).
  unfold ret at 1. cbn iota. unfold bind at 1.
  destruct (Z.ltb_spec 0 timeout); [|lia].
  destruct (waitForExit_survivor target fuel timeout
              (record (EKill target SIGTERM) w) p)
    as (w2 & polls & -> & Hext & Hpoll & Hprocs & Hprogs & Hnow);
    [done|lia|done|done|].
  exists w2, polls. simpl in Hprocs, Hnow.
  split; [done|]. split; [done|]. split; [done|]. split; [done|].
  assert (running w2 target p) as Hr2.
  { split; [by rewrite Hprocs|]. unfold existsAt. by rewrite Hexit. }
  unfold bind at 1, tryCatch at 1, bind at 1.
  rewrite (processKill_delivered _ _ _ _ Hr2 Hd). reflexivity.
Qed.

End KillFacts.

(** ** Tree mode *)

Section TreeMode.
Variable root : Z.

Lemma spares_waitLoop (fuel : nat) (c start timeout : Z) :
  c <> root -> steps (spares root) (PosixKiller.waitLoop fuel c start timeout).
Proof.
  intros Hne. induction fuel as [|n IH]; cbn [PosixKiller.waitLoop]; steps.
Qed.

Lemma spares_killSingle (fuel : nat) (c timeout : Z) :
  c <> root -> steps (spares root) (PosixKiller.killSingle fuel c timeout).
Proof.
  intros Hne. pose proof (spares_waitLoop fuel c) as Hwait.
  unfold PosixKiller.killSingle, PosixKiller.waitForExit. steps.
Qed.

Lemma spares_killEach (fuel : nat) (children : list Z) (timeout : Z) :
  root ∉ children ->
  steps (spares root) (PosixKiller.killEach fuel children timeout).
Proof.
  induction children as [|c rest IH]; intros Hroot;
    cbn [PosixKiller.killEach]; [steps|].
  apply not_elem_of_cons in Hroot as [Hc Hrest].
  pose proof (spares_killSingle fuel c timeout (not_eq_sym Hc)).
  specialize (IH Hrest). steps.
Qed.

Lemma spares_descendantsLoop (fuel : nat) (seen : gset Z) (out q : list Z) :
  steps (spares root) (PosixKiller.descendantsLoop fuel root seen out q).
Proof.
  revert seen out q.
  induction fuel as [|n IH]; intros seen out q;
    cbn [PosixKiller.descendantsLoop]; unfold PosixKiller.listChildren; steps.
Qed.

(** The root itself is never among the descendants listed. *)
Lemma descendants_not_root (fuel : nat) (seen : gset Z) (out q : list Z)
    (w w' : World) (found : list Z) :
  PosixKiller.descendantsLoop fuel root seen out q w = Returned found w' ->
  root ∉ found.
Proof.
  revert seen out q w.
  induction fuel as [|n IH]; intros seen out q w;
    cbn [PosixKiller.descendantsLoop]; [done|].
  destruct q as [|c q'].
  - intros [= <- _]. by intros [? _]%list_elem_of_filter.
  - destruct (decide (c ∈ seen)); [apply IH|].
    unfold bind. destruct (PosixKiller.listChildren c w); try done. apply IH.
Qed.

Lemma spares_childrenPhase (fuel : nat) (timeout : Z) :
  steps (spares root) (childrenPhase fuel root timeout).
Proof.
  intros w. unfold childrenPhase, tryCatch, bind, PosixKiller.listDescendants.
  pose proof (spares_descendantsLoop fuel ∅ [] [root] w) as Hlist.
  destruct (PosixKiller.descendantsLoop fuel root ∅ [] [root] w)
    as [found w1|e w1| |] eqn:Hfound; try done.
  pose proof (descendants_not_root _ _ _ _ _ _ _ Hfound) as Hroot.
  assert (root ∉ rev found) as Hrev.
  { intros Hin. apply Hroot. apply list_elem_of_In. apply in_rev.
    by apply list_elem_of_In. }
  pose proof (spares_killEach fuel (rev found) timeout Hrev w1) as Hkill.
  destruct (PosixKiller.killEach fuel (rev found) timeout w1);
    simpl; try done; by transitivity w1.
Qed.

(** With the tree option, [kill] handles the descendants and then runs
    the protocol on the target itself: nothing was sent to the target
    in between, and its entry in the process table is as it was. *)
Lemma kill_tree (fuel : nat) (options : KillOptions) (w w1 : World) (p : Proc) :
  running w root p -> tree options = Some true ->
  childrenPhase fuel root (Z.max 0 (orElse (timeoutMs options) 0))
    (record (EKill root SIG0) w) = Returned tt w1 ->
  PosixKiller.kill fuel root options w
  = PosixKiller.killSingle fuel root
      (Z.max 0 (orElse (timeoutMs options) 0)) w1
  /\ spares root (record (EKill root SIG0) w) w1.
Proof.
  intros Hr Htree Hphase. split.
  - unfold PosixKiller.kill. unfold bind at 1.
    rewrite posix_isAlive_spec.
    assert (isRunning w root = true) as ->.
    { unfold isRunning. by destruct Hr as [-> ->]. }
    cbn [negb]. rewrite bool_decide_eq_true_2 by done.
    unfold bind at 1. fold (childrenPhase fuel root
                              (Z.max 0 (orElse (timeoutMs options) 0))).
    by rewrite Hphase.
  - pose proof (spares_childrenPhase fuel
                  (Z.max 0 (orElse (timeoutMs options) 0))
                  (record (EKill root SIG0) w)) as Hs.
    by rewrite Hphase in Hs.
Qed.

(** [kill], with or without the tree option, comes down to the protocol
    on the target, from the state the descendants were left in. *)
Lemma kill_target (fuel : nat) (options : KillOptions) (w w1 : World) (p : Proc) :
  running w root p ->
  childrenHandled fuel root options w w1 ->
  PosixKiller.kill fuel root options w
  = PosixKiller.killSingle fuel root
      (Z.max 0 (orElse (timeoutMs options) 0)) w1
  /\ spares root (record (EKill root SIG0) w) w1.
Proof.
  intros Hr. unfold childrenHandled. case_bool_decide as Htree.
  - by apply (kill_tree fuel options w w1 p).
  - intros ->. split; [by apply (kill_single root fuel options w p)|].
    reflexivity.
Qed.

End TreeMode.


(** C1 (POSIX kill state machine): with a grace window configured, a
    target that exits as soon as it receives SIGTERM makes [kill] return
    ok with method SIGTERM before the clock has moved, SIGKILL never
    being sent to it; a target that ignores SIGTERM and exits on SIGKILL
    makes it return ok with method SIGKILL once the grace window is
    over; a target that survives both makes it return a failure saying
    the process is still alive, once the confirmation wait of 200 ms is
    over as well. ([w1] is the state in which [kill] turns to the target:
    right after the probe of [isAlive], unless the tree option had
    descendants handled first.) *)
Theorem kill_state_machine (fuel : nat) (target : Z) (options : KillOptions)
    (w w1 : World) (p : Proc) (grace : Z) :
  running w target p -> denies p = false -> exitsAt p = None ->
  timeoutMs options = Some grace -> 0 < grace ->
  (1 <= fuel)%nat -> Z.max grace 200 <= 30 * (Z.of_nat fuel - 1) ->
  childrenHandled fuel target options w w1 ->
  (onTerm p = Some 0 ->
     exists w',
       PosixKiller.kill fuel target options w = Returned (sigtermOk target) w'
       /\ now w' = now w1 /\ now w' - now w1 < grace
       /\ events w' = [(now w1, EKill target SIG0);
                       (now w1, EKill target SIGTERM)] ++ events w1
       /\ (forall t, (t, EKill target SIGKILL) ∈ events w' ->
                     (t, EKill target SIGKILL) ∈ events w))
  /\ (onTerm p = None -> onKill p = Some 0 ->
        exists w' polls,
          PosixKiller.kill fuel target options w
          = Returned (sigkillOk target) w'
          /\ now w1 + grace <= now w'
          /\ forallb (isPoll target) polls = true
          /\ events w' = [(now w', EKill target SIG0);
                          (now w', EKill target SIGKILL)] ++ polls ++
                         [(now w1, EKill target SIGTERM)] ++ events w1)
  /\ (onTerm p = None -> onKill p = None ->
        exists w',
          PosixKiller.kill fuel target options w
          = Returned (stillAlive target) w'
          /\ now w1 + grace + 200 <= now w'
          /\ ok (stillAlive target) = false
          /\ message (stillAlive target) = Some (lit "process still alive")).
Proof.
  intros Hr Hd Hexit Hopt Hpos Hfuel Hrem Hchildren.
  destruct (kill_target target fuel options w w1 p Hr Hchildren)
    as [-> (Hprocs & Hnow & added & Hev & Hadded)].
  rewrite Hopt. cbn [orElse]. rewrite Z.max_r by lia.
  assert (running w1 target p) as Hr1.
  { split; [rewrite Hprocs; apply Hr|]. unfold existsAt. by rewrite Hexit. }
  split; [|split].
  - intros Hterm. eexists. split.
    + by apply (killSingle_graceful target fuel grace w1 p).
    + split; [done|]. split; [simpl; lia|]. split; [done|].
      intros t. simpl. rewrite Hev. simpl.
      intros [[=]|[[=]|[Hin|[[=]|Hin]%elem_of_cons]%elem_of_app]%elem_of_cons]%elem_of_cons;
        [|done].
      exfalso. rewrite forallb_forall in Hadded.
      apply list_elem_of_In, Hadded in Hin. unfold notSignalTo in Hin.
      simpl in Hin. by rewrite Z.eqb_refl in Hin.
  - intros Hterm Hkill.
    destruct (killSingle_escalates target fuel grace w1 p)
      as (w2 & polls & Hext & Hpoll & Hprocs2 & Hnow2 & ->); try done.
    unfold bind.
    rewrite waitForExit_gone; [|done|lia|].
    + eexists. exists polls. split; [reflexivity|].
      split; [exact Hnow2|]. split; [done|].
      simpl. unfold extends in Hext. by rewrite Hext.
    + unfold gone. rewrite delivered_lookup. simpl. rewrite Hkill.
      apply scheduleExit_now.
  - intros Hterm Hkill.
    destruct (killSingle_escalates target fuel grace w1 p)
      as (w2 & polls & Hext & Hpoll & Hprocs2 & Hnow2 & ->); try done.
    unfold bind.
    assert (procs (delivered target SIGKILL p w2) !! target = Some p) as Hp3.
    { rewrite delivered_lookup. simpl. by rewrite Hkill. }
    destruct (waitForExit_survivor target fuel 200
                (delivered target SIGKILL p w2) p)
      as (w3 & confirm & -> & _ & _ & _ & _ & Hnow3); [done|lia|done|done|].
    exists w3. split; [done|]. split; [|done].
    simpl in Hnow3. lia.
Qed.

(** C10 (zero-grace escalation): for a live target and a grace window
    that is omitted, zero or negative, the window is clamped at zero and
    [kill] does no grace-period polling: once SIGTERM was sent with
    success, SIGKILL is the very next call, at the same instant, and what
    follows is only the confirmation polling. A kill that then succeeds
    reports SIGKILL, or SIGTERM when the target was already gone as
    SIGKILL was sent. (When sending SIGTERM is not permitted, the call
    fails with EPERM at once. [w1] is the state in which [kill] turns to
    the target, as above.) *)
Theorem zero_grace_escalation (fuel : nat) (target : Z) (options : KillOptions)
    (w w1 : World) (p : Proc) :
  running w target p -> existsAt p (now w1) = true ->
  timeoutMs options = None \/ (exists t, timeoutMs options = Some t /\ t <= 0) ->
  (8 <= fuel)%nat ->
  childrenHandled fuel target options w w1 ->
  Z.max 0 (orElse (timeoutMs options) 0) = 0
  /\ (denies p = false ->
      exists r w' confirm,
        PosixKiller.kill fuel target options w = Returned r w'
        /\ events w' = confirm ++ [(now w1, EKill target SIGKILL);
                                   (now w1, EKill target SIGTERM)] ++ events w1
        /\ forallb (isPoll target) confirm = true
        /\ (ok r = true ->
            r = sigkillOk target
            \/ (r = sigtermOk target /\ confirm = []
                /\ existsAt (deliver SIGTERM (now w1) p) (now w1) = false)))
  /\ (denies p = true ->
      PosixKiller.kill fuel target options w
      = Returned (PosixKiller.result target false "SIGTERM"
                    (Some (lit "kill EPERM")) (Some (lit "EPERM")))
                 (record (EKill target SIGTERM) w1)).
Proof.
  intros Hr Halive Hopt Hfuel Hchildren.
  assert (Z.max 0 (orElse (timeoutMs options) 0) = 0) as Hclamp.
  { destruct Hopt as [->|(t & -> & Ht)]; simpl; lia. }
  split; [done|].
  destruct (kill_target target fuel options w w1 p Hr Hchildren)
    as [-> (Hprocs & _)].
  rewrite Hclamp.
  assert (running w1 target p) as Hr1.
  { split; [rewrite Hprocs; apply Hr|done]. }
  split.
  - intros Hd. unfold PosixKiller.killSingle.
    unfold bind at 1, tryCatch at 1, bind at 1.
    rewrite (processKill_delivered _ _ _ _ Hr1 Hd).
    fold (delivered target SIGTERM p w1).
    unfold ret at 1. cbn iota. unfold bind at 1.
    change (0 <? 0) with false. cbn iota. unfold ret at 1. cbn iota.
    set (w2 := delivered target SIGTERM p w1).
    unfold bind at 1, tryCatch at 1, bind at 1.
    destruct (running_or_gone w2 target) as [Hg|[p2 Hr2]].
    + rewrite (processKill_gone _ _ _ Hg).
      change (hasCode (systemError "ESRCH") "ESRCH") with true.
      unfold ret. cbn iota.
      exists (sigtermOk target). eexists. exists [].
      split; [reflexivity|]. split; [reflexivity|]. split; [done|].
      intros _. right. split; [done|]. split; [done|].
      unfold gone in Hg. unfold w2 in Hg. rewrite delivered_lookup in Hg.
      exact Hg.
    + assert (denies p2 = false) as Hd2.
      { destruct Hr2 as [Hp2 _]. unfold w2 in Hp2.
        rewrite delivered_lookup in Hp2. injection Hp2 as <-.
        simpl. destruct (onTerm p); simpl; done. }
      rewrite (processKill_delivered _ _ _ _ Hr2 Hd2).
      fold (delivered target SIGKILL p2 w2).
      unfold ret at 1. cbn iota. unfold bind at 1.
      destruct (waitForExit_returns target fuel 200
                  (delivered target SIGKILL p2 w2))
        as (b & w3 & confirm & -> & Hext & Hpoll & _); [lia|lia|].
      exists (if b then sigkillOk target else stillAlive target), w3, confirm.
      split; [by destruct b|]. split; [exact Hext|]. split; [done|].
      destruct b; [by left|discriminate].
  - intros Hd. unfold PosixKiller.killSingle.
    unfold bind at 1, tryCatch at 1, bind at 1.
    by rewrite (processKill_denied _ _ _ _ Hr1 Hd).
Qed.

(** ** The Windows kill protocol *)


Section TaskkillFacts.

Lemma runTaskkill_classify (args : list jsstring) (w w1 : World)
    (res : ExecResult) :
  execFile (lit "taskkill") args (Some 5000) w = Returned res w1 ->
  WindowsKiller.runTaskkill args w =
    Returned
      (let out := combinedOutput res in
       if WindowsKiller.matchesSuccess out
       then WindowsKiller.taskkillResult args true "taskkill" None None
       else if WindowsKiller.matchesNotFound out
       then WindowsKiller.taskkillResult args true "already-exited" None None
       else if WindowsKiller.matchesAccessDenied out
       then WindowsKiller.taskkillResult args false "taskkill"
              (Some (lit "access denied")) (Some (lit "EPERM"))
       else if bool_decide (code res = Some 0)
       then WindowsKiller.taskkillResult args true "taskkill" None None
       else WindowsKiller.taskkillResult args false "taskkill"
              (Some (WindowsKiller.cleanMessage out)) None) w1.
Proof.
  intros Hexec. unfold WindowsKiller.runTaskkill, tryCatch, bind.
  rewrite Hexec. fold (combinedOutput res). cbv zeta. unfold ret.
  by repeat case_match.
Qed.

(** An output holding the success token of the Chinese locale is a
    success, whatever the exit code. *)
Lemma runTaskkill_token (args : list jsstring) (w w1 : World)
    (res : ExecResult) :
  execFile (lit "taskkill") args (Some 5000) w = Returned res w1 ->
  includes WindowsKiller.successToken (combinedOutput res) = true ->
  WindowsKiller.runTaskkill args w
  = Returned (WindowsKiller.taskkillResult args true "taskkill" None None) w1.
Proof.
  intros Hexec Htoken. rewrite (runTaskkill_classify _ _ _ _ Hexec).
  cbv zeta. unfold WindowsKiller.matchesSuccess. rewrite Htoken.
  by rewrite orb_true_r.
Qed.

(** An exit code of zero is a success whatever the language of the
    output, unless the output matches one of the access-denied patterns. *)
Lemma runTaskkill_exit_zero (args : list jsstring) (w w1 : World)
    (res : ExecResult) :
  execFile (lit "taskkill") args (Some 5000) w = Returned res w1 ->
  code res = Some 0 ->
  WindowsKiller.matchesAccessDenied (combinedOutput res) = false ->
  exists r, WindowsKiller.runTaskkill args w = Returned r w1 /\ ok r = true.
Proof.
  intros Hexec Hcode Hdenied. rewrite (runTaskkill_classify _ _ _ _ Hexec).
  eexists. split; [reflexivity|]. cbv zeta. rewrite Hdenied.
  rewrite bool_decide_eq_true_2 by done. by repeat case_match.
Qed.

(** [runTaskkill] never throws. *)
Lemma runTaskkill_never_throws (args : list jsstring) (w : World) :
  match WindowsKiller.runTaskkill args w with
  | Thrown _ _ => False
  | _ => True
  end.
Proof.
  unfold WindowsKiller.runTaskkill, tryCatch, bind.
  destruct (execFile (lit "taskkill") args (Some 5000) w); try done.
  cbv zeta. unfold ret. by repeat case_match.
Qed.

End TaskkillFacts.

(** C9 (locale-tolerant success parsing): a taskkill invocation whose
    combined output holds the non-English success token of the success
    pattern, and no ASCII SUCCESS, is classified as a success, whatever
    its exit code; so [kill] reports ok when the first invocation, or
    else the forced one, prints it. (An output in any other language is
    a success as well when the exit code is zero and no access-denied
    pattern matches.) *)
Theorem locale_tolerant_success (target : Z) (options : KillOptions)
    (w : World) :
  let baseArgs := [lit "/PID"; numToString target; lit "/T"] in
  let w0 := record (EKill target SIG0) w in
  let tokenOnly res :=
    includes WindowsKiller.successToken (combinedOutput res) = true
    /\ includesCI (lit "SUCCESS") (combinedOutput res) = false in
  (forall args w' w1 res,
     execFile (lit "taskkill") args (Some 5000) w' = Returned res w1 ->
     tokenOnly res ->
     exists r, WindowsKiller.runTaskkill args w' = Returned r w1
               /\ ok r = true /\ method r = lit "taskkill")
  /\ (forall w1 res,
        isRunning w target = true ->
        execFile (lit "taskkill") baseArgs (Some 5000) w0 = Returned res w1 ->
        tokenOnly res ->
        WindowsKiller.kill target options w
        = Returned {| kpid := target; ok := true; method := lit "taskkill";
                      message := None; errorCode := None |} w1)
  /\ (forall first w1 w2 res,
        isRunning w target = true ->
        WindowsKiller.runTaskkill baseArgs w0 = Returned first w1 ->
        ok first = false ->
        execFile (lit "taskkill") (baseArgs ++ [lit "/F"]) (Some 5000) w1
        = Returned res w2 ->
        tokenOnly res ->
        WindowsKiller.kill target options w
        = Returned {| kpid := target; ok := true; method := lit "taskkill /F";
                      message := None; errorCode := None |} w2)
  /\ (forall args w' w1 res,
        execFile (lit "taskkill") args (Some 5000) w' = Returned res w1 ->
        code res = Some 0 ->
        WindowsKiller.matchesAccessDenied (combinedOutput res) = false ->
        exists r, WindowsKiller.runTaskkill args w' = Returned r w1
                  /\ ok r = true).
Proof.
  intros baseArgs w0 tokenOnly. split; [|split; [|split]].
  - intros args w' w1 res Hexec [Htoken _].
    eexists. split; [exact (runTaskkill_token _ _ _ _ Hexec Htoken)|].
    by split.
  - intros w1 res Halive Hexec [Htoken _].
    unfold WindowsKiller.kill. unfold bind at 1.
    rewrite windows_isAlive_spec, posix_isAlive_spec, Halive. cbn [negb].
    fold baseArgs w0. unfold bind at 1.
    by rewrite (runTaskkill_token _ _ _ _ Hexec Htoken).
  - intros first w1 w2 res Halive Hfirst Hnot Hexec [Htoken _].
    unfold WindowsKiller.kill. unfold bind at 1.
    rewrite windows_isAlive_spec, posix_isAlive_spec, Halive. cbn [negb].
    fold baseArgs w0. unfold bind at 1. rewrite Hfirst, Hnot.
    unfold bind at 1.
    by rewrite (runTaskkill_token _ _ _ _ Hexec Htoken).
  - intros args w' w1 res. apply runTaskkill_exit_zero.
Qed.

(** ** Command timeouts *)




Section BoundedPrograms.

Lemma bounded_waitLoop (fuel : nat) (target start timeout : Z) :
  boundedSpawns (PosixKiller.waitLoop fuel target start timeout).
Proof.
  induction fuel as [|n IH]; cbn [PosixKiller.waitLoop];
    [apply steps_out_of_fuel; apply _|]. unfold boundedSpawns in *. steps.
Qed.

Lemma bounded_waitForExit (fuel : nat) (target timeout : Z) :
  boundedSpawns (PosixKiller.waitForExit fuel target timeout).
Proof.
  unfold PosixKiller.waitForExit. unfold boundedSpawns. steps. apply bounded_waitLoop.
Qed.

Lemma bounded_killSingle (fuel : nat) (target timeout : Z) :
  boundedSpawns (PosixKiller.killSingle fuel target timeout).
Proof.
  unfold PosixKiller.killSingle. pose proof bounded_waitForExit. unfold boundedSpawns in *. steps.
Qed.

Lemma bounded_listChildren (target : Z) :
  boundedSpawns (PosixKiller.listChildren target).
Proof. unfold boundedSpawns, PosixKiller.listChildren. steps. Qed.

Lemma bounded_descendantsLoop (fuel : nat) (root : Z) (seen : gset Z)
    (out q : list Z) :
  boundedSpawns (PosixKiller.descendantsLoop fuel root seen out q).
Proof.
  revert seen out q.
  induction fuel as [|n IH]; intros seen out q;
    cbn [PosixKiller.descendantsLoop]; [apply steps_out_of_fuel; apply _|].
  pose proof bounded_listChildren. unfold boundedSpawns in *. steps.
Qed.

Lemma bounded_killEach (fuel : nat) (children : list Z) (timeout : Z) :
  boundedSpawns (PosixKiller.killEach fuel children timeout).
Proof.
  induction children as [|c rest IH]; cbn [PosixKiller.killEach].
  - apply steps_ret; apply _.
  - pose proof bounded_killSingle. unfold boundedSpawns in *. steps.
Qed.

Lemma bounded_posix_kill (fuel : nat) (target : Z) (options : KillOptions) :
  boundedSpawns (PosixKiller.kill fuel target options).
Proof.
  unfold PosixKiller.kill, PosixKiller.isAlive, PosixKiller.listDescendants.
  pose proof bounded_killSingle. pose proof bounded_killEach.
  pose proof bounded_descendantsLoop. unfold boundedSpawns in *. steps.
Qed.

Lemma bounded_runTaskkill (args : list jsstring) :
  boundedSpawns (WindowsKiller.runTaskkill args).
Proof. unfold boundedSpawns, WindowsKiller.runTaskkill. steps. Qed.

Lemma bounded_windows_kill (target : Z) (options : KillOptions) :
  boundedSpawns (WindowsKiller.kill target options).
Proof.
  unfold WindowsKiller.kill, WindowsKiller.isAlive.
  pose proof bounded_runTaskkill. unfold boundedSpawns in *. steps.
Qed.

Lemma bounded_tryLsof (args : list jsstring) :
  boundedSpawns (PosixFallbackFinder.tryLsof args).
Proof. unfold boundedSpawns, PosixFallbackFinder.tryLsof. steps. Qed.

Lemma bounded_runNetstat (args : list jsstring) :
  boundedSpawns (WindowsFinder.runNetstat args).
Proof. unfold boundedSpawns, WindowsFinder.runNetstat. steps. Qed.

Lemma bounded_runPowerShell (script : jsstring) :
  boundedSpawns (WindowsFinder.runPowerShell script).
Proof. unfold boundedSpawns, WindowsFinder.runPowerShell. steps. Qed.

Lemma bounded_tryTasklistInfo : boundedSpawns Tasklist.tryTasklistInfo.
Proof. unfold boundedSpawns, Tasklist.tryTasklistInfo. steps. Qed.

End BoundedPrograms.

Section Contributions.

(** A child that never closes by itself is killed when the timer fires,
    and the call throws once it has closed. *)
Lemma execFile_timeout (cmd : jsstring) (args : list jsstring) (t l : Z)
    (w : World) :
  0 < t -> programs w cmd args = Hangs (Some l) ->
  exists w1,
    execFile cmd args (Some t) w = Thrown (ExecTimeoutError cmd t) w1
    /\ now w + t <= now w1.
Proof.
  intros Ht Hp. unfold execFile. rewrite Hp. cbn [armed].
  assert ((0 <? t) = true) as -> by lia.
  eexists. split; [reflexivity|]. simpl. lia.
Qed.

(** A missing command makes the spawn fail at once. *)
Lemma execFile_missing (cmd : jsstring) (args : list jsstring)
    (t : option Z) (msg : option jsstring) (w : World) :
  programs w cmd args = SpawnFails msg (Some (lit "ENOENT")) ->
  execFile cmd args t w
  = Thrown (ExecSpawnError msg (Some (lit "ENOENT")))
      (record (EExec cmd args t) w).
Proof. intros Hp. unfold execFile. by rewrite Hp. Qed.

(** The timer does not bound the call: a child that does not close once
    killed leaves the promise pending. *)
Lemma execFile_stuck (cmd : jsstring) (args : list jsstring) (t : option Z)
    (w : World) :
  programs w cmd args = Hangs None -> execFile cmd args t w = Unsettled.
Proof. intros Hp. unfold execFile. rewrite Hp. by destruct (armed t). Qed.

Lemma tryLsof_failure (args : list jsstring) (w w1 : World) (e : JsError) :
  execFile (lit "lsof") args (Some 2000) w = Thrown e w1 ->
  PosixFallbackFinder.tryLsof args w = Returned None w1.
Proof.
  intros He. unfold PosixFallbackFinder.tryLsof, tryCatch, bind.
  rewrite He. by destruct (isCommandNotFound e).
Qed.

Lemma tryTasklistInfo_failure (w w1 : World) (e : JsError) :
  execFile (lit "tasklist") [lit "/V"; lit "/FO"; lit "CSV"; lit "/NH"]
    (Some 3000) w = Thrown e w1 ->
  Tasklist.tryTasklistInfo w = Returned None w1.
Proof.
  intros He. unfold Tasklist.tryTasklistInfo, tryCatch, bind. by rewrite He.
Qed.

Lemma runPowerShell_failure (script : jsstring) (w w1 : World) (e : JsError) :
  let args := [lit "-NoProfile"; lit "-NonInteractive";
               lit "-ExecutionPolicy"; lit "Bypass"; lit "-Command";
               script] in
  execFile (lit "powershell.exe") args (Some 2000) w = Thrown e w1 ->
  (isCommandNotFound e = false ->
   WindowsFinder.runPowerShell script w = Returned None w1)
  /\ (forall e2 w2,
        isCommandNotFound e = true ->
        execFile (lit "powershell") args (Some 2000) w1 = Thrown e2 w2 ->
        WindowsFinder.runPowerShell script w = Returned None w2).
Proof.
  intros args He.
  assert (WindowsFinder.runPowerShell script w
          = (if isCommandNotFound e then
               tryCatch
                 (bind (execFile (lit "powershell") args (Some 2000))
                    (fun res => ret (Some (stdout res))))
                 (fun _ => ret None)
             else ret None) w1) as ->.
  { unfold WindowsFinder.runPowerShell. fold args.
    unfold tryCatch at 1, bind at 1. by rewrite He. }
  split.
  - by intros ->.
  - intros e2 w2 -> He2. unfold tryCatch, bind. by rewrite He2.
Qed.

Lemma runNetstat_failure (args : list jsstring) (w w1 : World) (e : JsError) :
  execFile (lit "netstat") args (Some 2000) w = Thrown e w1 ->
  WindowsFinder.runNetstat args w
  = Thrown (if isCommandNotFound e then plainError "netstat not found."
            else e) w1.
Proof.
  intros He. unfold WindowsFinder.runNetstat, tryCatch, bind.
  rewrite He. by destruct (isCommandNotFound e).
Qed.

End Contributions.

(** C8, as the claim states it, fails: the Linux finder runs ss, and the
    Darwin finder lsof, with no timeout at all, so that a command that
    hangs leaves the call pending for ever instead of contributing an
    empty result; and where netstat does time out, the Windows finder
    throws the error on instead of returning an empty result. *)
Lemma command_timeouts_counterexample :
  ~ boundedSpawns LinuxFinder.trySsListAll
  /\ ~ boundedSpawns (DarwinFinder.runLsof [lit "-nP"; lit "-iTCP"; lit "-sTCP:LISTEN"])
  /\ LinuxFinder.trySsListAll hangingHost = Unsettled
  /\ DarwinFinder.runLsof [lit "-nP"; lit "-iTCP"; lit "-sTCP:LISTEN"] hangingHost
     = Unsettled
  /\ exists w',
       WindowsFinder.runNetstat [lit "-ano"; lit "-p"; lit "tcp"] hangingHost
       = Thrown (ExecTimeoutError (lit "netstat") 2000) w'.
Proof.
  split; [|split; [|split; [|split]]].
  - intros Hb. specialize (Hb quietHost). vm_compute in Hb.
    specialize (Hb eq_refl). discriminate.
  - intros Hb. specialize (Hb quietHost). vm_compute in Hb.
    specialize (Hb eq_refl). discriminate.
  - reflexivity.
  - reflexivity.
  - eexists. reflexivity.
Qed.

(** C8, amended: every command the kill strategies run (ps, taskkill),
    and every command run by the POSIX-fallback finder (lsof) and by the
    Windows finder (netstat, PowerShell, tasklist), is given a timeout of
    one to five seconds. When such a command fails, by timing out (the
    child is killed when the timer fires and the call throws once it has
    closed) or because the tool is missing, [tryLsof], [tryTasklistInfo]
    and [runPowerShell] contribute the same empty result, whereas
    [runNetstat] throws: the timeout error as it is, the missing tool as
    [netstat not found.]. *)
Theorem command_timeouts :
  (forall fuel target options,
     boundedSpawns (PosixKiller.kill fuel target options))
  /\ (forall target options, boundedSpawns (WindowsKiller.kill target options))
  /\ (forall args, boundedSpawns (PosixFallbackFinder.tryLsof args))
  /\ (forall args, boundedSpawns (WindowsFinder.runNetstat args))
  /\ (forall script, boundedSpawns (WindowsFinder.runPowerShell script))
  /\ boundedSpawns Tasklist.tryTasklistInfo
  /\ (forall cmd args t l w,
        0 < t -> programs w cmd args = Hangs (Some l) ->
        exists w1,
          execFile cmd args (Some t) w = Thrown (ExecTimeoutError cmd t) w1
          /\ now w + t <= now w1)
  /\ (forall cmd args t msg w,
        programs w cmd args = SpawnFails msg (Some (lit "ENOENT")) ->
        execFile cmd args t w
        = Thrown (ExecSpawnError msg (Some (lit "ENOENT")))
            (record (EExec cmd args t) w))
  /\ (forall args w w1 e,
        execFile (lit "lsof") args (Some 2000) w = Thrown e w1 ->
        PosixFallbackFinder.tryLsof args w = Returned None w1)
  /\ (forall w w1 e,
        execFile (lit "tasklist") [lit "/V"; lit "/FO"; lit "CSV"; lit "/NH"]
          (Some 3000) w = Thrown e w1 ->
        Tasklist.tryTasklistInfo w = Returned None w1)
  /\ (forall script w w1 e,
        let args := [lit "-NoProfile"; lit "-NonInteractive";
                     lit "-ExecutionPolicy"; lit "Bypass"; lit "-Command";
                     script] in
        execFile (lit "powershell.exe") args (Some 2000) w = Thrown e w1 ->
        (isCommandNotFound e = false ->
         WindowsFinder.runPowerShell script w = Returned None w1)
        /\ (forall e2 w2,
              isCommandNotFound e = true ->
              execFile (lit "powershell") args (Some 2000) w1 = Thrown e2 w2 ->
              WindowsFinder.runPowerShell script w = Returned None w2))
  /\ (forall args w w1 e,
        execFile (lit "netstat") args (Some 2000) w = Thrown e w1 ->
        WindowsFinder.runNetstat args w
        = Thrown (if isCommandNotFound e then plainError "netstat not found."
                  else e) w1).
Proof.
  split; [exact bounded_posix_kill|].
  split; [exact bounded_windows_kill|].
  split; [exact bounded_tryLsof|].
  split; [exact bounded_runNetstat|].
  split; [exact bounded_runPowerShell|].
  split; [exact bounded_tryTasklistInfo|].
  split; [exact execFile_timeout|].
  split; [intros; by apply execFile_missing|].
  split; [exact tryLsof_failure|].
  split; [exact tryTasklistInfo_failure|].
  split; [exact runPowerShell_failure|exact runNetstat_failure].
Qed.

(** ** The properties at sample inputs *)

Lemma dedupe_idempotent_witness :
  exists y, y ∈ dedupe sampleListeners
            /\ listenerKey y = listenerKey (sampleListener 2).
Proof.
  destruct (dedupe_idempotent sampleListeners) as (_ & _ & _ & Hkeys & _).
  apply Hkeys. unfold sampleListeners. right. left.
Defined.

Lemma navigation_bounds_witness :
  inBounds sampleListeners
    (Tui.run sampleListeners
       (Tui.Data <$> take 2 [Tui.KEY_end; [106]; Tui.KEY_pageUp])
       (Tui.start None (Some 5))).
Proof.
  apply navigation_bounds; [discriminate|].
  refine (bool_decide_unpack _ _). vm_compute. exact I.
Defined.

Lemma selection_resolution_witness :
  Tui.selectListeners sampleListeners true None None
    ((Tui.Data <$> [[106]]) ++ [Tui.Data [32]]
     ++ (Tui.Data <$> []) ++ [Tui.Data [13]])
  = Some {| cancelled := false; selected := [sampleListener 7] |}
  /\ Tui.selectListeners sampleListeners true None None
       ([Tui.Data [32]] ++ [Tui.Data [27]])
     = Some {| cancelled := true; selected := [] |}.
Proof.
  destruct (selection_resolution sampleListeners None None) as [Hsel Hesc].
  split.
  - refine (proj1 (Hsel [[106]] [] _ _)).
    + refine (bool_decide_unpack _ _). vm_compute. exact I.
    + constructor.
  - refine (proj1 (Hesc [Tui.Data [32]] _)). reflexivity.
Defined.

Lemma already_exited_witness :
  PosixKiller.kill 0 4243 (graceOptions None) (sampleHost obedient)
  = Returned {| kpid := 4243; ok := true; method := lit "already-exited";
                message := None; errorCode := None |}
             (record (EKill 4243 SIG0) (sampleHost obedient)).
Proof.
  refine (proj1 (proj2 (proj2 (proj2
    (already_exited_short_circuit 0 4243 (graceOptions None)
       (sampleHost obedient) _ _))))).
  reflexivity.
Defined.

Lemma kill_state_machine_witness :
  exists w',
    PosixKiller.kill 8 4242 (graceOptions (Some 100)) (sampleHost obedient)
    = Returned (sigtermOk 4242) w'
    /\ now w' = 1000 /\ now w' - 1000 < 100
    /\ events w' = [(1000, EKill 4242 SIG0); (1000, EKill 4242 SIGTERM)]
                   ++ [(1000, EKill 4242 SIG0)]
    /\ (forall t, (t, EKill 4242 SIGKILL) ∈ events w' ->
                  (t, EKill 4242 SIGKILL) ∈ []).
Proof.
  refine (proj1 (kill_state_machine 8 4242 (graceOptions (Some 100))
                   (sampleHost obedient)
                   (record (EKill 4242 SIG0) (sampleHost obedient))
                   obedient 100 _ _ _ _ _ _ _ _) _);
    try reflexivity; try lia; try discriminate.
  split; reflexivity.
Defined.

Lemma zero_grace_escalation_witness :
  childrenHandled 8 4242 treeOptions familyHost familyHandled
  /\ now familyHandled = 1010
  /\ (1010, EKill 4300 SIGTERM) ∈ events familyHandled
  /\ exists r w' confirm,
       PosixKiller.kill 8 4242 treeOptions familyHost = Returned r w'
       /\ events w' = confirm
            ++ [(1010, EKill 4242 SIGKILL); (1010, EKill 4242 SIGTERM)]
            ++ events familyHandled
       /\ forallb (isPoll 4242) confirm = true
       /\ (ok r = true ->
           r = sigkillOk 4242
           \/ (r = sigtermOk 4242 /\ confirm = []
               /\ existsAt (deliver SIGTERM 1010 stubborn) 1010 = false)).
Proof.
  assert (childrenHandled 8 4242 treeOptions familyHost familyHandled)
    as Hchildren by (vm_compute; reflexivity).
  split; [exact Hchildren|].
  split; [vm_compute; reflexivity|].
  split; [vm_compute; right; left|].
  destruct (zero_grace_escalation 8 4242 treeOptions familyHost
              familyHandled stubborn) as (_ & Hkill & _).
  - split; vm_compute; reflexivity.
  - reflexivity.
  - left. reflexivity.
  - lia.
  - exact Hchildren.
  - apply Hkill. reflexivity.
Defined.

Lemma locale_tolerant_success_witness :
  exists w1,
    WindowsKiller.kill 4242 (graceOptions None) (sampleHost obedient)
    = Returned {| kpid := 4242; ok := true; method := lit "taskkill";
                  message := None; errorCode := None |} w1.
Proof.
  eexists.
  refine (proj1 (proj2 (locale_tolerant_success 4242 (graceOptions None)
                          (sampleHost obedient))) _ _ _ _ _).
  - reflexivity.
  - reflexivity.
  - split; reflexivity.
Defined.

Lemma command_timeouts_witness :
  PosixFallbackFinder.tryLsof [lit "-nP"; lit "-iUDP"] hangingHost
  = Returned None
      (fired (advance 2002
                (record (EExec (lit "lsof") [lit "-nP"; lit "-iUDP"]
                           (Some 2000)) hangingHost)))
  /\ PosixFallbackFinder.tryLsof [lit "-nP"; lit "-iUDP"] bareHost
     = Returned None
         (record (EExec (lit "lsof") [lit "-nP"; lit "-iUDP"] (Some 2000))
            bareHost).
Proof.
  destruct command_timeouts
    as (_ & _ & _ & _ & _ & _ & _ & _ & Hlsof & _).
  split.
  - apply (Hlsof _ hangingHost _ (ExecTimeoutError (lit "lsof") 2000)).
    reflexivity.
  - apply (Hlsof _ bareHost _
             (ExecSpawnError None (Some (lit "ENOENT")))).
    reflexivity.
Defined.

(** ** Numbers and their decimal text *)

Section NumberFacts.

Lemma digitsValue_acc (d : Decimal.uint) (acc : positive) :
  digitsValue (Z.pos acc) (uintUnits d) = Z.pos (Pos.of_uint_acc d acc).
Proof.
  revert acc. induction d; intros acc; simpl; try done;
    rewrite <- IHd; f_equal; lia.
Qed.

Lemma digitsValue_uint (d : Decimal.uint) :
  digitsValue 0 (uintUnits d) = Z.of_uint d.
Proof.
  unfold Z.of_uint. induction d; simpl; try done;
    by rewrite <- digitsValue_acc.
Qed.

Lemma takeWhile_all {A} (f : A -> bool) (l : list A) :
  forallb f l = true -> takeWhile f l = l.
Proof.
  induction l as [|x l IH]; simpl; [done|].
  destruct (f x); simpl; [|done]. intros H. by rewrite IH.
Qed.

Lemma uintUnits_nil (d : Decimal.uint) : uintUnits d = [] -> d = Decimal.Nil.
Proof. by destruct d. Qed.

(** [parseInt] reads back what [String] printed. *)
Lemma parseInt_uint (d : Decimal.uint) :
  d <> Decimal.Nil -> parseInt (uintUnits d) = Some (Z.of_uint d).
Proof.
  intros Hd. unfold parseInt.
  assert (trimStart (uintUnits d) = uintUnits d) as ->.
  { destruct d; try done. }
  assert (forall t, t = uintUnits d ->
            match t with
            | 45 :: t' => (-1, t')
            | 43 :: t' => (1, t')
            | _ => (1, t)
            end = (1, t)) as Hsign.
  { intros t ->. destruct d; try done. }
  rewrite (Hsign _ eq_refl).
  rewrite takeWhile_all by apply uintUnits_digits.
  destruct (uintUnits d) eqn:Hu; [by apply uintUnits_nil in Hu|].
  rewrite <- Hu, digitsValue_uint. f_equal; lia.
Qed.

Lemma parseInt_numToString (n : Z) : parseInt (numToString n) = Some n.
Proof.
  rewrite <- (DecimalZ.of_to n) at 2. unfold numToString.
  destruct n as [|p|p]; simpl Z.to_int.
  - reflexivity.
  - cbn [intUnits Z.of_int]. apply parseInt_uint, DecimalPos.Unsigned.to_uint_nonnil.
  - cbn [intUnits Z.of_int]. unfold parseInt.
    change (trimStart (45 :: uintUnits (Pos.to_uint p)))
      with (45 :: uintUnits (Pos.to_uint p)).
    cbv iota beta zeta.
    rewrite takeWhile_all by apply uintUnits_digits.
    destruct (uintUnits (Pos.to_uint p)) eqn:Hu.
    { apply uintUnits_nil in Hu.
      by destruct (DecimalPos.Unsigned.to_uint_nonnil p). }
    rewrite <- Hu, digitsValue_uint. f_equal; lia.
Qed.

End NumberFacts.

Section DigitCount.

Lemma digitsValue_lower (ds : jsstring) (acc : Z) :
  0 <= acc -> forallb isDigit ds = true ->
  acc * 10 ^ Z.of_nat (length ds) <= digitsValue acc ds.
Proof.
  revert acc. induction ds as [|c ds IH]; intros acc Hacc Hds.
  - simpl. lia.
  - simpl in Hds. apply andb_true_iff in Hds as [Hc Hds].
    unfold isDigit in Hc. cbn [digitsValue length].
    rewrite Nat2Z.inj_succ, Z.pow_succ_r by lia.
    etransitivity; [|apply IH; [lia|done]].
    assert (0 <= 10 ^ Z.of_nat (length ds)) by (apply Z.pow_nonneg; lia).
    nia.
Qed.

Lemma to_uint_head (p : positive) (d : Decimal.uint) :
  Pos.to_uint p <> Decimal.D0 d.
Proof.
  intros Heq.
  pose proof (DecimalPos.Unsigned.to_of (Pos.to_uint p)) as Hn.
  rewrite DecimalPos.Unsigned.of_to in Hn. simpl in Hn.
  pose proof (DecimalFacts.nzhead_nonzero (Pos.to_uint p)) as Hz.
  pose proof (DecimalPos.Unsigned.to_uint_nonzero p) as Hnz.
  unfold Decimal.unorm in Hn.
  destruct (Decimal.nzhead (Pos.to_uint p)) eqn:Hh;
    try (rewrite Hn in Heq; discriminate).
  - by rewrite Hn in Hnz.
  - by destruct (Hz u).
Qed.

(** A positive number below 100000 prints as one to five digits. *)
Lemma numToString_length (n : Z) :
  0 < n < 100000 -> (1 <= length (numToString n) <= 5)%nat.
Proof.
  intros Hn. destruct n as [|p|p]; try lia.
  pose proof (parseInt_numToString (Z.pos p)) as Hparse.
  unfold numToString in *. cbn [Z.to_int intUnits] in *.
  pose proof (to_uint_head p) as Hhead.
  pose proof (uintUnits_digits (Pos.to_uint p)) as Hdig.
  rewrite parseInt_uint in Hparse by apply DecimalPos.Unsigned.to_uint_nonnil.
  injection Hparse as Hval. rewrite <- digitsValue_uint in Hval.
  destruct (Pos.to_uint p) as [|d|d|d|d|d|d|d|d|d|d] eqn:Hd;
    [by destruct (DecimalPos.Unsigned.to_uint_nonnil p)
    |by destruct (Hhead d)|..];
    cbn [uintUnits digitsValue length] in *;
    (split; [lia|]);
    apply andb_true_iff in Hdig as [_ Hdig];
    match type of Hval with
    | digitsValue ?a _ = _ =>
        pose proof (digitsValue_lower (uintUnits d) a ltac:(lia) Hdig) as Hlow
    end;
    rewrite Hval in Hlow;
    destruct (decide (length (uintUnits d) <= 4)%nat) as [|Hlong]; try lia;
    assert (10 ^ 5 <= 10 ^ Z.of_nat (length (uintUnits d)))
      by (apply Z.pow_le_mono_r; lia); lia.
Qed.

End DigitCount.

(** ** Port requests and process names *)

Section PortRequests.

Lemma upperAscii_eq (a c : Z) :
  97 <= a <= 122 -> upperAscii a = upperAscii c -> c = a \/ c = a - 32.
Proof.
  unfold upperAscii. intros Ha.
  repeat case_match; try lia;
    repeat match goal with
           | H : _ && _ = true |- _ => apply andb_true_iff in H as [? ?]
           | H : _ && _ = false |- _ => apply andb_false_iff in H
           end; lia.
Qed.

Lemma eqCI_tcp (p : jsstring) :
  Args.eqCI (lit "tcp") p = true -> toLowerCase p = lit "tcp".
Proof.
  unfold Args.eqCI. intros [Hlen Hp]%andb_true_iff.
  destruct p as [|a [|b [|c [|d p]]]]; try discriminate.
  change (lit "tcp") with [116; 99; 112] in Hp.
  cbn [startsWithCI] in Hp.
  apply andb_true_iff in Hp as [Ha%Z.eqb_eq Hp].
  apply andb_true_iff in Hp as [Hb%Z.eqb_eq Hp].
  apply andb_true_iff in Hp as [Hc%Z.eqb_eq _].
  repeat match goal with
         | H : upperAscii ?x = upperAscii _ |- _ =>
             destruct (upperAscii_eq x _ ltac:(lia) H) as [-> | ->]; clear H
         end; reflexivity.
Qed.

Lemma eqCI_udp (p : jsstring) :
  Args.eqCI (lit "udp") p = true -> toLowerCase p = lit "udp".
Proof.
  unfold Args.eqCI. intros [Hlen Hp]%andb_true_iff.
  destruct p as [|a [|b [|c [|d p]]]]; try discriminate.
  change (lit "udp") with [117; 100; 112] in Hp.
  cbn [startsWithCI] in Hp.
  apply andb_true_iff in Hp as [Ha%Z.eqb_eq Hp].
  apply andb_true_iff in Hp as [Hb%Z.eqb_eq Hp].
  apply andb_true_iff in Hp as [Hc%Z.eqb_eq _].
  repeat match goal with
         | H : upperAscii ?x = upperAscii _ |- _ =>
             destruct (upperAscii_eq x _ ltac:(lia) H) as [-> | ->]; clear H
         end; reflexivity.
Qed.

Lemma takeWhile_length_drop {A} (f : A -> bool) (l : list A) :
  drop (length (takeWhile f l)) l = dropWhile f l.
Proof.
  induction l as [|x l IH]; simpl; [done|]. by destruct (f x).
Qed.

Lemma takeWhile_dropWhile_app {A} (f : A -> bool) (l : list A) :
  takeWhile f l ++ dropWhile f l = l.
Proof.
  induction l as [|x l IH]; simpl; [done|].
  destruct (f x); simpl; [by rewrite IH|done].
Qed.

Lemma takeWhile_forallb {A} (f : A -> bool) (l : list A) :
  forallb f (takeWhile f l) = true.
Proof.
  induction l as [|x l IH]; simpl; [done|].
  destruct (f x) eqn:Hx; simpl; [by rewrite Hx|done].
Qed.

Lemma takeWhile_app_stop {A} (f : A -> bool) (l : list A) (x : A) (k : list A) :
  forallb f l = true -> f x = false -> takeWhile f (l ++ x :: k) = l.
Proof.
  intros Hl Hx. induction l as [|y l IH]; simpl in *.
  - by rewrite Hx.
  - apply andb_true_iff in Hl as [-> Hl]. by rewrite IH.
Qed.

Lemma digits_parse (ds : jsstring) :
  ds <> [] -> forallb isDigit ds = true ->
  parseInt ds = Some (digitsValue 0 ds).
Proof.
  intros Hne Hds. unfold parseInt.
  destruct ds as [|c ds]; [done|].
  assert (isDigit c = true) as Hc by (simpl in Hds; by destruct (isDigit c)).
  assert (trimStart (c :: ds) = c :: ds) as ->.
  { unfold trimStart, isDigit, isWhite in *. simpl.
    case_match eqn:Hw; [|done]. exfalso.
    apply andb_true_iff in Hc as [? ?].
    repeat (apply orb_true_iff in Hw as [Hw|Hw]);
      repeat match goal with
             | H : _ && _ = true |- _ => apply andb_true_iff in H as [? ?]
             end; lia. }
  assert (c <> 45 /\ c <> 43) as [? ?].
  { unfold isDigit in Hc. apply andb_true_iff in Hc as [? ?]. lia. }
  assert ((match c :: ds with
           | 45 :: t' => (-1, t')
           | 43 :: t' => (1, t')
           | _ => (1, c :: ds)
           end) = (1, c :: ds)) as ->.
  { unfold isDigit in Hc. apply andb_true_iff in Hc as [? ?].
    assert (c = 48 \/ c = 49 \/ c = 50 \/ c = 51 \/ c = 52 \/ c = 53
            \/ c = 54 \/ c = 55 \/ c = 56 \/ c = 57) as Hcases by lia.
    repeat destruct Hcases as [-> | Hcases]; try subst c; done. }
  rewrite takeWhile_all by done. f_equal. lia.
Qed.

End PortRequests.

Section PortRequestFacts.

Lemma matchPortRequest_shape (raw0 m1 : jsstring) (m2 : option jsstring) :
  Args.matchPortRequest raw0 = Some (m1, m2) ->
  m1 = takeWhile isDigit raw0 /\ m1 <> [] /\ (length m1 <= 5)%nat
  /\ match m2 with
     | None => raw0 = m1
     | Some p => raw0 = m1 ++ 47 :: p
                 /\ (Args.eqCI (lit "tcp") p || Args.eqCI (lit "udp") p) = true
     end.
Proof.
  unfold Args.matchPortRequest.
  pose proof (takeWhile_dropWhile_app isDigit raw0) as Happ.
  rewrite takeWhile_length_drop.
  destruct ((1 <=? length (takeWhile isDigit raw0))%nat
            && (length (takeWhile isDigit raw0) <=? 5)%nat) eqn:Hlen;
    [|discriminate].
  apply andb_true_iff in Hlen as [Hlo%Nat.leb_le Hhi%Nat.leb_le].
  assert (takeWhile isDigit raw0 <> []) by (intros Heq; rewrite Heq in Hlo; simpl in Hlo; lia).
  destruct (dropWhile isDigit raw0) as [|c p] eqn:Hrest.
  - intros [= <- <-]. rewrite app_nil_r in Happ. done.
  - destruct ((c =? 47) && _) eqn:Hc; [|discriminate].
    apply andb_true_iff in Hc as [->%Z.eqb_eq Hp].
    intros [= <- <-]. done.
Qed.

Lemma parsePortRequest_digits (ds : jsstring) :
  ds <> [] -> forallb isDigit ds = true ->
  Args.parsePortRequest ds =
    if Nat.leb (length ds) 5 && (1 <=? digitsValue 0 ds)
       && (digitsValue 0 ds <=? 65535)
    then Some {| Args.raw := ds; Args.port := digitsValue 0 ds;
                 Args.protocols := None |}
    else None.
Proof.
  intros Hne Hds. unfold Args.parsePortRequest, Args.matchPortRequest.
  rewrite takeWhile_all by done. rewrite drop_all.
  assert ((1 <=? length ds)%nat = true) as ->.
  { apply Nat.leb_le. destruct ds; [done|simpl; lia]. }
  cbn [andb]. destruct (length ds <=? 5)%nat; [|done].
  rewrite digits_parse by done. cbn [andb].
  destruct (1 <=? digitsValue 0 ds) eqn:Hlo.
  - assert ((digitsValue 0 ds <? 1) = false) as -> by lia. cbn [orb andb].
    destruct (digitsValue 0 ds <=? 65535) eqn:Hhi.
    + assert ((65535 <? digitsValue 0 ds) = false) as -> by lia. done.
    + assert ((65535 <? digitsValue 0 ds) = true) as -> by lia. done.
  - assert ((digitsValue 0 ds <? 1) = true) as -> by lia. done.
Qed.

Lemma parsePortRequest_proto (ds p : jsstring) :
  ds <> [] -> forallb isDigit ds = true ->
  (Args.eqCI (lit "tcp") p || Args.eqCI (lit "udp") p) = true ->
  Args.parsePortRequest (ds ++ 47 :: p) =
    if Nat.leb (length ds) 5 && (1 <=? digitsValue 0 ds)
       && (digitsValue 0 ds <=? 65535)
    then Some {| Args.raw := ds ++ 47 :: p; Args.port := digitsValue 0 ds;
                 Args.protocols :=
                   Some [if Args.eqCI (lit "tcp") p then tcp else udp] |}
    else None.
Proof.
  intros Hne Hds Hp. unfold Args.parsePortRequest, Args.matchPortRequest.
  rewrite takeWhile_app_stop by done. rewrite drop_app_length.
  assert ((1 <=? length ds)%nat = true) as ->.
  { apply Nat.leb_le. destruct ds; [done|simpl; lia]. }
  cbn [andb]. destruct (length ds <=? 5)%nat; [|done].
  rewrite Z.eqb_refl, Hp. cbn [andb].
  rewrite digits_parse by done.
  destruct (1 <=? digitsValue 0 ds) eqn:Hlo.
  - assert ((digitsValue 0 ds <? 1) = false) as -> by lia. cbn [orb andb].
    destruct (digitsValue 0 ds <=? 65535) eqn:Hhi.
    + assert ((65535 <? digitsValue 0 ds) = false) as -> by lia.
      cbn [fmap option_fmap option_map].
      destruct (Args.eqCI (lit "tcp") p) eqn:Htcp.
      * rewrite (eqCI_tcp p Htcp). by rewrite bool_decide_eq_true_2.
      * simpl in Hp. rewrite (eqCI_udp p Hp). done.
    + assert ((65535 <? digitsValue 0 ds) = true) as -> by lia. done.
  - assert ((digitsValue 0 ds <? 1) = true) as -> by lia. done.
Qed.

End PortRequestFacts.

Lemma parsePortRequest_some (raw0 : jsstring) (r : Args.PortRequest) :
  Args.parsePortRequest raw0 = Some r ->
  Args.raw r = raw0 /\ 1 <= Args.port r <= 65535
  /\ ((Args.protocols r = None /\ forallb isDigit raw0 = true)
      \/ exists ds p,
           raw0 = ds ++ 47 :: p /\ forallb isDigit ds = true
           /\ ((Args.protocols r = Some [tcp] /\ Args.eqCI (lit "tcp") p = true)
               \/ (Args.protocols r = Some [udp]
                   /\ Args.eqCI (lit "udp") p = true))).
Proof.
  intros Hparse.
  destruct (Args.matchPortRequest raw0) as [[m1 m2]|] eqn:Hm;
    [|by unfold Args.parsePortRequest in Hparse; rewrite Hm in Hparse].
  apply matchPortRequest_shape in Hm as (Hm1 & Hne & Hlen & Hm2).
  assert (forallb isDigit m1 = true) as Hds
    by (rewrite Hm1; apply takeWhile_forallb).
  destruct m2 as [p|].
  - destruct Hm2 as [-> Hp]. rewrite parsePortRequest_proto in Hparse by done.
    destruct (_ && _) eqn:Hok in Hparse; [|discriminate].
    injection Hparse as <-. simpl.
    apply andb_true_iff in Hok as [[_ ?]%andb_true_iff ?].
    split; [done|]. split; [lia|]. right. exists m1, p.
    split; [done|]. split; [done|].
    destruct (Args.eqCI (lit "tcp") p) eqn:Htcp; [by left|by right].
  - subst raw0. rewrite parsePortRequest_digits in Hparse by done.
    destruct (_ && _) eqn:Hok in Hparse; [|discriminate].
    injection Hparse as <-. simpl.
    apply andb_true_iff in Hok as [[_ ?]%andb_true_iff ?].
    split; [done|]. split; [lia|]. by left.
Qed.


(** X1: an accepted port request keeps the argument as it was typed, names a
    port between 1 and 65535, and carries a protocol exactly when the
    argument ends in a slash and tcp or udp, in either case. *)
Theorem port_request_range (raw0 : jsstring) (r : Args.PortRequest) :
  Args.parsePortRequest raw0 = Some r ->
  Args.raw r = raw0 /\ 1 <= Args.port r <= 65535
  /\ ((Args.protocols r = None /\ forallb isDigit raw0 = true)
      \/ exists ds p,
           raw0 = ds ++ 47 :: p /\ forallb isDigit ds = true
           /\ ((Args.protocols r = Some [tcp] /\ Args.eqCI (lit "tcp") p = true)
               \/ (Args.protocols r = Some [udp]
                   /\ Args.eqCI (lit "udp") p = true))).
Proof. apply parsePortRequest_some. Qed.

Lemma port_request_range_witness :
  Args.raw (protoPort 3000 (lit "TCP") tcp) = lit "3000/TCP"
  /\ 1 <= Args.port (protoPort 3000 (lit "TCP") tcp) <= 65535
  /\ ((Args.protocols (protoPort 3000 (lit "TCP") tcp) = None
       /\ forallb isDigit (lit "3000/TCP") = true)
      \/ exists ds p,
           lit "3000/TCP" = ds ++ 47 :: p /\ forallb isDigit ds = true
           /\ ((Args.protocols (protoPort 3000 (lit "TCP") tcp) = Some [tcp]
                /\ Args.eqCI (lit "tcp") p = true)
               \/ (Args.protocols (protoPort 3000 (lit "TCP") tcp) = Some [udp]
                   /\ Args.eqCI (lit "udp") p = true))).
Proof. apply (port_request_range (lit "3000/TCP")). reflexivity. Defined.

(** X2: a port number written in decimal is accepted exactly when it lies
    between 1 and 65535, and then the request names that port; with a
    slash and tcp or udp after it, in either case, the request names the
    protocol as well. *)
Theorem port_request_round_trip (n : Z) :
  Args.parsePortRequest (numToString n)
  = (if (1 <=? n) && (n <=? 65535) then Some (plainPort n) else None)
  /\ forall suffix,
       (Args.eqCI (lit "tcp") suffix || Args.eqCI (lit "udp") suffix) = true ->
       Args.parsePortRequest (numToString n ++ 47 :: suffix)
       = (if (1 <=? n) && (n <=? 65535)
          then Some (protoPort n suffix
                       (if Args.eqCI (lit "tcp") suffix then tcp else udp))
          else None).
Proof.
  destruct (decide (0 <= n)) as [Hn|Hn].
  - assert (parseInt (numToString n) = Some n) as Hparse
      by apply parseInt_numToString.
    assert (numToString n <> [] /\ forallb isDigit (numToString n) = true)
      as [Hne Hds].
    { unfold numToString. destruct n as [|p|p]; try lia; simpl.
      - done.
      - split; [|apply uintUnits_digits].
        intros Heq%uintUnits_nil.
        by destruct (DecimalPos.Unsigned.to_uint_nonnil p). }
    rewrite digits_parse in Hparse by done. injection Hparse as Hval.
    assert (Nat.leb (length (numToString n)) 5 && (1 <=? n) && (n <=? 65535)
            = (1 <=? n) && (n <=? 65535)) as Hcond.
    { destruct ((1 <=? n) && (n <=? 65535)) eqn:Hr.
      - apply andb_true_iff in Hr as [? ?].
        pose proof (numToString_length n ltac:(lia)) as [_ Hlen].
        apply Nat.leb_le in Hlen. rewrite Hlen. simpl.
        apply andb_true_iff. done.
      - rewrite <- andb_assoc, Hr. apply andb_false_r. }
    split.
    + rewrite parsePortRequest_digits by done. rewrite Hval, Hcond. done.
    + intros suffix Hs. rewrite parsePortRequest_proto by done.
      rewrite Hval, Hcond. done.
  - assert ((1 <=? n) && (n <=? 65535) = false) as -> by lia.
    assert (exists p, numToString n = 45 :: uintUnits (Pos.to_uint p))
      as [p ->].
    { destruct n as [|p|p]; try lia. by exists p. }
    split; [done|]. intros suffix _. done.
Qed.

Section ProcessNames.

Lemma includes_unit (c : Z) (s : jsstring) :
  includes [c] s = existsb (Z.eqb c) s.
Proof.
  induction s as [|x s IH]; [done|].
  cbn [includes startsWith existsb]. rewrite IH.
  by rewrite andb_true_r.
Qed.

Lemma no_such_unit (c : Z) (s : jsstring) :
  forallb Args.isNameChar s = true -> Args.isNameChar c = false ->
  includes [c] s = false.
Proof.
  intros Hs Hc. rewrite includes_unit.
  induction s as [|x s IH]; [done|]. simpl in *.
  apply andb_true_iff in Hs as [Hx Hs]. rewrite IH by done.
  destruct (c =? x) eqn:Heq; [|done].
  apply Z.eqb_eq in Heq as ->. congruence.
Qed.

Lemma letter_is_name_char (c : Z) :
  Args.isLetter c = true -> Args.isNameChar c = true.
Proof. unfold Args.isNameChar. by intros ->. Qed.

(** The tests for flags and paths that follow the pattern never fire. *)
Lemma parseProcessName_match (raw0 : jsstring) :
  Args.parseProcessName raw0
  = if Args.matchProcessName raw0
    then Some {| Args.rawName := raw0; Args.name := raw0 |} else None.
Proof.
  unfold Args.parseProcessName.
  destruct (Args.matchProcessName raw0) eqn:Hm; [|done]. cbn [negb].
  destruct raw0 as [|c rest]; [done|]. simpl in Hm.
  apply andb_true_iff in Hm as [Hc Hrest].
  assert (forallb Args.isNameChar (c :: rest) = true) as Hall.
  { simpl. by rewrite letter_is_name_char. }
  change (lit "/") with [47].
  rewrite !no_such_unit by done.
  assert (startsWith (lit "-") (c :: rest) = false) as ->; [|done].
  change (lit "-") with [45]. cbn [startsWith].
  destruct (45 =? c) eqn:Heq; [|done].
  apply Z.eqb_eq in Heq as <-. done.
Qed.

Lemma port_request_head (raw0 : jsstring) :
  is_Some (Args.parsePortRequest raw0) ->
  exists c rest, raw0 = c :: rest /\ isDigit c = true.
Proof.
  intros [r Hr]. unfold Args.parsePortRequest in Hr.
  destruct (Args.matchPortRequest raw0) as [[m1 m2]|] eqn:Hm; [|done].
  apply matchPortRequest_shape in Hm as (Hm1 & Hne & _ & _).
  destruct raw0 as [|c rest]; [by rewrite Hm1 in Hne|].
  exists c, rest. split; [done|].
  simpl in Hm1. destruct (isDigit c); [done|by rewrite Hm1 in Hne].
Qed.

Lemma port_not_name (raw0 : jsstring) :
  is_Some (Args.parsePortRequest raw0) -> Args.parseProcessName raw0 = None.
Proof.
  intros (c & rest & -> & Hc)%port_request_head.
  rewrite parseProcessName_match. simpl.
  assert (Args.isLetter c = false) as ->; [|done].
  unfold Args.isLetter, isDigit in *. lia.
Qed.

End ProcessNames.

(** X3: a process name is accepted exactly when it is a letter followed by
    letters, digits, dots, underscores and dashes, and is then kept as it
    was typed: the later tests for a leading dash, a slash or a backslash
    reject nothing the pattern let through. No argument is both a port
    request and a process name. *)
Theorem process_name_shape (raw0 : jsstring) :
  Args.parseProcessName raw0
  = (if Args.matchProcessName raw0
     then Some {| Args.rawName := raw0; Args.name := raw0 |} else None)
  /\ (Args.parsePortRequest raw0 = None \/ Args.parseProcessName raw0 = None).
Proof.
  split; [apply parseProcessName_match|].
  destruct (Args.parsePortRequest raw0) eqn:Hp; [right|by left].
  apply port_not_name. by rewrite Hp.
Qed.

(** ** The argument loop *)

Section ArgLoop.

Lemma compactLoop_keeps (letters : jsstring) (f : Args.CLIFlags) :
  Args.flag_timeoutMs (Args.compactLoop letters f).2 = Args.flag_timeoutMs f
  /\ Args.flag_pid (Args.compactLoop letters f).2 = Args.flag_pid f.
Proof.
  revert f. induction letters as [|c l IH]; intros f; [done|].
  cbn [Args.compactLoop].
  repeat case_match; try done;
    match goal with
    | |- context [Args.compactLoop l ?g] => destruct (IH g) as [-> ->]
    end; done.
Qed.

Lemma acceptTimeout_some (v : jsstring) (n : Z) :
  Args.acceptTimeout v = Some n -> parseInt v = Some n /\ 0 <= n.
Proof.
  unfold Args.acceptTimeout. destruct (parseInt v) as [m|]; [|done].
  destruct (0 <=? m) eqn:Hm; [|done]. intros [= <-]. split; [done|lia].
Qed.

Lemma acceptPid_some (v : jsstring) (n : Z) :
  Args.acceptPid v = Some n -> parseInt v = Some n /\ 0 < n.
Proof.
  unfold Args.acceptPid. destruct (parseInt v) as [m|]; [|done].
  destruct (0 <? m) eqn:Hm; [|done]. intros [= <-]. split; [done|lia].
Qed.

Lemma argsOk_flags (g : Args.CLIFlags -> Args.CLIFlags) (st : Args.ParsedArgs) :
  0 <= Args.flag_timeoutMs (g (Args.flags st)) ->
  (forall n, Args.flag_pid (g (Args.flags st)) = Some n -> 0 < n) ->
  argsOk st -> argsOk (Args.withFlags g st).
Proof. by intros Ht Hp (? & ? & ? & ?). Qed.

Lemma argsOk_unknown (a : jsstring) (st : Args.ParsedArgs) :
  argsOk st -> argsOk (Args.pushUnknown a st).
Proof. by intros (? & ? & ? & ?). Qed.

Lemma argsOk_port (a : jsstring) (pr : Args.PortRequest) (st : Args.ParsedArgs) :
  Args.parsePortRequest a = Some pr -> argsOk st -> argsOk (Args.pushPort pr st).
Proof.
  intros (_ & Hr & _)%parsePortRequest_some (? & ? & ? & ?).
  unfold argsOk. simpl. repeat split; try done.
  apply Forall_app. split; [done|]. by constructor.
Qed.

Lemma argsOk_name (a : jsstring) (pn : Args.ProcessNameRequest)
    (st : Args.ParsedArgs) :
  Args.parseProcessName a = Some pn -> argsOk st -> argsOk (Args.pushName pn st).
Proof.
  rewrite parseProcessName_match.
  destruct (Args.matchProcessName a) eqn:Hm; [|done].
  intros [= <-] (? & ? & ? & ?).
  unfold argsOk. simpl. repeat split; try done.
  apply Forall_app. split; [done|]. by constructor.
Qed.

Lemma parseLoop_ok (args : list jsstring) :
  forall stop st, argsOk st -> argsOk (Args.parseLoop stop st args).
Proof.
  induction args as [args IH] using (induction_ltof1 _ (@length jsstring)).
  unfold ltof in IH.
  intros stop st Hst. destruct args as [|a rest]; [done|].
  cbn [Args.parseLoop].
  repeat case_match; subst; (apply IH; [simpl; lia|]);
    repeat match goal with
           | H : Args.acceptTimeout _ = Some _ |- _ =>
               apply acceptTimeout_some in H as [_ ?]
           | H : Args.acceptPid _ = Some _ |- _ =>
               apply acceptPid_some in H as [_ ?]
           | H : Args.compactLoop ?l ?f = _ |- _ =>
               let Hk1 := fresh "Hkt" in
               let Hk2 := fresh "Hkp" in
               pose proof (compactLoop_keeps l f) as [Hk1 Hk2];
               rewrite H in Hk1, Hk2; simpl in Hk1, Hk2; clear H
           end;
    try apply argsOk_unknown;
    try done;
    try (by eapply argsOk_port);
    try (by eapply argsOk_name);
    try (apply argsOk_flags; [..|done]; destruct Hst as (? & ? & ? & ?);
         simpl; try done; try congruence;
         first [by intros ? [= <-] | lia | rewrite Hkp; auto]).
Qed.

End ArgLoop.

(** X4: whatever the arguments, the parsed result is well formed: the grace
    period is not negative; a pid, if given, is positive, and then no
    port and no process name is kept; [json] is only set together with
    [list]; every port lies between 1 and 65535; every process name is
    the argument as typed, a letter followed by name characters. *)
Theorem parseArgs_invariants (argv : list jsstring) :
  let r := Args.parseArgs argv in
  0 <= Args.flag_timeoutMs (Args.flags r)
  /\ (forall n, Args.flag_pid (Args.flags r) = Some n ->
                0 < n /\ Args.ports r = [] /\ Args.processNames r = [])
  /\ (Args.flag_json (Args.flags r) = true ->
      Args.flag_list (Args.flags r) = true)
  /\ Forall (fun pr => 1 <= Args.port pr <= 65535) (Args.ports r)
  /\ Forall (fun pn => Args.name pn = Args.rawName pn
                       /\ Args.matchProcessName (Args.rawName pn) = true)
            (Args.processNames r).
Proof.
  intros r. subst r. unfold Args.parseArgs.
  pose proof (parseLoop_ok argv false Args.initialArgs) as Hok.
  destruct Hok as (Ht & Hp & Hports & Hnames).
  { unfold argsOk. simpl. done. }
  set (st := Args.parseLoop false Args.initialArgs argv) in *.
  unfold Args.finishArgs.
  destruct (Args.flag_json (Args.flags st)) eqn:Hj;
    destruct (Args.flag_list (Args.flags st)) eqn:Hl;
    cbn [andb negb]; simpl;
    destruct (Args.flag_pid (Args.flags st)) as [n|] eqn:Hpid; simpl;
    rewrite ?Hj, ?Hl, ?Hpid;
    repeat split; try done;
    try (by apply Hp).
Qed.

Section Positional.

Lemma parseLoop_positional (args : list jsstring) (st : Args.ParsedArgs) :
  Args.parseLoop true st args
  = {| Args.flags := Args.flags st;
       Args.ports := Args.ports st ++ omap Args.parsePortRequest args;
       Args.processNames :=
         Args.processNames st ++ omap Args.parseProcessName args;
       Args.unknown := Args.unknown st ++ List.filter unclassified args |}.
Proof.
  revert st. induction args as [|a rest IH]; intros st.
  - simpl. rewrite !app_nil_r. by destruct st.
  - cbn [Args.parseLoop negb andb omap list_omap List.filter].
    unfold unclassified at 1.
    destruct (Args.parsePortRequest a) as [pr|] eqn:Hport.
    + rewrite port_not_name by (by rewrite Hport).
      rewrite IH. simpl. by rewrite <- app_assoc.
    + destruct (Args.parseProcessName a) as [pn|] eqn:Hname.
      * rewrite IH. simpl. by rewrite <- app_assoc.
      * rewrite IH. simpl. by rewrite <- app_assoc.
Qed.

End Positional.

(** X5: after a double dash nothing is read as an option: the flags keep
    their defaults, the arguments that are port requests become the
    ports, those that are process names become the names, in the order
    given, and every other argument is reported as unknown, options
    included. *)
Theorem double_dash_ends_options (args : list jsstring) :
  Args.parseArgs (lit "--" :: args)
  = {| Args.flags := Args.initialFlags;
       Args.ports := omap Args.parsePortRequest args;
       Args.processNames := omap Args.parseProcessName args;
       Args.unknown := List.filter unclassified args |}.
Proof.
  unfold Args.parseArgs.
  change (Args.parseLoop false Args.initialArgs (lit "--" :: args))
    with (Args.parseLoop true Args.initialArgs args).
  by rewrite parseLoop_positional.
Qed.

Section CompactFlags.

Lemma eqs_no (a b : jsstring) : a <> b -> eqs a b = false.
Proof. intros. unfold eqs. by apply bool_decide_eq_false_2. Qed.

Lemma letter_not_dash (c : Z) : Args.isLetter c = true -> (45 =? c) = false.
Proof. unfold Args.isLetter. lia. Qed.

(** How the loop treats a dash followed by a letter, when that is not one
    of the short flags on its own. *)
Lemma dash_letter (c : Z) (l : jsstring) (st : Args.ParsedArgs)
    (rest : list jsstring) :
  Args.isLetter c = true -> l <> [] \/ shortFlag c = false ->
  Args.parseLoop false st ((45 :: c :: l) :: rest)
  = if Args.matchCompact (45 :: c :: l) then
      if (Args.compactLoop (c :: l) (Args.flags st)).1
      then Args.parseLoop false
             (Args.withFlags
                (fun _ => (Args.compactLoop (c :: l) (Args.flags st)).2) st)
             rest
      else Args.parseLoop false
             (Args.pushUnknown (45 :: c :: l)
                (Args.withFlags
                   (fun _ => (Args.compactLoop (c :: l) (Args.flags st)).2) st))
             rest
    else Args.parseLoop false (Args.pushUnknown (45 :: c :: l) st) rest.
Proof.
  intros Hc Hl. pose proof (letter_not_dash c Hc) as Hdash.
  cbn [Args.parseLoop negb andb].
  repeat match goal with
         | |- context [lit ?s] =>
             let v := eval vm_compute in (lit s) in change (lit s) with v
         end.
  repeat match goal with
         | |- context [eqs (45 :: c :: l) ?b] =>
             rewrite (eqs_no (45 :: c :: l) b)
               by (intros [= Hx Hy]; subst;
                   first [discriminate Hc
                         | by destruct Hl as [Hl|Hl]])
         end.
  cbn [startsWith]. rewrite Hdash. cbn [andb orb Z.eqb Pos.eqb].
  change (drop 1 (45 :: c :: l)) with (c :: l).
  destruct (Args.matchCompact (45 :: c :: l)); [|done].
  by destruct (Args.compactLoop (c :: l) (Args.flags st)) as [[] f].
Qed.

Lemma shortFlag_cases (c : Z) :
  shortFlag c = true ->
  c = 104 \/ c = 118 \/ c = 108 \/ c = 106 \/ c = 102.
Proof. unfold shortFlag. lia. Qed.

Lemma shortFlag_letter (c : Z) : shortFlag c = true -> Args.isLetter c = true.
Proof.
  intros Hc%shortFlag_cases. by repeat destruct Hc as [-> | Hc]; try subst c.
Qed.

(** The loop over a group whose letters are all short flags. *)
Lemma compactLoop_app (good more : jsstring) (f : Args.CLIFlags) :
  forallb shortFlag good = true ->
  Args.compactLoop (good ++ more) f
  = Args.compactLoop more (Args.compactLoop good f).2.
Proof.
  revert f. induction good as [|c l IH]; intros f Hgood; [done|].
  simpl in Hgood. apply andb_true_iff in Hgood as [Hc Hl].
  apply shortFlag_cases in Hc.
  repeat destruct Hc as [-> | Hc]; try subst c; simpl; by rewrite IH.
Qed.

Lemma compactLoop_good (good : jsstring) (f : Args.CLIFlags) :
  forallb shortFlag good = true -> (Args.compactLoop good f).1 = true.
Proof.
  revert f. induction good as [|c l IH]; intros f Hgood; [done|].
  simpl in Hgood. apply andb_true_iff in Hgood as [Hc Hl].
  apply shortFlag_cases in Hc.
  repeat destruct Hc as [-> | Hc]; try subst c; simpl; by rewrite IH.
Qed.

Lemma compactLoop_bad (bad : Z) (more : jsstring) (f : Args.CLIFlags) :
  shortFlag bad = false -> Args.compactLoop (bad :: more) f = (false, f).
Proof.
  unfold shortFlag. intros Hbad. cbn [Args.compactLoop].
  repeat (case_match; [lia|]). done.
Qed.

(** Short flags given one by one. *)
Lemma singles (good : jsstring) (st : Args.ParsedArgs) (rest : list jsstring) :
  forallb shortFlag good = true ->
  Args.parseLoop false st (map single good ++ rest)
  = Args.parseLoop false
      (Args.withFlags (fun f => (Args.compactLoop good f).2) st) rest.
Proof.
  revert st. induction good as [|c l IH]; intros st Hgood.
  - simpl. by destruct st.
  - simpl in Hgood. apply andb_true_iff in Hgood as [Hc Hl].
    apply shortFlag_cases in Hc.
    repeat destruct Hc as [-> | Hc]; try subst c;
      cbn [map app]; unfold single at 1;
      match goal with
      | |- Args.parseLoop false st (?a :: ?r) = _ =>
          change (Args.parseLoop false st (a :: r))
            with (Args.parseLoop false
                    (Args.withFlags (fun f => (Args.compactLoop [a !!! 1%nat] f).2) st) r)
      end; by rewrite IH.
Qed.

End CompactFlags.

(** X6: a compact group of short flags, such as a dash followed by the
    letters l and f, is read as those flags given one by one; so the
    parsed result is the same. *)
Theorem compact_flags_compose (letters : jsstring) (st : Args.ParsedArgs)
    (rest : list jsstring) :
  forallb shortFlag letters = true -> (2 <= length letters)%nat ->
  Args.parseLoop false st ((45 :: letters) :: rest)
  = Args.parseLoop false st (map single letters ++ rest)
  /\ Args.parseArgs ((45 :: letters) :: rest)
     = Args.parseArgs (map single letters ++ rest).
Proof.
  intros Hall Hlen.
  assert (forall st',
            Args.parseLoop false st' ((45 :: letters) :: rest)
            = Args.parseLoop false st' (map single letters ++ rest)) as Hloop.
  { intros st'. rewrite singles by done.
    destruct letters as [|c l]; [simpl in Hlen; lia|].
    assert (l <> []) by (destruct l; [simpl in Hlen; lia|done]).
    assert (Args.isLetter c = true) as Hc.
    { simpl in Hall. apply andb_true_iff in Hall as [Hc _].
      by apply shortFlag_letter. }
    rewrite dash_letter by (done || by left).
    assert (Args.matchCompact (45 :: c :: l) = true) as ->.
    { unfold Args.matchCompact. rewrite Z.eqb_refl. cbn [andb].
      apply andb_true_iff. split; [by apply Nat.leb_le|].
      apply forallb_forall. intros x Hx. apply shortFlag_letter.
      rewrite forallb_forall in Hall. by apply Hall. }
    by rewrite compactLoop_good. }
  split; [apply Hloop|]. unfold Args.parseArgs. by rewrite Hloop.
Qed.

Lemma compact_flags_compose_witness :
  Args.parseLoop false Args.initialArgs [lit "-lf"; lit "3000"]
  = Args.parseLoop false Args.initialArgs [lit "-l"; lit "-f"; lit "3000"]
  /\ Args.parseArgs [lit "-lf"; lit "3000"]
     = Args.parseArgs [lit "-l"; lit "-f"; lit "3000"].
Proof.
  apply (compact_flags_compose (lit "lf") Args.initialArgs [lit "3000"]).
  - reflexivity.
  - simpl. lia.
Defined.

(** X7: a compact group of letters that holds a letter which is no short
    flag is reported as unknown, yet the short flags before that letter
    have taken effect: the group is read as those flags given one by one,
    followed by an unknown argument. *)
Theorem compact_flags_partial (good : jsstring) (bad : Z) (more : jsstring)
    (st : Args.ParsedArgs) (rest : list jsstring) :
  forallb shortFlag good = true ->
  Args.isLetter bad = true -> shortFlag bad = false ->
  forallb Args.isLetter more = true ->
  Args.parseLoop false st ((45 :: good ++ bad :: more) :: rest)
  = Args.parseLoop false
      (Args.pushUnknown (45 :: good ++ bad :: more)
         (Args.parseLoop false st (map single good)))
      rest.
Proof.
  intros Hgood Hbad Hno Hmore.
  assert (Args.parseLoop false st (map single good)
          = Args.withFlags (fun f => (Args.compactLoop good f).2) st) as ->.
  { by rewrite <- (app_nil_r (map single good)), singles. }
  destruct good as [|c g].
  - cbn [app]. rewrite dash_letter by (done || by right).
    rewrite compactLoop_bad by done. cbn [fst snd].
    assert (Args.withFlags (fun _ => Args.flags st) st = st) as ->
      by (by destruct st).
    assert (Args.withFlags (fun f => (Args.compactLoop [] f).2) st = st) as ->
      by (by destruct st).
    by destruct (Args.matchCompact (45 :: bad :: more)).
  - assert (Args.isLetter c = true) as Hc.
    { simpl in Hgood. apply andb_true_iff in Hgood as [Hc _].
      by apply shortFlag_letter. }
    cbn [app]. rewrite dash_letter; [|done|left; by destruct g].
    assert (Args.matchCompact (45 :: c :: g ++ bad :: more) = true) as ->.
    { unfold Args.matchCompact. rewrite Z.eqb_refl. cbn [andb].
      apply andb_true_iff. split.
      - apply Nat.leb_le. simpl. rewrite length_app. simpl. lia.
      - change (c :: g ++ bad :: more) with ((c :: g) ++ bad :: more).
        rewrite forallb_app. apply andb_true_iff. split.
        + apply forallb_forall. intros x Hx. apply shortFlag_letter.
          rewrite forallb_forall in Hgood. by apply Hgood.
        + simpl. by rewrite Hbad. }
    change (c :: g ++ bad :: more) with ((c :: g) ++ bad :: more).
    rewrite compactLoop_app by done.
    rewrite compactLoop_bad by done. done.
Qed.

Lemma compact_flags_partial_witness :
  Args.parseLoop false Args.initialArgs [lit "-hx"]
  = Args.pushUnknown (lit "-hx") (Args.withFlags Args.setHelp Args.initialArgs).
Proof.
  apply (compact_flags_partial (lit "h") 120 [] Args.initialArgs []);
    reflexivity.
Defined.

Section OptionValues.

Lemma acceptTimeout_number (n : Z) :
  Args.acceptTimeout (numToString n) = if 0 <=? n then Some n else None.
Proof. unfold Args.acceptTimeout. by rewrite parseInt_numToString. Qed.

Lemma timeout_attached (v : jsstring) (st : Args.ParsedArgs)
    (rest : list jsstring) :
  Args.parseLoop false st ((lit "--timeout=" ++ v) :: rest)
  = Args.parseLoop false
      (match Args.acceptTimeout v with
       | Some n => Args.withFlags (Args.setTimeoutMs n) st
       | None => Args.pushUnknown (lit "--timeout=" ++ v) st
       end) rest.
Proof.
  cbn [Args.parseLoop negb andb].
  repeat match goal with
         | |- context [lit ?s] =>
             let v := eval vm_compute in (lit s) in change (lit s) with v
         end.
  cbn [app].
  repeat match goal with
         | |- context [eqs (45 :: 45 :: ?l) ?b] =>
             rewrite (eqs_no (45 :: 45 :: l) b) by (intros [=])
         end.
  cbn [startsWith andb orb Z.eqb Pos.eqb drop].
  change (drop 0 v) with v.
  by destruct (Args.acceptTimeout v).
Qed.

End OptionValues.

(** X8: the grace period may be attached to the option with an equals sign or
    given as the next argument: for a whole number from 0 to below 2^53
    (the numbers JavaScript reads exactly), written in decimal, both forms
    set the grace period to that number. *)
Theorem timeout_value_forms (n : Z) (st : Args.ParsedArgs)
    (rest : list jsstring) :
  0 <= n < 9007199254740992 ->
  Args.parseLoop false st ((lit "--timeout=" ++ numToString n) :: rest)
  = Args.parseLoop false (Args.withFlags (Args.setTimeoutMs n) st) rest
  /\ Args.parseLoop false st (lit "--timeout" :: numToString n :: rest)
     = Args.parseLoop false (Args.withFlags (Args.setTimeoutMs n) st) rest
  /\ Args.flag_timeoutMs
       (Args.flags (Args.parseArgs [lit "--timeout"; numToString n])) = n.
Proof.
  intros [Hn _].
  assert (Args.acceptTimeout (numToString n) = Some n) as Hacc.
  { rewrite acceptTimeout_number.
    by assert ((0 <=? n) = true) as -> by lia. }
  assert (forall st' rest',
            Args.parseLoop false st' (lit "--timeout" :: numToString n :: rest')
            = Args.parseLoop false
                (Args.withFlags (Args.setTimeoutMs n) st') rest') as Hnext.
  { intros st' rest'.
    change (Args.parseLoop false st' (lit "--timeout" :: numToString n :: rest'))
      with (match Args.acceptTimeout (numToString n) with
            | Some m =>
                Args.parseLoop false
                  (Args.withFlags (Args.setTimeoutMs m) st') rest'
            | None =>
                Args.parseLoop false
                  (Args.pushUnknown (lit "--timeout" ++ 32 :: numToString n) st')
                  rest'
            end).
    by rewrite Hacc. }
  split; [by rewrite timeout_attached, Hacc|].
  split; [apply Hnext|].
  unfold Args.parseArgs. rewrite Hnext. reflexivity.
Qed.

Lemma timeout_value_forms_witness :
  Args.flag_timeoutMs
    (Args.flags (Args.parseArgs [lit "--timeout"; numToString 2500])) = 2500.
Proof.
  apply (timeout_value_forms 2500 Args.initialArgs []). lia.
Defined.

(** ** The tasklist reader *)

Section CsvFacts.

Lemma dropWhile_length {A} (f : A -> bool) (l : list A) :
  (length (dropWhile f l) <= length l)%nat.
Proof.
  induction l as [|x l IH]; simpl; [lia|]. destruct (f x); simpl; lia.
Qed.

Lemma quotedField_length (cur s : jsstring) :
  (length (Tasklist.quotedField cur s).2 <= length s)%nat.
Proof.
  revert cur. induction s as [s IH] using (induction_ltof1 _ (@length Z)).
  unfold ltof in IH. intros cur. destruct s as [|ch s']; [simpl; lia|].
  cbn [Tasklist.quotedField]. destruct (ch =? 34).
  - destruct s' as [|next s'']; [simpl; lia|].
    destruct (next =? 34); [|simpl; lia].
    specialize (IH s'' ltac:(simpl; lia) (cur ++ [34])). simpl. lia.
  - specialize (IH s' ltac:(simpl; lia) (cur ++ [ch])). simpl. lia.
Qed.

(** The loop does not run out of fuel, and more fuel changes nothing. *)
Lemma csvLoop_fuel (fuel : nat) (out : list jsstring) (s : jsstring) :
  (length s < fuel)%nat ->
  exists fields, Tasklist.csvLoop fuel out s = Some fields
                 /\ forall fuel', (length s < fuel')%nat ->
                                  Tasklist.csvLoop fuel' out s = Some fields.
Proof.
  revert out s. induction fuel as [|fuel IH]; intros out s Hlen; [lia|].
  destruct s as [|c s'].
  - exists out. split; [done|]. intros [|fuel'] ?; [lia|done].
  - cbn [Tasklist.csvLoop]. destruct (c =? 44) eqn:Hc.
    + destruct (IH out s' ltac:(simpl in Hlen; lia)) as (fs & Hfs & Hmore).
      exists fs. split; [done|]. intros [|fuel'] Hf; [lia|].
      cbn [Tasklist.csvLoop]. rewrite Hc. apply Hmore. simpl in Hf. lia.
    + destruct (c =? 34) eqn:Hq.
      * pose proof (quotedField_length [] s') as Hq1.
        destruct (Tasklist.quotedField [] s') as [cur after] eqn:Hfield.
        simpl in Hq1.
        pose proof (dropWhile_length Tasklist.notComma after) as Hd.
        destruct (IH (out ++ [cur]) (dropWhile Tasklist.notComma after)
                    ltac:(simpl in Hlen; lia)) as (fs & Hfs & Hmore).
        exists fs. split; [done|]. intros [|fuel'] Hf; [lia|].
        cbn [Tasklist.csvLoop]. rewrite Hc, Hq, Hfield. apply Hmore.
        simpl in Hf. lia.
      * assert (Tasklist.notComma c = true) as Hnc
          by (unfold Tasklist.notComma; by rewrite Hc).
        pose proof (dropWhile_length Tasklist.notComma s') as Hd.
        assert (dropWhile Tasklist.notComma (c :: s')
                = dropWhile Tasklist.notComma s') as Hdrop
          by (simpl; by rewrite Hnc).
        destruct (IH (out ++ [trim (takeWhile Tasklist.notComma (c :: s'))])
                    (dropWhile Tasklist.notComma (c :: s'))
                    ltac:(rewrite Hdrop; simpl in Hlen; lia))
          as (fs & Hfs & Hmore).
        exists fs. split; [done|]. intros [|fuel'] Hf; [lia|].
        cbn [Tasklist.csvLoop]. rewrite Hc, Hq. apply Hmore.
        rewrite Hdrop. simpl in Hf. lia.
Qed.

Lemma parseCsvLine_loop (fuel : nat) (line : jsstring) :
  (length line < fuel)%nat ->
  Tasklist.parseCsvLine line = Tasklist.csvLoop fuel [] line.
Proof.
  intros Hf. unfold Tasklist.parseCsvLine.
  destruct (csvLoop_fuel (S (length line)) [] line ltac:(lia))
    as (fs & -> & Hmore).
  by rewrite Hmore.
Qed.

(** With enough fuel the loop obeys the equations of the source's loop
    body. *)
Lemma csvFrom_fuel (fuel : nat) (out : list jsstring) (s : jsstring) :
  (length s < fuel)%nat -> Tasklist.csvLoop fuel out s = csvFrom out s.
Proof.
  intros Hf. unfold csvFrom.
  destruct (csvLoop_fuel (S (length s)) out s ltac:(lia)) as (fs & -> & Hmore).
  by apply Hmore.
Qed.

Lemma csvLoop_S (fuel : nat) (out : list jsstring) (c : Z) (s : jsstring) :
  Tasklist.csvLoop (S fuel) out (c :: s)
  = if c =? 44 then Tasklist.csvLoop fuel out s
    else if c =? 34 then
      Tasklist.csvLoop fuel (out ++ [(Tasklist.quotedField [] s).1])
        (dropWhile Tasklist.notComma (Tasklist.quotedField [] s).2)
    else
      Tasklist.csvLoop fuel
        (out ++ [trim (takeWhile Tasklist.notComma (c :: s))])
        (dropWhile Tasklist.notComma (c :: s)).
Proof.
  cbn [Tasklist.csvLoop]. by destruct (Tasklist.quotedField [] s).
Qed.

Lemma csvFrom_comma (out : list jsstring) (s : jsstring) :
  csvFrom out (44 :: s) = csvFrom out s.
Proof. unfold csvFrom. by rewrite csvLoop_S. Qed.

Lemma csvFrom_quote (out : list jsstring) (s : jsstring) :
  csvFrom out (34 :: s)
  = csvFrom (out ++ [(Tasklist.quotedField [] s).1])
            (dropWhile Tasklist.notComma (Tasklist.quotedField [] s).2).
Proof.
  pose proof (quotedField_length [] s) as Hq.
  pose proof (dropWhile_length Tasklist.notComma
                (Tasklist.quotedField [] s).2) as Hd.
  unfold csvFrom at 1. rewrite csvLoop_S. cbn [Z.eqb Pos.eqb length].
  apply csvFrom_fuel. lia.
Qed.

Lemma csvFrom_plain (out : list jsstring) (c : Z) (s : jsstring) :
  c <> 44 -> c <> 34 ->
  csvFrom out (c :: s)
  = csvFrom (out ++ [trim (takeWhile Tasklist.notComma (c :: s))])
            (dropWhile Tasklist.notComma s).
Proof.
  intros Hc Hq.
  pose proof (dropWhile_length Tasklist.notComma s) as Hd.
  unfold csvFrom at 1. rewrite csvLoop_S.
  assert ((c =? 44) = false) as -> by lia.
  assert ((c =? 34) = false) as -> by lia.
  assert (dropWhile Tasklist.notComma (c :: s)
          = dropWhile Tasklist.notComma s) as ->.
  { simpl. unfold Tasklist.notComma at 1.
    by assert ((c =? 44) = false) as -> by lia. }
  cbn [length]. apply csvFrom_fuel. lia.
Qed.

(** The quoted-field loop reads back a field written by [csvQuote], up to
    its closing quote. *)
Lemma quotedField_quote (field cur tail : jsstring) :
  match tail with 34 :: _ => False | _ => True end ->
  Tasklist.quotedField cur
    (flat_map (fun c => if c =? 34 then [34; 34] else [c]) field
     ++ 34 :: tail)
  = (cur ++ field, tail).
Proof.
  intros Htail. revert cur. induction field as [|c f IH]; intros cur.
  - cbn [flat_map app Tasklist.quotedField Z.eqb Pos.eqb].
    rewrite app_nil_r. destruct tail as [|next t]; [done|].
    destruct (next =? 34) eqn:Hn; [|done].
    apply Z.eqb_eq in Hn as ->. done.
  - cbn [flat_map]. destruct (c =? 34) eqn:Hc.
    + apply Z.eqb_eq in Hc as ->.
      cbn [app Tasklist.quotedField Z.eqb Pos.eqb].
      rewrite IH. by rewrite <- app_assoc.
    + cbn [app Tasklist.quotedField]. rewrite Hc, IH.
      by rewrite <- app_assoc.
Qed.

Lemma csv_round_trip (fields out : list jsstring) :
  csvFrom out (csvJoin (map csvQuote fields)) = Some (out ++ fields).
Proof.
  revert out. induction fields as [|f fs IH]; intros out.
  - simpl. by rewrite app_nil_r.
  - destruct fs as [|g fs].
    + cbn [map csvJoin]. unfold csvQuote. rewrite csvFrom_quote.
      rewrite quotedField_quote by done. done.
    + change (csvJoin (map csvQuote (f :: g :: fs)))
        with (csvQuote f ++ 44 :: csvJoin (map csvQuote (g :: fs))).
      unfold csvQuote at 1. cbn [app]. rewrite <- app_assoc. cbn [app].
      rewrite csvFrom_quote.
      rewrite quotedField_quote by done. cbn [fst snd app dropWhile].
      change (Tasklist.notComma 44) with false. cbv iota.
      rewrite csvFrom_comma, IH. by rewrite <- app_assoc.
Qed.

Lemma takeWhile_app_comma (f rest : jsstring) :
  forallb Tasklist.notComma f = true ->
  takeWhile Tasklist.notComma (f ++ 44 :: rest) = f
  /\ dropWhile Tasklist.notComma (f ++ 44 :: rest) = 44 :: rest.
Proof.
  intros Hf. induction f as [|c f IH]; [done|].
  simpl in Hf. apply andb_true_iff in Hf as [Hc Hf].
  destruct (IH Hf) as [IH1 IH2]. simpl. rewrite Hc. by rewrite IH1, IH2.
Qed.

Lemma takeWhile_all_comma (f : jsstring) :
  forallb Tasklist.notComma f = true ->
  takeWhile Tasklist.notComma f = f /\ dropWhile Tasklist.notComma f = [].
Proof.
  intros Hf. induction f as [|c f IH]; [done|].
  simpl in Hf. apply andb_true_iff in Hf as [Hc Hf].
  destruct (IH Hf) as [IH1 IH2]. simpl. rewrite Hc. by rewrite IH1, IH2.
Qed.

Lemma csv_plain_fields (fields out : list jsstring) :
  Forall plainField fields ->
  csvFrom out (csvJoin fields) = Some (out ++ map trim fields).
Proof.
  revert out. induction fields as [|f fs IH]; intros out Hall.
  - simpl. by rewrite app_nil_r.
  - apply Forall_cons in Hall as [[Hf (c & rest & -> & Hq)] Hfs].
    assert (c <> 44) as Hc.
    { simpl in Hf. unfold Tasklist.notComma in Hf at 1. lia. }
    destruct fs as [|g fs].
    + cbn [csvJoin map]. rewrite csvFrom_plain by done.
      destruct (takeWhile_all_comma (c :: rest) Hf) as [-> Hd].
      simpl in Hd. unfold Tasklist.notComma in Hd at 1.
      assert ((c =? 44) = false) as Hc' by lia. rewrite Hc' in Hd.
      simpl in Hd. rewrite Hd. done.
    + change (csvJoin ((c :: rest) :: g :: fs))
        with ((c :: rest) ++ 44 :: csvJoin (g :: fs)).
      cbn [app]. rewrite csvFrom_plain by done.
      change (c :: rest ++ 44 :: csvJoin (g :: fs))
        with ((c :: rest) ++ 44 :: csvJoin (g :: fs)).
      destruct (takeWhile_app_comma (c :: rest) (csvJoin (g :: fs)) Hf)
        as [-> _].
      assert (forallb Tasklist.notComma rest = true) as Hrest.
      { simpl in Hf. by apply andb_true_iff in Hf as [_ ?]. }
      destruct (takeWhile_app_comma rest (csvJoin (g :: fs)) Hrest)
        as [_ ->].
      rewrite csvFrom_comma, IH by done. by rewrite <- app_assoc.
Qed.

End CsvFacts.

(** X9: a line of fields written between double quotes, quotes within a field
    doubled, and separated by commas, is read back as exactly those
    fields, whatever characters they hold (commas and quotes included);
    the empty line has no field. *)
Theorem csv_quoted_round_trip (fields : list jsstring) :
  Tasklist.parseCsvLine (csvJoin (map csvQuote fields)) = Some fields.
Proof. apply (csv_round_trip fields []). Qed.

(** X10: fields written without quotes (not empty, free of commas, not
    starting with a quote) and separated by commas are read back in
    order, each with the white space at its ends removed. *)
Theorem csv_plain_round_trip (fields : list jsstring) :
  Forall plainField fields ->
  Tasklist.parseCsvLine (csvJoin fields) = Some (map trim fields).
Proof. intros Hall. by apply (csv_plain_fields fields []). Qed.

Lemma csv_plain_round_trip_witness :
  Tasklist.parseCsvLine (csvJoin [lit "node.exe"; lit " 4242 "; lit "Console"])
  = Some [lit "node.exe"; lit "4242"; lit "Console"].
Proof.
  apply (csv_plain_round_trip [lit "node.exe"; lit " 4242 "; lit "Console"]).
  repeat (apply Forall_cons_2;
          [split; [reflexivity
                  |vm_compute; eexists _, _; split; [reflexivity|lia]]|]).
  apply Forall_nil_2.
Defined.

(** ** The Windows finder *)

Section WindowsFinderFacts.

Lemma parseNetstat_record (stdout0 : jsstring) (proto : Protocol) (l : Listener) :
  l ∈ parseNetstat stdout0 proto ->
  protocol l = proto /\ source l = Some (lit "netstat").
Proof.
  rewrite parseNetstat_lines. intros (raw0 & _ & Hl)%list_elem_of_omap.
  unfold parseNetstatLine in Hl. cbv zeta in Hl.
  repeat case_match; try discriminate; by injection Hl as <-.
Qed.

(** A command that closes before the timer fires returns its output. *)
Lemma execFile_prompt (cmd : jsstring) (args : list jsstring) (t : Z)
    (w : World) :
  prompt w cmd t ->
  exists res w',
    execFile cmd args (Some t) w = Returned res w'
    /\ programs w' = programs w.
Proof.
  intros Hp. destruct (Hp args) as (d & o & lag & Hprog & Hd).
  unfold execFile. rewrite Hprog. cbn [orElse].
  destruct (Z.leb_spec (t + Z.max 0 (orElse (head (lateness w)) 0)) d);
    [lia|].
  rewrite andb_false_r. by eexists _, _.
Qed.

Lemma runNetstat_prompt (args : list jsstring) (w : World) :
  prompt w (lit "netstat") 2000 ->
  exists out w',
    WindowsFinder.runNetstat args w = Returned out w'
    /\ programs w' = programs w.
Proof.
  intros Hp.
  destruct (execFile_prompt (lit "netstat") args 2000 w Hp)
    as (res & w' & He & Hprog).
  unfold WindowsFinder.runNetstat, tryCatch, bind. rewrite He.
  by eexists _, _.
Qed.

Lemma runNetstat_missing (args : list jsstring) (w : World) :
  lacks w (lit "netstat") ->
  WindowsFinder.runNetstat args w
  = Thrown (plainError "netstat not found.")
      (record (EExec (lit "netstat") args (Some 2000)) w).
Proof.
  intros Hl. destruct (Hl args) as [msg Hp].
  unfold WindowsFinder.runNetstat, tryCatch, bind, execFile. by rewrite Hp.
Qed.

End WindowsFinderFacts.

(** X11: every record the Windows port lookup returns is for the port asked
    for and for one of the protocols asked for, comes from netstat, and
    no two of them share protocol, port, pid and address; and the lookup
    does return wherever netstat closes by itself before its two-second
    timer fires. *)
Theorem windows_findByPort_outcome (port0 : Z) (protocols : list Protocol)
    (w : World) :
  match WindowsFinder.findByPort port0 protocols w with
  | Returned found w' =>
      Forall (answers port0 protocols) found
      /\ NoDup (listenerKey <$> found)
  | _ => True
  end
  /\ (prompt w (lit "netstat") 2000 ->
      exists found w',
        WindowsFinder.findByPort port0 protocols w = Returned found w').
Proof.
  unfold WindowsFinder.findByPort.
  assert (forall proto stdout0,
            proto ∈ protocols ->
            Forall (answers port0 protocols)
              (filter (fun l => port l = port0) (parseNetstat stdout0 proto)))
    as Hans.
  { intros proto stdout0 Hin. apply Forall_forall. intros l Hl.
    apply list_elem_of_filter in Hl as [Hport Hl].
    apply parseNetstat_record in Hl as [Hproto Hsrc].
    unfold answers. by rewrite Hproto. }
  assert (forall xs ys,
            Forall (answers port0 protocols) xs ->
            Forall (answers port0 protocols) ys ->
            Forall (answers port0 protocols) (uniqBy listenerKey (xs ++ ys))
            /\ NoDup (listenerKey <$> uniqBy listenerKey (xs ++ ys))) as Huniq.
  { intros xs ys Hxs Hys. split; [|apply uniqBy_loop_NoDup].
    apply Forall_forall. intros l Hl%uniqBy_sublist.
    apply elem_of_app in Hl as [Hl|Hl];
      [rewrite Forall_forall in Hxs|rewrite Forall_forall in Hys]; auto. }
  split.
  - unfold bind at 1.
    case_bool_decide as Htcp.
    + unfold bind at 1.
      destruct (WindowsFinder.runNetstat [lit "-ano"; lit "-p"; lit "tcp"] w)
        as [s1 w1|e1 w1| |]; try done.
      unfold ret at 1. unfold bind at 1.
      case_bool_decide as Hudp.
      * unfold bind at 1.
        destruct (WindowsFinder.runNetstat [lit "-ano"; lit "-p"; lit "udp"] w1)
          as [s2 w2|e2 w2| |]; try done.
        unfold ret. apply Huniq; auto.
      * unfold ret. apply Huniq; auto.
    + unfold ret at 1. unfold bind at 1.
      case_bool_decide as Hudp.
      * unfold bind at 1.
        destruct (WindowsFinder.runNetstat [lit "-ano"; lit "-p"; lit "udp"] w)
          as [s2 w2|e2 w2| |]; try done.
        unfold ret. apply Huniq; auto.
      * unfold ret. simpl. split; constructor.
  - intros Hp. unfold bind at 1.
    assert (exists out1 w1,
              (if bool_decide (tcp ∈ protocols)
               then bind (WindowsFinder.runNetstat
                            [lit "-ano"; lit "-p"; lit "tcp"])
                      (fun tcp0 =>
                         ret (filter (fun l => port l = port0)
                                (parseNetstat tcp0 tcp)))
               else ret []) w = Returned out1 w1
              /\ programs w1 = programs w) as (out1 & w1 & -> & Hw1).
    { case_bool_decide.
      - destruct (runNetstat_prompt [lit "-ano"; lit "-p"; lit "tcp"] w Hp)
          as (out & w1 & Hrun & Hprog).
        unfold bind. rewrite Hrun. by eexists _, _.
      - by eexists _, _. }
    assert (prompt w1 (lit "netstat") 2000) as Hp1.
    { intros args. rewrite Hw1. apply Hp. }
    unfold bind at 1.
    case_bool_decide.
    + destruct (runNetstat_prompt [lit "-ano"; lit "-p"; lit "udp"] w1 Hp1)
        as (out & w2 & Hrun & Hprog).
      unfold bind. rewrite Hrun. by eexists _, _.
    + by eexists _, _.
Qed.

Lemma windows_findByPort_outcome_witness :
  exists found w',
    WindowsFinder.findByPort 3000 [tcp; udp] quietHost = Returned found w'.
Proof.
  apply (windows_findByPort_outcome 3000 [tcp; udp] quietHost).
  intros args. eexists _, _, _. split; [reflexivity|lia].
Defined.

(** X12: where netstat is not installed, a port lookup for at least one
    protocol throws the error [netstat not found.] after the first
    spawn, with no time spent; a lookup for no protocol at all returns
    the empty list without spawning anything. *)
Theorem windows_findByPort_missing_tool (port0 : Z) (protocols : list Protocol)
    (w : World) :
  lacks w (lit "netstat") ->
  WindowsFinder.findByPort port0 protocols w
  = match protocols with
    | [] => Returned [] w
    | p :: _ =>
        Thrown (plainError "netstat not found.")
          (record (EExec (lit "netstat")
                     [lit "-ano"; lit "-p";
                      if bool_decide (tcp ∈ protocols) then lit "tcp"
                      else lit "udp"]
                     (Some 2000)) w)
    end.
Proof.
  intros Hl. unfold WindowsFinder.findByPort.
  unfold bind at 1. case_bool_decide as Htcp.
  - unfold bind at 1. rewrite runNetstat_missing by done.
    destruct protocols; [by apply elem_of_nil in Htcp|done].
  - unfold ret at 1. unfold bind at 1. case_bool_decide as Hudp.
    + unfold bind at 1. rewrite runNetstat_missing by done.
      destruct protocols; [by apply elem_of_nil in Hudp|done].
    + destruct protocols as [|[] ps]; [done| |].
      * exfalso. apply Htcp. by left.
      * exfalso. apply Hudp. by left.
Qed.

Lemma windows_findByPort_missing_tool_witness :
  WindowsFinder.findByPort 3000 [tcp; udp] bareHost
  = Thrown (plainError "netstat not found.")
      (record (EExec (lit "netstat") [lit "-ano"; lit "-p"; lit "tcp"]
                 (Some 2000)) bareHost).
Proof.
  apply (windows_findByPort_missing_tool 3000 [tcp; udp] bareHost).
  intros args. by exists None.
Defined.

(** ** What the POSIX killer reports *)

Section Honesty.
Variable target : Z.

Lemma processKill_cases (sig : Signal) (w : World) :
  (gone w target
   /\ processKill target sig w
      = Thrown (systemError "ESRCH") (record (EKill target sig) w))
  \/ (exists p, running w target p
        /\ ((denies p = true
             /\ processKill target sig w
                = Thrown (systemError "EPERM") (record (EKill target sig) w))
            \/ (denies p = false
                /\ processKill target sig w
                   = Returned tt (delivered target sig p w)))).
Proof.
  destruct (running_or_gone w target) as [Hg|[p Hr]].
  - left. split; [done|by apply processKill_gone].
  - right. exists p. split; [done|]. destruct (denies p) eqn:Hd.
    + left. split; [done|by apply (processKill_denied _ _ _ p)].
    + right. split; [done|by apply (processKill_delivered _ _ _ p)].
Qed.

Lemma waitLoop_true (fuel : nat) (start timeout : Z) (w w' : World) :
  PosixKiller.waitLoop fuel target start timeout w = Returned true w' ->
  gone w' target.
Proof.
  revert w. induction fuel as [|n IH]; intros w; [done|].
  cbn [PosixKiller.waitLoop]. unfold bind at 1, dateNow at 1.
  destruct (now w - start <? timeout); [|done].
  unfold bind at 1, tryCatch at 1, bind at 1.
  destruct (processKill_cases SIG0 w)
    as [[Hg ->]|(p & Hr & [[Hd ->]|[Hd ->]])].
  - change (hasCode (systemError "ESRCH") "ESRCH") with true.
    unfold ret. intros [= <-]. done.
  - change (hasCode (systemError "EPERM") "ESRCH") with false.
    unfold ret at 1. cbv iota. unfold bind at 1.
    destruct (sleep_spec 30 (record (EKill target SIG0) w)) as (w1 & -> & _).
    apply IH.
  - unfold ret at 1 2. cbv iota. unfold bind at 1.
    destruct (sleep_spec 30 (delivered target SIG0 p w)) as (w1 & -> & _).
    apply IH.
Qed.

Lemma waitForExit_true (fuel : nat) (timeout : Z) (w w' : World) :
  PosixKiller.waitForExit fuel target timeout w = Returned true w' ->
  gone w' target.
Proof. unfold PosixKiller.waitForExit, bind, dateNow. apply waitLoop_true. Qed.

Lemma honest_killSingle (fuel : nat) (timeout : Z) :
  honest target (PosixKiller.killSingle fuel target timeout).
Proof.
  intros w r w'. unfold PosixKiller.killSingle.
  unfold bind at 1, tryCatch at 1, bind at 1.
  destruct (processKill_cases SIGTERM w)
    as [[Hg ->]|(p & Hr & [[Hd ->]|[Hd ->]])].
  - unfold ret. cbn iota.
    change (hasCode (systemError "ESRCH") "ESRCH") with true.
    intros [= <- <-]. done.
  - unfold ret. cbn iota.
    change (hasCode (systemError "EPERM") "ESRCH") with false.
    intros [= <- <-]. done.
  - unfold ret at 1 2. cbn iota. unfold bind at 1.
    set (w1 := delivered target SIGTERM p w).
    assert (forall w2,
              bind (tryCatch
                      (bind (processKill target SIGKILL) (fun _ => ret None))
                      (fun err => ret (Some err)))
                   (fun sent2 : option JsError =>
                      match sent2 with
                      | Some err =>
                          if hasCode err "ESRCH"
                          then ret (PosixKiller.result target true "SIGTERM" None None)
                          else ret (PosixKiller.result target false "SIGKILL"
                                      (Some (orElse (errMessage err)
                                               (lit "SIGKILL failed")))
                                      (errCode err))
                      | None =>
                          bind (PosixKiller.waitForExit fuel target 200)
                            (fun gone0 : bool =>
                               if gone0
                               then ret (PosixKiller.result target true "SIGKILL" None None)
                               else ret (PosixKiller.result target false "SIGKILL"
                                           (Some (lit "process still alive")) None))
                      end) w2 = Returned r w' ->
              kpid r = target /\ (ok r = true -> gone w' target)) as Hkill.
    { intros w2. unfold bind at 1, tryCatch at 1, bind at 1.
      destruct (processKill_cases SIGKILL w2)
        as [[Hg ->]|(p2 & Hr2 & [[Hd2 ->]|[Hd2 ->]])].
      - unfold ret. cbn iota.
        change (hasCode (systemError "ESRCH") "ESRCH") with true.
        intros [= <- <-]. done.
      - unfold ret. cbn iota.
        change (hasCode (systemError "EPERM") "ESRCH") with false.
        intros [= <- <-]. done.
      - unfold ret at 1 2. cbn iota. unfold bind at 1.
        destruct (PosixKiller.waitForExit fuel target 200 _)
          as [[] w3|e w3| |] eqn:Hwait; try done.
        + apply waitForExit_true in Hwait. unfold ret. by intros [= <- <-].
        + unfold ret. by intros [= <- <-]. }
    destruct (0 <? timeout).
    + destruct (PosixKiller.waitForExit fuel target timeout w1)
        as [[] w2|e w2| |] eqn:Hwait; try done.
      * apply waitForExit_true in Hwait. unfold ret. by intros [= <- <-].
      * apply Hkill.
    + unfold ret at 1. apply Hkill.
Qed.

Lemma honest_kill (fuel : nat) (options : KillOptions) :
  honest target (PosixKiller.kill fuel target options).
Proof.
  intros w r w'. unfold PosixKiller.kill. unfold bind at 1.
  rewrite posix_isAlive_spec.
  destruct (isRunning w target) eqn:Halive; cbn [negb].
  - unfold bind at 1.
    case_bool_decide;
      [destruct (tryCatch _ _ _) as [[] w1|e w1| |]; try done
      |unfold ret at 1];
      apply honest_killSingle.
  - unfold ret. intros [= <- <-]. split; [done|]. intros _.
    unfold gone, isRunning in *. simpl.
    destruct (procs w !! target); done.
Qed.

End Honesty.

(** X13: a success reported by the POSIX killer can be relied on: whenever
    [kill] returns a result, with or without the tree option, the result
    is about the pid asked for, and if it says ok that process no longer
    exists. *)
Theorem posix_kill_success_is_real (fuel : nat) (target : Z)
    (options : KillOptions) (w w' : World) (r : KillResult) :
  PosixKiller.kill fuel target options w = Returned r w' ->
  kpid r = target /\ (ok r = true -> gone w' target).
Proof. apply honest_kill. Qed.

Lemma posix_kill_success_is_real_witness :
  exists r w',
    PosixKiller.kill 8 4242 (graceOptions (Some 100)) (sampleHost obedient)
    = Returned r w'
    /\ kpid r = 4242 /\ (ok r = true -> gone w' 4242).
Proof.
  eexists _, _. split; [vm_compute; reflexivity|].
  apply (posix_kill_success_is_real 8 4242 (graceOptions (Some 100))
           (sampleHost obedient)).
  vm_compute. reflexivity.
Defined.

(** ** The POSIX killer always answers *)

Section Resolving.

Lemma neverThrows_ret {A} (a : A) : neverThrows (ret a).
Proof. by intros w. Qed.

Lemma neverThrows_bind {A B} (m : M A) (k : A -> M B) :
  neverThrows m -> (forall a, neverThrows (k a)) -> neverThrows (bind m k).
Proof.
  intros Hm Hk w. unfold bind. specialize (Hm w).
  destruct (m w) as [a w'|e w'| |]; try done. apply Hk.
Qed.

(** A handler that never throws makes the whole never throw. *)
Lemma neverThrows_tryCatch {A} (m : M A) (h : JsError -> M A) :
  (forall e, neverThrows (h e)) -> neverThrows (tryCatch m h).
Proof.
  intros Hh w. unfold tryCatch.
  destruct (m w) as [a w'|e w'| |]; try done. apply Hh.
Qed.

Lemma settles_processKill (target : Z) (sig : Signal) :
  settles (processKill target sig).
Proof. intros w. unfold processKill. by repeat case_match. Qed.

Lemma neverThrows_sleep (ms : Z) : neverThrows (sleep ms).
Proof. by intros w. Qed.

Lemma neverThrows_dateNow : neverThrows dateNow.
Proof. by intros w. Qed.

Lemma neverThrows_waitLoop (fuel : nat) (target start timeout : Z) :
  neverThrows (PosixKiller.waitLoop fuel target start timeout).
Proof.
  induction fuel as [|n IH]; [by intros w|].
  cbn [PosixKiller.waitLoop].
  apply neverThrows_bind; [apply neverThrows_dateNow|]. intros t.
  destruct (t - start <? timeout); [|apply neverThrows_ret].
  apply neverThrows_bind.
  { apply neverThrows_tryCatch. intros; apply neverThrows_ret. }
  intros [].
  - apply neverThrows_ret.
  - apply neverThrows_bind; [apply neverThrows_sleep|done].
Qed.

Lemma neverThrows_waitForExit (fuel : nat) (target timeout : Z) :
  neverThrows (PosixKiller.waitForExit fuel target timeout).
Proof.
  apply neverThrows_bind; [apply neverThrows_dateNow|]. intros.
  apply neverThrows_waitLoop.
Qed.

Lemma neverThrows_killSingle (fuel : nat) (target timeout : Z) :
  neverThrows (PosixKiller.killSingle fuel target timeout).
Proof.
  unfold PosixKiller.killSingle.
  apply neverThrows_bind.
  { apply neverThrows_tryCatch. intros; apply neverThrows_ret. }
  intros [err|].
  { destruct (hasCode err "ESRCH"); apply neverThrows_ret. }
  apply neverThrows_bind.
  { destruct (0 <? timeout);
      [apply neverThrows_waitForExit|apply neverThrows_ret]. }
  intros []; [apply neverThrows_ret|].
  apply neverThrows_bind.
  { apply neverThrows_tryCatch. intros; apply neverThrows_ret. }
  intros [err|].
  { destruct (hasCode err "ESRCH"); apply neverThrows_ret. }
  apply neverThrows_bind; [apply neverThrows_waitForExit|].
  intros []; apply neverThrows_ret.
Qed.

(** Whatever goes wrong while the descendants are handled is caught. *)
Lemma neverThrows_kill (fuel : nat) (target : Z) (options : KillOptions) :
  neverThrows (PosixKiller.kill fuel target options).
Proof.
  unfold PosixKiller.kill.
  apply neverThrows_bind.
  { unfold PosixKiller.isAlive. apply neverThrows_tryCatch.
    intros e. destruct (hasCode e "ESRCH"); apply neverThrows_ret. }
  intros alive. destruct (negb alive); [apply neverThrows_ret|].
  apply neverThrows_bind; [|intros; apply neverThrows_killSingle].
  destruct (bool_decide (tree options = Some true)); [|apply neverThrows_ret].
  apply neverThrows_tryCatch. intros; apply neverThrows_ret.
Qed.

Lemma killSingle_returns (fuel : nat) (target timeout : Z) (w : World) :
  (1 <= fuel)%nat -> Z.max timeout 200 <= 30 * (Z.of_nat fuel - 1) ->
  exists r w', PosixKiller.killSingle fuel target timeout w = Returned r w'.
Proof.
  intros Hfuel Hbound.
  assert (forall t w0, t <= Z.max timeout 200 ->
            exists b w1, PosixKiller.waitForExit fuel target t w0
                         = Returned b w1) as Hwait.
  { intros t w0 Ht.
    destruct (waitForExit_returns target fuel t w0) as (b & w1 & ? & -> & _);
      [done|lia|]. by eexists _, _. }
  unfold PosixKiller.killSingle.
  unfold bind at 1, tryCatch at 1, bind at 1.
  destruct (processKill target SIGTERM w) as [[] w1|e w1| |] eqn:Hterm;
    [| |by pose proof (settles_processKill target SIGTERM w) as Hs;
          rewrite Hterm in Hs
       |by unfold processKill in Hterm; repeat case_match].
  2:{ unfold ret. cbn iota. destruct (hasCode e "ESRCH"); by eexists _, _. }
  unfold ret at 1 2. cbn iota. unfold bind at 1.
  assert (exists b w2,
            (if 0 <? timeout then PosixKiller.waitForExit fuel target timeout
             else ret false) w1 = Returned b w2) as (b & w2 & ->).
  { destruct (0 <? timeout); [apply Hwait; lia|by eexists _, _]. }
  destruct b; [by eexists _, _|].
  unfold bind at 1, tryCatch at 1, bind at 1.
  destruct (processKill target SIGKILL w2) as [[] w3|e w3| |] eqn:Hkill;
    [| |by pose proof (settles_processKill target SIGKILL w2) as Hs;
          rewrite Hkill in Hs
       |by unfold processKill in Hkill; repeat case_match].
  2:{ unfold ret. cbn iota. destruct (hasCode e "ESRCH"); by eexists _, _. }
  unfold ret at 1 2. cbn iota. unfold bind at 1.
  destruct (Hwait 200 w3 ltac:(lia)) as (b & w4 & ->).
  destruct b; by eexists _, _.
Qed.

End Resolving.

(** X14: the promise of the POSIX killer never rejects, with or without
    the tree option: what the signals throw is turned into a result, and
    whatever ps throws while the descendants are handled is ignored. And
    without the tree option the killer does answer with a result, once
    the grace window and the 200 ms confirmation window have been polled
    through (a poll every 30 ms at most). *)
Theorem posix_kill_resolves (fuel : nat) (target : Z) (options : KillOptions)
    (w : World) :
  match PosixKiller.kill fuel target options w with
  | Thrown _ _ => False
  | _ => True
  end
  /\ (tree options <> Some true -> (1 <= fuel)%nat ->
      Z.max (orElse (timeoutMs options) 0) 200 <= 30 * (Z.of_nat fuel - 1) ->
      exists r w', PosixKiller.kill fuel target options w = Returned r w').
Proof.
  split; [apply neverThrows_kill|]. intros Htree Hfuel Hbound.
  unfold PosixKiller.kill. unfold bind at 1. rewrite posix_isAlive_spec.
  destruct (isRunning w target); cbn [negb]; [|by eexists _, _].
  rewrite bool_decide_eq_false_2 by done.
  unfold bind at 1, ret at 1.
  apply killSingle_returns; [done|lia].
Qed.

Lemma posix_kill_resolves_witness :
  exists r w',
    PosixKiller.kill 8 4242 (graceOptions (Some 100)) (sampleHost immortal)
    = Returned r w'.
Proof.
  apply (posix_kill_resolves 8 4242 (graceOptions (Some 100))
           (sampleHost immortal)).
  - discriminate.
  - lia.
  - simpl. lia.
Defined.

(** ** SIGKILL only after SIGTERM *)

#[local] Instance signalsOnly_preorder (x : Z) : PreOrder (signalsOnly x).
Proof.
  split.
  - intros w. by exists [].
  - intros w1 w2 w3 (a1 & He1 & Ha1) (a2 & He2 & Ha2).
    exists (a2 ++ a1). split; [by rewrite He2, He1, app_assoc|].
    rewrite forallb_app. by rewrite Ha1, Ha2.
Qed.

Section EscalationOrder.

Lemma termFirst_quiet (added : list (Z * Event)) :
  forallb noSigkill added = true -> termFirst added.
Proof.
  intros Hq i t x Hi. rewrite forallb_forall in Hq.
  apply list_elem_of_lookup_2, list_elem_of_In, Hq in Hi. done.
Qed.

Lemma termFirst_app (a2 a1 : list (Z * Event)) :
  termFirst a1 -> termFirst a2 -> termFirst (a2 ++ a1).
Proof.
  intros H1 H2 i t x Hi.
  destruct (decide (i < length a2)%nat) as [Hlt|Hge].
  - rewrite lookup_app_l in Hi by done.
    destruct (H2 i t x Hi) as (j & t' & Hij & Hj).
    exists j, t'. split; [done|].
    rewrite lookup_app_l; [done|]. by apply lookup_lt_Some in Hj.
  - rewrite lookup_app_r in Hi by lia.
    destruct (H1 _ t x Hi) as (j & t' & Hij & Hj).
    exists (length a2 + j)%nat, t'. split; [lia|].
    rewrite lookup_app_r by lia.
    by replace (length a2 + j - length a2)%nat with j by lia.
Qed.

Lemma termFirst_after_term (pre : list (Z * Event)) (t x : Z) :
  forallb (onlyTo x) pre = true ->
  termFirst (pre ++ [(t, EKill x SIGTERM)]).
Proof.
  intros Hpre i t0 y Hi.
  assert (i < length pre)%nat as Hlt.
  { destruct (decide (i < length pre)%nat) as [|Hge]; [done|].
    rewrite lookup_app_r in Hi by lia.
    destruct (i - length pre)%nat; [done|]. done. }
  rewrite lookup_app_l in Hi by done.
  rewrite forallb_forall in Hpre.
  apply list_elem_of_lookup_2, list_elem_of_In, Hpre in Hi.
  unfold onlyTo in Hi. simpl in Hi. apply Z.eqb_eq in Hi as ->.
  exists (length pre), t. split; [done|].
  rewrite lookup_app_r by lia. by rewrite Nat.sub_diag.
Qed.

End EscalationOrder.

#[local] Instance escalatesInOrder_preorder : PreOrder escalatesInOrder.
Proof.
  split.
  - intros w. exists []. split; [done|]. by apply termFirst_quiet.
  - intros w1 w2 w3 (a1 & He1 & Ha1) (a2 & He2 & Ha2).
    exists (a2 ++ a1). split; [by rewrite He2, He1, app_assoc|].
    by apply termFirst_app.
Qed.

Section EscalationSteps.

Lemma signalsOnly_record (x : Z) (e : Event) (w : World) :
  onlyTo x (now w, e) = true -> signalsOnly x w (record e w).
Proof. intros He. exists [(now w, e)]. simpl. by rewrite He. Qed.

Lemma signalsOnly_processKill (x : Z) (sig : Signal) :
  steps (signalsOnly x) (processKill x sig).
Proof.
  intros w. unfold processKill.
  assert (signalsOnly x w (record (EKill x sig) w)) as Hrec.
  { apply signalsOnly_record. unfold onlyTo. simpl. apply Z.eqb_refl. }
  destruct (procs w !! x) as [p|]; [|done].
  destruct (existsAt p (now w)); [|done]. destruct (denies p); [done|].
  exact Hrec.
Qed.

Lemma signalsOnly_sleep (x ms : Z) : steps (signalsOnly x) (sleep ms).
Proof. intros w. simpl. by exists [(now w, ESleep ms)]. Qed.

Lemma signalsOnly_waitLoop (fuel : nat) (x start timeout : Z) :
  steps (signalsOnly x) (PosixKiller.waitLoop fuel x start timeout).
Proof.
  induction fuel as [|n IH]; [by intros w|].
  cbn [PosixKiller.waitLoop].
  apply steps_bind; [apply _|apply steps_dateNow; apply _|]. intros t.
  destruct (t - start <? timeout); [|apply steps_ret; apply _].
  apply steps_bind; [apply _| |].
  - apply steps_tryCatch; [apply _| |intros; apply steps_ret; apply _].
    apply steps_bind; [apply _|apply signalsOnly_processKill|].
    intros; apply steps_ret; apply _.
  - intros []; [apply steps_ret; apply _|].
    apply steps_bind; [apply _|apply signalsOnly_sleep|done].
Qed.

Lemma signalsOnly_waitForExit (fuel : nat) (x timeout : Z) :
  steps (signalsOnly x) (PosixKiller.waitForExit fuel x timeout).
Proof.
  apply steps_bind; [apply _|apply steps_dateNow; apply _|].
  intros; apply signalsOnly_waitLoop.
Qed.

(** What [killSingle] adds to the log starts with the SIGTERM, and every
    signal after it goes to the same process. *)
Lemma killSingle_trace (fuel : nat) (x timeout : Z) (w : World) :
  match PosixKiller.killSingle fuel x timeout w with
  | Returned _ w' | Thrown _ w' =>
      exists pre, events w' = pre ++ (now w, EKill x SIGTERM) :: events w
                  /\ forallb (onlyTo x) pre = true
  | _ => True
  end.
Proof.
  assert (forall A (m : M A) w1,
            events w1 = (now w, EKill x SIGTERM) :: events w ->
            steps (signalsOnly x) m ->
            match m w1 with
            | Returned _ w' | Thrown _ w' =>
                exists pre,
                  events w' = pre ++ (now w, EKill x SIGTERM) :: events w
                  /\ forallb (onlyTo x) pre = true
            | _ => True
            end) as Hrest.
  { intros A m w1 He Hm. specialize (Hm w1).
    destruct (m w1); try done; destruct Hm as (pre & Hpre & Hall);
      exists pre; by rewrite Hpre, He. }
  unfold PosixKiller.killSingle.
  unfold bind at 1, tryCatch at 1, bind at 1.
  assert (forall sent2 : option JsError,
            steps (signalsOnly x)
              (match sent2 with
               | Some err =>
                   if hasCode err "ESRCH"
                   then ret (PosixKiller.result x true "SIGTERM" None None)
                   else ret (PosixKiller.result x false "SIGKILL"
                               (Some (orElse (errMessage err)
                                        (lit "SIGKILL failed")))
                               (errCode err))
               | None =>
                   bind (PosixKiller.waitForExit fuel x 200)
                     (fun gone0 : bool =>
                        if gone0
                        then ret (PosixKiller.result x true "SIGKILL" None None)
                        else ret (PosixKiller.result x false "SIGKILL"
                                    (Some (lit "process still alive")) None))
               end)) as Hconfirm.
  { intros [err|].
    - destruct (hasCode err "ESRCH"); apply steps_ret; apply _.
    - apply steps_bind; [apply _|apply signalsOnly_waitForExit|].
      intros []; apply steps_ret; apply _. }
  destruct (processKill_cases x SIGTERM w)
    as [[Hg ->]|(p & Hr & [[Hd ->]|[Hd ->]])].
  - unfold ret. cbn iota. destruct (hasCode _ _); by exists [].
  - unfold ret. cbn iota. destruct (hasCode _ _); by exists [].
  - unfold ret at 1 2. cbn iota.
    apply Hrest; [done|].
    apply steps_bind; [apply _| |].
    + destruct (0 <? timeout);
        [apply signalsOnly_waitForExit|apply steps_ret; apply _].
    + intros []; [apply steps_ret; apply _|].
      apply steps_bind; [apply _| |apply Hconfirm].
      apply steps_tryCatch; [apply _| |intros; apply steps_ret; apply _].
      apply steps_bind; [apply _|apply signalsOnly_processKill|].
      intros; apply steps_ret; apply _.
Qed.

Lemma ordered_killSingle (fuel : nat) (x timeout : Z) :
  steps escalatesInOrder (PosixKiller.killSingle fuel x timeout).
Proof.
  intros w. pose proof (killSingle_trace fuel x timeout w) as Ht.
  destruct (PosixKiller.killSingle fuel x timeout w); try done;
    destruct Ht as (pre & He & Hpre);
    exists (pre ++ [(now w, EKill x SIGTERM)]);
    (split; [by rewrite He, <- app_assoc|by apply termFirst_after_term]).
Qed.

Lemma ordered_quiet_record (e : Event) (w : World) :
  noSigkill (now w, e) = true -> escalatesInOrder w (record e w).
Proof.
  intros He. exists [(now w, e)]. split; [done|].
  apply termFirst_quiet. simpl. by rewrite He.
Qed.

Lemma ordered_probe (x : Z) : steps escalatesInOrder (processKill x SIG0).
Proof.
  intros w. unfold processKill.
  assert (escalatesInOrder w (record (EKill x SIG0) w)) as Hrec
    by by apply ordered_quiet_record.
  destruct (procs w !! x) as [p|]; [|done].
  destruct (existsAt p (now w)); [|done]. destruct (denies p); [done|].
  exact Hrec.
Qed.

Lemma ordered_execFile (cmd : jsstring) (args : list jsstring)
    (t : option Z) :
  steps escalatesInOrder (execFile cmd args t).
Proof.
  intros w. pose proof (execFile_world cmd args t w) as Hw.
  assert (escalatesInOrder w (record (EExec cmd args t) w)) as Hrec
    by by apply ordered_quiet_record.
  destruct (execFile cmd args t w) as [r w'|e w'| |]; try done;
    destruct Hw as (Hev & _), Hrec as (added & Hadd & Hfirst);
    exists added; (split; [by rewrite Hev|done]).
Qed.

Lemma ordered_killEach (fuel : nat) (children : list Z) (timeout : Z) :
  steps escalatesInOrder (PosixKiller.killEach fuel children timeout).
Proof.
  induction children as [|c rest IH]; [apply steps_ret; apply _|].
  cbn [PosixKiller.killEach].
  apply steps_bind; [apply _|apply ordered_killSingle|done].
Qed.

Lemma ordered_descendantsLoop (fuel : nat) (root : Z) (seen : gset Z)
    (out q : list Z) :
  steps escalatesInOrder (PosixKiller.descendantsLoop fuel root seen out q).
Proof.
  revert seen out q. induction fuel as [|n IH]; intros seen out q;
    [by intros w|].
  cbn [PosixKiller.descendantsLoop]. destruct q as [|c q].
  { apply steps_ret; apply _. }
  destruct (decide (c ∈ seen)); [apply IH|].
  apply steps_bind; [apply _| |intros; apply IH].
  unfold PosixKiller.listChildren.
  apply steps_bind; [apply _|apply ordered_execFile|].
  intros; apply steps_ret; apply _.
Qed.

Lemma ordered_kill (fuel : nat) (target : Z) (options : KillOptions) :
  steps escalatesInOrder (PosixKiller.kill fuel target options).
Proof.
  unfold PosixKiller.kill.
  apply steps_bind; [apply _| |].
  { unfold PosixKiller.isAlive.
    apply steps_tryCatch; [apply _| |].
    - apply steps_bind; [apply _|apply ordered_probe|].
      intros; apply steps_ret; apply _.
    - intros e. destruct (hasCode e "ESRCH"); apply steps_ret; apply _. }
  intros alive. destruct (negb alive); [apply steps_ret; apply _|].
  apply steps_bind; [apply _| |intros; apply ordered_killSingle].
  destruct (bool_decide (tree options = Some true));
    [|apply steps_ret; apply _].
  apply steps_tryCatch; [apply _| |intros; apply steps_ret; apply _].
  apply steps_bind; [apply _|apply ordered_descendantsLoop|].
  intros; apply ordered_killEach.
Qed.

End EscalationSteps.

(** X15: the POSIX killer never sends SIGKILL to a process it has not sent
    SIGTERM before, in the same call: in what [kill] has added to the log
    of calls when it returns, every SIGKILL follows a SIGTERM to the same
    pid. This holds for the target and, with the tree option, for each
    descendant. *)
Theorem sigkill_only_after_sigterm (fuel : nat) (target : Z)
    (options : KillOptions) (w w' : World) (r : KillResult) :
  PosixKiller.kill fuel target options w = Returned r w' ->
  exists added,
    events w' = added ++ events w
    /\ forall (i : nat) t x,
         added !! i = Some (t, EKill x SIGKILL) ->
         exists (j : nat) t',
           (i < j)%nat /\ added !! j = Some (t', EKill x SIGTERM).
Proof.
  intros Hkill. pose proof (ordered_kill fuel target options w) as Hord.
  by rewrite Hkill in Hord.
Qed.

Lemma sigkill_only_after_sigterm_witness :
  exists r w' added,
    PosixKiller.kill 8 4242 treeOptions familyHost = Returned r w'
    /\ events w' = added ++ events familyHost
    /\ (1010, EKill 4242 SIGKILL) ∈ added
    /\ forall (i : nat) t x,
         added !! i = Some (t, EKill x SIGKILL) ->
         exists (j : nat) t',
           (i < j)%nat /\ added !! j = Some (t', EKill x SIGTERM).
Proof.
  destruct (PosixKiller.kill 8 4242 treeOptions familyHost)
    as [r w'| | |] eqn:Hkill; try (vm_compute in Hkill; discriminate).
  destruct (sigkill_only_after_sigterm 8 4242 treeOptions familyHost w' r Hkill)
    as (added & He & Hadded).
  exists r, w', added. split; [done|]. split; [done|]. split; [|done].
  vm_compute in Hkill. injection Hkill as <- <-.
  simpl in He. rewrite app_nil_r in He. subst added.
  vm_compute. right. left.
Defined.

(** ** The Windows killer *)

Section WindowsKill.

Lemma parsePid_base (target : Z) (more : list jsstring) :
  WindowsKiller.parsePid (lit "/PID" :: numToString target :: more) = target.
Proof.
  unfold WindowsKiller.parsePid.
  change (WindowsKiller.findIndex _ (lit "/PID" :: numToString target :: more))
    with (Some 0%nat).
  cbn [lookup list_lookup orElse]. by rewrite parseInt_numToString.
Qed.

(** A run of taskkill: one spawn, and, if it settles, a result about the
    pid in the arguments; it never throws. *)
Lemma runTaskkill_outcome (args : list jsstring) (w : World) :
  match WindowsKiller.runTaskkill args w with
  | Returned r w1 =>
      kpid r = WindowsKiller.parsePid args
      /\ events w1 = (now w, EExec (lit "taskkill") args (Some 5000)) :: events w
      /\ programs w1 = programs w
  | Thrown _ _ => False
  | _ => True
  end.
Proof.
  unfold WindowsKiller.runTaskkill, tryCatch, bind.
  pose proof (execFile_world (lit "taskkill") args (Some 5000) w) as Hw.
  destruct (execFile (lit "taskkill") args (Some 5000) w)
    as [res w1|e w1| |]; try done; destruct Hw as (Hev & _ & Hprog & _).
  - set (out := trim (_ ++ _)). unfold ret.
    destruct (WindowsKiller.matchesSuccess out);
      [|destruct (WindowsKiller.matchesNotFound out);
        [|destruct (WindowsKiller.matchesAccessDenied out);
          [|destruct (bool_decide _)]]]; done.
  - done.
Qed.

Lemma runTaskkill_prompt (args : list jsstring) (w : World) :
  prompt w (lit "taskkill") 5000 ->
  exists r w1, WindowsKiller.runTaskkill args w = Returned r w1.
Proof.
  intros Hp.
  destruct (execFile_prompt (lit "taskkill") args 5000 w Hp)
    as (res & w1 & He & _).
  rewrite (runTaskkill_classify _ _ _ _ He). by eexists _, _.
Qed.

Lemma windows_kill_options (target : Z) (o o' : KillOptions) (w : World) :
  WindowsKiller.kill target o w = WindowsKiller.kill target o' w.
Proof.
  unfold WindowsKiller.kill, bind.
  destruct (WindowsKiller.isAlive target w) as [[] w0| | |]; try done.
  cbn [negb].
  destruct (WindowsKiller.runTaskkill _ w0) as [first w1| | |]; try done.
  destruct (ok first); [done|].
  destruct (WindowsKiller.runTaskkill _ w1) as [forced w2| | |]; try done.
  destruct (ok forced); [done|].
  by destruct (negb _ && _), (negb _ && _).
Qed.

End WindowsKill.

(** X16: the promise of the Windows killer never rejects. A result it
    returns is about the pid asked for, and comes after the probe alone,
    after one taskkill, or after a second taskkill with /F, nothing else
    having been called; the options make no difference to what it does;
    and it does return a result wherever taskkill closes by itself before
    its five-second timer fires. (The pid is one whose decimal text is
    exact, below 2^53.) *)
Theorem windows_kill_outcome (target : Z) (options : KillOptions) (w : World) :
  Z.abs target < 9007199254740992 ->
  match WindowsKiller.kill target options w with
  | Returned r w' =>
      kpid r = target
      /\ (exists t1 t2 calls,
            calls ∈ taskkillCalls target (now w) t1 t2
            /\ events w' = calls ++ events w)
  | Thrown _ _ => False
  | _ => True
  end
  /\ (forall options',
        WindowsKiller.kill target options' w
        = WindowsKiller.kill target options w)
  /\ (prompt w (lit "taskkill") 5000 ->
      exists r w', WindowsKiller.kill target options w = Returned r w').
Proof.
  intros _. split; [|split; [intros; apply windows_kill_options|]].
  - unfold WindowsKiller.kill. unfold bind at 1.
    rewrite windows_isAlive_spec, posix_isAlive_spec.
    destruct (isRunning w target); cbn [negb].
    2:{ unfold ret. split; [done|].
        exists 0, 0, [(now w, EKill target SIG0)]. split; [by left|done]. }
    set (w0 := record (EKill target SIG0) w).
    unfold bind at 1.
    pose proof (runTaskkill_outcome
                  [lit "/PID"; numToString target; lit "/T"] w0) as H1.
    destruct (WindowsKiller.runTaskkill _ w0) as [first w1|e1 w1| |];
      try done.
    destruct H1 as (Hpid1 & Hev1 & _).
    destruct (ok first).
    { unfold ret. split; [done|].
      exists (now w0), 0, [(now w0, EExec (lit "taskkill")
                              [lit "/PID"; numToString target; lit "/T"]
                              (Some 5000)); (now w, EKill target SIG0)].
      split; [right; by left|by rewrite Hev1]. }
    unfold bind at 1.
    pose proof (runTaskkill_outcome
                  ([lit "/PID"; numToString target; lit "/T"] ++ [lit "/F"])
                  w1) as H2.
    destruct (WindowsKiller.runTaskkill _ w1) as [forced w2|e2 w2| |];
      try done.
    destruct H2 as (Hpid2 & Hev2 & _).
    assert (exists t1 t2 calls,
              calls ∈ taskkillCalls target (now w) t1 t2
              /\ events w2 = calls ++ events w) as Hcalls.
    { exists (now w0), (now w1),
        [(now w1, EExec (lit "taskkill")
                    [lit "/PID"; numToString target; lit "/T"; lit "/F"]
                    (Some 5000));
         (now w0, EExec (lit "taskkill")
                    [lit "/PID"; numToString target; lit "/T"] (Some 5000));
         (now w, EKill target SIG0)].
      split; [do 2 right; by left|by rewrite Hev2, Hev1]. }
    cbn [app] in Hpid2. rewrite parsePid_base in Hpid2.
    destruct (ok forced); [done|].
    by destruct (negb _ && _).
  - intros Hp. unfold WindowsKiller.kill. unfold bind at 1.
    rewrite windows_isAlive_spec, posix_isAlive_spec.
    destruct (isRunning w target); cbn [negb]; [|by eexists _, _].
    set (w0 := record (EKill target SIG0) w).
    assert (prompt w0 (lit "taskkill") 5000) as Hp0 by done.
    unfold bind at 1.
    pose proof (runTaskkill_outcome
                  [lit "/PID"; numToString target; lit "/T"] w0) as H1.
    destruct (runTaskkill_prompt
                [lit "/PID"; numToString target; lit "/T"] w0 Hp0)
      as (first & w1 & Hrun1).
    rewrite Hrun1 in H1 |- *. destruct H1 as (_ & _ & Hprog1).
    destruct (ok first); [by eexists _, _|].
    assert (prompt w1 (lit "taskkill") 5000) as Hp1.
    { intros args. rewrite Hprog1. apply Hp0. }
    unfold bind at 1.
    destruct (runTaskkill_prompt
                ([lit "/PID"; numToString target; lit "/T"] ++ [lit "/F"])
                w1 Hp1) as (forced & w2 & ->).
    destruct (ok forced); [by eexists _, _|].
    destruct (negb _ && _); by eexists _, _.
Qed.

Lemma windows_kill_outcome_witness :
  match WindowsKiller.kill 4242 (graceOptions None) (sampleHost obedient) with
  | Returned r w' =>
      kpid r = 4242
      /\ (exists t1 t2 calls,
            calls ∈ taskkillCalls 4242 (now (sampleHost obedient)) t1 t2
            /\ events w' = calls ++ events (sampleHost obedient))
  | Thrown _ _ => False
  | _ => True
  end
  /\ (forall options',
        WindowsKiller.kill 4242 options' (sampleHost obedient)
        = WindowsKiller.kill 4242 (graceOptions None) (sampleHost obedient))
  /\ (prompt (sampleHost obedient) (lit "taskkill") 5000 ->
      exists r w',
        WindowsKiller.kill 4242 (graceOptions None) (sampleHost obedient)
        = Returned r w').
Proof.
  apply (windows_kill_outcome 4242 (graceOptions None) (sampleHost obedient)).
  simpl. lia.
Defined.

(** ** The list the selector shows *)

Section TuiOrder.

Lemma compareItems_before (a b : Listener) :
  Tui.compareItems a b <= 0 <-> itemBefore a b.
Proof.
  unfold Tui.compareItems, itemBefore, Tui.localeCompare, protoRank.
  destruct (protocol a), (protocol b); simpl;
    destruct (Z.eqb_spec (port a - port b) 0); simpl; lia.
Qed.

Lemma itemBefore_total (a b : Listener) : itemBefore a b \/ itemBefore b a.
Proof.
  unfold itemBefore, protoRank.
  destruct (protocol a), (protocol b); lia.
Qed.

Lemma itemBefore_trans (a b c : Listener) :
  itemBefore a b -> itemBefore b c -> itemBefore a c.
Proof.
  unfold itemBefore, protoRank.
  destruct (protocol a), (protocol b), (protocol c); lia.
Qed.

Lemma insertItem_perm (x : Listener) (l : list Listener) :
  Tui.insertItem x l ≡ₚ x :: l.
Proof.
  induction l as [|y l IH]; [done|]. simpl.
  destruct (Tui.compareItems x y <=? 0); [done|].
  rewrite IH. apply Permutation_swap.
Qed.

Lemma sortItems_perm (l : list Listener) : Tui.sortItems l ≡ₚ l.
Proof.
  induction l as [|x l IH]; [done|]. simpl.
  by rewrite insertItem_perm, IH.
Qed.

Lemma insertItem_sorted (x : Listener) (l : list Listener) :
  StronglySorted itemBefore l -> StronglySorted itemBefore (Tui.insertItem x l).
Proof.
  induction l as [|y l IH]; intros Hs.
  - repeat constructor.
  - simpl. apply StronglySorted_inv in Hs as [Hs Hy].
    destruct (Z.leb_spec (Tui.compareItems x y) 0) as [Hle|Hgt].
    + apply compareItems_before in Hle.
      constructor; [by constructor|]. constructor; [done|].
      eapply Forall_impl; [exact Hy|]. intros z Hz. simpl in Hz.
      by apply (itemBefore_trans x y z).
    + assert (itemBefore y x) as Hyx.
      { destruct (itemBefore_total x y) as [Hxy|]; [|done].
        apply compareItems_before in Hxy. lia. }
      constructor; [by apply IH|].
      rewrite insertItem_perm. by constructor.
Qed.

Lemma sortItems_sorted (l : list Listener) :
  StronglySorted itemBefore (Tui.sortItems l).
Proof.
  induction l as [|x l IH]; [constructor|]. simpl. by apply insertItem_sorted.
Qed.

End TuiOrder.

Lemma tui_items_keys (listeners : list Listener) :
  NoDup (listenerKey <$> Tui.prepareItems listeners).
Proof.
  unfold Tui.prepareItems. rewrite sortItems_perm. apply uniqBy_loop_NoDup.
Qed.

(** X17: the list the selector shows holds the records of the deduplicated
    input, each once, ordered by port, then with tcp before udp, then by
    pid; no two of its records share protocol, port, pid and address. *)
Theorem tui_items_ordered (listeners : list Listener) :
  StronglySorted itemBefore (Tui.prepareItems listeners)
  /\ Tui.prepareItems listeners ≡ₚ dedupe listeners
  /\ NoDup (listenerKey <$> Tui.prepareItems listeners).
Proof.
  unfold Tui.prepareItems, dedupe.
  split; [apply sortItems_sorted|]. split; [apply sortItems_perm|].
  apply tui_items_keys.
Qed.

(** ** What the selector resolves with *)

Section TuiResults.
Variable items : list Listener.

Lemma filterSelected_sublist (sel : gset Z) (i : Z) (l : list Listener) :
  sublist (Tui.filterSelected sel i l) l.
Proof.
  revert i. induction l as [|x l IH]; intros i; simpl; [done|].
  destruct (decide (i ∈ sel)); [by apply sublist_skip|by apply sublist_cons].
Qed.

Lemma resolved_done (s : Tui.Session) :
  coherent s -> is_Some (Tui.resolved s) -> Tui.done (Tui.state s) = true.
Proof.
  unfold coherent. intros -> Hs. by apply bool_decide_eq_true_2.
Qed.

Lemma finish_result (r : TuiSelectResult) (s : Tui.Session) :
  Tui.resolved (Tui.finish r s)
  = if Tui.done (Tui.state s) then Tui.resolved s else Some r.
Proof. unfold Tui.finish. by destruct (Tui.done (Tui.state s)). Qed.

(** Once resolved, a session keeps its result. *)
Lemma step_keeps (i : Tui.Input) (s : Tui.Session) :
  Tui.done (Tui.state s) = true ->
  Tui.resolved (Tui.step items i s) = Tui.resolved s
  /\ Tui.done (Tui.state (Tui.step items i s)) = true.
Proof.
  intros Hd. destruct i as [buf| |c r]; simpl.
  - unfold Tui.onData. by rewrite Hd.
  - unfold Tui.onSigInt, Tui.finish. simpl. by rewrite Hd.
  - done.
Qed.

Lemma run_keeps (inputs : list Tui.Input) (s : Tui.Session) :
  Tui.done (Tui.state s) = true ->
  Tui.resolved (Tui.run items inputs s) = Tui.resolved s.
Proof.
  revert s. induction inputs as [|i inputs IH]; intros s Hd; [done|].
  rewrite run_cons. destruct (step_keeps i s Hd) as [Hr Hd'].
  by rewrite IH.
Qed.

Lemma step_result (i : Tui.Input) (s : Tui.Session) :
  (forall r, Tui.resolved s = Some r -> resultFrom items r) ->
  forall r, Tui.resolved (Tui.step items i s) = Some r -> resultFrom items r.
Proof.
  intros Hs r. destruct i as [buf| |c r0]; simpl; [| |apply Hs].
  - unfold Tui.onData.
    repeat case_match; try apply Hs;
      rewrite ?finish_result; simpl;
      repeat case_match; try apply Hs; try (intros [= <-]; try done).
    apply filterSelected_sublist.
  - destruct (Tui.done (Tui.state s)) eqn:Hd; [apply Hs|].
    unfold Tui.onSigInt. rewrite finish_result. simpl. rewrite Hd.
    by intros [= <-].
Qed.

Lemma run_result (inputs : list Tui.Input) (s : Tui.Session) :
  (forall r, Tui.resolved s = Some r -> resultFrom items r) ->
  forall r, Tui.resolved (Tui.run items inputs s) = Some r ->
            resultFrom items r.
Proof.
  revert s. induction inputs as [|i inputs IH]; intros s Hs; [done|].
  rewrite run_cons. apply IH. by apply step_result.
Qed.

Lemma start_coherent (c r : option Z) : coherent (Tui.start c r).
Proof. done. Qed.

End TuiResults.

(** X18: the selector only hands back what it showed: whatever is typed, a
    selection it resolves with is drawn from the list shown, in the order
    shown and without repetition, and a cancellation comes with an empty
    selection. *)
Theorem tui_result_is_shown (listeners : list Listener) (isTTY : bool)
    (columns0 rows0 : option Z) (inputs : list Tui.Input)
    (r : TuiSelectResult) :
  Tui.selectListeners listeners isTTY columns0 rows0 inputs = Some r ->
  resultFrom (Tui.prepareItems listeners) r
  /\ NoDup (listenerKey <$> selected r).
Proof.
  intros Hsel.
  assert (resultFrom (Tui.prepareItems listeners) r) as Hr.
  { unfold Tui.selectListeners in Hsel. destruct isTTY; cbn [negb] in Hsel.
    - eapply run_result; [|exact Hsel]. by intros r0.
    - by injection Hsel as <-. }
  split; [done|]. unfold resultFrom in Hr.
  destruct (cancelled r); [rewrite Hr; constructor|].
  eapply sublist_NoDup; [apply tui_items_keys|].
  by apply fmap_sublist.
Qed.

Lemma tui_result_is_shown_witness :
  resultFrom (Tui.prepareItems sampleListeners)
    {| cancelled := false; selected := [sampleListener 2] |}
  /\ NoDup (listenerKey <$> [sampleListener 2]).
Proof.
  apply (tui_result_is_shown sampleListeners true (Some 80) (Some 24)
           [Tui.Data [32]; Tui.Data [13]]).
  vm_compute. reflexivity.
Defined.

(** X19: the first resolution stands: once the selector has resolved, by
    Enter, Esc, Ctrl-C or an interrupt, nothing that arrives later
    changes the result. *)
Theorem tui_first_resolution_stands (listeners : list Listener) (isTTY : bool)
    (columns0 rows0 : option Z) (inputs more : list Tui.Input)
    (r : TuiSelectResult) :
  Tui.selectListeners listeners isTTY columns0 rows0 inputs = Some r ->
  Tui.selectListeners listeners isTTY columns0 rows0 (inputs ++ more) = Some r.
Proof.
  unfold Tui.selectListeners. destruct isTTY; cbn [negb]; [|done].
  intros Hr. rewrite run_app, run_keeps; [done|].
  apply resolved_done; [|by rewrite Hr].
  apply run_coherent, start_coherent.
Qed.

Lemma tui_first_resolution_stands_witness :
  Tui.selectListeners sampleListeners true (Some 80) (Some 24)
    ([Tui.Data [27]] ++ [Tui.Data [32]; Tui.Data [13]; Tui.SigInt])
  = Some {| cancelled := true; selected := [] |}.
Proof.
  apply (tui_first_resolution_stands sampleListeners true (Some 80) (Some 24)
           [Tui.Data [27]]).
  vm_compute. reflexivity.
Defined.

(** ** The cursor stays in view *)

Section TuiViewport.
Variable items : list Listener.
Hypothesis Hitems : items <> [].

Lemma move_visible (delta : Z) (s : Tui.Session) :
  cursorVisible (Tui.move items delta s).
Proof.
  unfold cursorVisible, Tui.move. simpl.
  pose proof (visibleRows_pos s) as Hrows.
  change (Tui.visibleRows (Tui.withState _ s)) with (Tui.visibleRows s).
  repeat case_match; lia.
Qed.

Lemma finish_visible (r : TuiSelectResult) (s : Tui.Session) :
  cursorVisible s -> cursorVisible (Tui.finish r s).
Proof. unfold Tui.finish. by destruct (Tui.done (Tui.state s)). Qed.

Lemma onData_visible (buf : list Z) (s : Tui.Session) :
  cursorVisible s -> cursorVisible (Tui.onData items buf s).
Proof.
  intros Hs. unfold Tui.onData.
  pose proof (visibleRows_pos s) as Hrows.
  assert (1 <= Z.of_nat (length items)) as Hlen
    by (destruct items; [done|simpl; lia]).
  repeat case_match; try done;
    try (by apply finish_visible);
    try (apply (move_visible _ s)).
  - unfold cursorVisible. simpl.
    change (Tui.visibleRows (Tui.render _)) with (Tui.visibleRows s). lia.
  - unfold cursorVisible. simpl.
    change (Tui.visibleRows (Tui.render _)) with (Tui.visibleRows s). lia.
Qed.

Lemma run_visible (bufs : list (list Z)) (s : Tui.Session) :
  cursorVisible s -> cursorVisible (Tui.run items (Tui.Data <$> bufs) s).
Proof.
  revert s. induction bufs as [|b bufs IH]; intros s Hs; [done|].
  cbn [fmap list_fmap]. rewrite run_cons. apply IH. by apply onData_visible.
Qed.

Lemma start_visible (c r : option Z) : cursorVisible (Tui.start c r).
Proof.
  unfold cursorVisible. simpl.
  pose proof (visibleRows_pos (Tui.start c r)). simpl in *. lia.
Qed.

End TuiViewport.

(** X20: the cursor never leaves the viewport: on a non-empty list, after
    every chunk of input, whatever bytes it holds, the row of the cursor
    is one of the rows shown (top <= index < top + visible rows). *)
Theorem tui_cursor_stays_visible (items : list Listener)
    (columns0 rows0 : option Z) (bufs : list (list Z)) (n : nat) :
  items <> [] ->
  cursorVisible
    (Tui.run items (Tui.Data <$> take n bufs) (Tui.start columns0 rows0)).
Proof. intros Hne. apply run_visible; [done|apply start_visible]. Qed.

Lemma tui_cursor_stays_visible_witness :
  cursorVisible
    (Tui.run sampleListeners
       (Tui.Data <$> take 3 [Tui.KEY_end; Tui.KEY_pageUp; [106]; [120]])
       (Tui.start (Some 80) (Some 5))).
Proof.
  apply (tui_cursor_stays_visible sampleListeners (Some 80) (Some 5)
           [Tui.KEY_end; Tui.KEY_pageUp; [106]; [120]] 3).
  discriminate.
Defined.

(** ** The safety classifier, rule by rule *)

Section ProtectionRules.

Lemma startsWith_app (p t : jsstring) : startsWith p (p ++ t) = true.
Proof. induction p as [|c p IH]; [done|]. simpl. by rewrite Z.eqb_refl. Qed.

Lemma startsWith_split (p s : jsstring) :
  startsWith p s = true -> exists t, s = p ++ t.
Proof.
  revert s. induction p as [|c p IH]; intros s; [by exists s|].
  destruct s as [|d s]; [done|]. simpl.
  intros [->%Z.eqb_eq Hp]%andb_true_iff.
  destruct (IH s Hp) as [t ->]. by exists t.
Qed.

Lemma includes_middle (a p b : jsstring) : includes p (a ++ p ++ b) = true.
Proof.
  induction a as [|c a IH].
  - simpl. destruct (p ++ b) eqn:Hpb; simpl;
      rewrite <- ?Hpb; by rewrite startsWith_app.
  - cbn [app includes]. rewrite IH. apply orb_true_r.
Qed.

Lemma eqs_includes (name n : jsstring) :
  eqs name n = true -> includes n name = true.
Proof.
  unfold eqs. intros ->%bool_decide_eq_true.
  rewrite <- (app_nil_r n) at 2. apply (includes_middle [] n []).
Qed.

Lemma endsWith_includes (c : Z) (n name : jsstring) :
  endsWith (c :: n) name = true -> includes n name = true.
Proof.
  unfold endsWith. intros [t Ht]%startsWith_split.
  apply (f_equal (@rev Z)) in Ht. rewrite rev_involutive in Ht.
  rewrite rev_app_distr, rev_involutive in Ht. subst name.
  cbn [app]. rewrite <- (app_nil_r n) at 2.
  change (rev t ++ c :: n ++ []) with (rev t ++ [c] ++ n ++ []).
  rewrite app_assoc. apply includes_middle.
Qed.

Lemma existsb_same {A} (f g : A -> bool) (l : list A) :
  (forall x, f x = g x) -> existsb f l = existsb g l.
Proof. intros Hfg. induction l as [|x l IH]; simpl; [done|]. by rewrite Hfg, IH. Qed.

Lemma windows_name_rule (name : jsstring) :
  existsb (fun n => eqs name n || endsWith (92 :: n) name || includes n name)
    WINDOWS_PROTECTED_NAMES
  = existsb (fun n => includes n name) WINDOWS_PROTECTED_NAMES.
Proof.
  apply existsb_same. intros n.
  destruct (includes n name) eqn:Hi; [apply orb_true_r|].
  destruct (eqs name n) eqn:He; [by rewrite eqs_includes in Hi|].
  destruct (endsWith (92 :: n) name) eqn:Hw;
    [by rewrite (endsWith_includes _ _ _ Hw) in Hi|done].
Qed.

Lemma posix_name_rule (name : jsstring) :
  existsb (fun n => eqs name n || includes n name) POSIX_PROTECTED_NAMES
  = existsb (fun n => includes n name) POSIX_PROTECTED_NAMES.
Proof.
  apply existsb_same. intros n.
  destruct (includes n name) eqn:Hi; [apply orb_true_r|].
  destruct (eqs name n) eqn:He; [by rewrite eqs_includes in Hi|done].
Qed.

Lemma posix_sshd (name : jsstring) :
  includes (lit "sshd") name = true ->
  existsb (fun n => includes n name) POSIX_PROTECTED_NAMES = true.
Proof.
  intros Hs. apply existsb_exists. exists (lit "sshd").
  split; [|done]. unfold POSIX_PROTECTED_NAMES. simpl. tauto.
Qed.

Lemma protectionFor_rules (p : Platform) (l : Listener) :
  protected (protectionFor p l)
  = protectedPid p (pid l)
    || existsb (fun n => includes n (testedName l)) (protectedNames p)
    || (isWin32 p && (port l =? 22) && includes (lit "sshd") (testedName l)).
Proof.
  unfold protectionFor, protectedPid, protectedNames.
  fold (testedName l).
  destruct (isWin32 p); cbn [negb andb].
  - rewrite windows_name_rule.
    destruct ((pid l =? 0) || (pid l =? 4)); [done|]. cbn [orb].
    destruct (existsb _ WINDOWS_PROTECTED_NAMES); [done|]. cbn [orb].
    by destruct ((port l =? 22) && _).
  - rewrite posix_name_rule, orb_false_r.
    destruct (pid l <=? 1); [done|]. cbn [orb].
    destruct (existsb _ POSIX_PROTECTED_NAMES) eqn:Hn; [done|].
    destruct ((port l =? 22) && _) eqn:Hs; [|done].
    apply andb_true_iff in Hs as [_ Hs].
    by rewrite (posix_sshd _ Hs) in Hn.
Qed.

End ProtectionRules.

(** X21: the safety classifier decides by three tests and nothing else: the
    pid is one the platform protects; or the name tested (process name,
    else command, in lower case) contains one of the platform's protected
    names anywhere in it; or, on Windows, the port is 22 and that name
    contains sshd. The tests for equality and for a path ending in the
    name add nothing to the containment test, and off Windows the sshd
    rule adds nothing either, sshd being a protected name there. A reason
    is given exactly when the record is protected. *)
Theorem protection_rules (p : Platform) (l : Listener) :
  protected (protectionFor p l)
  = protectedPid p (pid l)
    || existsb (fun n => includes n (testedName l)) (protectedNames p)
    || (isWin32 p && (port l =? 22) && includes (lit "sshd") (testedName l))
  /\ (protected (protectionFor p l) = true <-> is_Some (reason (protectionFor p l))).
Proof.
  split; [apply protectionFor_rules|].
  unfold protectionFor. repeat case_match; simpl; split; try done;
    by intros [? ?].
Qed.

(** ** The command line: which processes are touched *)

#[export] Instance addsOnly_preorder (P : Z * Event -> Prop) :
  PreOrder (addsOnly P).
Proof.
  split.
  - intros w. by exists [].
  - intros w1 w2 w3 (a1 & He1 & Ha1) (a2 & He2 & Ha2).
    exists (a2 ++ a1). split; [by rewrite He2, He1, app_assoc|].
    by apply Forall_app.
Qed.

Section AddsOnly.
Variable P : Z * Event -> Prop.

Lemma addsOnly_record (e : Event) (w : World) :
  P (now w, e) -> addsOnly P w (record e w).
Proof. intros He. exists [(now w, e)]. split; [done|]. by constructor. Qed.

Lemma addsOnly_processKill (x : Z) (sig : Signal) :
  (forall t, P (t, EKill x sig)) -> steps (addsOnly P) (processKill x sig).
Proof.
  intros HP w. unfold processKill.
  pose proof (addsOnly_record (EKill x sig) w (HP _)) as Hrec.
  destruct (procs w !! x) as [p|]; [|done].
  destruct (existsAt p (now w)); [|done]. destruct (denies p); [done|].
  exact Hrec.
Qed.

Lemma addsOnly_sleep (ms : Z) :
  (forall t, P (t, ESleep ms)) -> steps (addsOnly P) (sleep ms).
Proof.
  intros HP w. simpl. exists [(now w, ESleep ms)]. split; [done|].
  by constructor.
Qed.

Lemma addsOnly_execFile (cmd : jsstring) (args : list jsstring)
    (t : option Z) :
  (forall t0, P (t0, EExec cmd args t)) ->
  steps (addsOnly P) (execFile cmd args t).
Proof.
  intros HP w. pose proof (execFile_world cmd args t w) as Hw.
  pose proof (addsOnly_record (EExec cmd args t) w (HP _)) as Hrec.
  destruct (execFile cmd args t w) as [r w'|e w'| |]; try done;
    destruct Hw as (Hev & _), Hrec as (added & Hadd & Hall);
    exists added; (split; [by rewrite Hev|done]).
Qed.

Variable x : Z.
Hypothesis Hkill : forall t sig, P (t, EKill x sig).
Hypothesis Hsleep : forall t ms, P (t, ESleep ms).

Lemma addsOnly_probe {A} (sig : Signal) (a : A) (h : JsError -> M A) :
  (forall e, steps (addsOnly P) (h e)) ->
  steps (addsOnly P)
    (tryCatch (bind (processKill x sig) (fun _ => ret a)) h).
Proof.
  intros Hh. apply steps_tryCatch; [apply _| |done].
  apply steps_bind; [apply _|by apply addsOnly_processKill|].
  intros; apply steps_ret; apply _.
Qed.

Lemma addsOnly_waitLoop (fuel : nat) (start timeout : Z) :
  steps (addsOnly P) (PosixKiller.waitLoop fuel x start timeout).
Proof.
  induction fuel as [|n IH]; [by intros w|].
  cbn [PosixKiller.waitLoop].
  apply steps_bind; [apply _|apply steps_dateNow; apply _|]. intros t.
  destruct (t - start <? timeout); [|apply steps_ret; apply _].
  apply steps_bind; [apply _| |].
  - apply addsOnly_probe. intros; apply steps_ret; apply _.
  - intros []; [apply steps_ret; apply _|].
    apply steps_bind; [apply _|by apply addsOnly_sleep|done].
Qed.

Lemma addsOnly_waitForExit (fuel : nat) (timeout : Z) :
  steps (addsOnly P) (PosixKiller.waitForExit fuel x timeout).
Proof.
  apply steps_bind; [apply _|apply steps_dateNow; apply _|].
  intros; apply addsOnly_waitLoop.
Qed.

Lemma addsOnly_killSingle (fuel : nat) (timeout : Z) :
  steps (addsOnly P) (PosixKiller.killSingle fuel x timeout).
Proof.
  unfold PosixKiller.killSingle.
  apply steps_bind; [apply _| |].
  { apply addsOnly_probe. intros; apply steps_ret; apply _. }
  intros [err|].
  { destruct (hasCode err "ESRCH"); apply steps_ret; apply _. }
  apply steps_bind; [apply _| |].
  { destruct (0 <? timeout);
      [apply addsOnly_waitForExit|apply steps_ret; apply _]. }
  intros []; [apply steps_ret; apply _|].
  apply steps_bind; [apply _| |].
  { apply addsOnly_probe. intros; apply steps_ret; apply _. }
  intros [err|].
  { destruct (hasCode err "ESRCH"); apply steps_ret; apply _. }
  apply steps_bind; [apply _|apply addsOnly_waitForExit|].
  intros []; apply steps_ret; apply _.
Qed.

Lemma addsOnly_kill (fuel : nat) (options : KillOptions) :
  tree options <> Some true ->
  steps (addsOnly P) (PosixKiller.kill fuel x options).
Proof.
  intros Htree. unfold PosixKiller.kill.
  apply steps_bind; [apply _| |].
  { unfold PosixKiller.isAlive. apply addsOnly_probe.
    intros e. destruct (hasCode e "ESRCH"); apply steps_ret; apply _. }
  intros alive. destruct (negb alive); [apply steps_ret; apply _|].
  rewrite bool_decide_eq_false_2 by done.
  apply steps_bind; [apply _|apply steps_ret; apply _|].
  intros; apply addsOnly_killSingle.
Qed.

End AddsOnly.

Section PosixResults.
Variable x : Z.

Lemma killSingle_results (fuel : nat) (timeout : Z) (w w' : World)
    (r : KillResult) :
  PosixKiller.killSingle fuel x timeout w = Returned r w' ->
  r ∈ posixResults x.
Proof.
  unfold PosixKiller.killSingle.
  unfold bind at 1, tryCatch at 1, bind at 1.
  destruct (processKill_cases x SIGTERM w)
    as [[Hg ->]|(p & Hr & [[Hd ->]|[Hd ->]])].
  - unfold ret. cbn iota.
    change (hasCode (systemError "ESRCH") "ESRCH") with true.
    intros [= <- <-]. by left.
  - unfold ret. cbn iota.
    change (hasCode (systemError "EPERM") "ESRCH") with false.
    intros [= <- <-]. right. by left.
  - unfold ret at 1 2. cbn iota. unfold bind at 1.
    assert (forall w2,
              bind (tryCatch
                      (bind (processKill x SIGKILL) (fun _ => ret None))
                      (fun err => ret (Some err)))
                   (fun sent2 : option JsError =>
                      match sent2 with
                      | Some err =>
                          if hasCode err "ESRCH"
                          then ret (PosixKiller.result x true "SIGTERM" None None)
                          else ret (PosixKiller.result x false "SIGKILL"
                                      (Some (orElse (errMessage err)
                                               (lit "SIGKILL failed")))
                                      (errCode err))
                      | None =>
                          bind (PosixKiller.waitForExit fuel x 200)
                            (fun gone0 : bool =>
                               if gone0
                               then ret (PosixKiller.result x true "SIGKILL" None None)
                               else ret (PosixKiller.result x false "SIGKILL"
                                           (Some (lit "process still alive")) None))
                      end) w2 = Returned r w' ->
              r ∈ posixResults x) as Hkill.
    { intros w2. unfold bind at 1, tryCatch at 1, bind at 1.
      destruct (processKill_cases x SIGKILL w2)
        as [[Hg ->]|(p2 & Hr2 & [[Hd2 ->]|[Hd2 ->]])].
      - unfold ret. cbn iota.
        change (hasCode (systemError "ESRCH") "ESRCH") with true.
        intros [= <- <-]. do 2 right. by left.
      - unfold ret. cbn iota.
        change (hasCode (systemError "EPERM") "ESRCH") with false.
        intros [= <- <-]. do 3 right. by left.
      - unfold ret at 1 2. cbn iota. unfold bind at 1.
        destruct (PosixKiller.waitForExit fuel x 200 _)
          as [[] w3|e w3| |]; try done; unfold ret; intros [= <- <-].
        + do 4 right. by left.
        + do 5 right. by left. }
    destruct (0 <? timeout).
    + destruct (PosixKiller.waitForExit fuel x timeout _)
        as [[] w2|e w2| |]; try done.
      * unfold ret. intros [= <- <-]. do 2 right. by left.
      * apply Hkill.
    + unfold ret at 1. apply Hkill.
Qed.

Lemma posix_kill_results (fuel : nat) (options : KillOptions) (w w' : World)
    (r : KillResult) :
  PosixKiller.kill fuel x options w = Returned r w' -> r ∈ posixResults x.
Proof.
  unfold PosixKiller.kill. unfold bind at 1. rewrite posix_isAlive_spec.
  destruct (isRunning w x); cbn [negb].
  - unfold bind at 1.
    case_bool_decide;
      [destruct (tryCatch _ _ _) as [[] w1|e w1| |]; try done
      |unfold ret at 1];
      apply killSingle_results.
  - unfold ret. intros [= <- <-]. by left.
Qed.

End PosixResults.

Section KillResolved.
Variables (p : Platform) (fuel : nat) (force0 dryRun : bool) (timeoutMs0 : Z).

Local Abbreviation killLoop := (Cli.killLoop p fuel force0 dryRun timeoutMs0).
Local Abbreviation reportLoop := (Cli.reportLoop p force0).

(** A dry run asks nothing of the killer. *)
Lemma killLoop_dry (unique : list Listener) (m : gmap Z Cli.PerPidResult)
    (w : World) :
  exists m', Cli.killLoop p fuel force0 true timeoutMs0 unique m w
             = Returned m' w
    /\ (force0 = true ->
        (forall y r, m !! y = Some r -> Cli.pp_ok r = true) ->
        forall y r, m' !! y = Some r -> Cli.pp_ok r = true).
Proof.
  revert m. induction unique as [|l rest IH]; intros m.
  - exists m. by split.
  - cbn [Cli.killLoop].
    destruct (protected (protectionFor p l) && negb force0) eqn:Hprot.
    + match goal with
      | |- context [Cli.killLoop _ _ _ _ _ rest ?m1] =>
          destruct (IH m1) as (m' & -> & Hm')
      end.
      exists m'.
      split; [done|]. intros Hf. rewrite Hf, andb_false_r in Hprot. done.
    + match goal with
      | |- context [Cli.killLoop _ _ _ _ _ rest ?m1] =>
          destruct (IH m1) as (m' & -> & Hm')
      end.
      exists m'.
      split; [done|]. intros Hf Hm. apply Hm'; [done|].
      intros y r. destruct (decide (y = pid l)) as [->|Hne].
      * rewrite lookup_insert_eq. by intros [= <-].
      * rewrite lookup_insert_ne by done. apply Hm.
Qed.

(** Off Windows the report only writes. *)
Lemma reportLoop_posix (perPid : gmap Z Cli.PerPidResult)
    (actionable : list Listener) (c : Cli.Console) (w : World) :
  isWin32 p = false ->
  exists c', reportLoop perPid actionable c w = Returned c' w.
Proof.
  intros Hp. revert c. induction actionable as [|l rest IH]; intros c.
  - by exists c.
  - cbn [Cli.reportLoop]. destruct (perPid !! pid l) as [r|]; [|apply IH].
    destruct (Cli.pp_ok r); [apply IH|].
    unfold bind at 1. unfold Cli.hintElevationForListener. rewrite Hp.
    case_bool_decide; [|unfold ret at 1; apply IH].
    unfold bind at 1, ret at 1.
    destruct (negb force0 && _); unfold ret at 1; apply IH.
Qed.

(** When every outcome is a success the report only writes, and leaves
    the exit code alone. *)
Lemma reportLoop_ok (perPid : gmap Z Cli.PerPidResult)
    (actionable : list Listener) (c : Cli.Console) (w : World) :
  (forall y r, perPid !! y = Some r -> Cli.pp_ok r = true) ->
  exists c', reportLoop perPid actionable c w = Returned c' w
             /\ Cli.exitCode c' = Cli.exitCode c.
Proof.
  intros Hok. revert c. induction actionable as [|l rest IH]; intros c.
  - by exists c.
  - cbn [Cli.reportLoop]. destruct (perPid !! pid l) as [r|] eqn:Hr;
      [|apply IH].
    rewrite (Hok _ _ Hr).
    match goal with
    | |- context [Cli.reportLoop _ _ _ rest ?c1] =>
        destruct (IH c1) as (c' & -> & Hc')
    end.
    by exists c'.
Qed.

End KillResolved.

Lemma dry_run_inert_posix (p : Platform) (fuel : nat)
    (listeners : list Listener) (allowed : list Protocol) (force0 : bool)
    (timeoutMs0 : Z) (c : Cli.Console) (w : World) :
  isWin32 p = false ->
  exists c',
    Cli.killResolvedListeners p fuel listeners allowed force0 true
      timeoutMs0 c w = Returned c' w.
Proof.
  intros Hp. unfold Cli.killResolvedListeners.
  case_bool_decide; [by eexists|].
  unfold bind.
  destruct (killLoop_dry p fuel force0 timeoutMs0
              (uniqBy Cli.pidKey
                 (filter (fun l => protocol l ∈ allowed) listeners))
              ∅ w) as (m' & -> & _).
  apply reportLoop_posix. done.
Qed.

(** X22: a dry run touches nothing: off Windows, or with [--force] on any
    platform, [killResolvedListeners] run with [dryRun] returns with the
    host exactly as it was, no signal sent, no command spawned, the clock
    not moved; with [--force] the exit code is left as it was, too. *)
Theorem dry_run_is_inert (p : Platform) (fuel : nat)
    (listeners : list Listener) (allowed : list Protocol) (force0 : bool)
    (timeoutMs0 : Z) (c : Cli.Console) (w : World) :
  isWin32 p = false \/ force0 = true ->
  exists c',
    Cli.killResolvedListeners p fuel listeners allowed force0 true
      timeoutMs0 c w = Returned c' w
    /\ (force0 = true -> Cli.exitCode c' = Cli.exitCode c).
Proof.
  intros Hcase. unfold Cli.killResolvedListeners.
  case_bool_decide; [by eexists|].
  unfold bind.
  destruct (killLoop_dry p fuel force0 timeoutMs0
              (uniqBy Cli.pidKey
                 (filter (fun l => protocol l ∈ allowed) listeners))
              ∅ w) as (m' & -> & Hm').
  destruct (decide (force0 = true)) as [Hf|Hf].
  - destruct (reportLoop_ok p force0 m'
                (filter (fun l => protocol l ∈ allowed) listeners) c w)
      as (c' & -> & Hc').
    { apply Hm'; [done|]. intros y r. by rewrite lookup_empty. }
    by exists c'.
  - destruct Hcase as [Hp|]; [|done].
    destruct (reportLoop_posix p force0 m'
                (filter (fun l => protocol l ∈ allowed) listeners) c w Hp)
      as (c' & ->).
    by exists c'.
Qed.

Lemma dry_run_is_inert_witness :
  exists c',
    Cli.killResolvedListeners win32 8 [initListener; sampleListener 4242]
      [tcp; udp] true true 1200 emptyConsole (sampleHost obedient)
    = Returned c' (sampleHost obedient)
    /\ (true = true -> Cli.exitCode c' = Cli.exitCode emptyConsole).
Proof.
  apply (dry_run_is_inert win32 8 [initListener; sampleListener 4242]
           [tcp; udp] true 1200 emptyConsole (sampleHost obedient)).
  right. reflexivity.
Defined.

Section SignalsListed.
Variables (p : Platform) (fuel : nat) (force0 dryRun : bool) (timeoutMs0 : Z).
Hypothesis Hposix : isWin32 p = false.

Lemma signalsWithin_mono (pids pids' : list Z) (w w' : World) :
  pids ⊆ pids' -> signalsWithin pids w w' -> signalsWithin pids' w w'.
Proof.
  intros Hsub (added & He & Hall). exists added. split; [done|].
  eapply Forall_impl; [exact Hall|]. intros [t e]. unfold signalWithin.
  simpl. destruct e; try done. apply Hsub.
Qed.

Lemma killable_cons (l : Listener) (rest : list Listener) :
  killablePids p force0 rest ⊆ killablePids p force0 (l :: rest).
Proof.
  unfold killablePids. rewrite filter_cons.
  destruct (decide _); [|done]. intros y Hy. by right.
Qed.

Lemma killLoop_signals (unique : list Listener)
    (m : gmap Z Cli.PerPidResult) (pids : list Z) :
  killablePids p force0 unique ⊆ pids ->
  steps (signalsWithin pids)
    (Cli.killLoop p fuel force0 dryRun timeoutMs0 unique m).
Proof.
  revert m. induction unique as [|l rest IH]; intros m Hsub.
  - apply steps_ret; apply _.
  - assert (killablePids p force0 rest ⊆ pids) as Hrest.
    { etransitivity; [apply killable_cons|done]. }
    cbn [Cli.killLoop].
    destruct (protected (protectionFor p l) && negb force0) eqn:Hprot;
      [by apply IH|].
    destruct dryRun; [by apply IH|].
    apply steps_bind; [apply _| |intros; by apply IH].
    unfold getKiller. rewrite Hposix.
    apply addsOnly_kill; [| |done].
    + intros t sig. unfold signalWithin. simpl. apply Hsub.
      unfold killablePids. rewrite filter_cons.
      destruct (decide _) as [|Hno]; [by left|].
      exfalso. apply Hno.
      destruct (protected (protectionFor p l)); [|by left].
      destruct force0; [by right|done].
    + done.
Qed.

Lemma reportLoop_signals (perPid : gmap Z Cli.PerPidResult)
    (actionable : list Listener) (c : Cli.Console) (pids : list Z) :
  steps (signalsWithin pids) (Cli.reportLoop p force0 perPid actionable c).
Proof.
  intros w.
  destruct (reportLoop_posix p force0 perPid actionable c w Hposix)
    as (c' & ->).
  reflexivity.
Qed.

Lemma killable_unique (actionable : list Listener) :
  killablePids p force0 (uniqBy Cli.pidKey actionable)
  ⊆ killablePids p force0 actionable.
Proof.
  unfold killablePids. intros y (l & -> & Hl)%list_elem_of_fmap.
  apply list_elem_of_filter in Hl as [Hok Hl].
  apply list_elem_of_fmap. exists l. split; [done|].
  apply list_elem_of_filter. split; [done|]. by eapply uniqBy_sublist.
Qed.

Lemma killResolved_signals (listeners : list Listener)
    (allowed : list Protocol) (c : Cli.Console) :
  steps (signalsWithin (killablePids p force0 (actionableOf allowed listeners)))
    (Cli.killResolvedListeners p fuel listeners allowed force0 dryRun
       timeoutMs0 c).
Proof.
  unfold Cli.killResolvedListeners. fold (actionableOf allowed listeners).
  case_bool_decide; [apply steps_ret; apply _|].
  apply steps_bind; [apply _| |intros; apply reportLoop_signals].
  apply killLoop_signals, killable_unique.
Qed.

End SignalsListed.

(** X23: off Windows, [killResolvedListeners] only ever signals the pids of
    listeners it was given: every [process.kill] it makes, whether it
    returns or throws, goes to the pid of a listener of the list whose
    protocol is allowed and that is not protected, unless [--force] is
    set; it spawns no command; and in a dry run it makes no call at
    all. *)
Theorem signals_only_listed (p : Platform) (fuel : nat)
    (listeners : list Listener) (allowed : list Protocol)
    (force0 dryRun : bool) (timeoutMs0 : Z) (c : Cli.Console) (w : World) :
  isWin32 p = false ->
  match Cli.killResolvedListeners p fuel listeners allowed force0 dryRun
          timeoutMs0 c w with
  | Returned _ w' | Thrown _ w' =>
      exists added,
        events w' = added ++ events w
        /\ (dryRun = true -> added = [])
        /\ forall t e, (t, e) ∈ added ->
             match e with
             | EKill x _ =>
                 exists l, l ∈ listeners /\ pid l = x
                           /\ protocol l ∈ allowed
                           /\ (protected (protectionFor p l) = false
                               \/ force0 = true)
             | ESleep _ => True
             | EExec _ _ _ => False
             end
  | _ => True
  end.
Proof.
  intros Hp.
  pose proof (killResolved_signals p fuel force0 dryRun timeoutMs0 Hp
                listeners allowed c w) as Hs.
  pose proof (dry_run_inert_posix p fuel listeners allowed force0 timeoutMs0
                c w Hp) as Hdry.
  destruct (Cli.killResolvedListeners p fuel listeners allowed force0 dryRun
              timeoutMs0 c w) as [c' w'|e w'| |] eqn:Hrun; try done;
    destruct Hs as (added & He & Hall); exists added;
    (split; [done|]); (split;
      [intros ->; destruct Hdry as (c0 & Hc0); rewrite Hc0 in Hrun;
       injection Hrun as <- <- || discriminate Hrun;
       apply (app_inv_tail (events w) added []); by rewrite <- He
      |]);
    intros t ev Hin; rewrite Forall_forall in Hall;
    specialize (Hall _ Hin); unfold signalWithin in Hall; simpl in Hall;
    destruct ev; try done;
    unfold killablePids, actionableOf in Hall;
    apply list_elem_of_fmap in Hall as (l & -> & Hl);
    apply list_elem_of_filter in Hl as [Hok Hl];
    apply list_elem_of_filter in Hl as [Hproto Hl];
    by exists l.
Qed.

Lemma signals_only_listed_witness :
  match Cli.killResolvedListeners linux 8 [initListener; sampleListener 4242]
          [tcp] false false 100 emptyConsole (sampleHost obedient) with
  | Returned _ w' =>
      exists added,
        events w' = added ++ events (sampleHost obedient)
        /\ (1000, EKill 4242 SIGTERM) ∈ added
        /\ forall t e, (t, e) ∈ added ->
             match e with
             | EKill x _ => x = 4242
             | ESleep _ => True
             | EExec _ _ _ => False
             end
  | _ => False
  end.
Proof.
  pose proof (signals_only_listed linux 8 [initListener; sampleListener 4242]
                [tcp] false false 100 emptyConsole (sampleHost obedient)
                eq_refl) as Hs.
  destruct (Cli.killResolvedListeners linux 8 _ _ _ _ _ _ _)
    as [c' w'| | |] eqn:Hrun; try (vm_compute in Hrun; discriminate).
  destruct Hs as (added & He & _ & Hall). exists added.
  split; [done|]. split.
  - vm_compute in Hrun. injection Hrun as _ <-. simpl in He.
    rewrite app_nil_r in He. subst added. right. by left.
  - intros t e Hin. specialize (Hall t e Hin). destruct e; try done.
    destruct Hall as (l & Hl & <- & _ & [Hprot|?]); [|done].
    apply elem_of_cons in Hl as [->|Hl]; [by vm_compute in Hprot|].
    apply list_elem_of_singleton in Hl as ->. done.
Defined.

Section Report.
Variables (p : Platform) (force0 : bool) (perPid : gmap Z Cli.PerPidResult).

Lemma hintElevation_returns (l : Listener) (c c' : Cli.Console) (w w' : World) :
  Cli.hintElevationForListener p l c w = Returned c' w' ->
  exists h, c' = Cli.write Cli.Stderr h c
            /\ h <> Cli.HintForce /\ hintLine (Cli.Stderr, h).
Proof.
  unfold Cli.hintElevationForListener. destruct (isWin32 p).
  - unfold bind. destruct (isWindowsAdmin p w) as [b w1|e w1| |]; try done.
    unfold ret. intros [= <- <-]. by exists (Cli.HintAdmin b).
  - unfold ret. intros [= <- <-]. by exists (Cli.HintSudo (port l)).
Qed.

(** What the report adds for the listeners it is given. *)
Lemma reportLoop_lines (actionable : list Listener) (c c' : Cli.Console)
    (w w' : World) :
  Cli.reportLoop p force0 perPid actionable c w = Returned c' w' ->
  (forall l, l ∈ actionable -> is_Some (perPid !! pid l)) ->
  exists added,
    Cli.written c' = Cli.written c ++ added
    /\ omap resultLine added = actionable
    /\ Cli.exitCode c'
       = (if existsb failedLine added then Some 1 else Cli.exitCode c)
    /\ Forall (lineAgrees perPid) added
    /\ (map_Forall (fun _ r => plainOutcome r) perPid ->
        forall s, (s, Cli.HintForce) ∉ added).
Proof.
  revert c w. induction actionable as [|l rest IH]; intros c w Hrun Hall.
  - injection Hrun as <- <-. exists []. rewrite app_nil_r.
    repeat split; try done. intros _ s Hs. by apply elem_of_nil in Hs.
  - cbn [Cli.reportLoop] in Hrun.
    assert (forall l', l' ∈ rest -> is_Some (perPid !! pid l')) as Hrest.
    { intros l' Hl'. apply Hall. by right. }
    destruct (Hall l) as [r Hr]; [by left|]. rewrite Hr in Hrun.
    destruct (Cli.pp_ok r) eqn:Hok.
    + destruct (IH _ _ Hrun Hrest) as (added & Hw & Hlines & Hexit & Hag & Hno).
      exists ((Cli.Stdout, Cli.Killed l (Cli.orText (Cli.pp_method r) []))
                :: added).
      split; [rewrite Hw; simpl; by rewrite <- app_assoc|].
      split; [by rewrite <- Hlines|].
      split; [done|].
      split; [constructor; [by exists r|done]|].
      intros Hplain s [[=]|Hs]%elem_of_cons. by apply (Hno Hplain s).
    + unfold bind at 1 in Hrun.
      set (c1 := Cli.write Cli.Stderr
                   (Cli.Failed l (Cli.orText (Cli.pp_message r) (lit "failed")))
                   c) in Hrun.
      assert (exists hints c2 w2,
                Cli.reportLoop p force0 perPid rest (Cli.setExitCode 1 c2) w2
                = Returned c' w'
                /\ Cli.written c2 = Cli.written c1 ++ hints
                /\ Forall hintLine hints
                /\ (plainOutcome r -> forall s, (s, Cli.HintForce) ∉ hints))
        as (hints & c2 & w2 & Hrun2 & Hw2 & Hhints & Hnof).
      { case_bool_decide as Hperm.
        - unfold bind at 1 in Hrun.
          destruct (Cli.hintElevationForListener p l c1 w)
            as [ch w1|e w1| |] eqn:Hhint; try done.
          apply hintElevation_returns in Hhint as (h & -> & Hnf & Hh).
          destruct (negb force0 && _) eqn:Hforce.
          + unfold ret at 1 in Hrun.
            eexists [(Cli.Stderr, h); (Cli.Stderr, Cli.HintForce)], _, w1.
            split; [exact Hrun|]. split; [simpl; by rewrite <- app_assoc|].
            split; [by repeat constructor|].
            intros Hplain. apply andb_true_iff in Hforce as [_ Hm].
            by apply bool_decide_eq_true in Hm.
          + unfold ret at 1 in Hrun. eexists [(Cli.Stderr, h)], _, w1.
            split; [exact Hrun|]. split; [done|].
            split; [by repeat constructor|].
            intros _ s [[=]|Hs]%elem_of_cons; [done|].
            by apply elem_of_nil in Hs.
        - unfold ret at 1 in Hrun. exists [], c1, w. split; [exact Hrun|].
          split; [by rewrite app_nil_r|]. split; [done|].
          intros _ s Hs. by apply elem_of_nil in Hs. }
      destruct (IH _ _ Hrun2 Hrest) as (added & Hw & Hlines & Hexit & Hag & Hno).
      exists ((Cli.Stderr,
                Cli.Failed l (Cli.orText (Cli.pp_message r) (lit "failed")))
                :: hints ++ added).
      assert (omap resultLine hints = []) as Hnone.
      { clear -Hhints. induction Hhints as [|[s x] hs Hx _ IHh]; [done|].
        simpl. destruct x; try done. }
      assert (Forall (lineAgrees perPid) hints) as Hagh.
      { eapply Forall_impl; [exact Hhints|]. intros [s x].
        unfold hintLine, lineAgrees, lineOutcome. simpl. by destruct x. }
      split.
      { rewrite Hw. simpl. rewrite Hw2. unfold c1. simpl.
        by rewrite <- !app_assoc. }
      split.
      { transitivity (l :: omap resultLine (hints ++ added)); [done|].
        by rewrite omap_app, Hnone, Hlines. }
      split.
      { rewrite Hexit. simpl. by destruct (existsb failedLine added). }
      split.
      { constructor; [by exists r|]. by apply Forall_app. }
      intros Hplain s [[=]|[Hs|Hs]%elem_of_app]%elem_of_cons.
      * by apply (Hnof (Hplain _ _ Hr) s).
      * by apply (Hno Hplain s).
Qed.

End Report.

Section Outcomes.
Variables (p : Platform) (fuel : nat) (force0 dryRun : bool) (timeoutMs0 : Z).

(** Every listener the first loop went through has an outcome. *)
Lemma killLoop_covers (unique : list Listener) (m m' : gmap Z Cli.PerPidResult)
    (w w' : World) :
  Cli.killLoop p fuel force0 dryRun timeoutMs0 unique m w = Returned m' w' ->
  forall y, is_Some (m !! y) \/ y ∈ pid <$> unique -> is_Some (m' !! y).
Proof.
  revert m w. induction unique as [|l rest IH]; intros m w Hrun y Hy.
  - injection Hrun as <- <-. destruct Hy as [Hy|Hy]; [done|].
    by apply elem_of_nil in Hy.
  - cbn [Cli.killLoop] in Hrun.
    assert (forall v, is_Some (<[pid l := v]> m !! y) \/ y ∈ pid <$> rest)
      as Hnext.
    { intros v. destruct (decide (y = pid l)) as [->|Hne].
      - left. by rewrite lookup_insert_eq.
      - rewrite lookup_insert_ne by done.
        destruct Hy as [Hy|Hy]; [by left|right].
        rewrite fmap_cons in Hy. apply elem_of_cons in Hy as [?|?]; done. }
    destruct (protected (protectionFor p l) && negb force0);
      [by eapply IH|].
    destruct dryRun; [by eapply IH|].
    unfold bind at 1 in Hrun.
    destruct (getKiller p fuel (pid l) _ w) as [r w1|e w1| |]; try done.
    by eapply IH.
Qed.

Lemma protection_reason (l : Listener) :
  protected (protectionFor p l) = true ->
  orElse (reason (protectionFor p l)) (lit "protected") <> lit "protected".
Proof.
  unfold protectionFor. repeat case_match; simpl; try done;
    intros _; vm_compute; discriminate.
Qed.

Lemma posixResults_plain (x : Z) (r : KillResult) :
  r ∈ posixResults x -> message r <> Some (lit "protected").
Proof.
  unfold posixResults. intros Hr.
  repeat (apply elem_of_cons in Hr as [->|Hr]; [vm_compute; discriminate|]).
  by apply elem_of_nil in Hr.
Qed.

(** Off Windows no outcome carries the bare word [protected]. *)
Lemma killLoop_plain (unique : list Listener) (m m' : gmap Z Cli.PerPidResult)
    (w w' : World) :
  isWin32 p = false ->
  Cli.killLoop p fuel force0 dryRun timeoutMs0 unique m w = Returned m' w' ->
  map_Forall (fun _ r => plainOutcome r) m ->
  map_Forall (fun _ r => plainOutcome r) m'.
Proof.
  intros Hp. revert m w. induction unique as [|l rest IH]; intros m w Hrun Hm.
  - by injection Hrun as <- <-.
  - cbn [Cli.killLoop] in Hrun.
    destruct (protected (protectionFor p l) && negb force0) eqn:Hprot.
    { eapply IH; [exact Hrun|]. apply map_Forall_insert_2; [|done].
      unfold plainOutcome. simpl. intros [= Heq].
      apply andb_true_iff in Hprot as [Hprot _].
      by apply (protection_reason l Hprot). }
    destruct dryRun.
    { eapply IH; [exact Hrun|]. by apply map_Forall_insert_2. }
    unfold bind at 1 in Hrun.
    destruct (getKiller p fuel (pid l) _ w) as [r w1|e w1| |] eqn:Hkill;
      try done.
    eapply IH; [exact Hrun|]. apply map_Forall_insert_2; [|done].
    unfold plainOutcome. simpl.
    unfold getKiller in Hkill. rewrite Hp in Hkill.
    apply posix_kill_results in Hkill. by apply posixResults_plain in Hkill.
Qed.

Lemma pidKey_inj (l l' : Listener) :
  Cli.pidKey l = Cli.pidKey l' -> pid l = pid l'.
Proof.
  unfold Cli.pidKey. intros Heq.
  assert (Some (pid l) = Some (pid l')) as [= ->]; [|done].
  by rewrite <- !parseInt_numToString, Heq.
Qed.

Lemma unique_pids (actionable : list Listener) (l : Listener) :
  l ∈ actionable -> pid l ∈ pid <$> uniqBy Cli.pidKey actionable.
Proof.
  intros Hl.
  assert (Cli.pidKey l
          ∈ (list_to_set (Cli.pidKey <$> uniqBy Cli.pidKey actionable)
             : gset jsstring)) as Hk.
  { rewrite uniqBy_same_keys. set_solver. }
  apply elem_of_list_to_set, list_elem_of_fmap in Hk as (l' & Heq & Hl').
  apply pidKey_inj in Heq. rewrite Heq. by apply list_elem_of_fmap_2.
Qed.

Lemma killResolved_report (listeners : list Listener)
    (allowed : list Protocol) (c c' : Cli.Console) (w w' : World) :
  Cli.killResolvedListeners p fuel listeners allowed force0 dryRun
    timeoutMs0 c w = Returned c' w' ->
  exists added,
    Cli.written c' = Cli.written c ++ added
    /\ (actionableOf allowed listeners = [] ->
        added = [(Cli.Stdout, Cli.NoActionable)])
    /\ omap resultLine added = actionableOf allowed listeners
    /\ Cli.exitCode c'
       = (if existsb failedLine added then Some 1 else Cli.exitCode c)
    /\ (forall sw sw' y b b',
          sw ∈ added -> sw' ∈ added ->
          lineOutcome sw = Some (y, b) -> lineOutcome sw' = Some (y, b') ->
          b = b')
    /\ (isWin32 p = false -> forall s, (s, Cli.HintForce) ∉ added).
Proof.
  unfold Cli.killResolvedListeners. fold (actionableOf allowed listeners).
  case_bool_decide as Hempty.
  - unfold ret. intros [= <- <-]. exists [(Cli.Stdout, Cli.NoActionable)].
    rewrite Hempty. repeat split; try done.
    + intros sw sw' y b b' Hsw _ Hout.
      apply list_elem_of_singleton in Hsw as ->. done.
    + intros _ s Hs. apply list_elem_of_singleton in Hs. done.
  - unfold bind at 1.
    destruct (Cli.killLoop _ _ _ _ _ _ _ w) as [m w1|e w1| |] eqn:Hkill;
      try done.
    intros Hrep.
    apply reportLoop_lines in Hrep
      as (added & Hw & Hlines & Hexit & Hag & Hno).
    + exists added. split; [done|]. split; [done|]. split; [done|].
      split; [done|]. split.
      * intros sw sw' y b b' Hsw Hsw' Hout Hout'.
        rewrite Forall_forall in Hag.
        pose proof (Hag _ Hsw) as H1. pose proof (Hag _ Hsw') as H2.
        unfold lineAgrees in H1, H2. rewrite Hout in H1. rewrite Hout' in H2.
        destruct H1 as (r1 & Hr1 & <-), H2 as (r2 & Hr2 & <-).
        rewrite Hr1 in Hr2. by injection Hr2 as <-.
      * intros Hp. apply Hno.
        eapply killLoop_plain; [done|exact Hkill|]. apply map_Forall_empty.
    + intros l Hl. eapply killLoop_covers; [exact Hkill|].
      right. by apply unique_pids.
Qed.

End Outcomes.

(** X24: when [killResolvedListeners] returns, the result lines among what it
    wrote are exactly one per listener whose protocol is allowed, in the
    order of the list (when there is none, the single notice that there
    is nothing to act on is all it wrote); the exit code is set to 1
    exactly when one of the lines reports a failure and is left alone
    otherwise; and two lines for the same pid report the same outcome,
    the pid being killed once. *)
Theorem report_line_per_listener (p : Platform) (fuel : nat)
    (listeners : list Listener) (allowed : list Protocol)
    (force0 dryRun : bool) (timeoutMs0 : Z) (c c' : Cli.Console)
    (w w' : World) :
  Cli.killResolvedListeners p fuel listeners allowed force0 dryRun
    timeoutMs0 c w = Returned c' w' ->
  exists added,
    Cli.written c' = Cli.written c ++ added
    /\ (actionableOf allowed listeners = [] ->
        added = [(Cli.Stdout, Cli.NoActionable)])
    /\ omap resultLine added = actionableOf allowed listeners
    /\ Cli.exitCode c'
       = (if existsb failedLine added then Some 1 else Cli.exitCode c)
    /\ (forall sw sw' y b b',
          sw ∈ added -> sw' ∈ added ->
          lineOutcome sw = Some (y, b) -> lineOutcome sw' = Some (y, b') ->
          b = b').
Proof.
  intros Hrun.
  destruct (killResolved_report p fuel force0 dryRun timeoutMs0 listeners
              allowed c c' w w' Hrun)
    as (added & Hw & Hnone & Hlines & Hexit & Hsame & _).
  by exists added.
Qed.

Lemma report_line_per_listener_witness :
  exists c' w',
    Cli.killResolvedListeners linux 8
      [initListener; sampleListener 4242; sampleListener 4242] [tcp; udp]
      false false 100 emptyConsole (sampleHost obedient)
    = Returned c' w'
    /\ exists added,
         Cli.written c' = Cli.written emptyConsole ++ added
         /\ (actionableOf [tcp; udp]
               [initListener; sampleListener 4242; sampleListener 4242] = [] ->
             added = [(Cli.Stdout, Cli.NoActionable)])
         /\ omap resultLine added
            = actionableOf [tcp; udp]
                [initListener; sampleListener 4242; sampleListener 4242]
         /\ Cli.exitCode c'
            = (if existsb failedLine added then Some 1
               else Cli.exitCode emptyConsole)
         /\ (forall sw sw' y b b',
               sw ∈ added -> sw' ∈ added ->
               lineOutcome sw = Some (y, b) ->
               lineOutcome sw' = Some (y, b') ->
               b = b').
Proof.
  eexists _, _. split; [vm_compute; reflexivity|].
  eapply (report_line_per_listener linux 8
           [initListener; sampleListener 4242; sampleListener 4242]
           [tcp; udp] false false 100 emptyConsole _
           (sampleHost obedient) _).
  vm_compute. reflexivity.
Defined.

(** X25: off Windows the advice to re-run with [--force] is never written,
    not even for a listener that kkp itself refused as protected: the
    message kept for a refusal is the reason of the protection, never the
    bare word the test compares it with, and no result of the POSIX
    killer carries that word either. *)
Theorem force_hint_never_off_windows (p : Platform) (fuel : nat)
    (listeners : list Listener) (allowed : list Protocol)
    (force0 dryRun : bool) (timeoutMs0 : Z) (c c' : Cli.Console)
    (w w' : World) (s : Cli.Stream) :
  isWin32 p = false ->
  Cli.killResolvedListeners p fuel listeners allowed force0 dryRun
    timeoutMs0 c w = Returned c' w' ->
  (s, Cli.HintForce) ∈ Cli.written c' -> (s, Cli.HintForce) ∈ Cli.written c.
Proof.
  intros Hp Hrun.
  destruct (killResolved_report p fuel force0 dryRun timeoutMs0 listeners
              allowed c c' w w' Hrun)
    as (added & -> & _ & _ & _ & _ & Hno).
  intros [Hs|Hs]%elem_of_app; [done|]. by apply Hno in Hs.
Qed.

Lemma force_hint_never_off_windows_witness :
  exists c' w',
    Cli.killResolvedListeners linux 8 [initListener] [tcp; udp]
      false false 100 emptyConsole (sampleHost obedient)
    = Returned c' w'
    /\ Cli.exitCode c' = Some 1
    /\ (Cli.Stderr, Cli.HintSudo 22) ∈ Cli.written c'
    /\ ((Cli.Stderr, Cli.HintForce) ∈ Cli.written c' ->
        (Cli.Stderr, Cli.HintForce) ∈ Cli.written emptyConsole).
Proof.
  eexists _, _. split; [vm_compute; reflexivity|].
  split; [reflexivity|]. split; [right; left|].
  eapply (force_hint_never_off_windows linux 8 [initListener] [tcp; udp]
           false false 100 emptyConsole _ (sampleHost obedient) _ Cli.Stderr).
  - reflexivity.
  - vm_compute. reflexivity.
Defined.

(** ** Targets named on the command line *)

Section TargetNames.

Lemma includes_refl (s : jsstring) : includes s s = true.
Proof.
  assert (forall s, startsWith s s = true) as Hs.
  { clear. induction s as [|a s IH]; [done|]. simpl.
    by rewrite Z.eqb_refl, IH. }
  destruct s; simpl; by rewrite ?Z.eqb_refl, ?Hs.
Qed.

Lemma nameMatches_includes (name0 : jsstring) (l : Listener) :
  Cli.nameMatches name0 l
  = match processName l with
    | None | Some [] => false
    | Some n => includes name0 (Cli.stripExe (toLowerCase n))
    end.
Proof.
  unfold Cli.nameMatches. destruct (processName l) as [[|a n]|]; try done.
  unfold eqs. case_bool_decide as Heq; [|done].
  rewrite Heq. by rewrite includes_refl.
Qed.

Lemma startsWithCI_length (q s : jsstring) :
  startsWithCI q s = true -> (length q <= length s)%nat.
Proof.
  revert s. induction q as [|a q IH]; intros [|b s]; simpl; try done;
    try lia.
  intros [_ H]%andb_true_iff. apply IH in H. lia.
Qed.

Lemma stripExe_letter (c : Z) (rest : jsstring) :
  Args.isLetter c = true -> Cli.stripExe (c :: rest) <> [].
Proof.
  intros Hc. unfold Cli.stripExe.
  destruct (startsWithCI _ _) eqn:Hm; [|done].
  pose proof (startsWithCI_length _ _ Hm) as Hlen.
  rewrite !length_rev in Hlen. change (length (lit ".exe")) with 4%nat in Hlen.
  cbn [length] in Hlen |- *.
  destruct rest as [|c1 [|c2 [|c3 [|c4 rest]]]]; cbn [length] in Hlen;
    try lia.
  - exfalso. revert Hm. change (rev (lit ".exe")) with [101; 120; 101; 46].
    change (rev [c; c1; c2; c3]) with [c3; c2; c1; c].
    cbn [startsWithCI]. rewrite !andb_true_iff.
    intros (_ & _ & _ & H & _). unfold upperAscii in H.
    unfold Args.isLetter in Hc.
    change ((97 <=? 46) && (46 <=? 122)) with false in H. cbv iota in H.
    destruct ((97 <=? c) && (c <=? 122)) eqn:Hl; lia.
  - intros Heq. apply (f_equal length) in Heq. rewrite length_take in Heq.
    cbn [length] in Heq. lia.
Qed.

Lemma targetName_parsed (raw0 : jsstring) (t : Args.ProcessNameRequest) :
  Args.parseProcessName raw0 = Some t -> Cli.targetName t <> [].
Proof.
  rewrite parseProcessName_match.
  destruct (Args.matchProcessName raw0) eqn:Hm; [|done]. intros [= <-].
  unfold Cli.targetName. simpl.
  destruct raw0 as [|c rest]; [done|]. simpl in Hm.
  apply andb_true_iff in Hm as [Hc _].
  change (toLowerCase (c :: rest)) with (lowerUnit c ++ toLowerCase rest).
  unfold lowerUnit. unfold Args.isLetter in Hc.
  destruct ((65 <=? c) && (c <=? 90)) eqn:Hup.
  - apply stripExe_letter. unfold Args.isLetter. lia.
  - assert ((c =? 8490) = false) as -> by lia.
    assert ((c =? 304) = false) as -> by lia.
    apply stripExe_letter. unfold Args.isLetter. lia.
Qed.

End TargetNames.

(** X26: a process name given on the command line never degenerates into the
    empty name, which every named process would match: once lowered and
    stripped of a final [.exe] it still has a character. A listener
    matches a name exactly when it has a process name, not the empty one,
    that contains the name once lowered and stripped the same way; the
    test for equality adds nothing. *)
Theorem name_target_never_empty (raw0 : jsstring)
    (t : Args.ProcessNameRequest) (l : Listener) :
  Args.parseProcessName raw0 = Some t ->
  Cli.targetName t <> []
  /\ (Cli.nameMatches (Cli.targetName t) l = true <->
      exists n, processName l = Some n /\ n <> []
                /\ includes (Cli.targetName t)
                     (Cli.stripExe (toLowerCase n)) = true).
Proof.
  intros Hp. split; [by eapply targetName_parsed|].
  rewrite nameMatches_includes. destruct (processName l) as [[|a n]|].
  - split; [done|]. by intros (n & [= <-] & Hn & _).
  - split; [by exists (a :: n)|]. by intros (n' & [= <-] & _ & H).
  - split; [done|]. by intros (n & [=] & _).
Qed.

Lemma name_target_never_empty_witness :
  Cli.targetName {| Args.rawName := lit "Node.EXE"; Args.name := lit "Node.EXE" |}
  <> []
  /\ (Cli.nameMatches
        (Cli.targetName
           {| Args.rawName := lit "Node.EXE"; Args.name := lit "Node.EXE" |})
        (sampleListener 7) = true <->
      exists n, processName (sampleListener 7) = Some n /\ n <> []
                /\ includes
                     (Cli.targetName
                        {| Args.rawName := lit "Node.EXE";
                           Args.name := lit "Node.EXE" |})
                     (Cli.stripExe (toLowerCase n)) = true).
Proof.
  apply (name_target_never_empty (lit "Node.EXE")). reflexivity.
Defined.

(** ** What a run may signal *)

Section RunSignals.
Variables (p : Platform) (fuel : nat) (force0 dryRun : bool) (timeoutMs0 : Z).
Hypothesis Hposix : isWin32 p = false.

Lemma signalTo_within (good : Z -> Prop) (pids : list Z) (w w' : World) :
  (forall x, x ∈ pids -> good x) ->
  signalsWithin pids w w' -> addsOnly (signalTo good) w w'.
Proof.
  intros Hgood (added & He & Hall). exists added. split; [done|].
  eapply Forall_impl; [exact Hall|]. intros [t e].
  unfold signalWithin, signalTo. simpl. destruct e; try done. apply Hgood.
Qed.

Lemma killable_elem (listeners : list Listener) (allowed : list Protocol)
    (x : Z) :
  x ∈ killablePids p force0 (actionableOf allowed listeners) ->
  exists l, l ∈ listeners /\ pid l = x /\ protocol l ∈ allowed
            /\ (protected (protectionFor p l) = false \/ force0 = true).
Proof.
  unfold killablePids, actionableOf.
  intros (l & -> & Hl)%list_elem_of_fmap.
  apply list_elem_of_filter in Hl as [Hok Hl].
  apply list_elem_of_filter in Hl as [Hproto Hl].
  by exists l.
Qed.

(** The kill phase signals only what it was given. *)
Lemma killResolved_signalTo (listeners : list Listener)
    (allowed : list Protocol) (c : Cli.Console) (good : Z -> Prop) :
  (forall l, l ∈ listeners -> protocol l ∈ allowed ->
             protected (protectionFor p l) = false \/ force0 = true ->
             good (pid l)) ->
  steps (addsOnly (signalTo good))
    (Cli.killResolvedListeners p fuel listeners allowed force0 dryRun
       timeoutMs0 c).
Proof.
  intros Hgood w.
  pose proof (killResolved_signals p fuel force0 dryRun timeoutMs0 Hposix
                listeners allowed c w) as Hs.
  destruct (Cli.killResolvedListeners _ _ _ _ _ _ _ _ w); try done;
    (eapply signalTo_within; [|exact Hs]);
    intros x (l & Hl & <- & Hproto & Hok)%killable_elem; by apply Hgood.
Qed.

Lemma namesLoop_matched (allListeners : list Listener)
    (targets : list Args.ProcessNameRequest) (matched : list Listener)
    (c : Cli.Console) (l : Listener) :
  l ∈ (Cli.namesLoop allListeners targets matched c).1 ->
  l ∈ matched
  \/ exists t, t ∈ targets /\ l ∈ allListeners
               /\ Cli.nameMatches (Cli.targetName t) l = true.
Proof.
  revert matched c. induction targets as [|t rest IH]; intros matched c.
  - by left.
  - cbn [Cli.namesLoop]. case_bool_decide as Hfound.
    + intros [Hl|(t' & Ht' & Hl)]%IH; [by left|right].
      exists t'. split; [by right|done].
    + intros [[Hl|Hl]%elem_of_app|(t' & Ht' & Hl)]%IH; [by left| |].
      * right. exists t. apply list_elem_of_filter in Hl as [Hm Hl].
        split; [by left|done].
      * right. exists t'. split; [by right|done].
Qed.

Lemma killByProcessNames_signals (finder : Finder.t)
    (targets : list Args.ProcessNameRequest) (allowed : list Protocol)
    (c : Cli.Console) (w w1 : World) (all : list Listener) :
  Finder.listAll finder w = Returned all w1 ->
  match Cli.killByProcessNames p fuel finder targets allowed force0 dryRun
          timeoutMs0 c w with
  | Returned _ w' | Thrown _ w' =>
      addsOnly
        (signalTo
           (fun x => exists l t,
              l ∈ all /\ pid l = x /\ t ∈ targets
              /\ Cli.nameMatches (Cli.targetName t) l = true
              /\ protocol l ∈ allowed
              /\ (protected (protectionFor p l) = false \/ force0 = true)))
        w1 w'
  | _ => True
  end.
Proof.
  intros Hall. unfold Cli.killByProcessNames. unfold bind at 1.
  rewrite Hall.
  destruct (Cli.namesLoop all targets [] c) as [matched c1] eqn:Hloop.
  case_bool_decide as Hnone; [unfold ret; by exists []|].
  apply killResolved_signalTo. intros l Hl Hproto Hok.
  apply uniqBy_sublist in Hl. apply list_elem_of_filter in Hl as [_ Hl].
  pose proof (namesLoop_matched all targets [] c l) as Hm.
  rewrite Hloop in Hm. destruct (Hm Hl) as [Hnil|(t & Ht & Hin & Hmatch)].
  { by apply elem_of_nil in Hnil. }
  by exists l, t.
Qed.

(** What the lookups gathered was found for a target. *)
Lemma portsLoop_found (finder : Finder.t) (targets : list Args.PortRequest)
    (allowed : list Protocol) (all all' : list Listener)
    (c c' : Cli.Console) (w w' : World) (l : Listener) :
  Cli.portsLoop finder targets allowed all c w = Returned (all', c') w' ->
  l ∈ all' -> l ∈ all \/ foundFor finder targets allowed l.
Proof.
  revert all c w. induction targets as [|t rest IH]; intros all c w.
  - unfold Cli.portsLoop, ret. intros [= <- <- <-]. by left.
  - cbn [Cli.portsLoop]. fold (lookedUp allowed t).
    assert (forall l0, foundFor finder rest allowed l0 ->
                       foundFor finder (t :: rest) allowed l0) as Hmono.
    { intros l0 (t' & w0 & w1 & found & Ht' & H).
      exists t', w0, w1, found. split; [by right|done]. }
    case_bool_decide as Hskip.
    { intros Hrun Hl. destruct (IH _ _ _ Hrun Hl); [by left|right; auto]. }
    unfold bind at 1.
    destruct (Finder.findByPort finder (Args.port t) (lookedUp allowed t) w)
      as [found w1|e w1| |] eqn:Hfind; try done.
    assert (forall c1,
              Cli.portsLoop finder rest allowed (all ++ found) c1 w1
              = Returned (all', c') w' ->
              l ∈ all' -> l ∈ all \/ foundFor finder (t :: rest) allowed l)
      as Hnext.
    { intros c1 Hrun Hl.
      destruct (IH _ _ _ Hrun Hl) as [[?|Hf]%elem_of_app|?];
        [by left| |right; auto].
      right. exists t, w, w1, found. split; [by left|done]. }
    case_bool_decide; apply Hnext.
Qed.

Lemma killByPorts_signals (finder : Finder.t)
    (targets : list Args.PortRequest) (allowed : list Protocol)
    (c c1 : Cli.Console) (w w1 : World) (all : list Listener) :
  Cli.portsLoop finder targets allowed [] c w = Returned (all, c1) w1 ->
  (forall l, l ∈ all -> foundFor finder targets allowed l)
  /\ match Cli.killByPorts p fuel finder targets allowed force0 dryRun
             timeoutMs0 c w with
     | Returned _ w' | Thrown _ w' =>
         addsOnly
           (signalTo
              (fun x => exists l,
                 l ∈ all /\ pid l = x
                 /\ (protected (protectionFor p l) = false \/ force0 = true)))
           w1 w'
     | _ => True
     end.
Proof.
  intros Hloop. split.
  - intros l Hl. destruct (portsLoop_found _ _ _ _ _ _ _ _ _ _ Hloop Hl)
      as [Hnil|?]; [|done].
    by apply elem_of_nil in Hnil.
  - unfold Cli.killByPorts. unfold bind at 1. rewrite Hloop.
    case_bool_decide as Hnone; [unfold ret; by exists []|].
    apply killResolved_signalTo. intros l Hl _ Hok. by exists l.
Qed.

End RunSignals.

(** Targets that the protocol flags exclude are passed over in silence. *)
Lemma portsLoop_excluded (finder : Finder.t) (targets : list Args.PortRequest)
    (allowed : list Protocol) (all : list Listener) (c : Cli.Console)
    (w : World) :
  Forall (fun t => lookedUp allowed t = []) targets ->
  Cli.portsLoop finder targets allowed all c w = Returned (all, c) w.
Proof.
  induction 1 as [|t rest Ht _ IH]; [done|].
  cbn [Cli.portsLoop]. fold (lookedUp allowed t). rewrite Ht.
  by rewrite bool_decide_eq_true_2.
Qed.

(** ** Killing by pid *)

Section PidMode.
Variables (p : Platform) (fuel : nat) (finder : Finder.t)
  (stdinTTY stdoutTTY : bool)
  (select : list Listener -> Cli.Console -> M (TuiSelectResult * Cli.Console)).

Lemma parseArgs_pid_positive (argv : list jsstring) (x : Z) :
  Args.flag_pid (Args.flags (Args.parseArgs argv)) = Some x -> 0 < x.
Proof.
  unfold Args.parseArgs.
  pose proof (parseLoop_ok argv false Args.initialArgs) as Hok.
  destruct Hok as (_ & Hp & _).
  { unfold argsOk. simpl. done. }
  set (st := Args.parseLoop false Args.initialArgs argv) in *.
  unfold Args.finishArgs.
  destruct (Args.flag_json (Args.flags st) && _);
    destruct (Args.flag_pid (Args.flags st)) as [n|] eqn:Hpid; simpl;
    rewrite ?Hpid; try done; intros Heq;
    unfold Args.setJson in Heq; simpl in Heq; rewrite ?Hpid in Heq;
    try done; apply Hp; congruence.
Qed.

(** The listener made up for a pid has no name: only its pid can protect
    it. *)
Lemma pseudo_protected (x : Z) :
  protected (protectionFor p (Cli.pseudo x)) = protectedPid p x.
Proof.
  rewrite protectionFor_rules.
  change (testedName (Cli.pseudo x)) with ([] : jsstring).
  change (pid (Cli.pseudo x)) with x.
  assert (existsb (fun n => includes n []) (protectedNames p) = false) as ->.
  { by destruct p. }
  change (includes (lit "sshd") []) with false.
  by rewrite andb_false_r, !orb_false_r.
Qed.

(** What [main] comes to when a pid is asked for. *)
Lemma main_pid (argv : list jsstring) (x : Z) (c : Cli.Console) :
  pidMode argv x ->
  Cli.main p fuel finder stdinTTY stdoutTTY select argv c
  = let flags := Args.flags (Args.parseArgs argv) in
    let prot := protectionFor p (Cli.pseudo x) in
    if protected prot && negb (Args.flag_force flags) then
      ret (Cli.setExitCode 1
             (Cli.write Cli.Stderr Cli.HintForcePid
                (Cli.write Cli.Stderr
                   (Cli.Refused (Cli.pseudo x)
                      (orElse (reason prot) (lit "protected"))) c)))
    else if Args.flag_dryRun flags then
      ret (Cli.write Cli.Stdout (Cli.WouldKill x) c)
    else
      let* res :=
        getKiller p fuel x
          {| force := Some (Args.flag_force flags);
             timeoutMs := Some (Args.flag_timeoutMs flags);
             tree := None |} in
      if ok res then
        ret (Cli.write Cli.Stdout (Cli.KilledPid x (method res)) c)
      else
        let c1 :=
          Cli.write Cli.Stderr
            (Cli.FailedPid x (orElse (message res) (lit "unknown error"))) c in
        let* c2 :=
          (if bool_decide (errorCode res = Some (lit "EPERM"))
           then Cli.hintElevationForPid p c1 else ret c1) in
        ret (Cli.setExitCode 1 c2).
Proof.
  intros (Hh & Hv & Hu & Hl & Hp). unfold Cli.main.
  rewrite Hh, Hv, Hu, Hl, Hp.
  repeat case_bool_decide; try done.
Qed.

Lemma main_pid_refused (argv : list jsstring) (x : Z) (c : Cli.Console)
    (w : World) :
  pidMode argv x ->
  protectedPid p x = true ->
  Args.flag_force (Args.flags (Args.parseArgs argv)) = false ->
  exists c',
    Cli.main p fuel finder stdinTTY stdoutTTY select argv c w = Returned c' w
    /\ Cli.exitCode c' = Some 1.
Proof.
  intros Hmode Hprot Hforce. rewrite (main_pid _ x) by done.
  cbv zeta. rewrite pseudo_protected, Hprot, Hforce. by eexists.
Qed.

Lemma main_pid_signals (argv : list jsstring) (x : Z) (c : Cli.Console) :
  isWin32 p = false ->
  pidMode argv x ->
  steps (addsOnly (signalTo (fun y => y = x)))
    (Cli.main p fuel finder stdinTTY stdoutTTY select argv c).
Proof.
  intros Hposix Hmode. rewrite (main_pid _ x) by done. cbv zeta.
  destruct (protected _ && negb _); [apply steps_ret; apply _|].
  destruct (Args.flag_dryRun _); [apply steps_ret; apply _|].
  apply steps_bind; [apply _| |].
  { unfold getKiller. rewrite Hposix. by apply addsOnly_kill. }
  intros res. destruct (ok res); [apply steps_ret; apply _|].
  apply steps_bind; [apply _| |intros; apply steps_ret; apply _].
  unfold Cli.hintElevationForPid. rewrite Hposix.
  case_bool_decide; apply steps_ret; apply _.
Qed.

End PidMode.

(** X27: off Windows, killing by process name only signals listed processes
    that match: once the finder has listed the listeners, every
    [process.kill] of [killByProcessNames] goes to the pid of a listed
    listener whose process name matches one of the targets, whose
    protocol is allowed and that is not protected, unless [--force] is
    set; nothing is spawned. *)
Theorem names_only_signal_matches (p : Platform) (fuel : nat)
    (finder : Finder.t) (targets : list Args.ProcessNameRequest)
    (allowed : list Protocol) (force0 dryRun : bool) (timeoutMs0 : Z)
    (c : Cli.Console) (w w1 : World) (all : list Listener) :
  isWin32 p = false ->
  Finder.listAll finder w = Returned all w1 ->
  match Cli.killByProcessNames p fuel finder targets allowed force0 dryRun
          timeoutMs0 c w with
  | Returned _ w' | Thrown _ w' =>
      addsOnly
        (signalTo
           (fun x => exists l t,
              l ∈ all /\ pid l = x /\ t ∈ targets
              /\ Cli.nameMatches (Cli.targetName t) l = true
              /\ protocol l ∈ allowed
              /\ (protected (protectionFor p l) = false \/ force0 = true)))
        w1 w'
  | _ => True
  end.
Proof. intros Hp. by apply killByProcessNames_signals. Qed.

Lemma names_only_signal_matches_witness :
  match Cli.killByProcessNames linux 8 sampleFinder
          (Args.processNames (Args.parseArgs [lit "node.exe"])) [tcp; udp]
          false false 100 emptyConsole (sampleHost obedient) with
  | Returned _ w' | Thrown _ w' =>
      addsOnly
        (signalTo
           (fun x => exists l t,
              l ∈ [initListener; sampleListener 4242] /\ pid l = x
              /\ t ∈ Args.processNames (Args.parseArgs [lit "node.exe"])
              /\ Cli.nameMatches (Cli.targetName t) l = true
              /\ protocol l ∈ [tcp; udp]
              /\ (protected (protectionFor linux l) = false \/ false = true)))
        (sampleHost obedient) w'
  | _ => True
  end.
Proof.
  apply (names_only_signal_matches linux 8 sampleFinder
           (Args.processNames (Args.parseArgs [lit "node.exe"])) [tcp; udp]
           false false 100 emptyConsole (sampleHost obedient)
           (sampleHost obedient) [initListener; sampleListener 4242]);
    reflexivity.
Defined.

(** X28: off Windows, killing by port only signals what the lookups found:
    once the lookups have returned, every listener they gathered is in
    the finder's answer for one of the requested ports, asked with the
    protocols both the request and the flags allow, and every
    [process.kill] of [killByPorts] goes to the pid of a gathered
    listener that is not protected, unless [--force] is set; nothing is
    spawned after the lookups. *)
Theorem ports_only_signal_found (p : Platform) (fuel : nat)
    (finder : Finder.t) (targets : list Args.PortRequest)
    (allowed : list Protocol) (force0 dryRun : bool) (timeoutMs0 : Z)
    (c c1 : Cli.Console) (w w1 : World) (all : list Listener) :
  isWin32 p = false ->
  Cli.portsLoop finder targets allowed [] c w = Returned (all, c1) w1 ->
  (forall l, l ∈ all -> foundFor finder targets allowed l)
  /\ match Cli.killByPorts p fuel finder targets allowed force0 dryRun
             timeoutMs0 c w with
     | Returned _ w' | Thrown _ w' =>
         addsOnly
           (signalTo
              (fun x => exists l,
                 l ∈ all /\ pid l = x
                 /\ (protected (protectionFor p l) = false \/ force0 = true)))
           w1 w'
     | _ => True
     end.
Proof. intros Hp. by apply killByPorts_signals. Qed.

Lemma ports_only_signal_found_witness :
  (forall l, l ∈ [sampleListener 4242] ->
             foundFor sampleFinder (Args.ports (Args.parseArgs [lit "80"]))
               [tcp; udp] l)
  /\ match Cli.killByPorts linux 8 sampleFinder
             (Args.ports (Args.parseArgs [lit "80"])) [tcp; udp] false false
             100 emptyConsole (sampleHost obedient) with
     | Returned _ w' | Thrown _ w' =>
         addsOnly
           (signalTo
              (fun x => exists l,
                 l ∈ [sampleListener 4242] /\ pid l = x
                 /\ (protected (protectionFor linux l) = false
                     \/ false = true)))
           (sampleHost obedient) w'
     | _ => True
     end.
Proof.
  apply (ports_only_signal_found linux 8 sampleFinder
           (Args.ports (Args.parseArgs [lit "80"])) [tcp; udp] false false
           100 emptyConsole emptyConsole (sampleHost obedient)
           (sampleHost obedient) [sampleListener 4242]);
    reflexivity.
Defined.

(** X29: a port whose protocols the flags exclude (as 53/udp under [--tcp])
    is passed over without a lookup and without a word; when every target
    is, [killByPorts] asks the finder nothing, kills nothing, writes
    nothing, and sets the exit code to 1 unless one is already set. *)
Theorem ports_excluded_by_flags (p : Platform) (fuel : nat)
    (finder : Finder.t) (targets : list Args.PortRequest)
    (allowed : list Protocol) (force0 dryRun : bool) (timeoutMs0 : Z)
    (c : Cli.Console) (w : World) :
  Forall (fun t => forall q, q ∈ orElse (Args.protocols t) allowed ->
                             q ∉ allowed) targets ->
  Cli.killByPorts p fuel finder targets allowed force0 dryRun timeoutMs0 c w
  = Returned {| Cli.written := Cli.written c;
                Cli.exitCode := Some (orElse (Cli.exitCode c) 1) |} w.
Proof.
  intros Hex. unfold Cli.killByPorts. unfold bind.
  rewrite portsLoop_excluded.
  - rewrite bool_decide_eq_true_2 by done. unfold ret, Cli.failIfUnset.
    destruct c as [wr [n|]]; reflexivity.
  - eapply Forall_impl; [exact Hex|]. intros t Ht. unfold lookedUp.
    simpl in Ht. remember (orElse (Args.protocols t) allowed) as qs0 eqn:E.
    clear E. induction qs0 as [|q qs IH]; [done|].
    rewrite filter_cons. destruct (decide (q ∈ allowed)) as [Hq|_].
    + exfalso. by apply (Ht q); [left|].
    + apply IH. intros q' Hq'. apply Ht. by right.
Qed.

Lemma ports_excluded_by_flags_witness :
  Cli.killByPorts linux 8 sampleFinder
    (Args.ports (Args.parseArgs [lit "--tcp"; lit "80/udp"]))
    (Args.resolveProtocols
       (Args.flags (Args.parseArgs [lit "--tcp"; lit "80/udp"])))
    false false 100 emptyConsole (sampleHost obedient)
  = Returned {| Cli.written := []; Cli.exitCode := Some 1 |}
      (sampleHost obedient).
Proof.
  apply (ports_excluded_by_flags linux 8 sampleFinder
           (Args.ports (Args.parseArgs [lit "--tcp"; lit "80/udp"]))
           (Args.resolveProtocols
              (Args.flags (Args.parseArgs [lit "--tcp"; lit "80/udp"])))
           false false 100 emptyConsole (sampleHost obedient)).
  vm_compute. constructor; [|constructor].
  intros q [->|Hq]%elem_of_cons; [|by apply elem_of_nil in Hq].
  intros [[=]|Hq]%elem_of_cons. by apply elem_of_nil in Hq.
Defined.

(** X30: with [--pid] (and no help, version, listing or unknown argument) the
    command touches that one process and nothing else, whatever else is on
    the command line: the pid is positive; a protected pid (1 off
    Windows, 4 on Windows) is refused without [--force], nothing being
    called and the exit code set to 1; and off Windows every call is a
    signal to that pid or a sleep, the finder and the selector never
    being used. *)
Theorem pid_mode_touches_one_pid (p : Platform) (fuel : nat)
    (finder : Finder.t) (stdinTTY stdoutTTY : bool)
    (select : list Listener -> Cli.Console ->
              M (TuiSelectResult * Cli.Console))
    (argv : list jsstring) (x : Z) (c : Cli.Console) (w : World) :
  pidMode argv x ->
  0 < x
  /\ (protectedPid p x = true ->
      Args.flag_force (Args.flags (Args.parseArgs argv)) = false ->
      exists c',
        Cli.main p fuel finder stdinTTY stdoutTTY select argv c w
        = Returned c' w
        /\ Cli.exitCode c' = Some 1)
  /\ (isWin32 p = false ->
      match Cli.main p fuel finder stdinTTY stdoutTTY select argv c w with
      | Returned _ w' | Thrown _ w' =>
          addsOnly (signalTo (fun y => y = x)) w w'
      | _ => True
      end).
Proof.
  intros Hmode. split.
  { destruct Hmode as (_ & _ & _ & _ & Hpid).
    by eapply parseArgs_pid_positive. }
  split; [by apply main_pid_refused|].
  intros Hposix.
  apply (main_pid_signals p fuel finder stdinTTY stdoutTTY select argv x c
           Hposix Hmode w).
Qed.

Lemma pid_mode_touches_one_pid_witness :
  0 < 4242
  /\ (protectedPid linux 4242 = true ->
      Args.flag_force
        (Args.flags (Args.parseArgs [lit "--pid"; lit "4242"; lit "80"]))
      = false ->
      exists c',
        Cli.main linux 8 sampleFinder true true cancelling
          [lit "--pid"; lit "4242"; lit "80"] emptyConsole
          (sampleHost obedient)
        = Returned c' (sampleHost obedient)
        /\ Cli.exitCode c' = Some 1)
  /\ (isWin32 linux = false ->
      match Cli.main linux 8 sampleFinder true true cancelling
              [lit "--pid"; lit "4242"; lit "80"] emptyConsole
              (sampleHost obedient) with
      | Returned _ w' | Thrown _ w' =>
          addsOnly (signalTo (fun y => y = 4242)) (sampleHost obedient) w'
      | _ => True
      end).
Proof.
  apply (pid_mode_touches_one_pid linux 8 sampleFinder true true cancelling
           [lit "--pid"; lit "4242"; lit "80"] 4242 emptyConsole
           (sampleHost obedient)).
  vm_compute. repeat split; reflexivity.
Defined.
